(* ===== verification/_CoqProject ===== *)
-Q . S2P
Prelude.v
State.v
Sync.v
Dll.v
Bio.v
Cache.v
Log.v
Crash.v
CString.v
Print.v
Kalloc.v
Fs.v
Blocks.v
Inodes.v
Files.v
FileSystem.v
Dir.v
Mkfs.v
MkfsImage.v
Vm.v
Paging.v
CopyVm.v
File.v
Proc.v
Exec.v
Syscall.v
Kbd.v
Console.v
Trap.v
Ide.v
Drivers.v
Locks.v
Sched.v
Frame.v
Fork.v
ForkMem.v
Ring.v
Pipes.v
Lines.v
Grep.v
Spinlock.v
Sh.v
ShText.v
ShRun.v
Boot.v
Umalloc.v
Mp.v
Clock.v
Devices.v
Gates.v
Userland.v
Filters.v
