(* ===== verification/Prelude.v ===== *)
(** * A verification of xv6 (x86, with DEFAULT, FRR and FCFS scheduling)

    xv6 is a small Unix: a kernel in C (file system with a log, processes,
    virtual memory, pipes, devices, system calls), a boot loader, the program
    that builds the disk image, and user programs.  This library translates
    the C code into Rocq functions and proves what the code is meant to do.
    The definitions keep the names of the C functions, can be executed, and
    each comes from the source file named at the top of its Rocq file.

    ** How the code is modelled

    - State.v has a record for each C struct and one record [kstate] for the
      global variables of the kernel.  A pointer into a static table is an
      index, a null pointer is [None], a pointer into memory is an address.
      Memory is a function from addresses to bytes.  Integers are [Z], with
      [u8], [u16], [u32] and [s32] wherever C code can wrap around.
    - A routine of the kernel is a computation [KM A] (this file): it returns
      ([Done]), calls panic ([Panic]) or is left sleeping ([Asleep]).  What
      the other processes do while it sleeps is a list of state
      transformers, one for each call of sleep; theorems about routines that
      sleep hold for every such list, or for every list that respects a
      stated condition.  param.h sets NCPU to 1, and a kernel routine is
      only interrupted where it sleeps or yields; the code of the spin locks
      itself is also modelled on any number of CPUs (Spinlock.v).
    - Hardware is an interface: a type class with the registers of a device
      and the laws the driver relies on ([IdeDevice], [IoApicDev],
      [LocalApicDev], [SerialDev], the record [chip] of the clock), with an
      instance that shows that the laws can be satisfied.  User programs see
      the kernel through such an interface as well ([Unix]), the file
      system sees the drivers of device files through [Devsw], and the kernel
      sees the disk driver it is linked with through [Driver].

    ** The files

    Shared: Prelude (this file: record update, the monad, integers, lists,
    tactics), State (data), Frame (what a routine leaves alone), Ring (ring
    buffers with counters that wrap), Dll (circular doubly linked lists).

    Kernel, from the bottom up:
    - Sync (proc.c: sleep, wakeup, yield, sched; sleeplock.c), Spinlock
      (spinlock.c), Locks (the lock discipline of the whole kernel);
    - Bio and Cache (bio.c, memide.c), Ide (ide.c), Drivers (ide.c as a
      driver of the kernel), Log and Crash (log.c);
    - Fs (fs.c), with theorems in Blocks, Inodes, Files, FileSystem and Dir;
      Mkfs and MkfsImage (mkfs.c);
    - CString (string.c, ulib.c), Print (cprintf of console.c, printf.c);
    - Kalloc (kalloc.c), Vm (vm.c), with theorems in Paging and CopyVm;
    - File (file.c, pipe.c), with theorems on pipes in Pipes;
    - Proc (proc.c), Exec (exec.c), with theorems in Sched, Fork and ForkMem;
    - Syscall (syscall.c, sysproc.c, sysfile.c), Trap (trap.c), Gates (the
      descriptor tables of mmu.h, vm.c and trap.c);
    - Kbd (kbd.c), Console (console.c), with theorems in Lines; Devices
      (lapic.c, ioapic.c, picirq.c, uart.c), Clock (cmostime of lapic.c), Mp
      (mp.c); Boot (bootmain.c).

    User programs: Umalloc (umalloc.c), Sh, ShText and ShRun (sh.c), Grep and
    Filters (grep.c, wc.c), Userland (cat.c, echo.c, ls.c, rm.c, mkdir.c, ln.c,
    kill.c).

    ** How the parts meet

    [trap] dispatches to [syscall], which calls the routines of File, Proc,
    Exec and Fs; these call the log, which calls the buffer cache, which
    calls the disk driver; the interrupt of the disk goes from [trap] to the
    driver directly.  The kernel is linked with memide.c or ide.c: all routines
    take the driver as an argument ([Driver]), the instances are [memide] in
    Bio and [ide_driver] in Drivers, the results on the lock discipline hold
    for both, and the results on the contents of the disk are on [memide].
    The contract of each layer is a predicate on
    [kstate] that its clients' proofs use: [free_list] (Kalloc), [bufs]
    (Cache), [bitmap_ok] and [file_ok] (Blocks, Files), [aspace] (Paging).
    The two disk drivers are related by a refinement (Ide), so that results
    on the synchronous driver carry over; the set of held locks that all of
    the kernel model uses is an abstraction of the code of spinlock.c
    (Spinlock); the image that mkfs.c writes satisfies the invariants of the
    kernel's file system (MkfsImage); and fork is followed through the
    process table, the page allocator, the page tables and the open files
    (ForkMem).

    ** What the theorems show

    - Storage: a transaction of the log is atomic whatever prefix of its
      disk writes survives a crash, and recovery can be repeated (Crash);
      the interrupt-driven driver implements the synchronous one (Ide);
      writei and readi are writing and reading a sequence of bytes, and the
      block map and the inode are read back as written; blocks are taken from
      the free map exactly as they are needed, and the panic for lack of
      blocks is reached only when there are fewer (FileSystem);
      directories are finite maps (Dir); mkfs makes a file system
      (MkfsImage).
    - Memory: the page allocator hands out no page twice (Kalloc); allocuvm
      extends an address space with zeros and changes nothing else (Paging);
      copyuvm and fork make a private copy (CopyVm, ForkMem); malloc and
      free keep the blocks of a client apart and its data intact (Umalloc).
    - Processes: fork on every path (Fork), wait and exit (Fork), bounded
      waiting under every scheduling policy (Sched), mutual exclusion of
      spin locks (Spinlock), every trap returns with the locks it was
      entered with, with either disk driver (Locks), and user programs enter the kernel through the
      gate of system calls only (Gates).
    - Input and output: a pipe is a queue of bytes under all interleavings
      of readers and writers, what is written being the old contents and the
      new bytes less what the readers took meanwhile, and what is read the
      front of the old contents and what the writers added (Pipes); the console is a line editor in front
      of a queue of lines (Lines); cmostime never returns a torn time
      or one read during an update (Clock); interrupts are routed as asked
      for, and serial output takes at most 128 reads of the status for each
      byte and arrives in order (Devices).
    - Start and user programs: the boot loader loads the kernel (Boot); the
      shell's parser reads back the text of every command and the processes
      it makes run the commands of the line with the right files and pipe
      ends, wait for their children, never wait for ever, and leave no end of
      a pipe open that would keep a reader from its end of file (ShText,
      ShRun); grep decides the language of its expression
      (Grep) and prints the matching lines of its arguments (Filters); ls
      lists a directory and cat copies its arguments (Userland).
    - Places where the code does not do what it means to do are theorems
      too: the policy FCFS is round robin (Sched), exit stores outside the
      arrays of its parent (Fork), mpinit does not end on an unknown entry
      (Mp).

    ** Fuel and bounds

    Recursion that is not structural takes a number of steps, chosen in the
    definition from the arguments so that it suffices, and the theorems
    conclude that the result is reached: [copyuvm] and [allocuvm] one step
    per page, [writei] and [readi] one per byte asked for, [dirlookup] one
    per byte of the directory, [malloc] one per header that fits in the heap,
    the parser of the shell four per character and four more, [mpsearch1] one
    per 16 bytes.  A C loop of the form while(c) sleep(...) is bounded by the
    length of the schedule.  Loops that need not end in C end in [Asleep] or
    [None] when the bound is reached ([diverge] in Vm, [wait_delivered] in
    Devices), and where a theorem needs a bound from its user (the calls of
    read in cat, grep and ls, the rounds of cmostime) it is a hypothesis.

    ** Not modelled

    - Assembly and generated code (bootasm.S, entry.S, entryother.S,
      initcode.S, swtch.S, trapasm.S, usys.S, vectors.S): the switch of
      contexts is the return of [sched], an entry into the kernel is a call
      of [trap].
    - The calls of main.c, which are the initialisers of the parts in order.
      With NCPU 1 startothers finds no other CPU.
    - Port writes of the screen's cursor (console.c): the cursor is a number.
    - The fields of locks kept for debugging (names and call stacks).
    - init.c, zombie.c and firstprogram.c: a few system calls each.
      usertests.c, forktest.c, stressfs.c, FCFSsanity.c and FRRsanity.c are
      tests of the kernel.
    - Interrupts of a running process between two instructions, and more
      than one CPU running the kernel outside of spinlock.c. *)

From Stdlib Require Export Lia ZArith.
From stdpp Require Export base list list_numbers strings gmap numbers fin_maps functions.
Export list_basics.list list_relations.list list_monad.list list_misc.list list_numbers.list list_tactics.list.

#[global] Open Scope Z_scope.
#[global] Arguments Z.testbit : simpl never.
#[global] Arguments Z.land : simpl never.
#[global] Arguments Z.lor : simpl never.
#[global] Arguments Z.lnot : simpl never.
#[global] Arguments Z.shiftl : simpl never.
#[global] Arguments Z.shiftr : simpl never.

(** ** Record updates

    C code assigns struct fields one at a time; [r <| f := v |>] is that
    assignment on a Rocq record.  A record opts in with one [Eta] instance
    (its eta-expanded identity) and the setter of each field is derived from
    it by abstracting the field's projection. *)
Class Eta (R : Type) := eta_expand : R → R.
Class Setter {R T : Type} (proj : R → T) := upd : (T → T) → R → R.
Arguments upd {R T} proj {_} _ _.

Ltac derive_setter :=
  lazymatch goal with
  | |- @Setter ?R ?T ?proj =>
      let e := constr:(_ : Eta R) in
      let e := eval hnf in e in
      lazymatch eval pattern proj in e with
      | ?f _ => let u := eval cbv beta in (λ g : T → T, f (λ x, g (proj x))) in
                exact u
      end
  end.
#[global] Hint Extern 1 (Setter _) => derive_setter : typeclass_instances.

Declare Scope xv6_scope.
Delimit Scope xv6_scope with xv6.
#[global] Open Scope xv6_scope.

Notation "r <| f := v |>" := (upd f (λ _, v) r)
  (at level 1, left associativity, f at level 0, v at level 200,
   format "r  <| f  :=  v |>") : xv6_scope.
Notation "r <| f ::= g |>" := (upd f g r)
  (at level 1, left associativity, f at level 0, g at level 200,
   format "r  <| f  ::=  g |>") : xv6_scope.

(** ** Effects

    A kernel routine runs on a state [S] and ends in one of three ways: it
    returns a value, it calls [panic] (which freezes the machine, so no state
    is kept), or it is left sleeping because nobody woke it.  What the other
    processes do while a routine sleeps is a schedule: one state transformer
    per call of [sleep].  A routine that never sleeps leaves it untouched;
    loops of the form [while(c) sleep(...)] are structural in it. *)
Inductive outcome (S A : Type) : Type :=
| Done (a : A) (s : S) (env : list (S → S))
| Panic (msg : string)
| Asleep (s : S).
Arguments Done {S A} a s env.
Arguments Panic {S A} msg.
Arguments Asleep {S A} s.

Definition M (S A : Type) : Type := list (S → S) → S → outcome S A.

Section monad.
Context {S : Type}.

Definition ret {A} (a : A) : M S A := λ env s, Done a s env.

Definition bind {A B} (m : M S A) (k : A → M S B) : M S B := λ env s,
  match m env s with
  | Done a s' env' => k a env' s'
  | Panic msg => Panic msg
  | Asleep s' => Asleep s'
  end.

Definition panic {A} (msg : string) : M S A := λ _ _, Panic msg.
Definition gets {A} (f : S → A) : M S A := λ env s, Done (f s) s env.
Definition modify (f : S → S) : M S unit := λ env s, Done tt (f s) env.
Definition when (b : bool) (m : M S unit) : M S unit := if b then m else ret tt.

(** [for(x in l) body(x);] *)
Fixpoint foreach {A} (body : A → M S unit) (l : list A) : M S unit :=
  match l with
  | [] => ret tt
  | x :: l => bind (body x) (λ _, foreach body l)
  end.

(** [for(x in l) { ...; if(..) return/break; }]: stops at the first element
    whose body produces a value. *)
Fixpoint first_some {A B} (body : A → M S (option B)) (l : list A) : M S (option B) :=
  match l with
  | [] => ret None
  | x :: l => bind (body x) (λ r, match r with
                                  | Some b => ret (Some b)
                                  | None => first_some body l
                                  end)
  end.

Lemma bind_done {A B} (m : M S A) (k : A → M S B) env s a s' env' :
  m env s = Done a s' env' → bind m k env s = k a env' s'.
Proof. intros E. unfold bind. by rewrite E. Qed.

Lemma bind_panic {A B} (m : M S A) (k : A → M S B) env s msg :
  m env s = Panic msg → bind m k env s = Panic msg.
Proof. intros E. unfold bind. by rewrite E. Qed.

Lemma bind_ret {A B} (a : A) (k : A → M S B) env s :
  bind (ret a) k env s = k a env s.
Proof. done. Qed.

Lemma bind_gets {A B} (f : S → A) (k : A → M S B) env s :
  bind (gets f) k env s = k (f s) env s.
Proof. done. Qed.

Lemma bind_modify {B} (f : S → S) (k : unit → M S B) env s :
  bind (modify f) k env s = k tt env (f s).
Proof. done. Qed.

Lemma bind_assoc {A B C} (m : M S A) (f : A → M S B) (g : B → M S C) env s :
  bind (bind m f) g env s = bind m (λ x, bind (f x) g) env s.
Proof. unfold bind. by destruct (m env s). Qed.

Lemma bind_ext {A B} (m : M S A) (k k' : A → M S B) env s :
  (∀ a env s, k a env s = k' a env s) → bind m k env s = bind m k' env s.
Proof. intros E. unfold bind. by destruct (m env s). Qed.

Lemma bind_inv {A B} (m : M S A) (k : A → M S B) env s b s' env' :
  bind m k env s = Done b s' env' →
  ∃ a s1 env1, m env s = Done a s1 env1 ∧ k a env1 s1 = Done b s' env'.
Proof. unfold bind. destruct (m env s); naive_solver. Qed.

(** The result of the first two actions of a sequence. *)
Lemma bind_done2 {A B C} (m : M S A) (n : A → M S B) (k : B → M S C) env s b s' env' :
  bind m n env s = Done b s' env' → bind m (λ x, bind (n x) k) env s = k b env' s'.
Proof. rewrite <-bind_assoc. intros E. unfold bind at 1. by rewrite E. Qed.

(** A loop body of four actions followed by the rest of the loop. *)
Lemma bind_round {A B C} (m : M S A) (n : A → M S B) (x y : B → M S unit) (z : M S C) env s :
  bind m (λ a, bind (n a) (λ b, bind (x b) (λ _, bind (y b) (λ _, z)))) env s =
  bind (bind m (λ a, bind (n a) (λ b, bind (x b) (λ _, y b)))) (λ _, z) env s.
Proof.
  rewrite bind_assoc. apply bind_ext. intros a e s1. rewrite bind_assoc. apply bind_ext.
  intros b e' s2. by rewrite bind_assoc.
Qed.

Lemma foreach_app {A} (body : A → M S unit) l1 l2 env s :
  foreach body (l1 ++ l2) env s = bind (foreach body l1) (λ _, foreach body l2) env s.
Proof.
  revert env s. induction l1 as [|x l1 IH]; intros env s; [done|].
  simpl. rewrite bind_assoc. by apply bind_ext.
Qed.
End monad.

Notation "x <- m ;; k" := (bind m (λ x, k))
  (at level 100, m at next level, k at level 200, right associativity) : xv6_scope.
Notation "m ;; k" := (bind m (λ _, k))
  (at level 100, k at level 200, right associativity) : xv6_scope.

(** [run H] replaces the first action of a sequence by its result, given by
    the equation [H]; [mstep] executes the state-monad primitives. *)
Tactic Notation "run" uconstr(H) := rewrite (bind_done _ _ _ _ _ _ _ H).
Tactic Notation "step" uconstr(H) "by" tactic(t) :=
  erewrite bind_done by (eapply H; t).
Tactic Notation "step" uconstr(H) := step H by (simpl; done).
Ltac mred := cbn beta iota delta [negb andb orb when].
Ltac mstep :=
  mred;
  repeat (first [ rewrite bind_ret | rewrite bind_gets | rewrite bind_modify
                | rewrite bind_assoc ]; mred).

(** ** Machine integers *)
Definition u8 (z : Z) : Z := z `mod` 256.
Definition u16 (z : Z) : Z := z `mod` 65536.
Definition u32 (z : Z) : Z := z `mod` 4294967296.
Definition s16 (z : Z) : Z := (z + 32768) `mod` 65536 - 32768.
Definition s32 (z : Z) : Z := (z + 2147483648) `mod` 4294967296 - 2147483648.

Definition is_u32 (z : Z) : Prop := 0 ≤ z < 4294967296.
Definition is_s32 (z : Z) : Prop := -2147483648 ≤ z < 2147483648.
Definition is_byte (z : Z) : Prop := 0 ≤ z < 256.

Lemma u32_small z : is_u32 z → u32 z = z.
Proof. unfold u32, is_u32. intros. by apply Z.mod_small. Qed.
Lemma u32_range z : is_u32 (u32 z).
Proof. unfold u32, is_u32. apply Z.mod_pos_bound. lia. Qed.
Lemma u32_idemp z : u32 (u32 z) = u32 z.
Proof. apply u32_small, u32_range. Qed.
Lemma s32_small z : -2147483648 ≤ z < 2147483648 → s32 z = z.
Proof. unfold s32. intros. rewrite Z.mod_small; lia. Qed.
Lemma s32_add a b : s32 (s32 a + b) = s32 (a + b).
Proof.
  unfold s32. apply f_equal2; [|done].
  replace ((a + 2147483648) `mod` 4294967296 - 2147483648 + b + 2147483648)
    with ((a + 2147483648) `mod` 4294967296 + b) by lia.
  rewrite Zplus_mod_idemp_l. f_equal. lia.
Qed.
Lemma s16_small z : -32768 ≤ z < 32768 → s16 z = z.
Proof. unfold s16. intros. rewrite Z.mod_small; lia. Qed.
Lemma u16_small z : 0 ≤ z < 65536 → u16 z = z.
Proof. unfold u16. intros. by rewrite Z.mod_small. Qed.
Lemma u8_small z : is_byte z → u8 z = z.
Proof. unfold u8, is_byte. intros. by rewrite Z.mod_small. Qed.
Lemma u8_range z : is_byte (u8 z).
Proof. unfold u8, is_byte. apply Z.mod_pos_bound. lia. Qed.

(** ** Little-endian words in byte arrays *)
Fixpoint le_bytes (n : nat) (v : Z) : list Z :=
  match n with
  | O => []
  | S n => v `mod` 256 :: le_bytes n (v / 256)
  end.

Fixpoint le_val (l : list Z) : Z :=
  match l with
  | [] => 0
  | b :: l => b + 256 * le_val l
  end.

Lemma length_le_bytes n v : length (le_bytes n v) = n.
Proof. revert v. induction n; intros; simpl; auto. Qed.

Lemma le_bytes_byte n v : Forall is_byte (le_bytes n v).
Proof.
  revert v. induction n as [|n IH]; intros v; simpl; constructor; auto.
  apply Z.mod_pos_bound. lia.
Qed.

Lemma le_val_bytes n v : le_val (le_bytes n v) = v `mod` 256 ^ Z.of_nat n.
Proof.
  revert v. induction n as [|n IH]; intros v; simpl le_bytes; simpl le_val.
  - by rewrite Z.mod_1_r.
  - rewrite IH, Nat2Z.inj_succ, Z.pow_succ_r by lia.
    rewrite Z.rem_mul_r by lia. lia.
Qed.

Lemma le_val_bound l : Forall is_byte l → 0 ≤ le_val l < 256 ^ Z.of_nat (length l).
Proof.
  induction 1 as [|b l Hb _ IH]; simpl le_val; [simpl; lia|].
  simpl length. rewrite Nat2Z.inj_succ, Z.pow_succ_r by lia. unfold is_byte in Hb. lia.
Qed.

Lemma le_bytes_val l : Forall is_byte l → le_bytes (length l) (le_val l) = l.
Proof.
  induction 1 as [|b l Hb _ IH]; [done|]. simpl. unfold is_byte in Hb.
  rewrite (Z.mul_comm 256), Z_mod_plus_full, Z.mod_small by lia.
  rewrite Z.div_add, Z.div_small, Z.add_0_l by lia. by rewrite IH.
Qed.

(** [ldn n d off] reads an [n]-byte little-endian word of [d] at [off];
    [stn n d off v] overwrites it. *)
Definition ldn (n : nat) (d : list Z) (off : nat) : Z := le_val (take n (drop off d)).
Definition stn (n : nat) (d : list Z) (off : nat) (v : Z) : list Z :=
  list_inserts off (le_bytes n v) d.

Lemma take_drop_inserts (off : nat) (k d : list Z) :
  (off + length k ≤ length d)%nat → take (length k) (drop off (list_inserts off k d)) = k.
Proof.
  intros H. apply list_eq. intros i. destruct (decide (i < length k)%nat) as [Hi|Hi].
  - rewrite lookup_take_lt, lookup_drop by done.
    rewrite list_lookup_inserts by lia. f_equal. lia.
  - rewrite !lookup_ge_None_2; [done|lia|rewrite length_take; lia].
Qed.

Lemma take_drop_inserts_ne (n off off' : nat) (k d : list Z) :
  (off + n ≤ off' ∨ off' + length k ≤ off)%nat →
  take n (drop off (list_inserts off' k d)) = take n (drop off d).
Proof.
  intros H. apply list_eq. intros i. destruct (decide (i < n)%nat) as [Hi|Hi].
  - rewrite !lookup_take_lt, !lookup_drop by done.
    destruct H; [rewrite list_lookup_inserts_lt by lia|rewrite list_lookup_inserts_ge by lia]; done.
  - rewrite !lookup_ge_None_2; [done|rewrite length_take; lia..].
Qed.

Lemma length_stn n d off v : length (stn n d off v) = length d.
Proof. apply length_inserts. Qed.

Lemma ldn_stn n d off v :
  (off + n ≤ length d)%nat → ldn n (stn n d off v) off = v `mod` 256 ^ Z.of_nat n.
Proof.
  intros H. unfold ldn, stn.
  pose proof (take_drop_inserts off (le_bytes n v) d) as E.
  rewrite length_le_bytes in E. rewrite E by done. apply le_val_bytes.
Qed.

Lemma ldn_stn_ne n m d off off' v :
  (off + n ≤ off' ∨ off' + m ≤ off)%nat → ldn n (stn m d off' v) off = ldn n d off.
Proof.
  intros H. unfold ldn, stn. rewrite take_drop_inserts_ne; [done|].
  by rewrite length_le_bytes.
Qed.

Lemma Forall_stn n d off v : Forall is_byte d → Forall is_byte (stn n d off v).
Proof. intros. unfold stn. apply Forall_inserts; [done|]. apply le_bytes_byte. Qed.

(** [for(i in js) w[i] = l[i];] on the array of 32-bit words at [base]. *)
Definition st_words (base : nat) (l d : list Z) (js : list nat) : list Z :=
  foldl (λ d i, stn 4 d (base + 4 * i) (l !!! i)) d js.

Lemma length_st_words base l d js : length (st_words base l d js) = length d.
Proof.
  unfold st_words. revert d. induction js as [|i js IH]; intros d; [done|]. simpl.
  by rewrite IH, length_stn.
Qed.

Lemma ldn_st_words_ne n base l d js off :
  (∀ i, i ∈ js → (off + n ≤ base + 4 * i ∨ base + 4 * i + 4 ≤ off)%nat) →
  ldn n (st_words base l d js) off = ldn n d off.
Proof.
  unfold st_words. revert d. induction js as [|i js IH]; intros d H; [done|]. cbn [foldl].
  rewrite IH by set_solver. apply ldn_stn_ne, H. set_solver.
Qed.

Lemma ldn_st_words base l d a k i :
  (a ≤ i < a + k)%nat → (base + 4 * (a + k) ≤ length d)%nat →
  ldn 4 (st_words base l d (seq a k)) (base + 4 * i) = (l !!! i) `mod` 256 ^ Z.of_nat 4.
Proof.
  unfold st_words. revert a d. induction k as [|k IH]; intros a d Hi Hd; [lia|]. cbn [seq foldl].
  destruct (decide (i = a)) as [->|Hne].
  - pose proof (ldn_st_words_ne 4 base l (stn 4 d (base + 4 * a) (l !!! a)) (seq (S a) k) (base + 4 * a)) as E.
    unfold st_words in E. rewrite E; [apply ldn_stn; lia|]. intros j Hj%elem_of_seq. lia.
  - apply IH; [lia|]. rewrite length_stn. lia.
Qed.

Lemma Forall_st_words base l d js : Forall is_byte d → Forall is_byte (st_words base l d js).
Proof.
  unfold st_words. revert d. induction js as [|i js IH]; intros d H; [done|]. simpl.
  by apply IH, Forall_stn.
Qed.

(** ** Tables: lists updated by index *)
Lemma alter_total {A} `{Inhabited A} (f : A → A) (l : list A) (i j : nat) :
  (i < length l)%nat →
  alter f i l !!! j = if decide (i = j) then f (l !!! i) else l !!! j.
Proof.
  intros Hi. rewrite list_lookup_total_alter.
  repeat case_decide; naive_solver.
Qed.

(** The number of elements satisfying [P]. *)
Fixpoint countb {A} (P : A → bool) (l : list A) : nat :=
  match l with
  | [] => 0
  | x :: l => (if P x then 1 else 0) + countb P l
  end.

Lemma countb_alter {A} `{Inhabited A} (P : A → bool) (f : A → A) l i :
  (i < length l)%nat →
  (countb P (alter f i l) + (if P (l !!! i) then 1 else 0) =
   countb P l + (if P (f (l !!! i)) then 1 else 0))%nat.
Proof.
  revert i. induction l as [|x l IH]; intros i Hi; simpl in Hi; [lia|].
  destruct i as [|i]; [simpl; lia|]. specialize (IH i).
  change ((x :: l) !!! S i) with (l !!! i). change (alter f (S i) (x :: l)) with (x :: alter f i l).
  simpl countb. lia.
Qed.

Lemma countb_full {A} `{Inhabited A} (P : A → bool) l n :
  (n ≤ length l)%nat → (∀ i, (i < n)%nat → P (l !!! i) = true) → (n ≤ countb P l)%nat.
Proof.
  revert l. induction n as [|n IH]; intros l Hn Hall; [lia|].
  destruct l as [|x l]; simpl in Hn; [lia|]. simpl.
  specialize (Hall 0%nat) as H0. simpl in H0. rewrite H0 by lia.
  assert (n ≤ countb P l)%nat; [|lia].
  apply IH; [lia|]. intros i Hi. apply (Hall (S i)). lia.
Qed.

Lemma countb_ext {A} (P Q : A → bool) l :
  (∀ x, x ∈ l → P x = Q x) → countb P l = countb Q l.
Proof.
  induction l as [|x l IH]; intros E; [done|]. simpl. rewrite E by set_solver.
  rewrite IH; [done|]. set_solver.
Qed.

Lemma alter_ext_total {A} `{Inhabited A} (f g : A → A) (l : list A) (i : nat) :
  f (l !!! i) = g (l !!! i) → alter f i l = alter g i l.
Proof.
  intros E. apply list_eq. intros j. rewrite !list_lookup_alter.
  case_decide as Hij; [subst|done]. destruct (l !! j) eqn:Hj; [|done]. simpl.
  by rewrite (list_lookup_total_correct _ _ _ Hj) in E; rewrite E.
Qed.

Lemma countb_lookup `{Inhabited A} (P Q : A → bool) l l' :
  length l' = length l → (∀ i, Q (l' !!! i) = P (l !!! i)) → countb Q l' = countb P l.
Proof.
  revert l'. induction l as [|x l IH]; intros [|y l'] HL E; simplify_eq/=; [done|].
  pose proof (E 0%nat) as E0. simpl in E0. rewrite E0. f_equal.
  apply IH; [done|]. intros i. apply (E (S i)).
Qed.

Lemma forallb_lookup `{Inhabited A} (P : A → bool) l i :
  forallb P l = true → (i < length l)%nat → P (l !!! i) = true.
Proof.
  revert i. induction l as [|x l IH]; intros [|i]; simpl; rewrite ?andb_true_iff; try lia.
  - by intros [? _].
  - intros [_ F] Hi. apply IH; [done|lia].
Qed.

Lemma prefix_app_cases {A} (w l1 l2 : list A) :
  w `prefix_of` l1 ++ l2 → w `prefix_of` l1 ∨ ∃ w', w = l1 ++ w' ∧ w' `prefix_of` l2.
Proof.
  intros [k E]. symmetry in E. apply app_eq_inv in E as [(k' & -> & ->)|(k' & -> & ->)].
  - right. exists k'. split; [done|]. by exists k.
  - left. by exists k'.
Qed.

Lemma prefix_snoc_cases {A} (w l : list A) x :
  w `prefix_of` l ++ [x] → w `prefix_of` l ∨ w = l ++ [x].
Proof.
  intros [?|(w' & -> & [k E])]%prefix_app_cases; [by left|].
  destruct w' as [|y w']; simplify_eq/=.
  - left. by rewrite app_nil_r.
  - right. by destruct w'.
Qed.
