(* ===== verification/State.v ===== *)
(** * The kernel's data: structures and global variables of the C headers

    One Rocq record per [struct] of proc.h, buf.h, file.h, fs.h, sleeplock.h,
    pipe.c and log.c, and one record [kstate] of the kernel's global
    variables.  Constants are those of param.h, fs.h, buf.h and memlayout.h.
    Pointers into a static table ([&ptable.proc[i]], [&icache.inode[i]],
    [&bcache.buf[i]], [&ftable.file[i]]) are the index [i]; a null pointer is
    [None]. *)
From S2P Require Import Prelude.

(** ** Constants *)
Definition NPROC : nat := 64.
Definition NOFILE : nat := 16.
Definition NFILE : nat := 100.
Definition NINODE : nat := 50.
Definition NDEV : Z := 10.
Definition ROOTDEV : Z := 1.
Definition MAXARG : nat := 32.
Definition MAXOPBLOCKS : Z := 10.
Definition LOGSIZE : Z := MAXOPBLOCKS * 3.
Definition NBUF : nat := 30.
Definition FSSIZE : Z := 1000.
Definition QUANTA : Z := 5.

Definition BSIZE : Z := 512.
Definition ROOTINO : Z := 1.
Definition NDIRECT : Z := 12.
Definition NINDIRECT : Z := BSIZE / 4.
Definition MAXFILE : Z := NDIRECT + NINDIRECT.
Definition IPB : Z := BSIZE / 64.
Definition BPB : Z := BSIZE * 8.
Definition DIRSIZ : nat := 14.

Definition T_DIR : Z := 1.
Definition T_FILE : Z := 2.
Definition T_DEV : Z := 3.

Definition B_VALID : Z := 2.
Definition B_DIRTY : Z := 4.

(** A disk block or a page is a list of bytes. *)
Abbreviation block := (list Z) (only parsing).

(** ** Locks and channels

    Every spin lock of the kernel has a name.  On the single CPU of this
    configuration ([NCPU] is 1 in param.h) [acquire] disables interrupts, so
    between [acquire] and [release] no other code runs; what remains
    observable is which locks are held, which [acquire], [release] and
    [sched] check. *)
Inductive slref := SlBuf (i : nat) | SlInode (i : nat).

Inductive lockid :=
| LkPtable | LkBcache | LkLog | LkIcache | LkFtable | LkTicks | LkCons | LkKmem | LkIde
| LkPipe (p : Z)
| LkSleep (r : slref).

(** Sleep channels: the addresses passed to [sleep] and [wakeup]. *)
Inductive chan :=
| ChSleep (r : slref)   (* a sleep lock *)
| ChLog                 (* &log *)
| ChBuf (i : nat)       (* a buffer waiting for the disk *)
| ChTicks               (* &ticks *)
| ChNread (p : Z)       (* &p->nread *)
| ChNwrite (p : Z)      (* &p->nwrite *)
| ChInput               (* &input.r *)
| ChProc (i : nat).     (* a process waiting for its children *)

#[global] Instance slref_eq_dec : EqDecision slref.
Proof. solve_decision. Defined.
#[global] Instance lockid_eq_dec : EqDecision lockid.
Proof. solve_decision. Defined.
#[global] Instance chan_eq_dec : EqDecision chan.
Proof. solve_decision. Defined.

(** ** sleeplock.h *)
Record sleeplock := SleepLock { sl_locked : bool; sl_pid : Z }.
#[global] Instance eta_sleeplock : Eta sleeplock := λ r, SleepLock (sl_locked r) (sl_pid r).
Definition sl_init : sleeplock := SleepLock false 0.

(** ** buf.h *)
Record buf := Buf {
  b_flags : Z; b_dev : Z; b_blockno : Z; b_lock : sleeplock; b_refcnt : Z;
  b_prev : nat; b_next : nat; b_qnext : option nat; b_data : block }.
#[global] Instance eta_buf : Eta buf := λ r,
  Buf (b_flags r) (b_dev r) (b_blockno r) (b_lock r) (b_refcnt r)
      (b_prev r) (b_next r) (b_qnext r) (b_data r).
Definition buf_zero : buf := Buf 0 0 0 sl_init 0 0 0 None (replicate 512 0).
#[global] Instance buf_inhabited : Inhabited buf := populate buf_zero.

(** ** fs.h *)
Record superblock := SuperBlock {
  sb_size : Z; sb_nblocks : Z; sb_ninodes : Z; sb_nlog : Z;
  sb_logstart : Z; sb_inodestart : Z; sb_bmapstart : Z }.
#[global] Instance eta_superblock : Eta superblock := λ r,
  SuperBlock (sb_size r) (sb_nblocks r) (sb_ninodes r) (sb_nlog r)
    (sb_logstart r) (sb_inodestart r) (sb_bmapstart r).

(** ** log.c *)
Record log := Log {
  l_start : Z; l_size : Z; l_outstanding : Z; l_committing : bool; l_dev : Z;
  l_n : Z; l_block : list Z }.
#[global] Instance eta_log : Eta log := λ r,
  Log (l_start r) (l_size r) (l_outstanding r) (l_committing r) (l_dev r) (l_n r) (l_block r).
Definition log_zero : log := Log 0 0 0 false 0 0 (replicate 30 0).

(** ** file.h *)
Record inode := Inode {
  i_dev : Z; i_inum : Z; i_ref : Z; i_lock : sleeplock; i_valid : bool;
  i_type : Z; i_major : Z; i_minor : Z; i_nlink : Z; i_size : Z; i_addrs : list Z }.
#[global] Instance eta_inode : Eta inode := λ r,
  Inode (i_dev r) (i_inum r) (i_ref r) (i_lock r) (i_valid r) (i_type r) (i_major r)
    (i_minor r) (i_nlink r) (i_size r) (i_addrs r).
Definition inode_zero : inode := Inode 0 0 0 sl_init false 0 0 0 0 0 (replicate 13 0).
#[global] Instance inode_inhabited : Inhabited inode := populate inode_zero.

Inductive ftype := FD_NONE | FD_PIPE | FD_INODE.
#[global] Instance ftype_eq_dec : EqDecision ftype.
Proof. solve_decision. Defined.

Record file := File {
  f_type : ftype; f_ref : Z; f_readable : bool; f_writable : bool;
  f_pipe : Z; f_ip : option nat; f_off : Z }.
#[global] Instance eta_file : Eta file := λ r,
  File (f_type r) (f_ref r) (f_readable r) (f_writable r) (f_pipe r) (f_ip r) (f_off r).
Definition file_zero : file := File FD_NONE 0 false false 0 None 0.
#[global] Instance file_inhabited : Inhabited file := populate file_zero.

(** ** pipe.c *)
Record pipe := Pipe {
  pi_data : list Z; pi_nread : Z; pi_nwrite : Z; pi_readopen : bool; pi_writeopen : bool }.
#[global] Instance eta_pipe : Eta pipe := λ r,
  Pipe (pi_data r) (pi_nread r) (pi_nwrite r) (pi_readopen r) (pi_writeopen r).

(** ** x86.h and proc.h *)
Record trapframe := TrapFrame {
  tf_edi : Z; tf_esi : Z; tf_ebp : Z; tf_oesp : Z; tf_ebx : Z; tf_edx : Z; tf_ecx : Z;
  tf_eax : Z; tf_gs : Z; tf_fs : Z; tf_es : Z; tf_ds : Z; tf_trapno : Z; tf_err : Z;
  tf_eip : Z; tf_cs : Z; tf_eflags : Z; tf_esp : Z; tf_ss : Z }.
#[global] Instance eta_trapframe : Eta trapframe := λ r,
  TrapFrame (tf_edi r) (tf_esi r) (tf_ebp r) (tf_oesp r) (tf_ebx r) (tf_edx r) (tf_ecx r)
    (tf_eax r) (tf_gs r) (tf_fs r) (tf_es r) (tf_ds r) (tf_trapno r) (tf_err r)
    (tf_eip r) (tf_cs r) (tf_eflags r) (tf_esp r) (tf_ss r).
Definition tf_zero : trapframe := TrapFrame 0 0 0 0 0 0 0 0 0 0 0 0 0 0 0 0 0 0 0.

Record context := Context_ { c_edi : Z; c_esi : Z; c_ebx : Z; c_ebp : Z; c_eip : Z }.
Definition ctx_zero : context := Context_ 0 0 0 0 0.

Inductive procstate := UNUSED | EMBRYO | SLEEPING | RUNNABLE | RUNNING | ZOMBIE.
#[global] Instance procstate_eq_dec : EqDecision procstate.
Proof. solve_decision. Defined.

Record proc := Proc {
  p_sz : Z; p_pgdir : Z; p_kstack : Z; p_state : procstate; p_pid : Z;
  p_parent : option nat; p_tf : trapframe; p_context : context; p_chan : option chan;
  p_killed : bool; p_ofile : list (option nat); p_cwd : option nat; p_name : list Z;
  p_slot : Z; p_ctime : Z; p_waiting_t : Z; p_running_t : Z; p_turnaround_t : Z;
  p_pwaiting_t : list Z; p_prunning_t : list Z; p_pturnaround_t : list Z; p_pidtimes : Z }.
#[global] Instance eta_proc : Eta proc := λ r,
  Proc (p_sz r) (p_pgdir r) (p_kstack r) (p_state r) (p_pid r) (p_parent r) (p_tf r)
    (p_context r) (p_chan r) (p_killed r) (p_ofile r) (p_cwd r) (p_name r) (p_slot r)
    (p_ctime r) (p_waiting_t r) (p_running_t r) (p_turnaround_t r) (p_pwaiting_t r)
    (p_prunning_t r) (p_pturnaround_t r) (p_pidtimes r).
Definition proc_zero : proc :=
  Proc 0 0 0 UNUSED 0 None tf_zero ctx_zero None false (replicate NOFILE None) None
    (replicate 16 0) 0 0 0 0 0 (replicate 10 0) (replicate 10 0) (replicate 10 0) 0.
#[global] Instance proc_inhabited : Inhabited proc := populate proc_zero.

(** ** console.c: the line being typed *)
Record input := Input { in_buf : list Z; in_r : Z; in_w : Z; in_e : Z }.
#[global] Instance eta_input : Eta input := λ r, Input (in_buf r) (in_r r) (in_w r) (in_e r).

(** ** The disk

    [d_img] is the image the machine booted with and [d_writes] the blocks
    written since, the most recent first.  A crash keeps the image and loses
    everything else, so the history of writes is what crash safety is
    about. *)
Record disk := Disk { d_img : Z → block; d_writes : list (Z * block) }.

Fixpoint writes_get (ws : list (Z * block)) (b : Z) (old : block) : block :=
  match ws with
  | [] => old
  | (b', d) :: ws => if b' =? b then d else writes_get ws b old
  end.
Definition disk_get (dk : disk) (b : Z) : block := writes_get (d_writes dk) b (d_img dk b).
Definition disk_put (dk : disk) (b : Z) (d : block) : disk :=
  Disk (d_img dk) ((b, d) :: d_writes dk).

(** The variables of ide.c, and the port accesses the driver has made: reads
    of the status register, writes of a register, and transfers of a sector
    through the data register. *)
Inductive ide_io := IdeIn | IdeOut (port v : Z) | IdeOutsl (l : list Z) | IdeInsl.
Record ide := IdeState { ide_queue : option nat; ide_disk1 : bool; ide_log : list ide_io }.
#[global] Instance eta_ide : Eta ide := λ r, IdeState (ide_queue r) (ide_disk1 r) (ide_log r).

(** ** The kernel's global variables *)
Record kstate := KState {
  k_locks : list lockid;      (* spin locks held by the CPU, innermost first *)
  k_cpu_proc : option nat;    (* mycpu()->proc *)
  k_procs : list proc;        (* ptable.proc *)
  k_initproc : option nat;
  k_nextpid : Z;
  k_ticks : Z;
  k_mem : Z → Z;              (* physical memory by kernel virtual address *)
  k_use_lock : bool;          (* kmem *)
  k_freelist : Z;
  k_kpgdir : Z;               (* the kernel's page directory *)
  k_cr3 : Z;                  (* the page table register *)
  k_esp0 : Z;                 (* mycpu()->ts.esp0 *)
  k_bcache : list buf;        (* bcache.buf, with bcache.head at index NBUF *)
  k_disk : disk;
  k_disksize : Z;
  k_log : log;
  k_sb : superblock;
  k_icache : list inode;
  k_ftable : list file;
  k_pipes : gmap Z pipe;
  k_input : input;
  k_locking : bool;           (* cons.locking *)
  k_out : list Z;             (* what consputc was given, latest first *)
  k_ide : ide;
  k_lapic : bool;             (* lapic, not a null pointer *)
  k_eoi : nat }.              (* writes of its end-of-interrupt register *)
#[global] Instance eta_kstate : Eta kstate := λ r,
  KState (k_locks r) (k_cpu_proc r) (k_procs r) (k_initproc r) (k_nextpid r) (k_ticks r)
    (k_mem r) (k_use_lock r) (k_freelist r) (k_kpgdir r) (k_cr3 r) (k_esp0 r) (k_bcache r)
    (k_disk r) (k_disksize r) (k_log r) (k_sb r) (k_icache r) (k_ftable r) (k_pipes r)
    (k_input r) (k_locking r) (k_out r) (k_ide r) (k_lapic r) (k_eoi r).

(** A machine before anything is initialised. *)
Definition mem_boot : kstate :=
  KState [] None (replicate NPROC proc_zero) None 1 0 (λ _, 0) false 0 0 0 0
    [] (Disk (λ _, []) []) 0 log_zero (SuperBlock 0 0 0 0 0 0 0)
    [] [] ∅ (Input [] 0 0 0) false [] (IdeState None false []) true 0.

(** Process 0 running. *)
Definition user_boot : kstate :=
  mem_boot <| k_cpu_proc := Some 0%nat |>
    <| k_procs ::= alter (λ q, q <| p_state := RUNNING |> <| p_pid := 1 |>) 0%nat |>.

(** A kernel routine. *)
Abbreviation KM A := (M kstate A) (only parsing).

(** ** Table access *)
Definition get_proc (s : kstate) (i : nat) : proc := k_procs s !!! i.
Definition get_buf (s : kstate) (i : nat) : buf := k_bcache s !!! i.
Definition get_inode (s : kstate) (i : nat) : inode := k_icache s !!! i.
Definition get_file (s : kstate) (i : nat) : file := k_ftable s !!! i.

Definition upd_proc (i : nat) (f : proc → proc) : KM unit := modify (λ s, s <| k_procs ::= alter f i |>).
Definition upd_buf (i : nat) (f : buf → buf) : KM unit := modify (λ s, s <| k_bcache ::= alter f i |>).
Definition upd_inode (i : nat) (f : inode → inode) : KM unit := modify (λ s, s <| k_icache ::= alter f i |>).
Definition upd_file (i : nat) (f : file → file) : KM unit := modify (λ s, s <| k_ftable ::= alter f i |>).
Definition upd_log (f : log → log) : KM unit := modify (λ s, s <| k_log ::= f |>).

(** Two states are equal if their fields are; [kext] compares states that are
    nested updates field by field. *)
Lemma kstate_ext s s' :
  k_locks s = k_locks s' →
  k_cpu_proc s = k_cpu_proc s' →
  k_procs s = k_procs s' →
  k_initproc s = k_initproc s' →
  k_nextpid s = k_nextpid s' →
  k_ticks s = k_ticks s' →
  k_mem s = k_mem s' →
  k_use_lock s = k_use_lock s' →
  k_freelist s = k_freelist s' →
  k_kpgdir s = k_kpgdir s' →
  k_cr3 s = k_cr3 s' →
  k_esp0 s = k_esp0 s' →
  k_bcache s = k_bcache s' →
  k_disk s = k_disk s' →
  k_disksize s = k_disksize s' →
  k_log s = k_log s' →
  k_sb s = k_sb s' →
  k_icache s = k_icache s' →
  k_ftable s = k_ftable s' →
  k_pipes s = k_pipes s' →
  k_input s = k_input s' →
  k_locking s = k_locking s' →
  k_out s = k_out s' →
  k_ide s = k_ide s' →
  k_lapic s = k_lapic s' →
  k_eoi s = k_eoi s' →
  s = s'.
Proof. destruct s, s'. simpl. by intros; subst. Qed.

Ltac kext := apply kstate_ext; simpl; try reflexivity.

(** Closes [Done a s env = Done a s' env] for such states. *)
Ltac kdone := first [reflexivity | apply f_equal3; [reflexivity|by kext|reflexivity]].

(** Computes nested updates of a process given by its fields. *)
Ltac proc_red := cbv beta iota delta [upd
  State.p_sz State.p_pgdir State.p_kstack State.p_state State.p_pid State.p_parent State.p_tf State.p_context State.p_chan State.p_killed
  State.p_ofile State.p_cwd State.p_name State.p_slot State.p_ctime
  State.p_waiting_t State.p_running_t State.p_turnaround_t State.p_pwaiting_t State.p_prunning_t State.p_pturnaround_t State.p_pidtimes].
