(* ===== verification/Sync.v ===== *)
(** * Locks, sleeping and waking (proc.c, sleeplock.c)

    The kernel-level view of spin locks, [sched], [sleep], [wakeup] and
    [yield] of proc.c, and the sleep locks of sleeplock.c built on them.
    Spin locks appear here as the set of locks the CPU holds: a nested
    [acquire] or an unmatched [release] panics, and [sched] panics unless
    exactly the process-table lock is held (its test [ncli != 1]). *)
From S2P Require Import Prelude State.

(** ** Spin locks, as the set of held locks *)
Definition acquire (lk : lockid) : KM unit :=
  held <- gets k_locks ;;
  if decide (lk ∈ held) then panic "acquire"
  else modify (λ s, s <| k_locks ::= cons lk |>).

Fixpoint drop_lock (lk : lockid) (held : list lockid) : list lockid :=
  match held with
  | [] => []
  | l :: held => if decide (l = lk) then held else l :: drop_lock lk held
  end.

Definition release (lk : lockid) : KM unit :=
  held <- gets k_locks ;;
  if decide (lk ∈ held) then modify (λ s, s <| k_locks ::= drop_lock lk |>)
  else panic "release".

(** ** proc.c: the running process, sched, sleep and wakeup *)

(** [myproc()], [None] when the CPU runs no process. *)
Definition myproc : KM (option nat) := gets k_cpu_proc.

(** [myproc()->...]: dereferencing the null pointer traps in the kernel. *)
Definition curproc : KM nat :=
  p <- myproc ;;
  match p with Some i => ret i | None => panic "trap" end.

Definition mypid : KM Z := i <- curproc ;; gets (λ s, p_pid (get_proc s i)).
Definition mykilled : KM bool := i <- curproc ;; gets (λ s, p_killed (get_proc s i)).

(** Switching to the scheduler hands the machine to the other processes; the
    routine continues when the schedule runs it again. *)
Definition swtch : KM unit := λ env s,
  match env with
  | [] => Asleep s
  | f :: env => Done tt (f s) env
  end.

Definition sched : KM unit :=
  p <- curproc ;;
  held <- gets k_locks ;;
  st <- gets (λ s, p_state (get_proc s p)) ;;
  if negb (bool_decide (LkPtable ∈ held)) then panic "sched ptable.lock"
  else if negb (bool_decide (length held = 1%nat)) then panic "sched locks"
  else if bool_decide (st = RUNNING) then panic "sched running"
  else swtch.

Definition yield : KM unit :=
  acquire LkPtable ;;
  p <- curproc ;;
  upd_proc p (λ q, q <| p_state := RUNNABLE |>) ;;
  sched ;;
  release LkPtable.

Definition sleep (ch : chan) (lk : lockid) : KM unit :=
  mp <- myproc ;;
  match mp with
  | None => panic "sleep"
  | Some p =>
      when (bool_decide (lk ≠ LkPtable)) (acquire LkPtable ;; release lk) ;;
      upd_proc p (λ q, q <| p_chan := Some ch |> <| p_state := SLEEPING |>) ;;
      sched ;;
      upd_proc p (λ q, q <| p_chan := None |>) ;;
      when (bool_decide (lk ≠ LkPtable)) (release LkPtable ;; acquire lk)
  end.

Definition wake1 (ch : chan) (p : proc) : proc :=
  if decide (p_state p = SLEEPING ∧ p_chan p = Some ch) then p <| p_state := RUNNABLE |> else p.

Definition wakeup1 (ch : chan) : KM unit := modify (λ s, s <| k_procs ::= fmap (wake1 ch) |>).

Definition wakeup (ch : chan) : KM unit :=
  acquire LkPtable ;;
  wakeup1 ch ;;
  release LkPtable.

(** [for(;;) { body; sleep(ch, lk); }]: [body] returns [Some] to leave the
    loop.  Each round that sleeps uses up one entry of the schedule, so the
    schedule's length bounds the rounds; a schedule that ends leaves the
    process asleep. *)
Fixpoint sleep_rounds {A} (n : nat) (body : KM (option A)) (ch : chan) (lk : lockid) : KM A :=
  match n with
  | O => λ _ s, Asleep s
  | S n =>
      r <- body ;;
      match r with
      | Some a => ret a
      | None => sleep ch lk ;; sleep_rounds n body ch lk
      end
  end.

Definition sleep_loop {A} (body : KM (option A)) (ch : chan) (lk : lockid) : KM A :=
  λ env s, sleep_rounds (S (length env)) body ch lk env s.

(** ** sleeplock.c *)
Definition get_sl (r : slref) (s : kstate) : sleeplock :=
  match r with
  | SlBuf i => b_lock (get_buf s i)
  | SlInode i => i_lock (get_inode s i)
  end.

Definition set_sl (r : slref) (f : sleeplock → sleeplock) (s : kstate) : kstate :=
  match r with
  | SlBuf i => s <| k_bcache ::= alter (λ b, b <| b_lock ::= f |>) i |>
  | SlInode i => s <| k_icache ::= alter (λ ip, ip <| i_lock ::= f |>) i |>
  end.
Definition upd_sl (r : slref) (f : sleeplock → sleeplock) : KM unit := modify (set_sl r f).

Definition initsleeplock (r : slref) : KM unit := upd_sl r (λ _, sl_init).

Definition acquiresleep (r : slref) : KM unit :=
  acquire (LkSleep r) ;;
  sleep_loop (l <- gets (get_sl r) ;; ret (if sl_locked l then None else Some tt))
    (ChSleep r) (LkSleep r) ;;
  pid <- mypid ;;
  upd_sl r (λ l, l <| sl_locked := true |> <| sl_pid := pid |>) ;;
  release (LkSleep r).

Definition releasesleep (r : slref) : KM unit :=
  acquire (LkSleep r) ;;
  upd_sl r (λ l, l <| sl_locked := false |> <| sl_pid := 0 |>) ;;
  wakeup (ChSleep r) ;;
  release (LkSleep r).

Definition holdingsleep (r : slref) : KM bool :=
  acquire (LkSleep r) ;;
  l <- gets (get_sl r) ;;
  res <- (if sl_locked l then pid <- mypid ;; ret (sl_pid l =? pid) else ret false) ;;
  release (LkSleep r) ;;
  ret res.

(** ** Running the lock operations *)

Lemma acquire_ok lk env s :
  lk ∉ k_locks s → acquire lk env s = Done tt (s <| k_locks ::= cons lk |>) env.
Proof. intros H. unfold acquire. mstep. by rewrite decide_False. Qed.

Lemma acquire_nested lk env s : lk ∈ k_locks s → acquire lk env s = Panic "acquire".
Proof. intros H. unfold acquire. mstep. by rewrite decide_True. Qed.

Lemma release_ok lk h env s :
  k_locks s = lk :: h → release lk env s = Done tt (s <| k_locks := h |>) env.
Proof.
  intros H. unfold release. mstep. rewrite H, decide_True by apply list_elem_of_here.
  unfold modify. f_equal. destruct s; simpl in *. unfold upd; simpl.
  by rewrite H; simpl; rewrite decide_True.
Qed.

Lemma release_unheld lk env s : lk ∉ k_locks s → release lk env s = Panic "release".
Proof. intros H. unfold release. mstep. by rewrite decide_False. Qed.

(** A critical section: [acquire], a body that keeps the lock on top of the
    held locks, [release]. *)
Lemma curproc_ok p env s : k_cpu_proc s = Some p → curproc env s = Done p s env.
Proof. intros H. unfold curproc, myproc. mstep. by rewrite H. Qed.

Lemma mypid_ok p env s :
  k_cpu_proc s = Some p → mypid env s = Done (p_pid (get_proc s p)) s env.
Proof. intros H. unfold mypid. by run (curproc_ok _ _ _ H). Qed.

Lemma wakeup_ok ch env s :
  LkPtable ∉ k_locks s →
  wakeup ch env s = Done tt (s <| k_procs ::= fmap (wake1 ch) |>) env.
Proof.
  intros H. unfold wakeup, wakeup1. run (acquire_ok _ _ _ H). mstep.
  erewrite release_ok by done. by destruct s.
Qed.

(** Uncontended sleep locks: the caller holds no spin lock, so nothing can
    stand between it and the lock. *)
Lemma sleep_loop_exit {A} (body : KM (option A)) ch lk env s a s' env' :
  body env s = Done (Some a) s' env' → sleep_loop body ch lk env s = Done a s' env'.
Proof. intros H. unfold sleep_loop. simpl. by run H. Qed.

Lemma get_sl_locks r s (f : list lockid → list lockid) : get_sl r (s <| k_locks ::= f |>) = get_sl r s.
Proof. by destruct r. Qed.
Lemma k_locks_set_sl r f s : k_locks (set_sl r f s) = k_locks s.
Proof. by destruct r. Qed.
Lemma k_procs_set_sl r f s : k_procs (set_sl r f s) = k_procs s.
Proof. by destruct r. Qed.
Lemma k_cpu_set_sl r f s : k_cpu_proc (set_sl r f s) = k_cpu_proc s.
Proof. by destruct r. Qed.

Lemma acquiresleep_free r p env s :
  k_locks s = [] → k_cpu_proc s = Some p → sl_locked (get_sl r s) = false →
  acquiresleep r env s =
    Done tt (set_sl r (λ _, SleepLock true (p_pid (get_proc s p))) s) env.
Proof.
  intros Hl Hp Hf. unfold acquiresleep.
  run (acquire_ok _ _ s ltac:(rewrite Hl; apply not_elem_of_nil)).
  step sleep_loop_exit by (mstep; rewrite get_sl_locks, Hf; done).
  step mypid_ok. unfold upd_sl. mstep.
  erewrite release_ok by (rewrite k_locks_set_sl; done).
  by destruct s, r; simpl in *; subst.
Qed.

Lemma releasesleep_ok r env s :
  k_locks s = [] →
  releasesleep r env s =
    Done tt ((set_sl r (λ _, sl_init) s) <| k_procs ::= fmap (wake1 (ChSleep r)) |>) env.
Proof.
  intros Hl. unfold releasesleep.
  run (acquire_ok _ _ s ltac:(rewrite Hl; apply not_elem_of_nil)).
  unfold upd_sl. mstep.
  step wakeup_ok by (rewrite k_locks_set_sl; simpl; rewrite Hl; set_solver).
  erewrite release_ok by (simpl; rewrite k_locks_set_sl; done).
  by destruct s, r; simpl in *; subst.
Qed.

Lemma holdingsleep_ok r p env s :
  k_locks s = [] → k_cpu_proc s = Some p →
  get_sl r s = SleepLock true (p_pid (get_proc s p)) →
  holdingsleep r env s = Done true s env.
Proof.
  intros Hl Hp Hg. unfold holdingsleep.
  run (acquire_ok _ _ s ltac:(rewrite Hl; apply not_elem_of_nil)). mstep.
  rewrite get_sl_locks, Hg. simpl sl_locked. cbv iota. rewrite bind_assoc.
  step mypid_ok. mstep. simpl sl_pid.
  erewrite bind_done by (apply release_ok; done).
  unfold ret. rewrite Z.eqb_refl.
  by destruct s; simpl in *; subst.
Qed.
