(* ===== verification/Dll.v ===== *)
(** * Circular doubly linked lists

    The theory behind the buffer cache's list: [linked nx pv l] says that
    following [nx] from the first element of [l] visits [l] in order and that
    [pv] goes back.  A circular list with header [H] over [order] is
    [linked nx pv (H :: order ++ [H])].  The two pointer surgeries of bio.c,
    unlinking a node and inserting one after the header, are lemmas about
    pointwise updates of [nx] and [pv]. *)
From S2P Require Import Prelude.

#[local] Open Scope nat_scope.

Fixpoint linked (nx pv : nat → nat) (l : list nat) : Prop :=
  match l with
  | a :: (b :: _) as l' => nx a = b ∧ pv b = a ∧ linked nx pv l'
  | _ => True
  end.

Section linked.
Implicit Types (nx pv : nat → nat) (l : list nat).

Lemma linked_ext nx pv nx' pv' l :
  (∀ i, i ∈ l → nx i = nx' i ∧ pv i = pv' i) → linked nx pv l → linked nx' pv' l.
Proof.
  induction l as [|a [|b l] IH]; intros E; [done..|]. intros (H1 & H2 & H3).
  destruct (E a) as [Ea _]; [set_solver|]. destruct (E b) as [_ Eb]; [set_solver|].
  split_and!; [congruence..|]. apply IH; [set_solver|done].
Qed.

Lemma linked_app nx pv l1 a l2 :
  linked nx pv (l1 ++ a :: l2) ↔ linked nx pv (l1 ++ [a]) ∧ linked nx pv (a :: l2).
Proof.
  induction l1 as [|x l1 IH]; simpl app; [simpl; naive_solver|].
  destruct l1 as [|y l1]; simpl in *; naive_solver.
Qed.

Lemma linked_rev nx pv l : linked nx pv l → linked pv nx (reverse l).
Proof.
  induction l as [|a [|b l] IH]; [done..|]. intros (H1 & H2 & H3).
  rewrite !reverse_cons, <-app_assoc. rewrite reverse_cons in IH. simpl app.
  apply linked_app. split; [by apply IH|]. done.
Qed.

(** Only the source of an edge is read through [nx], only its target through
    [pv]. *)
Lemma linked_nx_ne nx pv l a x b :
  x ∉ l → linked (<[x:=b]> nx) pv (l ++ [a]) ↔ linked nx pv (l ++ [a]).
Proof.
  induction l as [|y l IH]; intros Hx; [done|].
  apply not_elem_of_cons in Hx as [Hxy Hx].
  specialize (IH Hx). destruct l as [|z l]; simpl app in *; simpl linked in *;
    rewrite fn_lookup_insert_ne by done; naive_solver.
Qed.

Lemma linked_pv_ne nx pv l a x b :
  x ∉ l → linked nx (<[x:=b]> pv) (a :: l) ↔ linked nx pv (a :: l).
Proof.
  revert a. induction l as [|y l IH]; intros a Hx; [done|].
  apply not_elem_of_cons in Hx as [Hxy Hx].
  specialize (IH y Hx). simpl linked in *.
  rewrite fn_lookup_insert_ne by done; naive_solver.
Qed.

(** [b->next->prev = b->prev; b->prev->next = b->next;] *)
Lemma dll_unlink nx pv H o1 x o2 :
  NoDup (H :: o1 ++ x :: o2) → linked nx pv (H :: o1 ++ x :: o2 ++ [H]) →
  linked (<[pv x := nx x]> nx) (<[nx x := pv x]> pv) (H :: o1 ++ o2 ++ [H]).
Proof.
  intros ND L.
  assert (NoDup (H :: o1) ∧ NoDup (o2 ++ [H]) ∧ (∀ y, y ∈ H :: o1 → y ∉ o2) ∧
          (∀ y, y ∈ o2 ++ [H] → y ∉ o1)) as (ND1 & ND2 & D1 & D2).
  { apply NoDup_cons in ND as [N1 N2]. apply NoDup_app in N2 as (N2 & N3 & N4).
    apply NoDup_cons in N4 as [N4 N5]. split_and!.
    - constructor; set_solver.
    - apply NoDup_app. split_and!; [done|set_solver|apply NoDup_singleton].
    - set_solver.
    - set_solver. }
  destruct (exists_last (l := H :: o1)) as (l1 & a & E1); [done|].
  destruct (o2 ++ [H]) as [|b l2] eqn:E2; [by destruct o2|].
  assert (Ha : a ∈ H :: o1) by (rewrite E1; set_solver).
  assert (Hb : b ∈ b :: l2) by set_solver.
  assert (L' : linked nx pv (l1 ++ a :: x :: b :: l2)).
  { replace (l1 ++ a :: x :: b :: l2) with (H :: o1 ++ x :: b :: l2); [done|].
    change (H :: o1 ++ x :: b :: l2) with ((H :: o1) ++ x :: b :: l2).
    by rewrite E1, <-app_assoc. }
  apply linked_app in L' as [L1 L2]. destruct L2 as (_ & -> & L2).
  destruct L2 as (-> & _ & L2). rewrite <-E1 in L1.
  change (H :: o1 ++ b :: l2) with ((H :: o1) ++ b :: l2). rewrite E1, <-app_assoc.
  apply linked_app. rewrite <-E1. split.
  - apply linked_pv_ne; [by apply D2|]. rewrite E1. apply linked_nx_ne.
    { rewrite E1 in ND1. apply NoDup_app in ND1 as (_ & N & _). set_solver. }
    by rewrite <-E1.
  - simpl app. split; [by rewrite fn_lookup_insert|]. split; [by rewrite fn_lookup_insert|].
    apply linked_pv_ne; [by apply NoDup_cons in ND2 as [? _]|].
    rewrite <-E2. apply linked_nx_ne; [by apply D1|]. by rewrite E2.
Qed.

(** [b->next = head.next; b->prev = &head; head.next->prev = b; head.next = b;] *)
Lemma dll_insert nx pv H x o :
  NoDup (H :: x :: o) → linked nx pv (H :: o ++ [H]) →
  linked (<[H := x]> (<[x := nx H]> nx)) (<[nx H := x]> (<[x := H]> pv)) (H :: x :: o ++ [H]).
Proof.
  intros ND L.
  apply NoDup_cons in ND as [N1 N2]. apply NoDup_cons in N2 as [N2 N3].
  destruct (o ++ [H]) as [|c l] eqn:E; [by destruct o|].
  assert (c ∈ o ++ [H]) by (rewrite E; set_solver).
  assert (ND' : NoDup (c :: l)).
  { rewrite <-E. apply NoDup_app. split_and!; [done|set_solver|apply NoDup_singleton]. }
  destruct L as (-> & _ & L). split; [by rewrite fn_lookup_insert|].
  split; [rewrite fn_lookup_insert_ne, fn_lookup_insert by set_solver; done|].
  split; [rewrite fn_lookup_insert_ne, fn_lookup_insert by set_solver; done|].
  split; [by rewrite fn_lookup_insert|].
  apply NoDup_cons in ND' as [N4 _].
  apply linked_pv_ne; [done|].
  apply linked_pv_ne; [intros ?; assert (x ∈ o ++ [H]) by (rewrite E; set_solver); set_solver|].
  rewrite <-E. apply linked_nx_ne; [set_solver|]. apply linked_nx_ne; [done|]. by rewrite E.
Qed.

(** ** Walking the list

    [walk n nx H test i] follows [nx] from [i] until a node satisfies [test]
    or the header [H] is reached: the shape of the loops of [bget]. *)
Fixpoint walk (n : nat) (nx : nat → nat) (H : nat) (test : nat → bool) (i : nat) : option nat :=
  match n with
  | O => None
  | S n => if decide (i = H) then None
           else if test i then Some i else walk n nx H test (nx i)
  end.

Fixpoint first_in (test : nat → bool) (l : list nat) : option nat :=
  match l with
  | [] => None
  | i :: l => if test i then Some i else first_in test l
  end.

Lemma walk_linked nx pv H test n a o :
  length o < n → H ∉ o → linked nx pv (a :: o ++ [H]) →
  walk n nx H test (nx a) = first_in test o.
Proof.
  revert n a. induction o as [|b o IH]; intros n a Hn Ho L; simpl in L.
  - destruct L as (-> & _). destruct n; [simpl in Hn; lia|]. simpl. by rewrite decide_True.
  - destruct n as [|n]; [simpl in Hn; lia|]. simpl in Hn.
    apply not_elem_of_cons in Ho as [Hb Ho].
    destruct L as (-> & _ & L). simpl walk. rewrite decide_False by done.
    simpl first_in. destruct (test b); [done|]. apply IH; [lia|done|].
    by destruct o.
Qed.

Lemma first_in_Some test l i : first_in test l = Some i → i ∈ l ∧ test i = true.
Proof.
  induction l as [|j l IH]; simpl; [done|]. destruct (test j) eqn:E; [|set_solver].
  intros [= ->]. set_solver.
Qed.

Lemma first_in_None test l i : first_in test l = None → i ∈ l → test i = false.
Proof.
  induction l as [|j l IH]; simpl; [set_solver|]. destruct (test j) eqn:E; [done|].
  intros ? [->|?]%elem_of_cons; auto.
Qed.

Lemma first_in_exists test l i : i ∈ l → test i = true → is_Some (first_in test l).
Proof.
  intros Hi Ht. destruct (first_in test l) eqn:E; [by eexists|].
  by rewrite (first_in_None _ _ _ E Hi) in Ht.
Qed.
End linked.
