(* ===== verification/Bio.v ===== *)
(** * The disk and the buffer cache (memide.c, bio.c)

    [iderw] and [ideintr] are the in-memory disk driver of memide.c, an
    instance of the interface [Driver] through which the kernel calls the
    driver it is linked with; [binit], [bget],
    [bread], [bwrite] and [brelse] are bio.c.  [bcache.buf] is the table
    [k_bcache], with the list header [bcache.head] as its last entry, and the
    MRU list is threaded through [b_next] and [b_prev] as in the source.

    The main results: the cache never holds a block twice, its linked list
    stays a permutation of the buffers, a buffer with a reference or with
    unwritten data is never recycled, and [bread] returns the current
    contents of the block. *)
From S2P Require Import Prelude State Sync Dll.

(** ** Flags *)
Definition has_flag (f m : Z) : bool := negb (Z.land f m =? 0).
Definition set_flag (f m : Z) : Z := Z.lor f m.
Definition clear_flag (f m : Z) : Z := Z.land f (Z.lnot m).

(** ** memide.c *)
Definition iderw (i : nat) : KM unit :=
  h <- holdingsleep (SlBuf i) ;;
  if negb h then panic "iderw: buf not locked" else
  b <- gets (λ s, get_buf s i) ;;
  if Z.land (b_flags b) (Z.lor B_VALID B_DIRTY) =? B_VALID then panic "iderw: nothing to do" else
  if negb (b_dev b =? 1) then panic "iderw: request not for disk 1" else
  size <- gets k_disksize ;;
  if size <=? b_blockno b then panic "iderw: block out of range" else
  (if has_flag (b_flags b) B_DIRTY then
     upd_buf i (λ b, b <| b_flags ::= λ f, clear_flag f B_DIRTY |>) ;;
     modify (λ s, s <| k_disk := disk_put (k_disk s) (b_blockno b) (b_data b) |>)
   else
     modify (λ s, s <| k_bcache ::=
        alter (λ q, q <| b_data := disk_get (k_disk s) (b_blockno b) |>) i |>)) ;;
  upd_buf i (λ b, b <| b_flags ::= λ f, set_flag f B_VALID |>).

(** Its interrupt handler does nothing. *)
Definition ideintr : KM unit := ret tt.

(** What the kernel needs of a disk driver: the synchronisation of a buffer
    with the disk and the interrupt handler.  The kernel is linked with ide.c
    or with memide.c; the routines that use the disk take the driver as an
    argument.  Where none is given it is memide.c. *)
Class Driver := { drv_iderw : nat → KM unit; drv_ideintr : KM unit }.
#[global] Instance memide : Driver := {| drv_iderw := iderw; drv_ideintr := ideintr |}.

(** ** bio.c *)

(** One iteration of the loop of [binit]: link buffer [i] after the header. *)
Definition binit1 (i : nat) : KM unit :=
  hn <- gets (λ s, b_next (get_buf s NBUF)) ;;
  upd_buf i (λ b, b <| b_next := hn |>) ;;
  upd_buf i (λ b, b <| b_prev := NBUF |>) ;;
  initsleeplock (SlBuf i) ;;
  hn <- gets (λ s, b_next (get_buf s NBUF)) ;;
  upd_buf hn (λ b, b <| b_prev := i |>) ;;
  upd_buf NBUF (λ b, b <| b_next := i |>).

Definition binit : KM unit :=
  upd_buf NBUF (λ b, b <| b_prev := NBUF |>) ;;
  upd_buf NBUF (λ b, b <| b_next := NBUF |>) ;;
  foreach binit1 (seq 0 NBUF).

Definition is_block (dev blockno : Z) (b : buf) : bool :=
  (b_dev b =? dev) && (b_blockno b =? blockno).

Definition is_recyclable (b : buf) : bool :=
  (b_refcnt b =? 0) && (Z.land (b_flags b) B_DIRTY =? 0).

(** [for(b = bcache.head.next; b != &bcache.head; b = b->next)] and its
    backward twin; [S NBUF] steps reach the header of a well-formed list. *)
Definition scan_next (test : buf → bool) (s : kstate) : option nat :=
  walk (S NBUF) (λ i, b_next (get_buf s i)) NBUF (λ i, test (get_buf s i)) (b_next (get_buf s NBUF)).
Definition scan_prev (test : buf → bool) (s : kstate) : option nat :=
  walk (S NBUF) (λ i, b_prev (get_buf s i)) NBUF (λ i, test (get_buf s i)) (b_prev (get_buf s NBUF)).

Definition bget (dev blockno : Z) : KM nat :=
  acquire LkBcache ;;
  hit <- gets (scan_next (is_block dev blockno)) ;;
  match hit with
  | Some i =>
      upd_buf i (λ b, b <| b_refcnt ::= λ r, u32 (r + 1) |>) ;;
      release LkBcache ;;
      acquiresleep (SlBuf i) ;;
      ret i
  | None =>
      victim <- gets (scan_prev is_recyclable) ;;
      match victim with
      | Some i =>
          upd_buf i (λ b, b <| b_dev := dev |> <| b_blockno := blockno |>
                            <| b_flags := 0 |> <| b_refcnt := 1 |>) ;;
          release LkBcache ;;
          acquiresleep (SlBuf i) ;;
          ret i
      | None => panic "bget: no buffers"
      end
  end.

Definition bread `{Driver} (dev blockno : Z) : KM nat :=
  i <- bget dev blockno ;;
  f <- gets (λ s, b_flags (get_buf s i)) ;;
  when (Z.land f B_VALID =? 0) (drv_iderw i) ;;
  ret i.

Definition bwrite `{Driver} (i : nat) : KM unit :=
  h <- holdingsleep (SlBuf i) ;;
  if negb h then panic "bwrite" else
  upd_buf i (λ b, b <| b_flags ::= λ f, set_flag f B_DIRTY |>) ;;
  drv_iderw i.

Definition brelse (i : nat) : KM unit :=
  h <- holdingsleep (SlBuf i) ;;
  if negb h then panic "brelse" else
  releasesleep (SlBuf i) ;;
  acquire LkBcache ;;
  upd_buf i (λ b, b <| b_refcnt ::= λ r, u32 (r - 1) |>) ;;
  b <- gets (λ s, get_buf s i) ;;
  when (b_refcnt b =? 0)
    (upd_buf (b_next b) (λ q, q <| b_prev := b_prev b |>) ;;
     upd_buf (b_prev b) (λ q, q <| b_next := b_next b |>) ;;
     hn <- gets (λ s, b_next (get_buf s NBUF)) ;;
     upd_buf i (λ q, q <| b_next := hn |>) ;;
     upd_buf i (λ q, q <| b_prev := NBUF |>) ;;
     hn <- gets (λ s, b_next (get_buf s NBUF)) ;;
     upd_buf hn (λ q, q <| b_prev := i |>) ;;
     upd_buf NBUF (λ q, q <| b_next := i |>)) ;;
  release LkBcache.

(** ** Flag bits *)
Definition valid (b : buf) : bool := Z.testbit (b_flags b) 1.
Definition dirty (b : buf) : bool := Z.testbit (b_flags b) 2.
Definition blocked (b : buf) : bool := sl_locked (b_lock b).

Lemma land_pow2 f n : 0 ≤ n → Z.land f (2 ^ n) = if Z.testbit f n then 2 ^ n else 0.
Proof.
  intros Hn. apply Z.bits_inj'. intros k Hk. rewrite Z.land_spec.
  destruct (decide (k = n)) as [->|Hne].
  - rewrite Z.pow2_bits_true by done. destruct (Z.testbit f n); simpl.
    + by rewrite Z.pow2_bits_true.
    + by rewrite Z.bits_0.
  - rewrite Z.pow2_bits_false, andb_false_r by done. destruct (Z.testbit f n).
    + by rewrite Z.pow2_bits_false.
    + by rewrite Z.bits_0.
Qed.

Lemma land_valid f : (Z.land f B_VALID =? 0) = negb (Z.testbit f 1).
Proof. change B_VALID with (2 ^ 1). rewrite (land_pow2 f 1) by lia. by destruct (Z.testbit f 1). Qed.
Lemma land_dirty f : (Z.land f B_DIRTY =? 0) = negb (Z.testbit f 2).
Proof. change B_DIRTY with (2 ^ 2). rewrite (land_pow2 f 2) by lia. by destruct (Z.testbit f 2). Qed.
Lemma land_both f :
  (Z.land f (Z.lor B_VALID B_DIRTY) =? B_VALID) = Z.testbit f 1 && negb (Z.testbit f 2).
Proof.
  rewrite Z.land_lor_distr_r. change B_VALID with (2 ^ 1). change B_DIRTY with (2 ^ 2).
  rewrite (land_pow2 f 1), (land_pow2 f 2) by lia.
  by destruct (Z.testbit f 1), (Z.testbit f 2).
Qed.

Lemma set_valid_bits f :
  Z.testbit (set_flag f B_VALID) 1 = true ∧ Z.testbit (set_flag f B_VALID) 2 = Z.testbit f 2.
Proof. unfold set_flag. rewrite !Z.lor_spec. simpl. by rewrite orb_true_r, orb_false_r. Qed.
Lemma set_dirty_bits f :
  Z.testbit (set_flag f B_DIRTY) 1 = Z.testbit f 1 ∧ Z.testbit (set_flag f B_DIRTY) 2 = true.
Proof. unfold set_flag. rewrite !Z.lor_spec. simpl. by rewrite orb_true_r, orb_false_r. Qed.
Lemma clear_dirty_bits f :
  Z.testbit (clear_flag f B_DIRTY) 1 = Z.testbit f 1 ∧ Z.testbit (clear_flag f B_DIRTY) 2 = false.
Proof.
  unfold clear_flag. rewrite !Z.land_spec, !Z.lnot_spec by lia. simpl.
  by rewrite andb_true_r, andb_false_r.
Qed.

(** ** Invariant

    [bc_inv bs dk]: the well-formedness of the cache table [bs] over the disk
    [dk], at the points where no buffer is being modified. *)
Definition nx (bs : list buf) (i : nat) : nat := b_next (bs !!! i).
Definition pv (bs : list buf) (i : nat) : nat := b_prev (bs !!! i).

Definition mru (bs : list buf) (order : list nat) : Prop :=
  order ≡ₚ seq 0 NBUF ∧ linked (nx bs) (pv bs) (NBUF :: order ++ [NBUF]).

Record bc_inv (bs : list buf) (dk : disk) : Prop := {
  bi_len : length bs = S NBUF;
  bi_mru : ∃ order, mru bs order;
  bi_uniq i j : (i < NBUF)%nat → (j < NBUF)%nat →
    b_dev (bs !!! i) = ROOTDEV → b_dev (bs !!! j) = ROOTDEV →
    b_blockno (bs !!! i) = b_blockno (bs !!! j) → i = j;
  bi_ref i : (i < NBUF)%nat → b_refcnt (bs !!! i) = if blocked (bs !!! i) then 1 else 0;
  bi_clean i : (i < NBUF)%nat → b_dev (bs !!! i) = ROOTDEV →
    valid (bs !!! i) = true → dirty (bs !!! i) = false →
    b_data (bs !!! i) = disk_get dk (b_blockno (bs !!! i));
  bi_dirty i : (i < NBUF)%nat → dirty (bs !!! i) = true →
    valid (bs !!! i) = true ∧ b_dev (bs !!! i) = ROOTDEV;
  bi_dev i : (i < NBUF)%nat → blocked (bs !!! i) = true → b_dev (bs !!! i) = ROOTDEV }.

(** Buffer [i] caches block [b] of the root device. *)
Definition caches (bs : list buf) (b : Z) (i : nat) : Prop :=
  (i < NBUF)%nat ∧ b_dev (bs !!! i) = ROOTDEV ∧ b_blockno (bs !!! i) = b.

Definition find_block (bs : list buf) (b : Z) : option nat :=
  first_in (λ i, is_block ROOTDEV b (bs !!! i)) (seq 0 NBUF).

(** The current contents of block [b]: the cached copy if there is one. *)
Definition view (bs : list buf) (dk : disk) (b : Z) : block :=
  match find_block bs b with
  | Some i => if valid (bs !!! i) then b_data (bs !!! i) else disk_get dk b
  | None => disk_get dk b
  end.

Definition locked_block (bs : list buf) (b : Z) : Prop :=
  ∃ i, caches bs b i ∧ blocked (bs !!! i) = true.
Definition dirty_block (bs : list buf) (b : Z) : Prop :=
  ∃ i, caches bs b i ∧ dirty (bs !!! i) = true.

Lemma is_block_true dev b q : is_block dev b q = true ↔ b_dev q = dev ∧ b_blockno q = b.
Proof. unfold is_block. rewrite andb_true_iff, !Z.eqb_eq. done. Qed.

Lemma caches_inj bs dk b i j : bc_inv bs dk → caches bs b i → caches bs b j → i = j.
Proof. intros I (? & ? & ?) (? & ? & ?). eapply bi_uniq; eauto. congruence. Qed.

Lemma find_block_Some bs dk b i :
  bc_inv bs dk → find_block bs b = Some i ↔ caches bs b i.
Proof.
  intros I. unfold find_block. split.
  - intros [Hi Ht]%first_in_Some. apply elem_of_seq in Hi. apply is_block_true in Ht.
    unfold caches. naive_solver lia.
  - intros C. destruct (first_in_exists (λ i, is_block ROOTDEV b (bs !!! i)) (seq 0 NBUF) i)
      as [j Hj].
    + apply elem_of_seq. destruct C. lia.
    + apply is_block_true. by destruct C as (_ & ? & ?).
    + rewrite Hj. f_equal. apply first_in_Some in Hj as [Hj Ht].
      apply elem_of_seq in Hj. apply is_block_true in Ht.
      eapply caches_inj; eauto. unfold caches. naive_solver lia.
Qed.

Lemma find_block_None bs b i : find_block bs b = None → ¬ caches bs b i.
Proof.
  intros H (Hi & Hd & Hb).
  pose proof (first_in_None _ _ i H) as E.
  assert (is_block ROOTDEV b (bs !!! i) = true) by by apply is_block_true.
  rewrite E in *; [done|]. apply elem_of_seq. lia.
Qed.

Lemma view_cached bs dk b i :
  bc_inv bs dk → caches bs b i → valid (bs !!! i) = true → view bs dk b = b_data (bs !!! i).
Proof.
  intros I C V. unfold view. apply (find_block_Some _ _ _ _ I) in C. by rewrite C, V.
Qed.

Lemma view_invalid bs dk b i :
  bc_inv bs dk → caches bs b i → valid (bs !!! i) = false → view bs dk b = disk_get dk b.
Proof.
  intros I C V. unfold view. apply (find_block_Some _ _ _ _ I) in C. by rewrite C, V.
Qed.

Lemma view_uncached bs dk b : find_block bs b = None → view bs dk b = disk_get dk b.
Proof. intros H. unfold view. by rewrite H. Qed.

Lemma dirty_block_em bs dk b : bc_inv bs dk → dirty_block bs b ∨ ¬ dirty_block bs b.
Proof.
  intros I. destruct (find_block bs b) as [i|] eqn:E.
  - apply (find_block_Some _ _ _ _ I) in E as C. destruct (dirty (bs !!! i)) eqn:D.
    + left. by exists i.
    + right. intros (j & C' & D'). assert (i = j) as -> by (eapply caches_inj; eauto). congruence.
  - right. intros (j & C & _). by eapply find_block_None.
Qed.

(** A block whose buffer holds no unwritten data reads as the disk has it. *)
Lemma view_clean bs dk b : bc_inv bs dk → ¬ dirty_block bs b → view bs dk b = disk_get dk b.
Proof.
  intros I Hd. unfold view. destruct (find_block bs b) as [i|] eqn:E; [|done].
  apply (find_block_Some _ _ _ _ I) in E as C. destruct C as (Hi & Hdev & Hb).
  destruct (valid (bs !!! i)) eqn:V; [|done].
  rewrite (bi_clean _ _ I) by (first [done | apply not_true_is_false; intros ?; apply Hd; by exists i]).
  by rewrite Hb.
Qed.

(** ** Preservation *)
Lemma bc_inv_alter bs dk i f (q := bs !!! i) :
  bc_inv bs dk → (i < NBUF)%nat →
  b_next (f q) = b_next q → b_prev (f q) = b_prev q →
  b_refcnt (f q) = (if blocked (f q) then 1 else 0) →
  (b_dev (f q) = ROOTDEV → valid (f q) = true → dirty (f q) = false →
   b_data (f q) = disk_get dk (b_blockno (f q))) →
  (dirty (f q) = true → valid (f q) = true ∧ b_dev (f q) = ROOTDEV) →
  (blocked (f q) = true → b_dev (f q) = ROOTDEV) →
  (b_dev (f q) = ROOTDEV → ∀ j, (j < NBUF)%nat → j ≠ i → b_dev (bs !!! j) = ROOTDEV →
     b_blockno (bs !!! j) ≠ b_blockno (f q)) →
  bc_inv (alter f i bs) dk.
Proof.
  intros I Hi Hn Hp Hr Hc Hd Hl Hu.
  assert (Hlen : (i < length bs)%nat) by (rewrite (bi_len _ _ I); lia).
  pose proof (λ j, alter_total f bs i j Hlen) as T.
  split.
  - rewrite length_alter. apply I.
  - destruct (bi_mru _ _ I) as (order & P & L). exists order. split; [done|].
    eapply linked_ext; [|done]. intros j _. unfold nx, pv. rewrite T.
    case_decide; [subst j; fold q; by rewrite Hn, Hp|done].
  - intros j k Hj Hk. rewrite !T.
    destruct (decide (i = j)) as [<-|Hij], (decide (i = k)) as [<-|Hik]; fold q; [done|..].
    + intros Dq Dk E. destruct (Hu Dq k); congruence.
    + intros Dj Dq E. destruct (Hu Dq j); congruence.
    + by apply (bi_uniq _ _ I).
  - intros j. rewrite !T. case_decide; [done|]. by apply I.
  - intros j. rewrite !T. case_decide; [done|]. by apply I.
  - intros j. rewrite !T. case_decide; [done|]. by apply I.
  - intros j. rewrite !T. case_decide; [done|]. by apply I.
Qed.

(** Writing a block to disk keeps the other clean buffers coherent. *)
Lemma bc_inv_disk bs dk i d :
  bc_inv bs dk → (i < NBUF)%nat → b_dev (bs !!! i) = ROOTDEV →
  dirty (bs !!! i) = true ∨ valid (bs !!! i) = false →
  bc_inv bs (disk_put dk (b_blockno (bs !!! i)) d).
Proof.
  intros I Hi Hdev Hs. split; try apply I.
  intros j Hj Hdj V D. rewrite (bi_clean _ _ I) by done.
  unfold disk_put, disk_get. simpl. rewrite (proj2 (Z.eqb_neq _ _)); [done|].
  intros E. assert (i = j) by (eapply bi_uniq; eauto). subst j. naive_solver congruence.
Qed.

(** The cached contents of [b] after a change to one buffer. *)
Lemma caches_alter bs i f b j :
  (i < length bs)%nat → b_dev (f (bs !!! i)) = b_dev (bs !!! i) →
  b_blockno (f (bs !!! i)) = b_blockno (bs !!! i) →
  caches (alter f i bs) b j ↔ caches bs b j.
Proof.
  intros Hi Hd Hb. unfold caches. rewrite !alter_total by done.
  case_decide; [subst; by rewrite Hd, Hb|done].
Qed.

Lemma view_caches bs dk b i :
  bc_inv bs dk → caches bs b i →
  view bs dk b = if valid (bs !!! i) then b_data (bs !!! i) else disk_get dk b.
Proof. intros I C. unfold view. apply (find_block_Some _ _ _ _ I) in C. by rewrite C. Qed.

(** Two tables that cache the same blocks with the same data show the same
    contents. *)
Lemma view_ext bs dk bs' dk' b :
  bc_inv bs dk → bc_inv bs' dk' →
  (∀ i, caches bs b i → caches bs' b i ∧ valid (bs' !!! i) = valid (bs !!! i) ∧
        (valid (bs !!! i) = true → b_data (bs' !!! i) = b_data (bs !!! i))) →
  (∀ i, caches bs' b i → caches bs b i) →
  disk_get dk' b = disk_get dk b →
  view bs' dk' b = view bs dk b.
Proof.
  intros I I' H1 H2 Hd. destruct (find_block bs b) as [i|] eqn:E.
  - apply (find_block_Some _ _ _ _ I) in E as C. destruct (H1 i C) as (C' & V & D).
    rewrite (view_caches _ _ _ _ I C), (view_caches _ _ _ _ I' C'), V, Hd.
    destruct (valid (bs !!! i)); auto.
  - rewrite (view_uncached _ _ _ E). destruct (find_block bs' b) as [j|] eqn:E'.
    + apply (find_block_Some _ _ _ _ I'), H2 in E'. by destruct (find_block_None _ _ _ E E').
    + by rewrite (view_uncached _ _ _ E').
Qed.

(** ** The scans of bget *)
Lemma mru_props bs order : mru bs order → length order = NBUF ∧ NBUF ∉ order ∧ NoDup (NBUF :: order).
Proof.
  intros [P _]. assert (NBUF ∉ order).
  { rewrite P. rewrite elem_of_seq. lia. }
  split_and!; [by rewrite P, length_seq|done|].
  apply NoDup_cons. split; [done|]. rewrite P. apply NoDup_seq.
Qed.

Lemma scan_next_order test s order :
  mru (k_bcache s) order →
  scan_next test s = first_in (λ i, test (get_buf s i)) order.
Proof.
  intros H. destruct (mru_props _ _ H) as (Hl & Hn & _). destruct H as [_ L].
  unfold scan_next.
  apply (walk_linked (nx (k_bcache s)) (pv (k_bcache s)) NBUF _ (S NBUF) NBUF order);
    [rewrite Hl; lia|done|exact L].
Qed.

Lemma scan_prev_order test s order :
  mru (k_bcache s) order →
  scan_prev test s = first_in (λ i, test (get_buf s i)) (reverse order).
Proof.
  intros H. destruct (mru_props _ _ H) as (Hl & Hn & _). destruct H as [_ L].
  unfold scan_prev.
  apply (walk_linked (pv (k_bcache s)) (nx (k_bcache s)) NBUF _ (S NBUF) NBUF (reverse order)).
  - rewrite length_reverse, Hl. lia.
  - by rewrite elem_of_reverse.
  - apply linked_rev in L. rewrite reverse_cons, reverse_app in L. exact L.
Qed.

Lemma scan_next_cached s b i :
  bc_inv (k_bcache s) (k_disk s) → caches (k_bcache s) b i →
  scan_next (is_block ROOTDEV b) s = Some i.
Proof.
  intros I C. destruct (bi_mru _ _ I) as [order O]. rewrite (scan_next_order _ _ _ O).
  destruct O as [P _]. destruct C as (Hi & Hd & Hb) eqn:?.
  destruct (first_in_exists (λ i, is_block ROOTDEV b (get_buf s i)) order i) as [j Hj].
  - rewrite P, elem_of_seq. lia.
  - by apply is_block_true.
  - rewrite Hj. f_equal. apply first_in_Some in Hj as [Hj [Hd' Hb']%is_block_true].
    rewrite P, elem_of_seq in Hj. eapply caches_inj; [done| |done].
    split_and!; [lia|done..].
Qed.

Lemma scan_next_uncached s b :
  bc_inv (k_bcache s) (k_disk s) → find_block (k_bcache s) b = None →
  scan_next (is_block ROOTDEV b) s = None.
Proof.
  intros I N. destruct (bi_mru _ _ I) as [order O]. rewrite (scan_next_order _ _ _ O).
  destruct O as [P _].
  destruct (first_in _ _) as [j|] eqn:E; [|done]. exfalso.
  apply first_in_Some in E as [Hj [Hd Hb]%is_block_true]. rewrite P, elem_of_seq in Hj.
  eapply find_block_None; [done|]. split_and!; [|done..]. lia.
Qed.

Lemma is_recyclable_true q : is_recyclable q = true ↔ b_refcnt q = 0 ∧ dirty q = false.
Proof.
  unfold is_recyclable, dirty. rewrite andb_true_iff, Z.eqb_eq, land_dirty, negb_true_iff. done.
Qed.

(** A recyclable buffer exists unless all are locked or dirty. *)
Lemma scan_prev_victim s :
  bc_inv (k_bcache s) (k_disk s) →
  (countb dirty (k_bcache s) + countb blocked (k_bcache s) < NBUF)%nat →
  ∃ v, scan_prev is_recyclable s = Some v ∧ (v < NBUF)%nat ∧
       blocked (get_buf s v) = false ∧ dirty (get_buf s v) = false.
Proof.
  intros I C. destruct (bi_mru _ _ I) as [order O]. rewrite (scan_prev_order _ _ _ O).
  destruct O as [P _].
  destruct (first_in _ _) as [v|] eqn:E.
  - exists v. apply first_in_Some in E as [Hv Ht%is_recyclable_true].
    rewrite elem_of_reverse, P, elem_of_seq in Hv. destruct Ht as [Hr Hd].
    split_and!; [done|lia| |done]. unfold get_buf in *. rewrite (bi_ref _ _ I) in Hr by lia.
    by destruct (blocked _).
  - exfalso. enough (NBUF ≤ countb dirty (k_bcache s) + countb blocked (k_bcache s))%nat by lia.
    assert (NBUF ≤ countb (λ b, dirty b || blocked b) (k_bcache s))%nat as Hc.
    { apply countb_full; [rewrite (bi_len _ _ I); lia|]. intros i Hi.
      pose proof (first_in_None _ _ i E) as F. rewrite elem_of_reverse, P, elem_of_seq in F.
      specialize (F ltac:(lia)). apply not_true_iff_false in F.
      rewrite is_recyclable_true in F. unfold get_buf in F.
      rewrite (bi_ref _ _ I) in F by done.
      destruct (dirty _), (blocked _); naive_solver. }
    etransitivity; [exact Hc|]. clear. induction (k_bcache s) as [|x l IH]; simpl; [done|].
    destruct (dirty x), (blocked x); simpl; lia.
Qed.

(** ** Running the cache operations *)

Lemma kbc_ext (f g : list buf → list buf) s :
  f (k_bcache s) = g (k_bcache s) → s <| k_bcache ::= f |> = s <| k_bcache ::= g |>.
Proof. intros E. unfold upd. simpl. by rewrite E. Qed.
Lemma kbc_ext2 (f g h : list buf → list buf) s :
  g (f (k_bcache s)) = h (k_bcache s) →
  s <| k_bcache ::= f |> <| k_bcache ::= g |> = s <| k_bcache ::= h |>.
Proof. intros E. unfold upd. simpl. by rewrite E. Qed.

(** Process [p] runs on the CPU and holds no spin lock. *)
Definition runs (p : nat) (s : kstate) : Prop := k_locks s = [] ∧ k_cpu_proc s = Some p.
Definition pid_of (s : kstate) (p : nat) : Z := p_pid (get_proc s p).

(** Process [p] holds the sleep lock of buffer [i]. *)
Definition mine (s : kstate) (p : nat) (q : buf) : Prop := b_lock q = SleepLock true (pid_of s p).

Definition grab (pid : Z) (q : buf) : buf :=
  q <| b_refcnt := 1 |> <| b_lock := SleepLock true pid |>.
Definition recycle (pid b : Z) (q : buf) : buf :=
  q <| b_dev := ROOTDEV |> <| b_blockno := b |> <| b_flags := 0 |>
    <| b_refcnt := 1 |> <| b_lock := SleepLock true pid |>.

Lemma bget_hit p b i env s :
  runs p s → bc_inv (k_bcache s) (k_disk s) → caches (k_bcache s) b i →
  blocked (get_buf s i) = false →
  bget ROOTDEV b env s = Done i (s <| k_bcache ::= alter (grab (pid_of s p)) i |>) env.
Proof.
  intros [Hl Hp] I C Hb. unfold bget.
  step acquire_ok by (rewrite Hl; apply not_elem_of_nil). mstep.
  change (scan_next ?t (s <| k_locks ::= ?f |>)) with (scan_next t s).
  rewrite (scan_next_cached _ _ _ I C). unfold upd_buf. mstep.
  step release_ok.
  assert (Hlen : (i < length (k_bcache s))%nat) by (rewrite (bi_len _ _ I); destruct C; lia).
  step (acquiresleep_free _ p) by
    first [done | simpl; unfold get_buf; simpl; rewrite alter_total, decide_True by done; done].
  unfold ret. f_equal. unfold set_sl. unfold upd; simpl. rewrite Hl. f_equal.
  rewrite list_alter_alter_eq. apply alter_ext_total.
  unfold compose, grab. destruct C as [Hi _]. unfold get_buf in Hb.
  pose proof (bi_ref _ _ I i Hi) as R. rewrite Hb in R. unfold upd; simpl. by rewrite R.
Qed.

Lemma bget_miss p b env s :
  runs p s → bc_inv (k_bcache s) (k_disk s) → find_block (k_bcache s) b = None →
  (countb dirty (k_bcache s) + countb blocked (k_bcache s) < NBUF)%nat →
  ∃ v, (v < NBUF)%nat ∧ blocked (get_buf s v) = false ∧ dirty (get_buf s v) = false ∧
    bget ROOTDEV b env s = Done v (s <| k_bcache ::= alter (recycle (pid_of s p) b) v |>) env.
Proof.
  intros [Hl Hp] I N Hc.
  destruct (scan_prev_victim s I Hc) as (v & Sv & Hv & Hb & Hd). exists v.
  split_and!; [done..|]. unfold bget.
  step acquire_ok by (rewrite Hl; apply not_elem_of_nil). mstep.
  change (scan_next ?t (s <| k_locks ::= ?f |>)) with (scan_next t s).
  rewrite (scan_next_uncached _ _ I N). mstep.
  change (scan_prev ?t (s <| k_locks ::= ?f |>)) with (scan_prev t s).
  rewrite Sv. unfold upd_buf. mstep. step release_ok.
  assert (Hlen : (v < length (k_bcache s))%nat) by (rewrite (bi_len _ _ I); lia).
  step (acquiresleep_free _ p) by
    first [done | simpl; unfold get_buf; simpl; rewrite alter_total, decide_True by done; done].
  unfold ret. f_equal. unfold set_sl. unfold upd; simpl. rewrite Hl. f_equal.
  by rewrite list_alter_alter_eq.
Qed.

Lemma bget_full b env s :
  k_locks s = [] → bc_inv (k_bcache s) (k_disk s) → find_block (k_bcache s) b = None →
  (∀ i, (i < NBUF)%nat → blocked (get_buf s i) = true ∨ dirty (get_buf s i) = true) →
  bget ROOTDEV b env s = Panic "bget: no buffers".
Proof.
  intros Hl I N Hall. unfold bget.
  step acquire_ok by (rewrite Hl; apply not_elem_of_nil). mstep.
  change (scan_next ?t (s <| k_locks ::= ?f |>)) with (scan_next t s).
  rewrite (scan_next_uncached _ _ I N). mstep.
  change (scan_prev ?t (s <| k_locks ::= ?f |>)) with (scan_prev t s).
  destruct (bi_mru _ _ I) as [order O]. rewrite (scan_prev_order _ _ _ O). destruct O as [P _].
  destruct (first_in _ _) as [v|] eqn:E; [|done]. exfalso.
  apply first_in_Some in E as [Hv Ht%is_recyclable_true].
  rewrite elem_of_reverse, P, elem_of_seq in Hv. destruct Ht as [Hr Hd].
  unfold get_buf in *. rewrite (bi_ref _ _ I) in Hr by lia.
  destruct (Hall v) as [Hb|Hb]; [lia| |congruence]. by rewrite Hb in Hr.
Qed.

Lemma iderw_read p i env s (q := get_buf s i) :
  runs p s → mine s p q → valid q = false → dirty q = false → b_dev q = ROOTDEV →
  b_blockno q < k_disksize s →
  iderw i env s =
    Done tt (s <| k_bcache ::= alter (λ q, q <| b_data := disk_get (k_disk s) (b_blockno q) |>
                                            <| b_flags ::= λ f, set_flag f B_VALID |>) i |>) env.
Proof.
  intros [Hl Hp] Hm Hv Hd Hdev Hsz. unfold iderw.
  step (holdingsleep_ok _ p). mstep. fold q. rewrite land_both.
  unfold valid, dirty in *. rewrite Hv. simpl negb. cbv iota.
  rewrite Hdev. change (negb (ROOTDEV =? 1)) with false. cbv iota. mstep.
  rewrite (proj2 (Z.leb_gt _ _)) by done.
  unfold has_flag. rewrite land_dirty, Hd. simpl negb. cbv iota. unfold upd_buf. mstep.
  unfold modify. f_equal. apply kbc_ext2.
  rewrite list_alter_alter_eq. by apply alter_ext_total.
Qed.

Lemma iderw_write p i env s (q := get_buf s i) :
  runs p s → mine s p q → dirty q = true → b_dev q = ROOTDEV → b_blockno q < k_disksize s →
  iderw i env s =
    Done tt (s <| k_bcache ::= alter (λ q, q <| b_flags ::= λ f, set_flag (clear_flag f B_DIRTY) B_VALID |>) i |>
               <| k_disk ::= λ d, disk_put d (b_blockno q) (b_data q) |>) env.
Proof.
  intros [Hl Hp] Hm Hd Hdev Hsz. unfold iderw.
  step (holdingsleep_ok _ p). mstep. fold q. rewrite land_both.
  unfold valid, dirty in *. rewrite Hd. rewrite andb_false_r. simpl negb. cbv iota.
  rewrite Hdev. change (negb (ROOTDEV =? 1)) with false. cbv iota. mstep.
  rewrite (proj2 (Z.leb_gt _ _)) by done.
  unfold has_flag. rewrite land_dirty, Hd. simpl negb. cbv iota. unfold upd_buf. mstep.
  unfold modify. f_equal. unfold upd. simpl. f_equal.
  by rewrite list_alter_alter_eq.
Qed.

(** What [bread] leaves in the buffer it returns. *)
Record reads (pid b : Z) (d : block) (q q' : buf) : Prop := {
  rd_next : b_next q' = b_next q;
  rd_prev : b_prev q' = b_prev q;
  rd_ref : b_refcnt q' = 1;
  rd_lock : b_lock q' = SleepLock true pid;
  rd_dev : b_dev q' = ROOTDEV;
  rd_blockno : b_blockno q' = b;
  rd_valid : valid q' = true;
  rd_dirty : dirty q' = dirty q;
  rd_data : b_data q' = d }.

Definition fill (dk : disk) (q : buf) : buf :=
  q <| b_data := disk_get dk (b_blockno q) |> <| b_flags ::= λ f, set_flag f B_VALID |>.

(** The tail of [bread] once [bget] has left [g q] in buffer [i]. *)
Lemma bread_fill p i g env s (q := g (k_bcache s !!! i)) :
  runs p s → (i < length (k_bcache s))%nat → b_lock q = SleepLock true (pid_of s p) →
  dirty q = false ∨ valid q = true → b_dev q = ROOTDEV → b_blockno q < k_disksize s →
  (f <- gets (λ s, b_flags (get_buf s i)) ;; when (Z.land f B_VALID =? 0) (iderw i) ;; ret i)
    env (s <| k_bcache ::= alter g i |>) =
  Done i (s <| k_bcache ::= alter (λ x, if valid (g x) then g x else fill (k_disk s) (g x)) i |>) env.
Proof.
  intros R Hi Hm Hdv Hdev Hsz. mstep.
  assert (G : get_buf (s <| k_bcache ::= alter g i |>) i = q)
    by (unfold get_buf; simpl; by rewrite alter_total, decide_True).
  rewrite G, land_valid. fold (valid q). unfold when. destruct (valid q) eqn:V; simpl negb; cbv iota.
  - mstep. unfold ret. f_equal. apply kbc_ext, alter_ext_total. unfold q in V. by rewrite V.
  - step (iderw_read p) by (rewrite ?G; naive_solver).
    unfold ret. f_equal. apply kbc_ext2. rewrite list_alter_alter_eq.
    apply alter_ext_total. unfold q in V. simpl. by rewrite V.
Qed.

Lemma reads_fill pid b dk q0 q :
  b_next q = b_next q0 → b_prev q = b_prev q0 → b_refcnt q = 1 → b_lock q = SleepLock true pid →
  b_dev q = ROOTDEV → b_blockno q = b → dirty q = dirty q0 →
  reads pid b (if valid q then b_data q else disk_get dk b) q0
    (if valid q then q else fill dk q).
Proof.
  intros. destruct (valid q) eqn:V; split; try done; unfold fill; simpl.
  - unfold valid. simpl. apply set_valid_bits.
  - unfold dirty. simpl. destruct (set_valid_bits (b_flags q)) as [_ ->]. done.
  - congruence.
Qed.

Lemma bread_exact p b env s (bs := k_bcache s) :
  runs p s → bc_inv bs (k_disk s) → b < k_disksize s →
  ¬ locked_block bs b →
  (find_block bs b = None → (countb dirty bs + countb blocked bs < NBUF)%nat) →
  ∃ i f, (i < NBUF)%nat ∧ blocked (bs !!! i) = false ∧
    (caches bs b i ∨ find_block bs b = None ∧ dirty (bs !!! i) = false) ∧
    reads (pid_of s p) b (view bs (k_disk s) b) (bs !!! i) (f (bs !!! i)) ∧
    bread ROOTDEV b env s = Done i (s <| k_bcache ::= alter f i |>) env.
Proof.
  intros R I Hb Hnl Hc. unfold bread.
  destruct (find_block bs b) as [i|] eqn:E.
  - apply (find_block_Some _ _ _ _ I) in E as C. destruct C as (Hi & Hdev & Hbn) eqn:HC.
    assert (Hu : blocked (bs !!! i) = false).
    { apply not_true_is_false. intros ?. apply Hnl. by exists i. }
    eexists i, _. split_and!; [done|done|by left| |].
    2:{ run (bget_hit p b i env s R I C Hu). apply (bread_fill p); try done.
        - fold bs. rewrite (bi_len _ _ I). lia.
        - destruct (dirty (bs !!! i)) eqn:D; [right|by left].
          by apply (bi_dirty _ _ I) in D as [? _].
        - fold bs. simpl. lia. }
    rewrite (view_caches _ _ _ _ I C).
    apply (reads_fill _ _ _ _ (grab (pid_of s p) (bs !!! i))); done.
  - destruct (bget_miss p b env s R I E (Hc eq_refl)) as (v & Hv & Hu & Hd & G).
    eexists v, _. split_and!; [done|done|by right| |].
    2:{ run G. apply (bread_fill p); try done; [fold bs; rewrite (bi_len _ _ I); lia|by left]. }
    rewrite (view_uncached _ _ _ E).
    apply (reads_fill _ _ _ _ (recycle (pid_of s p) b (bs !!! v))); done.
Qed.

(** ** The effect of bread on the cache *)
Section reads.
Context (bs : list buf) (dk : disk) (pid b : Z) (i : nat) (f : buf → buf).
Context (I : bc_inv bs dk) (Hi : (i < NBUF)%nat) (Hu : blocked (bs !!! i) = false).
Context (Hc : caches bs b i ∨ find_block bs b = None ∧ dirty (bs !!! i) = false).
Context (R : reads pid b (view bs dk b) (bs !!! i) (f (bs !!! i))).

Let bs' := alter f i bs.

Lemma rd_lookup j : bs' !!! j = if decide (i = j) then f (bs !!! i) else bs !!! j.
Proof. unfold bs'. apply alter_total. rewrite (bi_len _ _ I). lia. Qed.

Lemma rd_caches : caches bs' b i.
Proof. split; [done|]. rewrite rd_lookup, decide_True by done. split; apply R. Qed.

Lemma rd_other_block j : (j < NBUF)%nat → j ≠ i → b_dev (bs !!! j) = ROOTDEV →
  b_blockno (bs !!! j) ≠ b.
Proof.
  intros Hj Hne Hd Hb. destruct Hc as [C|[N _]].
  - apply Hne. eapply caches_inj; [done| |done]. by split_and!.
  - by eapply find_block_None; [exact N|split_and!].
Qed.

Lemma rd_dirty_block c : dirty_block bs' c ↔ dirty_block bs c.
Proof.
  unfold dirty_block, caches. split; intros (j & (Hj & Hd & Hb) & D); exists j; revert Hd Hb D;
    rewrite !rd_lookup; case_decide; subst; try done; intros Hd Hb D.
  - rewrite (rd_dirty _ _ _ _ _ R) in D. destruct Hc as [C|[_ ?]]; [|congruence].
    destruct C as (_ & ? & ?). rewrite (rd_blockno _ _ _ _ _ R) in Hb. subst c. done.
  - rewrite (rd_dirty _ _ _ _ _ R), (rd_dev _ _ _ _ _ R), (rd_blockno _ _ _ _ _ R).
    destruct Hc as [C|[_ ?]]; [|congruence]. destruct C as (_ & ? & ?).
    split_and!; congruence.
Qed.

Lemma rd_inv : bc_inv bs' dk.
Proof.
  apply bc_inv_alter; [done|done|apply R|apply R|..].
  - unfold blocked. rewrite (rd_lock _ _ _ _ _ R). apply R.
  - intros _ _ D. rewrite (rd_data _ _ _ _ _ R), (rd_blockno _ _ _ _ _ R).
    apply view_clean; [done|]. intros (j & C & Dj).
    assert (j = i) as ->; [|by rewrite (rd_dirty _ _ _ _ _ R), Dj in D].
    destruct Hc as [?|[N _]]; [by eapply caches_inj|by destruct (find_block_None _ _ _ N C)].
  - intros _. split; [apply R|apply R].
  - intros _. apply R.
  - intros _ j Hj Hne Hd. rewrite (rd_blockno _ _ _ _ _ R). by apply rd_other_block.
Qed.

Lemma rd_view c : view bs' dk c = view bs dk c.
Proof.
  destruct (decide (c = b)) as [->|Hcb].
  { rewrite (view_cached _ _ _ _ rd_inv rd_caches); rewrite rd_lookup, decide_True by done; apply R. }
  destruct (dirty_block_em _ _ c I) as [D|D].
  - destruct D as (j & C & D). assert (i ≠ j) as Hij.
    { intros ->. destruct Hc as [C'|[_ ?]]; [|congruence].
      apply Hcb. destruct C as (_ & _ & <-). by destruct C' as (_ & _ & ?). }
    assert (C' : caches bs' c j).
    { destruct C as (? & ? & ?). unfold caches. by rewrite rd_lookup, decide_False. }
    destruct (bi_dirty _ _ I j) as [V _]; [by destruct C|done|].
    rewrite (view_cached _ _ _ _ I C V).
    rewrite (view_cached _ _ _ _ rd_inv C'); by rewrite rd_lookup, decide_False.
  - rewrite (view_clean _ _ _ I D). apply view_clean; [apply rd_inv|]. by rewrite rd_dirty_block.
Qed.

Lemma rd_locked_block c : locked_block bs' c ↔ c = b ∨ locked_block bs c.
Proof.
  unfold locked_block. split.
  - intros (j & (Hj & Hd & Hb) & L). revert Hd Hb L. rewrite !rd_lookup. case_decide.
    + subst. rewrite (rd_blockno _ _ _ _ _ R). by left.
    + right. exists j. by split_and!.
  - intros [->|(j & C & L)].
    + exists i. split; [apply rd_caches|]. rewrite rd_lookup, decide_True by done.
      unfold blocked. by rewrite (rd_lock _ _ _ _ _ R).
    + exists j. assert (i ≠ j) by (intros ->; congruence).
      unfold caches. rewrite !rd_lookup, !decide_False by done. done.
Qed.

Lemma rd_counts :
  countb dirty bs' = countb dirty bs ∧ countb blocked bs' = S (countb blocked bs).
Proof.
  assert (L : (i < length bs)%nat) by (rewrite (bi_len _ _ I); lia).
  pose proof (countb_alter dirty f bs i L) as C1. pose proof (countb_alter blocked f bs i L) as C2.
  assert (B : blocked (f (bs !!! i)) = true) by (unfold blocked; by rewrite (rd_lock _ _ _ _ _ R)).
  fold bs' in C1, C2. rewrite (rd_dirty _ _ _ _ _ R) in C1. rewrite Hu, B in C2.
  destruct (dirty (bs !!! i)); lia.
Qed.
End reads.

(** ** Writing a buffer through to the disk *)
Definition wrote (d : block) (q : buf) : buf :=
  q <| b_data := d |>
    <| b_flags ::= λ f, set_flag (clear_flag (set_flag f B_DIRTY) B_DIRTY) B_VALID |>.

Lemma wrote_bits d q : valid (wrote d q) = true ∧ dirty (wrote d q) = false.
Proof.
  unfold valid, dirty, wrote. simpl.
  split; [apply set_valid_bits|].
  destruct (set_valid_bits (clear_flag (set_flag (b_flags q) B_DIRTY) B_DIRTY)) as [_ ->].
  apply clear_dirty_bits.
Qed.

(** [memmove(bp->data, d, BSIZE); bwrite(bp);] *)
Lemma bwrite_exact p i d env s (q := get_buf s i) :
  runs p s → (i < length (k_bcache s))%nat → mine s p q → b_dev q = ROOTDEV →
  b_blockno q < k_disksize s →
  (upd_buf i (λ q, q <| b_data := d |>) ;; bwrite i) env s =
    Done tt (s <| k_bcache ::= alter (wrote d) i |>
               <| k_disk ::= λ dk, disk_put dk (b_blockno q) d |>) env.
Proof.
  intros R Hi Hm Hdev Hsz. unfold bwrite, upd_buf. mstep.
  assert (G1 : ∀ f, get_buf (s <| k_bcache ::= alter f i |>) i = f q).
  { intros f. unfold get_buf. simpl. by rewrite alter_total, decide_True. }
  step (holdingsleep_ok _ p) by (destruct R; try done; unfold get_sl; by rewrite G1).
  mstep. rewrite (kbc_ext2 _ _ (alter ((λ b, b <| b_flags ::= λ f, set_flag f B_DIRTY |>) ∘
    (λ q, q <| b_data := d |>)) i)) by apply list_alter_alter_eq.
  rewrite (iderw_write p); rewrite ?G1; try done.
  - f_equal. unfold upd. simpl. f_equal. by rewrite list_alter_alter_eq.
  - unfold dirty. simpl. apply set_dirty_bits.
Qed.

Lemma disk_get_put dk b d c :
  disk_get (disk_put dk b d) c = if decide (c = b) then d else disk_get dk c.
Proof.
  unfold disk_put, disk_get. simpl.
  case_decide; subst; [by rewrite Z.eqb_refl|]. rewrite (proj2 (Z.eqb_neq _ _)); congruence.
Qed.

(** What a store to a held buffer leaves: data [d], still valid, dirty or
    not according to [dd]. *)
Record stores (d : block) (dd : bool) (q q' : buf) : Prop := {
  st_next : b_next q' = b_next q;
  st_prev : b_prev q' = b_prev q;
  st_ref : b_refcnt q' = b_refcnt q;
  st_lock : b_lock q' = b_lock q;
  st_dev : b_dev q' = b_dev q;
  st_blockno : b_blockno q' = b_blockno q;
  st_valid : valid q' = true;
  st_dirty : dirty q' = dd;
  st_data : b_data q' = d }.

Lemma stores_wrote d q : stores d false q (wrote d q).
Proof. destruct (wrote_bits d q). by split. Qed.

Section stores.
Context (bs : list buf) (dk dk' : disk) (b : Z) (i : nat) (f : buf → buf) (d : block) (dd : bool).
Context (I : bc_inv bs dk) (C : caches bs b i) (St : stores d dd (bs !!! i) (f (bs !!! i))).
Context (Hdk : ∀ c, c ≠ b → disk_get dk' c = disk_get dk c).
Context (Hdb : dd = false → disk_get dk' b = d).

Let bs' := alter f i bs.

Lemma wr_lookup j : bs' !!! j = if decide (i = j) then f (bs !!! i) else bs !!! j.
Proof. unfold bs'. apply alter_total. rewrite (bi_len _ _ I). destruct C. lia. Qed.

Lemma wr_caches c j : caches bs' c j ↔ caches bs c j.
Proof.
  unfold caches. rewrite !wr_lookup. case_decide; [subst|done].
  by rewrite (st_dev _ _ _ _ St), (st_blockno _ _ _ _ St).
Qed.

Lemma wr_blocked j : blocked (bs' !!! j) = blocked (bs !!! j).
Proof.
  rewrite wr_lookup. case_decide; [subst|done]. unfold blocked. by rewrite (st_lock _ _ _ _ St).
Qed.

Lemma wr_inv : bc_inv bs' dk'.
Proof.
  pose proof C as (Hi & Hdev & Hb). split.
  - unfold bs'. rewrite length_alter. apply I.
  - destruct (bi_mru _ _ I) as (order & P & L). exists order. split; [done|].
    eapply linked_ext; [|done]. intros j _. unfold nx, pv. rewrite wr_lookup.
    case_decide; [subst; split; symmetry; apply St|done].
  - intros j k Hj Hk Dj Dk E.
    assert (Cj : caches bs' (b_blockno (bs' !!! j)) j) by by split_and!.
    assert (Ck : caches bs' (b_blockno (bs' !!! j)) k) by by split_and!.
    apply wr_caches in Cj, Ck. by eapply caches_inj.
  - intros j Hj. rewrite wr_blocked, wr_lookup. case_decide; [subst|by apply (bi_ref _ _ I)].
    rewrite (st_ref _ _ _ _ St). by apply (bi_ref _ _ I).
  - intros j Hj. rewrite !wr_lookup. case_decide as Hij.
    + subst j. rewrite (st_dirty _ _ _ _ St), (st_data _ _ _ _ St), (st_blockno _ _ _ _ St), Hb.
      intros _ _ ->. by rewrite Hdb.
    + intros Dj Vj Cj. rewrite (bi_clean _ _ I) by done. rewrite Hdk; [done|].
      intros E. apply Hij. by apply (bi_uniq _ _ I); congruence.
  - intros j Hj. rewrite !wr_lookup. case_decide; [|by apply (bi_dirty _ _ I)].
    subst. intros _. split; [apply St|]. by rewrite (st_dev _ _ _ _ St).
  - intros j Hj. rewrite wr_blocked, wr_lookup. intros B. case_decide; [|by apply (bi_dev _ _ I)].
    subst. by rewrite (st_dev _ _ _ _ St).
Qed.

Lemma wr_dirty_block c : dirty_block bs' c ↔ (c = b ∧ dd = true) ∨ (c ≠ b ∧ dirty_block bs c).
Proof.
  unfold dirty_block. split.
  - intros (j & Cj & D). rewrite wr_lookup in D. apply wr_caches in Cj. case_decide as Hij.
    + subst j. left. rewrite (st_dirty _ _ _ _ St) in D. split; [|done].
      destruct Cj as (_ & _ & <-). by destruct C as (_ & _ & ?).
    + right. split; [|by exists j]. intros ->. by assert (i = j) by (eapply caches_inj; eauto).
  - intros [[Ec Ed]|(Hc & j & Cj & D)].
    + exists i. rewrite wr_caches, wr_lookup, decide_True by done.
      by rewrite Ec, (st_dirty _ _ _ _ St).
    + exists j. rewrite wr_caches. split; [done|].
      rewrite wr_lookup, decide_False; [done|]. intros ->. apply Hc.
      destruct Cj as (_ & _ & <-). by destruct C as (_ & _ & ?).
Qed.

Lemma wr_view c : view bs' dk' c = if decide (c = b) then d else view bs dk c.
Proof.
  case_decide as Hc.
  - subst c. rewrite (view_cached _ _ _ i wr_inv); [|by apply wr_caches|];
      rewrite wr_lookup, decide_True by done; apply St.
  - apply view_ext; [done|apply wr_inv|..].
    + intros j Cj. rewrite wr_caches. rewrite wr_lookup, decide_False; [done|].
      intros ->. apply Hc. destruct Cj as (_ & _ & <-). by destruct C as (_ & _ & ?).
    + intros j. by rewrite wr_caches.
    + by apply Hdk.
Qed.

Lemma wr_counts :
  countb blocked bs' = countb blocked bs ∧
  (countb dirty bs' + (if dirty (bs !!! i) then 1 else 0) =
   countb dirty bs + (if dd then 1 else 0))%nat.
Proof.
  assert (L : (i < length bs)%nat) by (rewrite (bi_len _ _ I); destruct C; lia).
  split.
  - apply countb_lookup; [unfold bs'; by rewrite length_alter|apply wr_blocked].
  - rewrite <-(st_dirty _ _ _ _ St). by apply countb_alter.
Qed.
End stores.

(** ** Releasing a buffer *)
Lemma nx_set_next a v bs j : (a < length bs)%nat →
  nx (alter (λ q, q <| b_next := v |>) a bs) j = <[a := v]> (nx bs) j.
Proof.
  intros Ha. unfold nx. rewrite alter_total by done. unfold insert, fn_insert.
  case_decide; by subst.
Qed.
Lemma pv_set_next a v bs j : (a < length bs)%nat →
  pv (alter (λ q, q <| b_next := v |>) a bs) j = pv bs j.
Proof. intros Ha. unfold pv. rewrite alter_total by done. case_decide; by subst. Qed.
Lemma pv_set_prev a v bs j : (a < length bs)%nat →
  pv (alter (λ q, q <| b_prev := v |>) a bs) j = <[a := v]> (pv bs) j.
Proof.
  intros Ha. unfold pv. rewrite alter_total by done. unfold insert, fn_insert.
  case_decide; by subst.
Qed.
Lemma nx_set_prev a v bs j : (a < length bs)%nat →
  nx (alter (λ q, q <| b_prev := v |>) a bs) j = nx bs j.
Proof. intros Ha. unfold nx. rewrite alter_total by done. case_decide; by subst. Qed.

Lemma fn_insert_ext (a v : nat) (f g : nat → nat) j :
  (∀ j, f j = g j) → <[a := v]> f j = <[a := v]> g j.
Proof. intros E. unfold insert, fn_insert. by case_decide. Qed.

(** The pointer assignments of [brelse], on the table. *)
Definition to_front (i : nat) (bs : list buf) : list buf :=
  let bs1 := alter (λ q, q <| b_prev := pv bs i |>) (nx bs i) bs in
  let bs2 := alter (λ q, q <| b_next := nx bs i |>) (pv bs i) bs1 in
  let bs3 := alter (λ q, q <| b_next := nx bs2 NBUF |>) i bs2 in
  let bs4 := alter (λ q, q <| b_prev := NBUF |>) i bs3 in
  let bs5 := alter (λ q, q <| b_prev := i |>) (nx bs4 NBUF) bs4 in
  alter (λ q, q <| b_next := i |>) NBUF bs5.

(** Two buffers that differ at most in their list pointers. *)
Definition link_eq (q q' : buf) : Prop :=
  q' = q <| b_next := b_next q' |> <| b_prev := b_prev q' |>.

Lemma link_eq_next q v : link_eq q (q <| b_next := v |>).
Proof. by destruct q. Qed.
Lemma link_eq_prev q v : link_eq q (q <| b_prev := v |>).
Proof. by destruct q. Qed.
Lemma link_eq_refl q : link_eq q q.
Proof. by destruct q. Qed.
Lemma link_eq_trans q1 q2 q3 : link_eq q1 q2 → link_eq q2 q3 → link_eq q1 q3.
Proof. unfold link_eq. destruct q1, q2, q3; unfold upd; simpl; intros [=] [=]; by subst. Qed.

Definition links_eq (bs bs' : list buf) : Prop :=
  length bs' = length bs ∧ ∀ j, link_eq (bs !!! j) (bs' !!! j).

Lemma links_eq_alter bs bs' f a :
  (∀ q, link_eq q (f q)) → links_eq bs bs' → links_eq bs (alter f a bs').
Proof.
  intros Hf [HL H]. split; [by rewrite length_alter|]. intros j.
  rewrite list_lookup_total_alter. case_decide as Hj; [|done].
  destruct Hj as [<- _]. eapply link_eq_trans; [apply H|apply Hf].
Qed.

Lemma to_front_links i bs : links_eq bs (to_front i bs).
Proof.
  unfold to_front. repeat (apply links_eq_alter; [intros; apply link_eq_next || apply link_eq_prev|]).
  split; [done|]. intros. apply link_eq_refl.
Qed.

Lemma linked_range nx' pv' a l b (n : nat) :
  linked nx' pv' (a :: l ++ [b]) → Forall (λ x, (x ≤ n)%nat) (a :: l ++ [b]) →
  ∀ x, x ∈ l → (nx' x ≤ n)%nat ∧ (pv' x ≤ n)%nat.
Proof.
  intros L F x Hx. apply list_elem_of_split in Hx as (l1 & l2 & ->).
  assert (E : a :: (l1 ++ x :: l2) ++ [b] = (a :: l1) ++ x :: (l2 ++ [b])) by (simpl; by rewrite <-app_assoc).
  rewrite E in *. apply linked_app in L as [L1 L2].
  rewrite Forall_forall in F. split.
  - destruct (l2 ++ [b]) as [|c l3] eqn:E2; [by destruct l2|]. destruct L2 as (-> & _).
    apply F. set_solver.
  - destruct (exists_last (l := a :: l1)) as (l0 & c & E1); [done|].
    rewrite E1, <-app_assoc in L1. apply linked_app in L1 as [_ L1].
    destruct L1 as (_ & -> & _). apply F. rewrite E1. set_solver.
Qed.

Lemma to_front_mru bs i o1 o2 :
  length bs = S NBUF → mru bs (o1 ++ i :: o2) → mru (to_front i bs) (i :: o1 ++ o2).
Proof.
  intros HL H. destruct (mru_props _ _ H) as (_ & _ & ND). destruct H as [P L].
  split. { rewrite <-P. apply Permutation_middle. }
  assert (B : ∀ x, x ∈ o1 ++ i :: o2 → (x < NBUF)%nat).
  { intros x. rewrite P, elem_of_seq. lia. }
  assert (Hi : (i < NBUF)%nat) by (apply B; set_solver).
  destruct (linked_range _ _ _ _ _ NBUF L) with (x := i) as [Hn Hp]; [|set_solver|].
  { rewrite Forall_forall. intros x. rewrite elem_of_cons, elem_of_app, list_elem_of_singleton.
    intros [->|[Hx| ->]]; [lia| |lia]. apply B in Hx. lia. }
  rewrite <-app_assoc in L. simpl app in L.
  apply dll_unlink in L; [|done].
  rewrite app_assoc in L.
  set (nx1 := <[pv bs i := nx bs i]> (nx bs)) in *.
  set (pv1 := <[nx bs i := pv bs i]> (pv bs)) in *.
  assert (Hh : (nx1 NBUF ≤ NBUF)%nat).
  { destruct ((o1 ++ o2) ++ [NBUF]) as [|c l] eqn:E; [by destruct (o1 ++ o2)|].
    destruct L as (-> & _). assert (Hc : c ∈ (o1 ++ o2) ++ [NBUF]) by (rewrite E; set_solver).
    rewrite !elem_of_app, list_elem_of_singleton in Hc.
    destruct Hc as [Hc| ->]; [|done]. assert (c < NBUF)%nat; [|lia]. apply B. set_solver. }
  apply dll_insert with (x := i) in L.
  2:{ apply NoDup_cons in ND as [N1 N2]. apply NoDup_app in N2 as (N2 & N3 & [N4 N5]%NoDup_cons).
      constructor; [set_solver|]. constructor; [set_solver|].
      apply NoDup_app. split_and!; [done|set_solver|done]. }
  (* the table realises these functions *)
  eapply linked_ext; [|exact L]. intros j _. unfold to_front.
  set (bs1 := alter _ (nx bs i) bs). set (bs2 := alter _ (pv bs i) bs1).
  assert (L1 : length bs1 = S NBUF) by (unfold bs1; by rewrite length_alter).
  assert (L2 : length bs2 = S NBUF) by (unfold bs2; by rewrite length_alter).
  assert (E1 : ∀ j, nx bs2 j = nx1 j).
  { intros k. unfold bs2, nx1. rewrite nx_set_next by lia. apply fn_insert_ext. intros m.
    unfold bs1. by rewrite nx_set_prev by lia. }
  assert (E2 : ∀ j, pv bs2 j = pv1 j).
  { intros k. unfold bs2, pv1. rewrite pv_set_next by lia. unfold bs1. by rewrite pv_set_prev by lia. }
  set (bs3 := alter _ i bs2). set (bs4 := alter _ i bs3).
  assert (L3 : length bs3 = S NBUF) by (unfold bs3; by rewrite length_alter).
  assert (L4 : length bs4 = S NBUF) by (unfold bs4; by rewrite length_alter).
  assert (E3 : ∀ j, nx bs4 j = <[i := nx1 NBUF]> nx1 j).
  { intros k. unfold bs4. rewrite nx_set_prev by lia. unfold bs3. rewrite nx_set_next by lia.
    rewrite E1. by apply fn_insert_ext. }
  assert (E4 : ∀ j, pv bs4 j = <[i := NBUF]> pv1 j).
  { intros k. unfold bs4. rewrite pv_set_prev by lia. apply fn_insert_ext. intros m.
    unfold bs3. by rewrite pv_set_next by lia. }
  assert (E5 : nx bs4 NBUF = nx1 NBUF) by (rewrite E3, fn_lookup_insert_ne by lia; done).
  rewrite E5. split.
  - symmetry. rewrite nx_set_next by (rewrite length_alter; lia). apply fn_insert_ext. intros k.
    rewrite nx_set_prev by lia. apply E3.
  - symmetry. rewrite pv_set_next by (rewrite length_alter; lia).
    rewrite pv_set_prev by lia. apply fn_insert_ext, E4.
Qed.

Definition unlocked (q : buf) : buf := q <| b_lock := sl_init |> <| b_refcnt := 0 |>.

Lemma upd_buf_set i f env s bs :
  upd_buf i f env (s <| k_bcache := bs |>) = Done tt (s <| k_bcache := alter f i bs |>) env.
Proof. done. Qed.
Lemma gets_next_set j env s bs :
  gets (λ s, b_next (get_buf s j)) env (s <| k_bcache := bs |>) =
    Done (nx bs j) (s <| k_bcache := bs |>) env.
Proof. done. Qed.

Lemma to_front_run i b env s bs :
  b_prev b = pv bs i → b_next b = nx bs i →
  (upd_buf (b_next b) (λ q, q <| b_prev := b_prev b |>) ;;
   upd_buf (b_prev b) (λ q, q <| b_next := b_next b |>) ;;
   hn <- gets (λ s, b_next (get_buf s NBUF)) ;;
   upd_buf i (λ q, q <| b_next := hn |>) ;;
   upd_buf i (λ q, q <| b_prev := NBUF |>) ;;
   hn <- gets (λ s, b_next (get_buf s NBUF)) ;;
   upd_buf hn (λ q, q <| b_prev := i |>) ;;
   upd_buf NBUF (λ q, q <| b_next := i |>)) env (s <| k_bcache := bs |>)
  = Done tt (s <| k_bcache := to_front i bs |>) env.
Proof.
  intros -> ->. do 2 run (upd_buf_set _ _ _ _ _). run (gets_next_set _ _ _ _).
  do 2 run (upd_buf_set _ _ _ _ _). run (gets_next_set _ _ _ _).
  run (upd_buf_set _ _ _ _ _). apply upd_buf_set.
Qed.

Lemma brelse_exact p i env s (q := get_buf s i) :
  runs p s → (i < length (k_bcache s))%nat → mine s p q → b_refcnt q = 1 →
  brelse i env s =
    Done tt (s <| k_bcache ::= λ bs, to_front i (alter unlocked i bs) |>
               <| k_procs ::= fmap (wake1 (ChSleep (SlBuf i))) |>) env.
Proof.
  intros [Hl Hp] Hi Hm Hr. unfold brelse.
  step (holdingsleep_ok _ p). mstep. step releasesleep_ok.
  step acquire_ok by (simpl; rewrite Hl; apply not_elem_of_nil).
  set (bs := alter unlocked i (k_bcache s)).
  set (s1 := s <| k_locks := [LkBcache] |> <| k_procs ::= fmap (wake1 (ChSleep (SlBuf i))) |>).
  assert (G : bs !!! i = unlocked q) by (unfold bs; by rewrite alter_total, decide_True).
  erewrite (bind_done _ _ _ _ tt (s1 <| k_bcache := bs |>)); cycle 1.
  { unfold upd_buf, modify. f_equal. unfold s1, set_sl, upd. simpl. rewrite Hl. f_equal. rewrite list_alter_alter_eq.
    apply alter_ext_total. unfold compose, unlocked, upd. simpl.
    unfold q, get_buf in Hr. by rewrite Hr. }
  rewrite bind_gets. change (get_buf (s1 <| k_bcache := bs |>) i) with (bs !!! i).
  rewrite G. change (b_refcnt (unlocked q) =? 0) with true. unfold when at 1.
  erewrite bind_done by (apply to_front_run; unfold pv, nx; by rewrite G).
  erewrite release_ok by done. f_equal. unfold s1, upd. simpl. by rewrite Hl.
Qed.

Lemma link_eq_fields q q' : link_eq q q' →
  b_flags q' = b_flags q ∧ b_dev q' = b_dev q ∧ b_blockno q' = b_blockno q ∧
  b_lock q' = b_lock q ∧ b_refcnt q' = b_refcnt q ∧ b_data q' = b_data q.
Proof. unfold link_eq. destruct q, q'; unfold upd; simpl. by intros [=]. Qed.

(** The list order does not matter to the contents of the cache. *)
Section links.
Context (bs bs' : list buf) (dk : disk).
Context (I : bc_inv bs dk) (E : links_eq bs bs').

Lemma le_inv : (∃ order, mru bs' order) → bc_inv bs' dk.
Proof.
  destruct E as [HL HE]. intros O.
  assert (F : ∀ j, valid (bs' !!! j) = valid (bs !!! j) ∧ dirty (bs' !!! j) = dirty (bs !!! j) ∧
    blocked (bs' !!! j) = blocked (bs !!! j)).
  { intros j. destruct (link_eq_fields _ _ (HE j)) as (F1 & _ & _ & F2 & _).
    unfold valid, dirty, blocked. by rewrite F1, F2. }
  split; [by rewrite HL; apply I|done|..].
  all: intros j; destruct (link_eq_fields _ _ (HE j)) as (F1 & F2 & F3 & F4 & F5 & F6);
    destruct (F j) as (V & D & B); rewrite ?V, ?D, ?B, ?F2, ?F3, ?F5, ?F6.
  2-5: by apply I.
  intros k. destruct (link_eq_fields _ _ (HE k)) as (_ & -> & -> & _). by apply I.
Qed.

Lemma le_caches b j : caches bs' b j ↔ caches bs b j.
Proof.
  destruct E as [_ HE]. unfold caches.
  destruct (link_eq_fields _ _ (HE j)) as (_ & -> & -> & _). done.
Qed.

Lemma le_countb (g : buf → bool) :
  (∀ q q', link_eq q q' → g q' = g q) → countb g bs' = countb g bs.
Proof.
  destruct E as [HL HE]. intros Hg. apply countb_lookup; [done|].
  intros j. by apply Hg, HE.
Qed.
End links.

Lemma valid_link q q' : link_eq q q' → valid q' = valid q.
Proof. intros (F & _)%link_eq_fields. unfold valid. by rewrite F. Qed.
Lemma dirty_link q q' : link_eq q q' → dirty q' = dirty q.
Proof. intros (F & _)%link_eq_fields. unfold dirty. by rewrite F. Qed.
Lemma blocked_link q q' : link_eq q q' → blocked q' = blocked q.
Proof. intros (_ & _ & _ & F & _)%link_eq_fields. unfold blocked. by rewrite F. Qed.

Section released.
Context (bs : list buf) (dk : disk) (b : Z) (i : nat).
Context (I : bc_inv bs dk) (C : caches bs b i) (Hl : blocked (bs !!! i) = true).

Let bs1 := alter unlocked i bs.
Let bs' := to_front i bs1.

Lemma rl_lookup j : bs1 !!! j = if decide (i = j) then unlocked (bs !!! i) else bs !!! j.
Proof. unfold bs1. apply alter_total. rewrite (bi_len _ _ I). destruct C. lia. Qed.

Lemma rl_inv1 : bc_inv bs1 dk.
Proof.
  pose proof C as (Hi & Hd & Hb). apply bc_inv_alter; try done.
  - by intros; apply (bi_clean _ _ I).
  - intros D. by apply (bi_dirty _ _ I) in D.
  - intros _ j Hj Hne Hdj E. apply Hne. by apply (bi_uniq _ _ I).
Qed.

Lemma rl_links : links_eq bs1 bs'.
Proof. apply to_front_links. Qed.

Lemma rl_inv : bc_inv bs' dk.
Proof.
  eapply le_inv; [apply rl_inv1|apply rl_links|].
  destruct (bi_mru _ _ rl_inv1) as [order O].
  assert (Hi : i ∈ order) by (rewrite (proj1 O), elem_of_seq; destruct C; lia).
  apply list_elem_of_split in Hi as (o1 & o2 & ->).
  exists (i :: o1 ++ o2). apply to_front_mru; [apply rl_inv1|done].
Qed.

Lemma rl_caches c j : caches bs' c j ↔ caches bs c j.
Proof.
  rewrite (le_caches _ _ rl_links). unfold caches. rewrite !rl_lookup. case_decide; [by subst|done].
Qed.

Lemma rl_fields j : valid (bs' !!! j) = valid (bs !!! j) ∧ dirty (bs' !!! j) = dirty (bs !!! j) ∧
  b_data (bs' !!! j) = b_data (bs !!! j) ∧
  blocked (bs' !!! j) = if decide (i = j) then false else blocked (bs !!! j).
Proof.
  destruct rl_links as [_ L]. specialize (L j).
  rewrite (valid_link _ _ L), (dirty_link _ _ L), (blocked_link _ _ L).
  apply link_eq_fields in L as (_ & _ & _ & _ & _ & ->).
  rewrite rl_lookup. case_decide; by subst.
Qed.

Lemma rl_view c : view bs' dk c = view bs dk c.
Proof.
  apply view_ext; [done|apply rl_inv|..|done].
  - intros j Cj. rewrite rl_caches. destruct (rl_fields j) as (? & _ & ? & _). done.
  - intros j. by rewrite rl_caches.
Qed.

Lemma rl_dirty_block c : dirty_block bs' c ↔ dirty_block bs c.
Proof.
  unfold dirty_block. split; intros (j & Cj & D); exists j; rewrite rl_caches in *;
    destruct (rl_fields j) as (_ & E & _); (split; [done|congruence]).
Qed.

Lemma rl_locked_block c : locked_block bs' c ↔ c ≠ b ∧ locked_block bs c.
Proof.
  unfold locked_block. split.
  - intros (j & Cj & L). rewrite rl_caches in *. destruct (rl_fields j) as (_ & _ & _ & E).
    rewrite E in L. case_decide as Hij; [done|]. split; [|by exists j].
    intros ->. apply Hij. by eapply caches_inj.
  - intros (Hc & j & Cj & L). exists j. rewrite rl_caches. split; [done|].
    destruct (rl_fields j) as (_ & _ & _ & ->). rewrite decide_False; [done|].
    intros ->. apply Hc. destruct C as (_ & _ & <-). by destruct Cj as (_ & _ & ?).
Qed.

Lemma rl_counts :
  countb dirty bs' = countb dirty bs ∧ S (countb blocked bs') = countb blocked bs.
Proof.
  rewrite (le_countb _ _ rl_links _ dirty_link), (le_countb _ _ rl_links _ blocked_link).
  assert (L : (i < length bs)%nat) by (rewrite (bi_len _ _ I); destruct C; lia).
  pose proof (countb_alter dirty unlocked bs i L) as C1.
  pose proof (countb_alter blocked unlocked bs i L) as C2.
  fold bs1 in C1, C2. rewrite Hl in C2.
  change (blocked (unlocked (bs !!! i))) with false in C2.
  change (dirty (unlocked (bs !!! i))) with (dirty (bs !!! i)) in C1. simpl in C2. destruct (dirty (bs !!! i)); lia.
Qed.
End released.
