(* ===== verification/Cache.v ===== *)
(** * The contract of the buffer cache

    [bufs p s dk V D H] describes the cache as its clients see it while
    process [p] runs: the disk is [dk], block [b] currently reads as [V b],
    the blocks of [D] hold data not yet on disk, and [p] holds exactly the
    buffers of [H] (block number to buffer).  [bread], [bwrite] and [brelse]
    are specified on these four values; the linked list, the flags and the
    reference counts stay inside. *)
From S2P Require Import Prelude State Sync Dll Bio.

(** ** What a cache operation may change *)

(** [wakeup] only turns sleepers into runnable processes. *)
Definition woken (p p' : proc) : Prop := p' = p ∨ (p_state p = SLEEPING ∧ p' = p <| p_state := RUNNABLE |>).
Definition wakes (ps ps' : list proc) : Prop := Forall2 woken ps ps'.

#[global] Instance woken_preorder : PreOrder woken.
Proof.
  split; [by left|]. intros p1 p2 p3 [->|[H1 ->]] [->|[H2 ->]]; unfold woken; auto.
Qed.
#[global] Instance wakes_preorder : PreOrder wakes.
Proof. change (PreOrder (Forall2 woken)). split; apply _. Qed.

Lemma wakes_wake1 ch ps : wakes ps (wake1 ch <$> ps).
Proof.
  apply Forall2_fmap_r, Forall_Forall2_diag, Forall_true. intros p. unfold compose, wake1, woken.
  case_decide; naive_solver.
Qed.

(** Every field but the cache, the disk and the woken processes is kept. *)
Definition bframe (s s' : kstate) : Prop :=
  s' = s <| k_bcache := k_bcache s' |> <| k_disk := k_disk s' |> <| k_procs := k_procs s' |> ∧
  wakes (k_procs s) (k_procs s').

#[global] Instance bframe_preorder : PreOrder bframe.
Proof.
  split.
  - intros s. split; [by destruct s|done].
  - intros s1 s2 s3 [E1 W1] [E2 W2]. split; [|by etransitivity].
    rewrite E2, E1 at 1. done.
Qed.

Lemma wakes_pid ps ps' p : wakes ps ps' → p_pid (ps' !!! p) = p_pid (ps !!! p).
Proof.
  intros W. revert p. induction W as [|x y ps ps' Hw W IH]; intros [|p]; try done.
  - simpl. by destruct Hw as [->|[_ ->]].
  - apply IH.
Qed.

Lemma bframe_pid s s' p : bframe s s' → pid_of s' p = pid_of s p.
Proof. intros [_ W]. by apply wakes_pid. Qed.
Lemma bframe_runs s s' p : bframe s s' → runs p s → runs p s'.
Proof. intros [-> _]. done. Qed.
Lemma bframe_log s s' : bframe s s' → k_log s' = k_log s.
Proof. by intros [-> _]. Qed.
Lemma bframe_size s s' : bframe s s' → k_disksize s' = k_disksize s.
Proof. by intros [-> _]. Qed.

Lemma bframe_cache s f : bframe s (s <| k_bcache ::= f |>).
Proof. split; [by destruct s|done]. Qed.

(** ** The set of dirty blocks *)
Definition mark (dd : bool) (b : Z) (D : gset Z) : gset Z := if dd then {[b]} ∪ D else D ∖ {[b]}.

Lemma elem_of_mark dd b D c : c ∈ mark dd b D ↔ (c = b ∧ dd = true) ∨ (c ≠ b ∧ c ∈ D).
Proof. unfold mark. destruct dd; [destruct (decide (c = b))|]; set_solver. Qed.

Lemma size_mark dd b D :
  (size (mark dd b D) + (if bool_decide (b ∈ D) then 1 else 0) = size D + (if dd then 1 else 0))%nat.
Proof.
  unfold mark. destruct dd; case_bool_decide as Hb.
  - replace ({[b]} ∪ D) with D by set_solver. done.
  - rewrite size_union, size_singleton by set_solver. lia.
  - assert (size ({[b]} ∪ D ∖ {[b]}) = 1 + size (D ∖ {[b]}))%nat as E
      by (rewrite size_union, size_singleton by set_solver; done).
    rewrite <-union_difference_L in E by set_solver. lia.
  - replace (D ∖ {[b]}) with D by set_solver. done.
Qed.

(** ** The contract *)
Record bufs (p : nat) (s : kstate) (dk : disk) (V : Z → block) (D : gset Z) (H : gmap Z nat) : Prop := {
  bs_runs : runs p s;
  bs_disk : k_disk s = dk;
  bs_inv : bc_inv (k_bcache s) dk;
  bs_view c : view (k_bcache s) dk c = V c;
  bs_dirty c : c ∈ D ↔ dirty_block (k_bcache s) c;
  bs_ndirty : size D = countb dirty (k_bcache s);
  bs_held b i : H !! b = Some i ↔ caches (k_bcache s) b i ∧ blocked (k_bcache s !!! i) = true;
  bs_mine b i : H !! b = Some i →
    b_lock (k_bcache s !!! i) = SleepLock true (pid_of s p) ∧ valid (k_bcache s !!! i) = true;
  bs_nheld : size H = countb blocked (k_bcache s) }.

#[global] Arguments bs_runs {p s dk V D H} _.
#[global] Arguments bs_disk {p s dk V D H} _.
#[global] Arguments bs_inv {p s dk V D H} _.
#[global] Arguments bs_view {p s dk V D H} _ c.
#[global] Arguments bs_dirty {p s dk V D H} _ c.
#[global] Arguments bs_ndirty {p s dk V D H} _.
#[global] Arguments bs_held {p s dk V D H} _ b i.
#[global] Arguments bs_mine {p s dk V D H} _ b i.
#[global] Arguments bs_nheld {p s dk V D H} _.

Section bufs.
Context {p : nat} {s : kstate} {dk : disk} {V : Z → block} {D : gset Z} {H : gmap Z nat}.
Context (B : bufs p s dk V D H).

(** A block without unwritten data is on disk as it reads. *)
Lemma bufs_clean c : c ∉ D → V c = disk_get dk c.
Proof.
  intros Hc. rewrite <-(bs_view B). apply view_clean; [apply B|].
  by rewrite <-(bs_dirty B).
Qed.

(** The bytes of a held buffer are the contents of its block. *)
Lemma bufs_data b i : H !! b = Some i → b_data (get_buf s i) = V b.
Proof.
  intros E. destruct (bs_mine B _ _ E) as [_ Hv].
  apply (bs_held B) in E as [C _].
  rewrite <-(bs_view B). symmetry. by apply view_cached; [apply B|..].
Qed.

Lemma bufs_blockno b i : H !! b = Some i → b_blockno (get_buf s i) = b.
Proof. by intros [(_ & _ & ?) _]%(bs_held B). Qed.

Lemma bufs_locked c : locked_block (k_bcache s) c ↔ is_Some (H !! c).
Proof.
  split.
  - intros (i & C). exists i. by apply (bs_held B).
  - intros [i Hi]. exists i. by apply (bs_held B).
Qed.

Lemma bufs_cached c : c ∈ D → find_block (k_bcache s) c ≠ None.
Proof.
  intros (i & C & _)%(bs_dirty B) E. by eapply find_block_None.
Qed.

Lemma bufs_inj b c i : H !! b = Some i → H !! c = Some i → b = c.
Proof. intros E1%bufs_blockno E2%bufs_blockno. congruence. Qed.

(** The held buffers after [bread] chose buffer [i] for block [b]. *)
Lemma held_read b i f pid d c j :
  (i < NBUF)%nat → blocked (k_bcache s !!! i) = false → H !! b = None →
  reads pid b d (k_bcache s !!! i) (f (k_bcache s !!! i)) →
  <[b:=i]> H !! c = Some j ↔
    caches (alter f i (k_bcache s)) c j ∧ blocked (alter f i (k_bcache s) !!! j) = true.
Proof.
  intros Hi Hu Hh R. pose proof (bs_inv B) as I.
  assert (T : ∀ k, alter f i (k_bcache s) !!! k =
    if decide (i = k) then f (k_bcache s !!! i) else k_bcache s !!! k).
  { intros k. apply alter_total. rewrite (bi_len _ _ I). lia. }
  split.
    - intros [[<- <-]|[Hbc Ej]]%lookup_insert_Some.
      + split; [unfold caches; rewrite T, decide_True by done; split_and!; [done|apply R..]|]. rewrite T, decide_True by done.
        unfold blocked. by rewrite (rd_lock _ _ _ _ _ R).
      + apply (bs_held B) in Ej as [C L]. assert (i ≠ j) by (intros ->; congruence).
        unfold caches. rewrite !T, !decide_False by done. done.
    - intros [C L]. destruct (decide (i = j)) as [<-|Hij].
      + destruct C as (_ & _ & Hbn). rewrite T, decide_True in Hbn by done.
        rewrite (rd_blockno _ _ _ _ _ R) in Hbn. subst c. by rewrite lookup_insert_eq.
      + unfold caches in C. rewrite T, decide_False in C, L by done.
        rewrite lookup_insert_ne; [by apply (bs_held B)|].
        intros ->. assert (H !! c = Some j) by (by apply (bs_held B)). congruence.
Qed.

(** [b = bread(dev, blockno)]: the block must not be held already, and a
    buffer must be free unless the block is pinned in the cache. *)
Lemma bread_spec b env :
  b < k_disksize s → H !! b = None → b ∈ D ∨ (size D + size H < NBUF)%nat →
  ∃ i s', bread ROOTDEV b env s = Done i s' env ∧
    bufs p s' dk V D (<[b := i]> H) ∧ bframe s s'.
Proof.
  intros Hb Hh Hr.
  destruct (bread_exact p b env s) as (i & f & Hi & Hu & Hc & R & E).
  - apply B.
  - rewrite (bs_disk B). apply B.
  - done.
  - rewrite bufs_locked, Hh. by intros [].
  - intros N. rewrite <-(bs_ndirty B), <-(bs_nheld B).
    destruct Hr as [Hd|]; [by apply bufs_cached in Hd|done].
  - rewrite (bs_disk B) in R. pose proof (bs_inv B) as I.
    exists i, (s <| k_bcache ::= alter f i |>). split; [done|]. split; [|apply bframe_cache].
    destruct (rd_counts _ _ _ _ _ _ I Hi Hu Hc R) as [C1 C2].
    split; simpl.
    + apply B.
    + apply B.
    + by eapply rd_inv.
    + intros c. rewrite <-(bs_view B). by eapply rd_view.
    + intros c. rewrite (bs_dirty B). symmetry. by eapply rd_dirty_block.
    + rewrite C1. apply (bs_ndirty B).
    + intros c j. by eapply held_read.
    + intros c j. intros [[<- <-]|[Hbc Ej]]%lookup_insert_Some.
      * rewrite (rd_lookup _ _ _ _ I Hi), decide_True by done. split; apply R.
      * assert (i ≠ j). { intros ->. apply (bs_held B) in Ej as [_ ?]. congruence. }
        rewrite !(rd_lookup _ _ _ _ I Hi), !decide_False by done. by apply (bs_mine B) in Ej.
    + rewrite C2, map_size_insert_None by done. f_equal. apply (bs_nheld B).
Qed.

(** A store to a held buffer. *)
Lemma bufs_store b i f d dd dk' D' s' :
  H !! b = Some i → stores d dd (k_bcache s !!! i) (f (k_bcache s !!! i)) →
  (∀ c, c ≠ b → disk_get dk' c = disk_get dk c) → (dd = false → disk_get dk' b = d) →
  D' = mark dd b D →
  bframe s s' → k_bcache s' = alter f i (k_bcache s) → k_disk s' = dk' →
  bufs p s' dk' (<[b := d]> V) D' H.
Proof.
  intros E St Hd1 Hd2 -> F Ec Ed. pose proof (bs_inv B) as I.
  apply (bs_held B) in E as HC. destruct HC as [C L].
  destruct (wr_counts _ _ _ _ _ _ _ I C St) as [C1 C2].
  assert (Hbd : b ∈ D ↔ dirty (k_bcache s !!! i) = true).
  { rewrite (bs_dirty B). split; [|intros; by exists i].
    intros (j & Cj & Dj). by rewrite (caches_inj _ _ _ _ _ I C Cj). }
  split; rewrite ?Ec, ?Ed.
  - by eapply bframe_runs, B.
  - done.
  - by eapply wr_inv.
  - intros c. erewrite wr_view by done. unfold insert, fn_insert.
    do 2 case_decide; try congruence. apply (bs_view B).
  - intros c. erewrite wr_dirty_block by done. rewrite <-(bs_dirty B).
    by rewrite elem_of_mark.
  - pose proof (size_mark dd b D) as M. rewrite (bs_ndirty B) in M.
    assert (bool_decide (b ∈ D) = dirty (k_bcache s !!! i)) as Eb.
    { destruct (dirty _); [rewrite bool_decide_eq_true|rewrite bool_decide_eq_false, Hbd]; naive_solver. }
    rewrite Eb in M. lia.
  - intros c j. rewrite (wr_caches _ _ _ _ _ _ _ I C St), (wr_blocked _ _ _ _ _ _ _ I C St).
    apply (bs_held B).
  - intros c j Ej. rewrite (bframe_pid _ _ _ F). apply (bs_mine B) in Ej.
    rewrite (wr_lookup _ _ _ _ _ I C). case_decide; [subst j|done].
    rewrite (st_lock _ _ _ _ St), (st_valid _ _ _ _ St). naive_solver.
  - rewrite C1. apply (bs_nheld B).
Qed.

(** [memmove(b->data, d, BSIZE); bwrite(b)]: the block is on disk. *)
Lemma bwrite_spec b i d env :
  H !! b = Some i → b < k_disksize s →
  ∃ s', (upd_buf i (λ q, q <| b_data := d |>) ;; bwrite i) env s = Done tt s' env ∧
    bufs p s' (disk_put dk b d) (<[b := d]> V) (D ∖ {[b]}) H ∧ bframe s s'.
Proof.
  intros E Hb. destruct (bs_mine B _ _ E) as [Hm _].
  apply (bs_held B) in E as HC. destruct HC as [(Hi & Hdev & Hbn) L].
  eexists. split.
  { apply (bwrite_exact p); [apply B| |done|done|unfold get_buf; by rewrite Hbn].
    rewrite (bi_len _ _ (bs_inv B)). lia. }
  set (s' := s <| k_bcache ::= _ |> <| k_disk ::= _ |>).
  assert (F : bframe s s') by (split; [by destruct s|done]). split; [|done].
  eapply (bufs_store b i (wrote d) d false); [done|apply stores_wrote|..|done|done|done|].
  - intros c Hc. by rewrite disk_get_put, decide_False.
  - intros _. by rewrite disk_get_put, decide_True.
  - simpl. unfold get_buf. by rewrite Hbn, (bs_disk B).
Qed.

(** [brelse(b)] *)
Lemma brelse_spec b i env :
  H !! b = Some i →
  ∃ s', brelse i env s = Done tt s' env ∧ bufs p s' dk V D (delete b H) ∧ bframe s s'.
Proof.
  intros E. pose proof (bs_inv B) as I. destruct (bs_mine B _ _ E) as [Hm _].
  apply (bs_held B) in E as HC. destruct HC as [C L]. pose proof C as (Hi & Hdev & Hbn).
  eexists. split.
  { apply (brelse_exact p); [apply B| |done|].
    - rewrite (bi_len _ _ I). lia.
    - unfold get_buf. by rewrite (bi_ref _ _ I), L. }
  set (s' := s <| k_bcache ::= _ |> <| k_procs ::= _ |>).
  assert (F : bframe s s') by (split; [by destruct s|apply wakes_wake1]). split; [|done].
  destruct (rl_counts _ _ _ _ I C L) as [C1 C2].
  split; simpl.
  - by eapply bframe_runs, B.
  - apply B.
  - by eapply rl_inv.
  - intros c. erewrite rl_view by done. apply (bs_view B).
  - intros c. erewrite rl_dirty_block by done. apply (bs_dirty B).
  - rewrite C1. apply (bs_ndirty B).
  - intros c j. rewrite (rl_caches _ _ _ _ I C L).
    destruct (rl_fields _ _ _ _ I C L j) as (_ & _ & _ & ->).
    rewrite lookup_delete_Some, (bs_held B).
    case_decide; [subst j|].
    + split; [|by intros [_ ?]]. intros (Hne & (_ & _ & E') & _). by rewrite Hbn in E'.
    + split; [by intros (_ & ? & ?)|]. intros [Cj Lj]. split_and!; [|done..].
      intros <-. by assert (i = j) by (eapply caches_inj; eauto).
  - intros c j [Hne Ej]%lookup_delete_Some.
    assert (i ≠ j) by (intros <-; apply Hne; eapply bufs_inj; eauto).
    apply (bs_mine B) in Ej as [Lj Vj]. rewrite (bframe_pid _ _ _ F), <-Lj, <-Vj.
    destruct (rl_fields _ _ _ _ I C L j) as (V' & _). split; [|done].
    destruct (to_front_links i (alter unlocked i (k_bcache s))) as [_ Lk].
    destruct (link_eq_fields _ _ (Lk j)) as (_ & _ & _ & -> & _).
    by rewrite (rl_lookup _ _ _ _ I C), decide_False.
  - rewrite map_size_delete, E. rewrite (bs_nheld B). simpl. lia.
Qed.

End bufs.

(** ** Initialisation *)
Definition link_first (i : nat) (bs : list buf) : list buf :=
  let bs1 := alter (λ b, b <| b_next := nx bs NBUF |>) i bs in
  let bs2 := alter (λ b, b <| b_prev := NBUF |>) i bs1 in
  let bs3 := alter (λ b, b <| b_lock := sl_init |>) i bs2 in
  let bs4 := alter (λ b, b <| b_prev := i |>) (nx bs3 NBUF) bs3 in
  alter (λ b, b <| b_next := i |>) NBUF bs4.

Lemma initsleeplock_set i env s bs :
  initsleeplock (SlBuf i) env (s <| k_bcache := bs |>) =
    Done tt (s <| k_bcache := alter (λ b, b <| b_lock := sl_init |>) i bs |>) env.
Proof. done. Qed.

Lemma binit1_run i env s bs :
  binit1 i env (s <| k_bcache := bs |>) = Done tt (s <| k_bcache := link_first i bs |>) env.
Proof.
  unfold binit1. run (gets_next_set _ _ _ _). do 2 run (upd_buf_set _ _ _ _ _).
  run (initsleeplock_set _ _ _ _). run (gets_next_set _ _ _ _).
  run (upd_buf_set _ _ _ _ _). apply upd_buf_set.
Qed.

Lemma binit_loop l env s bs :
  foreach binit1 l env (s <| k_bcache := bs |>) =
    Done tt (s <| k_bcache := foldl (λ bs i, link_first i bs) bs l |>) env.
Proof.
  revert bs. induction l as [|i l IH]; intros bs; [done|]. simpl. by run (binit1_run _ _ _ _).
Qed.

(** The table [binit] builds from the zeroed [bcache]. *)
Definition bcache_init : list buf :=
  foldl (λ bs i, link_first i bs)
    (alter (λ b, b <| b_next := NBUF |>) NBUF
      (alter (λ b, b <| b_prev := NBUF |>) NBUF (replicate (S NBUF) buf_zero))) (seq 0 NBUF).

Lemma binit_run env s :
  binit env (s <| k_bcache := replicate (S NBUF) buf_zero |>) =
    Done tt (s <| k_bcache := bcache_init |>) env.
Proof.
  unfold binit, bcache_init. generalize (replicate (S NBUF) buf_zero). intros bs.
  do 2 run (upd_buf_set _ _ _ _ _). apply binit_loop.
Qed.

Lemma linked_dec_true nx' pv' l :
  forallb (λ p, (nx' p.1 =? p.2)%nat && (pv' p.2 =? p.1)%nat) (zip l (tail l)) = true →
  linked nx' pv' l.
Proof.
  induction l as [|a [|b l] IH]; [done..|]. intros H.
  cbn [tail zip zip_with forallb] in H. rewrite !andb_true_iff, !Nat.eqb_eq in H.
  destruct H as [[H1 H2] H3]. split_and!; [done|done|]. by apply IH.
Qed.

Definition fresh_buf (b : buf) : bool :=
  (b_dev b =? 0) && (b_flags b =? 0) && (b_refcnt b =? 0) && negb (blocked b).

Lemma length_bcache_init : length bcache_init = S NBUF.
Proof. vm_compute. reflexivity. Qed.

Lemma bcache_init_forall : forallb fresh_buf bcache_init = true.
Proof. vm_compute. reflexivity. Qed.

Lemma bcache_init_mru : mru bcache_init (reverse (seq 0 NBUF)).
Proof.
  split; [by rewrite reverse_Permutation|]. apply linked_dec_true. vm_compute. reflexivity.
Qed.

Lemma bcache_init_counts : countb dirty bcache_init = 0%nat ∧ countb blocked bcache_init = 0%nat.
Proof. split; vm_compute; reflexivity. Qed.

#[local] Opaque bcache_init.

Lemma bcache_init_fresh i : (i < NBUF)%nat →
  b_dev (bcache_init !!! i) = 0 ∧ b_flags (bcache_init !!! i) = 0 ∧
  b_refcnt (bcache_init !!! i) = 0 ∧ blocked (bcache_init !!! i) = false.
Proof.
  intros Hi. pose proof bcache_init_forall as A.
  apply (forallb_lookup _ _ i) in A; [|rewrite length_bcache_init; lia].
  unfold fresh_buf in A. rewrite !andb_true_iff, !Z.eqb_eq, negb_true_iff in A. tauto.
Qed.

Lemma bcache_init_inv dk : bc_inv bcache_init dk.
Proof.
  pose proof bcache_init_fresh as Z.
  split.
  - apply length_bcache_init.
  - exists (reverse (seq 0 NBUF)). apply bcache_init_mru.
  - intros i j Hi _ Hd. rewrite (proj1 (Z i Hi)) in Hd. discriminate Hd.
  - intros i (_ & _ & R & L)%Z. by rewrite R, L.
  - intros i (Hd & _)%Z E. rewrite Hd in E. discriminate E.
  - intros i (_ & F & _)%Z E. unfold dirty in E. rewrite F in E. discriminate E.
  - intros i (_ & _ & _ & L)%Z E. rewrite L in E. discriminate E.
Qed.

(** A cache that holds no block shows the disk. *)
Lemma bufs_empty p s :
  runs p s → bc_inv (k_bcache s) (k_disk s) → (∀ c i, ¬ caches (k_bcache s) c i) →
  countb dirty (k_bcache s) = 0%nat → countb blocked (k_bcache s) = 0%nat →
  bufs p s (k_disk s) (disk_get (k_disk s)) ∅ ∅.
Proof.
  intros R I Hn Hd Hb. split; [apply R|done|done|..].
  - intros c. apply view_uncached. destruct (find_block _ c) as [i|] eqn:E; [|done].
    apply (find_block_Some _ _ _ _ I) in E. by apply Hn in E.
  - intros c. split; [set_solver|]. intros (i & C & _). by apply Hn in C.
  - by rewrite Hd.
  - intros b i. split; [set_solver|]. intros [C _]. by apply Hn in C.
  - intros b i. set_solver.
  - by rewrite Hb.
Qed.

(** [binit] on the zeroed table gives an empty cache. *)
Lemma binit_spec p env s :
  runs p s → k_bcache s = replicate (S NBUF) buf_zero →
  ∃ s', binit env s = Done tt s' env ∧ bframe s s' ∧
    bufs p s' (k_disk s) (disk_get (k_disk s)) ∅ ∅.
Proof.
  intros R Ez. exists (s <| k_bcache := bcache_init |>). split_and!.
  - replace s with (s <| k_bcache := replicate (S NBUF) buf_zero |>) at 1
      by (rewrite <-Ez; by destruct s).
    apply binit_run.
  - apply bframe_cache.
  - destruct bcache_init_counts as [Hd Hb]. pose proof (bcache_init_inv (k_disk s)) as I.
    pose proof bcache_init_fresh as Z. revert Hd Hb I Z. generalize bcache_init.
    intros bs Hd Hb I Z. pose proof (bufs_empty p (s <| k_bcache := bs |>)) as P.
    simpl in P. apply P; try done.
    intros c i (Hi & Hdev & _). apply Z in Hi as (E & _). simpl in Hdev. by rewrite E in Hdev.
Qed.

(** From here on the cache is used through its contract. *)
#[global] Opaque binit bread bwrite brelse.
