(* ===== verification/Log.v ===== *)
(** * The log (log.c, and readsb of fs.c)

    A system call brackets its disk updates with [begin_op] and [end_op];
    [log_write] pins the modified buffers in the cache and records their
    block numbers; when no system call is left, [commit] copies the blocks to
    the log, writes the header, installs the blocks at their home locations
    and clears the header.  [recover_from_log] redoes an interrupted install
    at boot.

    The main lemmas say what each routine writes to the disk and in which
    order, and what recovery makes of the disk after any prefix of the writes
    of [commit]: the contents before the transaction or the contents after
    it, never a mixture.  [Crash] has the end-to-end statements. *)
From S2P Require Import Prelude State Sync Dll Bio Cache.

(** ** readsb (fs.c) *)
Definition get_sb (d : block) : superblock :=
  SuperBlock (ldn 4 d 0) (ldn 4 d 4) (ldn 4 d 8) (ldn 4 d 12) (ldn 4 d 16) (ldn 4 d 20) (ldn 4 d 24).

Definition readsb `{Driver} (dev : Z) : KM superblock :=
  bp <- bread dev 1 ;;
  sb <- gets (λ s, get_sb (b_data (get_buf s bp))) ;;
  brelse bp ;;
  ret sb.

(** ** log.c *)

(** [log.lh.block[i] = v]; a store outside the array is an error. *)
Definition set_lh_block (i : nat) (v : Z) : KM unit :=
  if (i <? Z.to_nat LOGSIZE)%nat then upd_log (λ l, l <| l_block ::= insert i v |>)
  else panic "log.lh.block: index out of range".

(** The header block as read through [(struct logheader* )buf->data]. *)
Definition hd_n (d : block) : Z := s32 (ldn 4 d 0).
Definition hd_block (d : block) (i : nat) : Z := s32 (ldn 4 d (4 + 4 * i)).

Definition install_trans1 `{Driver} (tail : nat) : KM unit :=
  lg <- gets k_log ;;
  lbuf <- bread (l_dev lg) (u32 (l_start lg + Z.of_nat tail + 1)) ;;
  dbuf <- bread (l_dev lg) (u32 (l_block lg !!! tail)) ;;
  d <- gets (λ s, b_data (get_buf s lbuf)) ;;
  (upd_buf dbuf (λ q, q <| b_data := d |>) ;;
   bwrite dbuf) ;;
  brelse lbuf ;;
  brelse dbuf.

Definition install_trans `{Driver} : KM unit :=
  n <- gets (λ s, l_n (k_log s)) ;;
  foreach install_trans1 (seq 0 (Z.to_nat n)).

Definition read_head `{Driver} : KM unit :=
  lg <- gets k_log ;;
  buf <- bread (l_dev lg) (u32 (l_start lg)) ;;
  d <- gets (λ s, b_data (get_buf s buf)) ;;
  upd_log (λ l, l <| l_n := hd_n d |>) ;;
  foreach (λ i, set_lh_block i (hd_block d i)) (seq 0 (Z.to_nat (hd_n d))) ;;
  brelse buf.

(** [hb->n = log.lh.n; for(..) hb->block[i] = log.lh.block[i];] *)
Definition head_store (n : Z) (blk : list Z) (d : block) : block :=
  st_words 4 blk (stn 4 d 0 n) (seq 0 (Z.to_nat n)).

Definition write_head `{Driver} : KM unit :=
  lg <- gets k_log ;;
  buf <- bread (l_dev lg) (u32 (l_start lg)) ;;
  d <- gets (λ s, b_data (get_buf s buf)) ;;
  (upd_buf buf (λ q, q <| b_data := head_store (l_n lg) (l_block lg) d |>) ;;
   bwrite buf) ;;
  brelse buf.

Definition recover_from_log `{Driver} : KM unit :=
  read_head ;;
  install_trans ;;
  upd_log (λ l, l <| l_n := 0 |>) ;;
  write_head.

(** [sizeof(struct logheader)]. *)
Definition sizeof_logheader : Z := 4 + 4 * LOGSIZE.

Definition initlog `{Driver} (dev : Z) : KM unit :=
  if BSIZE <=? sizeof_logheader then panic "initlog: too big logheader" else
  sb <- readsb dev ;;
  upd_log (λ l, l <| l_start := sb_logstart sb |> <| l_size := sb_nlog sb |> <| l_dev := dev |>) ;;
  recover_from_log.

Definition begin_op : KM unit :=
  acquire LkLog ;;
  sleep_loop
    (lg <- gets k_log ;;
     if l_committing lg then ret None
     else if LOGSIZE <? l_n lg + (l_outstanding lg + 1) * MAXOPBLOCKS then ret None
     else upd_log (λ l, l <| l_outstanding ::= λ o, o + 1 |>) ;;
          release LkLog ;;
          ret (Some tt))
    ChLog LkLog.

Definition write_log1 `{Driver} (tail : nat) : KM unit :=
  lg <- gets k_log ;;
  to <- bread (l_dev lg) (u32 (l_start lg + Z.of_nat tail + 1)) ;;
  from <- bread (l_dev lg) (u32 (l_block lg !!! tail)) ;;
  d <- gets (λ s, b_data (get_buf s from)) ;;
  (upd_buf to (λ q, q <| b_data := d |>) ;;
   bwrite to) ;;
  brelse from ;;
  brelse to.

Definition write_log `{Driver} : KM unit :=
  n <- gets (λ s, l_n (k_log s)) ;;
  foreach write_log1 (seq 0 (Z.to_nat n)).

Definition commit `{Driver} : KM unit :=
  n <- gets (λ s, l_n (k_log s)) ;;
  when (0 <? n)
    (write_log ;;
     write_head ;;
     install_trans ;;
     upd_log (λ l, l <| l_n := 0 |>) ;;
     write_head).

Definition end_op `{Driver} : KM unit :=
  acquire LkLog ;;
  upd_log (λ l, l <| l_outstanding ::= λ o, o - 1 |>) ;;
  lg <- gets k_log ;;
  if l_committing lg then panic "log.committing" else
  let do_commit := l_outstanding lg =? 0 in
  (if do_commit then upd_log (λ l, l <| l_committing := true |>) else wakeup ChLog) ;;
  release LkLog ;;
  when do_commit
    (commit ;;
     acquire LkLog ;;
     upd_log (λ l, l <| l_committing := false |>) ;;
     wakeup ChLog ;;
     release LkLog).

(** The search of [log_write]: the index of [b] among the first [n] entries,
    or [n]. *)
Fixpoint absorb (b : Z) (blk : list Z) (n i : nat) : nat :=
  match n with
  | O => i
  | S n => if u32 (blk !!! i) =? b then i else absorb b blk n (S i)
  end.

Definition log_write (i : nat) : KM unit :=
  lg <- gets k_log ;;
  if (LOGSIZE <=? l_n lg) || (l_size lg - 1 <=? l_n lg) then panic "too big a transaction" else
  if l_outstanding lg <? 1 then panic "log_write outside of trans" else
  acquire LkLog ;;
  b <- gets (λ s, b_blockno (get_buf s i)) ;;
  lg <- gets k_log ;;
  let j := absorb b (l_block lg) (Z.to_nat (l_n lg)) 0 in
  set_lh_block j (s32 b) ;;
  when (Z.of_nat j =? l_n lg) (upd_log (λ l, l <| l_n ::= λ n, n + 1 |>)) ;;
  upd_buf i (λ q, q <| b_flags ::= λ f, set_flag f B_DIRTY |>) ;;
  release LkLog.

(** ** Sequences of disk writes, in the order they are issued *)
Definition put_all (dk : disk) (ws : list (Z * block)) : disk :=
  foldl (λ dk w, disk_put dk w.1 w.2) dk ws.
Definition upd_all (V : Z → block) (ws : list (Z * block)) : Z → block :=
  foldl (λ V w, <[w.1 := w.2]> V) V ws.

Lemma put_all_app dk ws1 ws2 : put_all dk (ws1 ++ ws2) = put_all (put_all dk ws1) ws2.
Proof. apply foldl_app. Qed.
Lemma upd_all_app V ws1 ws2 : upd_all V (ws1 ++ ws2) = upd_all (upd_all V ws1) ws2.
Proof. apply foldl_app. Qed.

Lemma d_writes_put_all dk ws : d_writes (put_all dk ws) = reverse ws ++ d_writes dk.
Proof.
  revert dk. induction ws as [|[b d] ws IH]; intros dk; [done|]. simpl.
  rewrite IH, reverse_cons, <-app_assoc. done.
Qed.
Lemma d_img_put_all dk ws : d_img (put_all dk ws) = d_img dk.
Proof. revert dk. induction ws as [|[b d] ws IH]; intros dk; [done|]. simpl. by rewrite IH. Qed.

Lemma upd_all_ext V V' ws c : V c = V' c → upd_all V ws c = upd_all V' ws c.
Proof.
  revert V V'. induction ws as [|[b d] ws IH]; intros V V' E; [done|]. simpl.
  apply IH. unfold insert, fn_insert. by case_decide.
Qed.

Lemma upd_all_notin V ws c : c ∉ ws.*1 → upd_all V ws c = V c.
Proof.
  revert V. induction ws as [|[b d] ws IH]; intros V; simpl; [done|].
  rewrite not_elem_of_cons. intros [? ?]. rewrite IH by done. by rewrite fn_lookup_insert_ne by done.
Qed.

Lemma upd_all_in V V' ws c : c ∈ ws.*1 → upd_all V ws c = upd_all V' ws c.
Proof.
  revert V V'. induction ws as [|[b d] ws IH]; intros V V'; simpl; [by intros ?%elem_of_nil|].
  rewrite elem_of_cons. intros H. destruct (decide (c ∈ ws.*1)) as [Hc|Hc]; [by apply IH|].
  destruct H as [->|?]; [|done]. rewrite !upd_all_notin by done. by rewrite !fn_lookup_insert.
Qed.

Lemma disk_get_put_all dk ws c : disk_get (put_all dk ws) c = upd_all (disk_get dk) ws c.
Proof.
  revert dk. induction ws as [|[b d] ws IH]; intros dk; [done|]. simpl. rewrite IH.
  apply upd_all_ext. rewrite disk_get_put. unfold insert, fn_insert. repeat case_decide; congruence.
Qed.

(** [copies V from to]: copy the blocks [from] to the blocks [to]. *)
Definition copies (V : Z → block) (from to : list Z) : list (Z * block) :=
  zip_with (λ a b, (b, V a)) from to.

(** The log blocks for [k] entries from entry [t] on. *)
Definition slots (st : Z) (t k : nat) : list Z := (λ i, st + Z.of_nat i + 1) <$> seq t k.

(** ** The log in memory *)
Record log_holds (s : kstate) (st sz : Z) (bl : list Z) : Prop := {
  lg_dev : l_dev (k_log s) = ROOTDEV;
  lg_start : l_start (k_log s) = st;
  lg_size : l_size (k_log s) = sz;
  lg_n : l_n (k_log s) = Z.of_nat (length bl);
  lg_block : take (length bl) (l_block (k_log s)) = bl;
  lg_len : length (l_block (k_log s)) = Z.to_nat LOGSIZE }.

(** The place of the log on a disk of [nb] blocks: after the superblock,
    with room for the header and [sz - 1] blocks. *)
Record log_area (nb st sz : Z) : Prop := {
  la_start : 2 ≤ st;
  la_size : 1 ≤ sz ≤ LOGSIZE;
  la_end : st + sz ≤ nb;
  la_max : nb < 2 ^ 31 }.

Definition home (nb st sz c : Z) : Prop := 0 ≤ c < nb ∧ (c < st ∨ st + sz ≤ c).

Lemma log_holds_frame s s' st sz bl : bframe s s' → log_holds s st sz bl → log_holds s' st sz bl.
Proof. intros F []. pose proof (bframe_log _ _ F) as E. split; by rewrite E. Qed.

Lemma log_holds_lookup s st sz bl t :
  log_holds s st sz bl → (t < length bl)%nat → l_block (k_log s) !!! t = bl !!! t.
Proof.
  intros L Ht. transitivity (take (length bl) (l_block (k_log s)) !!! t).
  - by rewrite lookup_total_take_lt.
  - by rewrite (lg_block _ _ _ _ L).
Qed.

Lemma home_u32 nb st sz c : log_area nb st sz → home nb st sz c → u32 c = c.
Proof. intros A [? ?]. apply u32_small. unfold is_u32. pose proof (la_max _ _ _ A). lia. Qed.

Lemma slot_u32 nb st sz t : log_area nb st sz → (Z.of_nat t < sz) → u32 (st + Z.of_nat t + 1) = st + Z.of_nat t + 1.
Proof.
  intros A ?. apply u32_small. unfold is_u32.
  pose proof (la_max _ _ _ A). pose proof (la_start _ _ _ A). pose proof (la_end _ _ _ A). lia.
Qed.

(** ** One step of install_trans and of write_log *)

(** With buffers [i] of block [a] and [j] of block [b] held: copy, write,
    release both. *)
Lemma copy_held {p s dk V D H} (B : bufs p s dk V D H) a b i j env :
  b < k_disksize s → a ≠ b → H !! a = Some i → H !! b = Some j →
  ∃ s', (d <- gets (λ s, b_data (get_buf s i)) ;;
         (upd_buf j (λ q, q <| b_data := d |>) ;; bwrite j) ;;
         brelse i ;; brelse j) env s = Done tt s' env ∧
    bufs p s' (disk_put dk b (V a)) (<[b := V a]> V) (D ∖ {[b]}) (delete b (delete a H)) ∧
    bframe s s'.
Proof.
  intros Hb Hab Hi Hj. rewrite bind_gets, (bufs_data B a i Hi).
  destruct (bwrite_spec B b j (V a) env Hj Hb) as (s3 & E3 & B3 & F3).
  rewrite (bind_done _ _ _ _ _ _ _ E3).
  destruct (brelse_spec B3 a i env Hi) as (s4 & E4 & B4 & F4).
  rewrite (bind_done _ _ _ _ _ _ _ E4).
  destruct (brelse_spec B4 b j env) as (s5 & E5 & B5 & F5).
  { by rewrite lookup_delete_ne. }
  exists s5. split_and!; [done..|]. by repeat (etransitivity; [eassumption|]).
Qed.

(** Read two blocks one after the other. *)
Lemma bread2_spec {p s dk V D} (B : bufs p s dk V D ∅) a b env :
  a < k_disksize s → b < k_disksize s → a ≠ b →
  a ∈ D ∨ (size D < NBUF)%nat → b ∈ D ∨ (size D + 1 < NBUF)%nat →
  ∃ i j s', (∀ C (k : nat → nat → KM C),
      (x <- bread ROOTDEV a ;; y <- bread ROOTDEV b ;; k x y) env s = k i j env s') ∧
    bufs p s' dk V D (<[b := j]> (<[a := i]> ∅)) ∧ bframe s s'.
Proof.
  intros Ha Hb Hab Ra Rb.
  destruct (bread_spec B a env) as (i & s1 & E1 & B1 & F1); [done|done|rewrite map_size_empty; naive_solver lia|].
  destruct (bread_spec B1 b env) as (j & s2 & E2 & B2 & F2).
  { by rewrite (bframe_size _ _ F1). } { by rewrite lookup_insert_ne. }
  { rewrite map_size_insert_None, map_size_empty by done. naive_solver lia. }
  exists i, j, s2. split_and!; [|done|by etransitivity].
  intros C k. by rewrite (bind_done _ _ _ _ _ _ _ E1), (bind_done _ _ _ _ _ _ _ E2).
Qed.

Lemma delete_pair (a b : Z) (i j : nat) : delete b (delete a (<[b:=j]> (<[a:=i]> (∅ : gmap Z nat)))) = ∅.
Proof.
  apply map_eq. intros c. rewrite lookup_empty. apply lookup_delete_None.
  destruct (decide (b = c)) as [|Hb]; [by left|right]. apply lookup_delete_None.
  destruct (decide (a = c)) as [|Ha]; [by left|right]. by rewrite !lookup_insert_ne.
Qed.

Lemma copy_down {p s dk V D} (B : bufs p s dk V D ∅) a b env :
  a < k_disksize s → b < k_disksize s → a ≠ b →
  a ∈ D ∨ (size D < NBUF)%nat → b ∈ D ∨ (size D + 1 < NBUF)%nat →
  ∃ s', (lbuf <- bread ROOTDEV a ;;
         dbuf <- bread ROOTDEV b ;;
         d <- gets (λ s, b_data (get_buf s lbuf)) ;;
         (upd_buf dbuf (λ q, q <| b_data := d |>) ;; bwrite dbuf) ;;
         brelse lbuf ;; brelse dbuf) env s = Done tt s' env ∧
    bufs p s' (disk_put dk b (V a)) (<[b := V a]> V) (D ∖ {[b]}) ∅ ∧ bframe s s'.
Proof.
  intros Ha Hb Hab Ra Rb.
  destruct (bread2_spec B a b env) as (i & j & s1 & E1 & B1 & F1); try done. rewrite E1.
  destruct (copy_held B1 a b i j env) as (s2 & E2 & B2 & F2).
  { by rewrite (bframe_size _ _ F1). } { done. }
  { by rewrite lookup_insert_ne, lookup_insert_eq. } { apply lookup_insert_eq. }
  exists s2. rewrite delete_pair in B2. split_and!; [done|done|by etransitivity].
Qed.

Lemma copy_up {p s dk V D} (B : bufs p s dk V D ∅) a b env :
  a < k_disksize s → b < k_disksize s → a ≠ b →
  b ∈ D ∨ (size D < NBUF)%nat → a ∈ D ∨ (size D + 1 < NBUF)%nat →
  ∃ s', (to <- bread ROOTDEV b ;;
         from <- bread ROOTDEV a ;;
         d <- gets (λ s, b_data (get_buf s from)) ;;
         (upd_buf to (λ q, q <| b_data := d |>) ;; bwrite to) ;;
         brelse from ;; brelse to) env s = Done tt s' env ∧
    bufs p s' (disk_put dk b (V a)) (<[b := V a]> V) (D ∖ {[b]}) ∅ ∧ bframe s s'.
Proof.
  intros Ha Hb Hab Ra Rb.
  destruct (bread2_spec B b a env) as (j & i & s1 & E1 & B1 & F1); try done.
  rewrite (E1 _ (λ to from, d <- gets (λ s, b_data (get_buf s from)) ;;
         (upd_buf to (λ q, q <| b_data := d |>) ;; bwrite to) ;;
         brelse from ;; brelse to)).
  destruct (copy_held B1 a b i j env) as (s2 & E2 & B2 & F2).
  { by rewrite (bframe_size _ _ F1). } { done. }
  { apply lookup_insert_eq. } { by rewrite lookup_insert_ne, lookup_insert_eq. }
  exists s2. rewrite delete_delete, delete_pair in B2. split_and!; [done|done|by etransitivity].
Qed.

Lemma copies_ext V V' from to : (∀ a, a ∈ from → V a = V' a) → copies V from to = copies V' from to.
Proof.
  intros E. revert to. induction from as [|a from IH]; intros [|b to]; try done.
  unfold copies. simpl. rewrite E by set_solver. f_equal. apply IH. set_solver.
Qed.

Lemma copies_fst V from to : length from = length to → (copies V from to).*1 = to.
Proof.
  revert to. induction from as [|a from IH]; intros [|b to] ?; simplify_eq/=; [done|].
  f_equal. by apply IH.
Qed.

Lemma elem_of_slots st t k c :
  c ∈ slots st t k ↔ ∃ i : nat, c = st + Z.of_nat i + 1 ∧ (t ≤ i < t + k)%nat.
Proof. unfold slots. rewrite list_elem_of_fmap. setoid_rewrite elem_of_seq. done. Qed.

Lemma home_not_slot nb st sz t k c :
  Z.of_nat (t + k) < sz → home nb st sz c → c ∉ slots st t k.
Proof. intros Hk [_ Hc] (i & -> & Hi)%elem_of_slots. lia. Qed.

Lemma length_slots st t k : length (slots st t k) = k.
Proof. unfold slots. by rewrite length_fmap, length_seq. Qed.

(** A buffer is free for each of the two reads. *)
Definition room2 (D : gset Z) (l : list Z) : Prop :=
  (size D ≤ 28)%nat ∨ ((size D ≤ 29)%nat ∧ ∀ b, b ∈ l → b ∈ D).

Lemma size_remove (b : Z) (D : gset Z) : b ∈ D → size D = S (size (D ∖ {[b]})).
Proof.
  intros Hb. pose proof (size_mark false b D) as E. unfold mark in E.
  rewrite bool_decide_eq_true_2 in E by done. lia.
Qed.

Lemma empty_difference (X : gset Z) : ∅ ∖ X = ∅.
Proof. set_solver. Qed.

Lemma room2_step b l (D : gset Z) : room2 D (b :: l) → room2 (D ∖ {[b]}) l.
Proof.
  intros [H|[H1 H2]]; left.
  - pose proof (subseteq_size (D ∖ {[b]}) D ltac:(set_solver)). lia.
  - rewrite (size_remove b D) in H1 by set_solver. lia.
Qed.

Lemma room2_use b l (D : gset Z) : room2 D (b :: l) →
  (size D < NBUF)%nat ∧ (b ∈ D ∨ (size D + 1 < NBUF)%nat).
Proof. change NBUF with 30%nat. intros [H|[H1 H2]]; split; [lia|right; lia|lia|left]. set_solver. Qed.

Section loops.
Context (p : nat) (nb st sz : Z) (bl : list Z) (env : list (kstate → kstate)).
Context (A : log_area nb st sz) (Hh : Forall (home nb st sz) bl) (Hsz : Z.of_nat (length bl) < sz).

Lemma home_at t : (t < length bl)%nat → home nb st sz (bl !!! t).
Proof.
  intros Ht. rewrite Forall_lookup in Hh. destruct (lookup_lt_is_Some_2 _ _ Ht) as [b Eb].
  rewrite (list_lookup_total_correct _ _ _ Eb). eauto.
Qed.

Lemma drop_at t : (t < length bl)%nat → drop t bl = bl !!! t :: drop (S t) bl.
Proof.
  intros Ht. destruct (lookup_lt_is_Some_2 _ _ Ht) as [b Eb].
  rewrite (list_lookup_total_correct _ _ _ Eb). by apply drop_S.
Qed.

Lemma slot_range t : (t < length bl)%nat → 2 ≤ st + Z.of_nat t + 1 < nb.
Proof. pose proof (la_start _ _ _ A). pose proof (la_end _ _ _ A). lia. Qed.

Lemma slot_ne t : (t < length bl)%nat → st + Z.of_nat t + 1 ≠ bl !!! t.
Proof. intros Ht. destruct (home_at t Ht) as [_ ?]. lia. Qed.

Lemma install_loop k t s dk V D :
  (t + k = length bl)%nat → bufs p s dk V D ∅ → log_holds s st sz bl → k_disksize s = nb →
  room2 D (drop t bl) →
  let ws := copies V (slots st t k) (drop t bl) in
  ∃ s', foreach install_trans1 (seq t k) env s = Done tt s' env ∧
    bufs p s' (put_all dk ws) (upd_all V ws) (D ∖ list_to_set (drop t bl)) ∅ ∧ bframe s s'.
Proof.
  revert t s dk V D. induction k as [|k IH]; intros t s dk V D Ht B L N R.
  - exists s. split; [done|]. rewrite drop_ge by lia. simpl. split; [|done].
    by replace (D ∖ ∅) with D by set_solver.
  - assert (Hlt : (t < length bl)%nat) by lia. rewrite drop_at in R by done.
    destruct (room2_use _ _ _ R) as [R1 R2]. pose proof (slot_range t Hlt).
    destruct (home_at t Hlt) as [Hb _].
    destruct (copy_down B (st + Z.of_nat t + 1) (bl !!! t) env) as (s1 & E1 & B1 & F1);
      [lia|lia|by apply slot_ne|by right|done|].
    destruct (IH (S t) _ _ _ _ ltac:(lia) B1) as (s2 & E2 & B2 & F2);
      [by eapply log_holds_frame|by rewrite (bframe_size _ _ F1)|by apply room2_step in R|].
    exists s2. split_and!; [|..|by etransitivity].
    + simpl. rewrite (bind_done _ _ _ _ tt s1 env); [done|].
      unfold install_trans1. rewrite bind_gets, (lg_dev _ _ _ _ L), (lg_start _ _ _ _ L).
      rewrite (log_holds_lookup _ _ _ _ _ L Hlt), (home_u32 _ _ _ _ A (home_at t Hlt)).
      by rewrite (slot_u32 _ _ _ _ A) by lia.
    + rewrite drop_at by done. revert B2.
      rewrite (copies_ext (<[_ := _]> V) V).
      * simpl. by rewrite difference_difference_l_L.
      * intros a Ha. rewrite fn_lookup_insert_ne; [done|]. intros <-.
        revert Ha. eapply home_not_slot; [|by apply home_at]. lia.
Qed.

Lemma write_log_loop k t s dk V D :
  (t + k = length bl)%nat → bufs p s dk V D ∅ → log_holds s st sz bl → k_disksize s = nb →
  (size D < NBUF)%nat → (∀ b, b ∈ bl → b ∈ D) → (∀ c, c ∈ D → home nb st sz c) →
  let ws := copies V (drop t bl) (slots st t k) in
  ∃ s', foreach write_log1 (seq t k) env s = Done tt s' env ∧
    bufs p s' (put_all dk ws) (upd_all V ws) D ∅ ∧ bframe s s'.
Proof.
  revert t s dk V. induction k as [|k IH]; intros t s dk V Ht B L N R1 R2 HD.
  - exists s. split; [done|]. by rewrite drop_ge by lia.
  - assert (Hlt : (t < length bl)%nat) by lia. pose proof (slot_range t Hlt).
    destruct (home_at t Hlt) as [Hb _].
    destruct (copy_up B (bl !!! t) (st + Z.of_nat t + 1) env) as (s1 & E1 & B1 & F1);
      [lia|lia|intros E; by apply (slot_ne t)|by right|left; by apply R2, list_elem_of_lookup_total_2|].
    replace (D ∖ {[st + Z.of_nat t + 1]}) with D in B1.
    2:{ symmetry. apply difference_disjoint_L. intros c Hc ->%elem_of_singleton.
        apply HD in Hc as [_ ?]. lia. }
    destruct (IH (S t) _ _ _ ltac:(lia) B1) as (s2 & E2 & B2 & F2);
      [by eapply log_holds_frame|by rewrite (bframe_size _ _ F1)|done..|].
    exists s2. split_and!; [|..|by etransitivity].
    + simpl. rewrite (bind_done _ _ _ _ tt s1 env); [done|].
      unfold write_log1. rewrite bind_gets, (lg_dev _ _ _ _ L), (lg_start _ _ _ _ L).
      rewrite (log_holds_lookup _ _ _ _ _ L Hlt), (home_u32 _ _ _ _ A (home_at t Hlt)).
      by rewrite (slot_u32 _ _ _ _ A) by lia.
    + rewrite drop_at by done. revert B2. rewrite (copies_ext (<[_ := _]> V) V); [done|].
      intros a Ha. rewrite fn_lookup_insert_ne; [done|]. intros <-.
      assert (Hx : st + Z.of_nat t + 1 ∈ bl) by (by apply (subseteq_drop (S t))).
      rewrite Forall_forall in Hh. apply Hh in Hx as [_ ?]. lia.
Qed.
End loops.

(** ** The header block *)
Definition hd_blocks (d : block) : list Z := hd_block d <$> seq 0 (Z.to_nat (hd_n d)).

Lemma s32_mod v : 0 ≤ v < 2 ^ 31 → s32 (v `mod` 256 ^ Z.of_nat 4) = v.
Proof.
  intros H. change (256 ^ Z.of_nat 4) with 4294967296. rewrite Z.mod_small by lia.
  apply s32_small. lia.
Qed.

Section head.
Context (bl : list Z) (d : block) (Hd : length d = 512%nat).
Context (Hl : (length bl ≤ 30)%nat) (Hb : Forall (λ b, 0 ≤ b < 2 ^ 31) bl).

Lemma length_head_store n blk : length (head_store n blk d) = 512%nat.
Proof. unfold head_store. by rewrite length_st_words, length_stn. Qed.

(** What [write_head] stores, [read_head] reads back. *)
Lemma hd_n_store blk : hd_n (head_store (Z.of_nat (length bl)) blk d) = Z.of_nat (length bl).
Proof.
  unfold hd_n, head_store. rewrite ldn_st_words_ne by (intros; lia).
  rewrite ldn_stn by (rewrite Hd; lia). apply s32_mod. lia.
Qed.

Lemma hd_blocks_store : hd_blocks (head_store (Z.of_nat (length bl)) bl d) = bl.
Proof.
  unfold hd_blocks. rewrite hd_n_store, Nat2Z.id.
  apply list_eq_same_length with (length bl); [done|by rewrite length_fmap, length_seq|].
  intros i x y Hi. rewrite list_lookup_fmap, lookup_seq_lt by done. simpl.
  intros [= <-] Hy. unfold hd_block, head_store. rewrite Nat2Z.id.
  rewrite ldn_st_words by (rewrite ?length_stn; lia).
  rewrite (list_lookup_total_correct _ _ _ Hy). apply s32_mod.
  rewrite Forall_lookup in Hb. eauto.
Qed.
End head.

Lemma head_store_take n blk bl d :
  take n blk = bl → length bl = n → head_store (Z.of_nat n) blk d = head_store (Z.of_nat n) bl d.
Proof.
  intros E El. unfold head_store, st_words. rewrite Nat2Z.id. generalize (stn 4 d 0 (Z.of_nat n)). clear d.
  assert (H : ∀ l d, (∀ i, i ∈ l → (i < n)%nat) →
    foldl (λ d i, stn 4 d (4 + 4 * i) (blk !!! i)) d l = foldl (λ d i, stn 4 d (4 + 4 * i) (bl !!! i)) d l).
  { induction l as [|i l IH]; intros d Hi; [done|]. cbn [foldl].
    rewrite <-E at 1. rewrite lookup_total_take_lt by (apply Hi; set_solver). rewrite IH by set_solver. done. }
  intros d. apply H. intros i. rewrite elem_of_seq. lia.
Qed.

(** ** What a log operation may change *)
Definition lframe (s s' : kstate) : Prop :=
  s' = s <| k_bcache := k_bcache s' |> <| k_disk := k_disk s' |> <| k_procs := k_procs s' |>
         <| k_log := k_log s' |> ∧
  wakes (k_procs s) (k_procs s').

#[global] Instance lframe_preorder : PreOrder lframe.
Proof.
  split.
  - intros s. split; [by destruct s|done].
  - intros s1 s2 s3 [E1 W1] [E2 W2]. split; [|by etransitivity].
    rewrite E2, E1 at 1. done.
Qed.

Lemma bframe_lframe s s' : bframe s s' → lframe s s'.
Proof. intros [E W]. split; [|done]. rewrite E at 1. rewrite E. by destruct s, s'. Qed.
Lemma lframe_log f s : lframe s (s <| k_log ::= f |>).
Proof. split; [by destruct s|done]. Qed.
Lemma lframe_size s s' : lframe s s' → k_disksize s' = k_disksize s.
Proof. by intros [-> _]. Qed.

Lemma bufs_log f p s dk V D H : bufs p s dk V D H → bufs p (s <| k_log ::= f |>) dk V D H.
Proof. intros []. by split. Qed.

(** ** write_head and read_head *)
Section header.
Context (p : nat) (nb st sz : Z) (A : log_area nb st sz).

Lemma start_u32 : u32 st = st.
Proof.
  apply u32_small. unfold is_u32.
  pose proof (la_max _ _ _ A). pose proof (la_start _ _ _ A). pose proof (la_end _ _ _ A).
  pose proof (la_size _ _ _ A). lia.
Qed.

Lemma start_lt : st < nb.
Proof. pose proof (la_end _ _ _ A). pose proof (la_size _ _ _ A). lia. Qed.

Lemma write_head_spec bl env s dk V D :
  bufs p s dk V D ∅ → log_holds s st sz bl → k_disksize s = nb → (size D < NBUF)%nat → st ∉ D →
  let h := head_store (Z.of_nat (length bl)) bl (V st) in
  ∃ s', write_head env s = Done tt s' env ∧
    bufs p s' (disk_put dk st h) (<[st := h]> V) D ∅ ∧ bframe s s'.
Proof.
  intros B L N R Hst h. unfold write_head.
  rewrite bind_gets, (lg_dev _ _ _ _ L), (lg_start _ _ _ _ L), start_u32.
  destruct (bread_spec B st env) as (i & s1 & E1 & B1 & F1).
  { rewrite N. apply start_lt. } { done. } { rewrite map_size_empty. right. lia. }
  rewrite (bind_done _ _ _ _ _ _ _ E1), bind_gets.
  rewrite (bufs_data B1 st i) by apply lookup_insert_eq.
  rewrite (lg_n _ _ _ _ L), (head_store_take _ _ _ _ (lg_block _ _ _ _ L)) by done. fold h.
  destruct (bwrite_spec B1 st i h env) as (s2 & E2 & B2 & F2).
  { apply lookup_insert_eq. } { rewrite (bframe_size _ _ F1), N. apply start_lt. }
  rewrite (bind_done _ _ _ _ _ _ _ E2).
  destruct (brelse_spec B2 st i env) as (s3 & E3 & B3 & F3); [apply lookup_insert_eq|].
  exists s3. split_and!; [done| |by repeat (etransitivity; [eassumption|])].
  rewrite delete_insert_id in B3 by done.
  by replace (D ∖ {[st]}) with D in B3 by set_solver.
Qed.

Lemma set_lh_blocks_run (v : nat → Z) l env s :
  (∀ i, i ∈ l → (i < Z.to_nat LOGSIZE)%nat) →
  foreach (λ i, set_lh_block i (v i)) l env s =
    Done tt (s <| k_log ::= λ lg, lg <| l_block ::= λ b, foldl (λ b i, <[i := v i]> b) b l |> |>) env.
Proof.
  revert s. induction l as [|i l IH]; intros s Hl; [simpl; unfold ret; f_equal; kext; by destruct (k_log s)|].
  cbn [foreach foldl]. unfold set_lh_block at 1.
  rewrite (proj2 (Nat.ltb_lt i _)) by (apply Hl; set_solver).
  unfold upd_log. rewrite bind_modify, IH by set_solver. by destruct s.
Qed.

Lemma take_foldl_insert (v : nat → Z) n (b : list Z) :
  (n ≤ length b)%nat → take n (foldl (λ b i, <[i := v i]> b) b (seq 0 n)) = v <$> seq 0 n.
Proof.
  induction n as [|n IH]; intros Hn; [done|].
  rewrite seq_S, foldl_app, fmap_app. simpl. rewrite <-IH by lia.
  set (c := foldl _ _ _). assert (Hc : length c = length b).
  { unfold c. clear. generalize (seq 0 n). intros l. revert b.
    induction l as [|i l IH]; intros b; [done|]. simpl. by rewrite IH, length_insert. }
  rewrite (take_S_r _ _ (v n)) by (rewrite list_lookup_insert_eq; [done|lia]).
  by rewrite take_insert_ge by lia.
Qed.

Lemma length_foldl_insert (v : nat → Z) l (b : list Z) :
  length (foldl (λ b i, <[i := v i]> b) b l) = length b.
Proof. revert b. induction l as [|i l IH]; intros b; [done|]. simpl. by rewrite IH, length_insert. Qed.

Lemma read_head_spec bl env s dk V D :
  bufs p s dk V D ∅ → log_holds s st sz bl → k_disksize s = nb → (size D < NBUF)%nat →
  0 ≤ hd_n (V st) ≤ LOGSIZE →
  ∃ s', read_head env s = Done tt s' env ∧
    bufs p s' dk V D ∅ ∧ log_holds s' st sz (hd_blocks (V st)) ∧ lframe s s'.
Proof.
  intros B L N R Hn. unfold read_head.
  rewrite bind_gets, (lg_dev _ _ _ _ L), (lg_start _ _ _ _ L), start_u32.
  destruct (bread_spec B st env) as (i & s1 & E1 & B1 & F1).
  { rewrite N. apply start_lt. } { done. } { rewrite map_size_empty. right. lia. }
  rewrite (bind_done _ _ _ _ _ _ _ E1), bind_gets.
  rewrite (bufs_data B1 st i) by apply lookup_insert_eq.
  unfold upd_log. rewrite bind_modify.
  erewrite bind_done by (apply set_lh_blocks_run; intros j; rewrite elem_of_seq; lia).
  set (s2 := s1 <| k_log ::= _ |> <| k_log ::= _ |>).
  assert (B2 : bufs p s2 dk V D (<[st:=i]> ∅)) by (by apply bufs_log, bufs_log).
  destruct (brelse_spec B2 st i env) as (s3 & E3 & B3 & F3); [apply lookup_insert_eq|].
  exists s3. rewrite delete_insert_id in B3 by done. split_and!; [done|done|..].
  - pose proof (log_holds_frame _ _ _ _ _ F1 L) as [L1 L2 L3 _ _ L5].
    eapply log_holds_frame; [exact F3|].
    assert (HB : length (hd_blocks (V st)) = Z.to_nat (hd_n (V st)))
      by (unfold hd_blocks; by rewrite length_fmap, length_seq).
    split; simpl; rewrite ?HB; [done|done|done|lia| |by rewrite length_foldl_insert].
    apply take_foldl_insert. rewrite L5. lia.
  - etransitivity; [by apply bframe_lframe|]. etransitivity; [apply lframe_log|].
    etransitivity; [apply lframe_log|]. by apply bframe_lframe.
Qed.
End header.

(** ** What recovery makes of a disk *)
Record hdr_ok (nb st sz : Z) (d : block) : Prop := {
  ho_len : length d = 512%nat;
  ho_n : 0 ≤ hd_n d < sz;
  ho_home : Forall (home nb st sz) (hd_blocks d) }.

(** The writes recovery issues for the disk [dk], and the contents of the
    disk after it. *)
Definition rec_writes (st : Z) (dk : disk) : list (Z * block) :=
  let bl := hd_blocks (disk_get dk st) in copies (disk_get dk) (slots st 0 (length bl)) bl.
Definition recovered (st : Z) (dk : disk) : Z → block := upd_all (disk_get dk) (rec_writes st dk).

Section crash.
Context (nb st sz : Z) (A : log_area nb st sz).

Lemma st_not_home c : home nb st sz c → c ≠ st.
Proof. intros [_ H] ->. pose proof (la_size _ _ _ A). lia. Qed.

Lemma length_hd_blocks d : length (hd_blocks d) = Z.to_nat (hd_n d).
Proof. unfold hd_blocks. by rewrite length_fmap, length_seq. Qed.

Lemma rec_writes_fst dk : (rec_writes st dk).*1 = hd_blocks (disk_get dk st).
Proof. apply copies_fst. by rewrite length_slots. Qed.

Lemma recovered_empty dk : hd_n (disk_get dk st) = 0 → recovered st dk = disk_get dk.
Proof.
  intros E. unfold recovered, rec_writes. assert (hd_blocks (disk_get dk st) = []) as ->; [|done].
  apply length_zero_iff_nil. by rewrite length_hd_blocks, E.
Qed.

(** Writing home blocks leaves the log alone. *)
Lemma home_writes_log dk w :
  hdr_ok nb st sz (disk_get dk st) → (∀ c, c ∈ w.*1 → home nb st sz c) →
  disk_get (put_all dk w) st = disk_get dk st ∧ rec_writes st (put_all dk w) = rec_writes st dk.
Proof.
  intros O Hw. assert (E : disk_get (put_all dk w) st = disk_get dk st).
  { rewrite disk_get_put_all, upd_all_notin; [done|]. intros Hs%Hw. by apply (st_not_home st Hs). }
  split; [done|]. unfold rec_writes. rewrite E. apply copies_ext.
  intros a Ha. rewrite disk_get_put_all, upd_all_notin; [done|]. intros Hh%Hw.
  revert Ha. eapply home_not_slot; [|done]. rewrite length_hd_blocks. destruct O. lia.
Qed.

(** A crash anywhere during recovery: repeating it gives the same result. *)
Lemma recovery_prefix dk h0 w :
  hdr_ok nb st sz (disk_get dk st) → length h0 = 512%nat → hd_n h0 = 0 →
  w `prefix_of` rec_writes st dk ++ [(st, h0)] →
  hdr_ok nb st sz (disk_get (put_all dk w) st) ∧
  ∀ c, home nb st sz c → recovered st (put_all dk w) c = recovered st dk c.
Proof.
  intros O Hl H0 [Hp | ->]%prefix_snoc_cases.
  - assert (Hw : ∀ c, c ∈ w.*1 → c ∈ hd_blocks (disk_get dk st)).
    { intros c Hc. rewrite <-rec_writes_fst. destruct Hp as [w' ->].
      rewrite fmap_app. apply elem_of_app. by left. }
    destruct (home_writes_log dk w O) as [E1 E2].
    { intros c Hc%Hw. pose proof (ho_home _ _ _ _ O) as F. rewrite Forall_forall in F. auto. }
    rewrite E1. split; [done|]. intros c Hc. unfold recovered. rewrite E2.
    destruct (decide (c ∈ (rec_writes st dk).*1)) as [Hi|Hi]; [by apply upd_all_in|].
    apply upd_all_ext. rewrite disk_get_put_all, upd_all_notin; [done|].
    rewrite rec_writes_fst in Hi. auto.
  - rewrite put_all_app.
    assert (E : disk_get (put_all (put_all dk (rec_writes st dk)) [(st, h0)]) st = h0)
      by (simpl; by rewrite disk_get_put, decide_True).
    rewrite E. split.
    + split; [done|rewrite H0; pose proof (la_size _ _ _ A); lia|].
      assert (hd_blocks h0 = []) as ->; [|done].
      apply length_zero_iff_nil. by rewrite length_hd_blocks, H0.
    + intros c Hc. rewrite recovered_empty by (by rewrite E). simpl.
      rewrite disk_get_put, decide_False by (by apply st_not_home). by rewrite disk_get_put_all.
Qed.
End crash.

Lemma log_holds_clear s st sz bl :
  log_holds s st sz bl → log_holds (s <| k_log ::= λ l, l <| l_n := 0 |> |>) st sz [].
Proof. intros []. by split. Qed.

(** The second half of [commit] and of [recover_from_log]: install the
    blocks, then clear the header. *)
Lemma install_clear_spec p nb st sz bl env s dk V D :
  log_area nb st sz → Forall (home nb st sz) bl → Z.of_nat (length bl) < sz →
  length (V st) = 512%nat → (size D < NBUF)%nat → st ∉ D → room2 D bl →
  bufs p s dk V D ∅ → log_holds s st sz bl → k_disksize s = nb →
  ∃ s' h0, (install_trans ;; upd_log (λ l, l <| l_n := 0 |>) ;; write_head) env s = Done tt s' env ∧
    length h0 = 512%nat ∧ hd_n h0 = 0 ∧
    (let ws := copies V (slots st 0 (length bl)) bl ++ [(st, h0)] in
     bufs p s' (put_all dk ws) (upd_all V ws) (D ∖ list_to_set bl) ∅) ∧
    log_holds s' st sz [] ∧ lframe s s'.
Proof.
  intros A Hh Hsz HV HD Hst R B L N.
  destruct (install_loop p nb st sz bl env A Hh Hsz (length bl) 0 s dk V D)
    as (s2 & E2 & B2 & F2); [done|done|done|done|by rewrite drop_0|]. rewrite drop_0 in B2.
  rewrite (bind_done _ _ _ _ tt s2 env)
    by (unfold install_trans; rewrite bind_gets, (lg_n _ _ _ _ L), Nat2Z.id; done).
  unfold upd_log at 1. rewrite bind_modify.
  assert (L3 := log_holds_clear _ _ _ _ (log_holds_frame _ _ _ _ _ F2 L)).
  assert (B3 := bufs_log (λ l, l <| l_n := 0 |>) _ _ _ _ _ _ B2).
  assert (F3 := lframe_log (λ l, l <| l_n := 0 |>) s2).
  revert L3 B3 F3. generalize (s2 <| k_log ::= λ l, l <| l_n := 0 |> |>). intros s3 L3 B3 F3.
  destruct (write_head_spec p nb st sz A [] env s3 _ _ _ B3 L3) as (s4 & E4 & B4 & F4).
  { by rewrite (lframe_size _ _ F3), (bframe_size _ _ F2). }
  { eapply Nat.le_lt_trans; [|exact HD]. apply subseteq_size. set_solver. } { set_solver. }
  set (V2 := upd_all V _) in B4.
  assert (HV2 : length (V2 st) = 512%nat).
  { unfold V2. rewrite upd_all_notin; [done|]. rewrite copies_fst by (by rewrite length_slots).
    intros Hs. rewrite Forall_forall in Hh. by apply (st_not_home nb st sz A st); [apply Hh|]. }
  exists s4, (head_store 0 [] (V2 st)). split_and!.
  - exact E4.
  - by apply length_head_store.
  - by apply (hd_n_store [] _ HV2); simpl; [lia|..].
  - rewrite put_all_app, upd_all_app. exact B4.
  - by eapply log_holds_frame.
  - etransitivity; [by apply bframe_lframe|]. etransitivity; [done|by apply bframe_lframe].
Qed.

(** ** recover_from_log *)
Lemma recover_spec p nb st sz bl env s dk V :
  log_area nb st sz → hdr_ok nb st sz (disk_get dk st) →
  bufs p s dk V ∅ ∅ → log_holds s st sz bl → k_disksize s = nb →
  ∃ s' h0, recover_from_log env s = Done tt s' env ∧
    length h0 = 512%nat ∧ hd_n h0 = 0 ∧
    (let ws := rec_writes st dk ++ [(st, h0)] in bufs p s' (put_all dk ws) (upd_all V ws) ∅ ∅) ∧
    log_holds s' st sz [] ∧ lframe s s'.
Proof.
  intros A O B L N. unfold recover_from_log.
  assert (EV : ∀ c, V c = disk_get dk c) by (intros c; apply (bufs_clean B); set_solver).
  pose proof (ho_n _ _ _ _ O) as Hn. pose proof (la_size _ _ _ A) as Hsz.
  destruct (read_head_spec p nb st sz A bl env s dk V ∅) as (s1 & E1 & B1 & L1 & F1);
    [done|done|done|rewrite size_empty; unfold NBUF; lia|rewrite EV; lia|].
  rewrite (bind_done _ _ _ _ _ _ _ E1). rewrite EV in L1.
  destruct (install_clear_spec p nb st sz (hd_blocks (disk_get dk st)) env s1 dk V ∅)
    as (s2 & h0 & E2 & Hl0 & Hn0 & B2 & L2 & F2).
  all: rewrite ?size_empty, ?EV, ?length_hd_blocks; try done.
  - apply O.
  - lia.
  - apply O.
  - unfold NBUF. lia.
  - left. rewrite size_empty. lia.
  - by rewrite (lframe_size _ _ F1).
  - exists s2, h0. split_and!; [done..| |done|by etransitivity].
    rewrite empty_difference in B2.
    by rewrite (copies_ext V (disk_get dk)) in B2 by auto.
Qed.

(** ** commit *)
Lemma NoDup_slots st t k : NoDup (slots st t k).
Proof. apply NoDup_fmap; [|apply NoDup_seq]. intros i j. lia. Qed.

Lemma upd_all_copies V W from to i :
  NoDup to → (i < length to)%nat → length from = length to →
  upd_all W (copies V from to) (to !!! i) = V (from !!! i).
Proof.
  revert W to i. induction from as [|a from IH]; intros W [|b to] i ND Hi HL; simplify_eq/=; [lia|].
  apply NoDup_cons in ND as [Hb ND]. destruct i as [|i]; simpl.
  - rewrite upd_all_notin; [by rewrite fn_lookup_insert|]. by rewrite copies_fst.
  - apply IH; [done|lia|done].
Qed.

(** Reading back the log: what [write_log] copied to the log, [install_trans]
    copies to the home blocks. *)
Lemma copies_back V W bl st t :
  (∀ i, (i < length bl)%nat → W (slots st t (length bl) !!! i) = V (bl !!! i)) →
  copies W (slots st t (length bl)) bl = copies V bl bl.
Proof.
  revert t. induction bl as [|b bl IH]; intros t E; [done|].
  unfold copies. cbn [length slots seq fmap list_fmap zip_with]. f_equal.
  - pose proof (E 0%nat ltac:(simpl; lia)) as E0. simpl in E0. by rewrite E0.
  - apply (IH (S t)). intros i Hi. apply (E (S i)). simpl. lia.
Qed.

Lemma upd_all_id V bl W c :
  (c ∉ bl → W c = V c) → upd_all W (copies V bl bl) c = V c.
Proof.
  intros E. destruct (decide (c ∈ bl)) as [Hc|Hc].
  - clear E. revert W. induction bl as [|b bl IH]; intros W; [set_solver|]. simpl.
    destruct (decide (c ∈ bl)) as [Hi|Hi]; [by apply IH|].
    apply elem_of_cons in Hc as [->|?]; [|done].
    rewrite upd_all_notin by (by rewrite copies_fst). by rewrite fn_lookup_insert.
  - rewrite upd_all_notin by (by rewrite copies_fst). auto.
Qed.

Section commit.
Context (p : nat) (nb st sz : Z) (bl : list Z).
Context (A : log_area nb st sz) (Hh : Forall (home nb st sz) bl) (Hsz : Z.of_nat (length bl) < sz).

(** The disk writes of a commit, in order. *)
Definition commit_writes (V : Z → block) (h1 h0 : block) : list (Z * block) :=
  copies V bl (slots st 0 (length bl)) ++ (st, h1) :: copies V bl bl ++ [(st, h0)].

Lemma bl_int : Forall (λ b, 0 ≤ b < 2 ^ 31) bl.
Proof.
  eapply Forall_impl; [exact Hh|]. intros b [? _]. pose proof (la_max _ _ _ A). lia.
Qed.
Lemma bl_len : (length bl ≤ 30)%nat.
Proof. pose proof (la_size _ _ _ A) as H. unfold LOGSIZE, MAXOPBLOCKS in H. lia. Qed.
Lemma st_notin_bl : st ∉ bl.
Proof.
  intros Hs. rewrite Forall_forall in Hh. by apply (st_not_home nb st sz A st); [apply Hh|].
Qed.
Lemma st_notin_slots : st ∉ slots st 0 (length bl).
Proof. intros (i & E & _)%elem_of_slots. lia. Qed.

(** The contents at the moment the header is written: the log blocks hold
    the new contents. *)
Lemma logged_back V W h1 :
  (∀ c, W c = <[st := h1]> (upd_all V (copies V bl (slots st 0 (length bl)))) c) →
  copies W (slots st 0 (length bl)) bl = copies V bl bl.
Proof.
  intros HW. apply copies_back. intros i Hi. rewrite HW.
  assert (Hs : slots st 0 (length bl) !!! i ∈ slots st 0 (length bl))
    by (apply list_elem_of_lookup_total_2; by rewrite length_slots).
  rewrite fn_lookup_insert_ne by (intros E; rewrite <-E in Hs; by apply st_notin_slots).
  apply upd_all_copies; [apply NoDup_slots|by rewrite length_slots|by rewrite length_slots].
Qed.

Lemma commit_spec env s dk V :
  bl ≠ [] → NoDup bl → length (V st) = 512%nat →
  bufs p s dk V (list_to_set bl) ∅ → log_holds s st sz bl → k_disksize s = nb →
  ∃ s' h1 h0, commit env s = Done tt s' env ∧
    length h1 = 512%nat ∧ hd_n h1 = Z.of_nat (length bl) ∧ hd_blocks h1 = bl ∧
    length h0 = 512%nat ∧ hd_n h0 = 0 ∧
    bufs p s' (put_all dk (commit_writes V h1 h0)) (upd_all V (commit_writes V h1 h0)) ∅ ∅ ∧
    log_holds s' st sz [] ∧ lframe s s'.
Proof.
  intros Hne ND HV B L N. unfold commit. rewrite bind_gets, (lg_n _ _ _ _ L).
  rewrite (proj2 (Z.ltb_lt 0 _)) by (destruct bl; simpl; [done|lia]). unfold when.
  assert (HD : (size (list_to_set bl : gset Z) ≤ 29)%nat).
  { rewrite size_list_to_set by done. pose proof (la_size _ _ _ A) as H.
    unfold LOGSIZE, MAXOPBLOCKS in H. lia. }
  assert (HDh : ∀ c, c ∈ (list_to_set bl : gset Z) → home nb st sz c).
  { intros c Hc%elem_of_list_to_set. rewrite Forall_forall in Hh. auto. }
  destruct (write_log_loop p nb st sz bl env A Hh Hsz (length bl) 0 s dk V (list_to_set bl))
    as (s1 & E1 & B1 & F1);
    [done|done|done|done|unfold NBUF; lia|intros b; by rewrite elem_of_list_to_set|done|].
  rewrite drop_0 in B1. set (w1 := copies V bl _) in B1.
  rewrite (bind_done _ _ _ _ tt s1 env)
    by (unfold write_log; rewrite bind_gets, (lg_n _ _ _ _ L), Nat2Z.id; done).
  pose proof (log_holds_frame _ _ _ _ _ F1 L) as L1.
  destruct (write_head_spec p nb st sz A bl env s1 _ _ _ B1 L1) as (s2 & E2 & B2 & F2);
    [by rewrite (bframe_size _ _ F1)|unfold NBUF; lia|rewrite elem_of_list_to_set; apply st_notin_bl|].
  rewrite (bind_done _ _ _ _ _ _ _ E2).
  rewrite (upd_all_notin _ w1 st) in B2
    by (unfold w1; rewrite copies_fst by (by rewrite length_slots); apply st_notin_slots).
  set (h1 := head_store _ _ _) in B2. pose proof (log_holds_frame _ _ _ _ _ F2 L1) as L2.
  assert (Hh1 : length h1 = 512%nat) by (by apply length_head_store).
  destruct (λ h1 h2 h3 h4, install_clear_spec p nb st sz bl env s2 _ _ _ A Hh Hsz h1 h2 h3 h4 B2 L2)
    as (s3 & h0 & E3 & Hl0 & Hn0 & B3 & L3 & F3).
  { by rewrite fn_lookup_insert. } { unfold NBUF. lia. }
  { rewrite elem_of_list_to_set. apply st_notin_bl. }
  { right. split; [lia|]. intros b. by rewrite elem_of_list_to_set. }
  { by rewrite (bframe_size _ _ F2), (bframe_size _ _ F1). }
  rewrite (logged_back V _ h1), difference_diag_L in B3 by done.
  exists s3, h1, h0. split_and!; [done|done|..|done|done| |done|].
  - apply hd_n_store; [done|apply bl_len].
  - apply hd_blocks_store; [done|apply bl_len|apply bl_int].
  - unfold commit_writes. fold w1. rewrite put_all_app, upd_all_app. exact B3.
  - etransitivity; [by apply bframe_lframe|]. etransitivity; [by apply bframe_lframe|done].
Qed.
End commit.

(** ** Crashes during a commit *)
Lemma empty_hdr_ok nb st sz d : log_area nb st sz → length d = 512%nat → hd_n d = 0 → hdr_ok nb st sz d.
Proof.
  intros A Hl Hn. split; [done|rewrite Hn; pose proof (la_size _ _ _ A); lia|].
  assert (hd_blocks d = []) as ->; [|done].
  apply length_zero_iff_nil. by rewrite length_hd_blocks, Hn.
Qed.

Section commit_crash.
Context (nb st sz : Z) (bl : list Z) (dk : disk) (V : Z → block) (h1 h0 : block).
Context (A : log_area nb st sz) (Hh : Forall (home nb st sz) bl) (Hsz : Z.of_nat (length bl) < sz).
Context (Hold : length (disk_get dk st) = 512%nat ∧ hd_n (disk_get dk st) = 0).
Context (HV : ∀ c, c ∉ bl → V c = disk_get dk c).
Context (Hh1 : length h1 = 512%nat ∧ hd_n h1 = Z.of_nat (length bl) ∧ hd_blocks h1 = bl).
Context (Hh0 : length h0 = 512%nat ∧ hd_n h0 = 0).

Let dk1 := put_all dk (copies V bl (slots st 0 (length bl)) ++ [(st, h1)]).

Lemma dk1_get c : disk_get dk1 c = <[st := h1]> (upd_all (disk_get dk) (copies V bl (slots st 0 (length bl)))) c.
Proof. unfold dk1. by rewrite disk_get_put_all, upd_all_app. Qed.

Lemma dk1_header : disk_get dk1 st = h1.
Proof. by rewrite dk1_get, fn_lookup_insert. Qed.

Lemma dk1_writes : rec_writes st dk1 = copies V bl bl.
Proof.
  unfold rec_writes. rewrite dk1_header. destruct Hh1 as (_ & _ & ->).
  apply copies_back. intros i Hi. rewrite dk1_get.
  assert (Hs : slots st 0 (length bl) !!! i ∈ slots st 0 (length bl))
    by (apply list_elem_of_lookup_total_2; by rewrite length_slots).
  rewrite fn_lookup_insert_ne by (intros E; rewrite <-E in Hs; by apply (st_notin_slots st bl)).
  apply upd_all_copies; [apply NoDup_slots|by rewrite length_slots|by rewrite length_slots].
Qed.

Lemma dk1_recovered c : home nb st sz c → recovered st dk1 c = V c.
Proof.
  intros Hc. unfold recovered. rewrite dk1_writes. apply upd_all_id. intros Hi.
  rewrite dk1_get, fn_lookup_insert_ne by (intros E; by apply (st_not_home nb st sz A c Hc)).
  rewrite upd_all_notin; [by rewrite HV|]. rewrite copies_fst by (by rewrite length_slots).
  by eapply home_not_slot.
Qed.

Lemma before_header w :
  (∀ c, c ∈ w.*1 → c ∈ slots st 0 (length bl)) →
  hdr_ok nb st sz (disk_get (put_all dk w) st) ∧
  ∀ c, home nb st sz c → recovered st (put_all dk w) c = disk_get dk c.
Proof.
  intros Hs. assert (E : disk_get (put_all dk w) st = disk_get dk st).
  { rewrite disk_get_put_all, upd_all_notin; [done|]. intros Hx%Hs. by apply (st_notin_slots st bl). }
  destruct Hold. rewrite E. split; [by apply empty_hdr_ok|]. intros c Hc.
  rewrite recovered_empty by (by rewrite E). rewrite disk_get_put_all, upd_all_notin; [done|].
  intros Hx%Hs. revert Hx. by eapply home_not_slot.
Qed.

Lemma commit_prefix w :
  w `prefix_of` commit_writes st bl V h1 h0 →
  hdr_ok nb st sz (disk_get (put_all dk w) st) ∧
  ((∀ c, home nb st sz c → recovered st (put_all dk w) c = disk_get dk c) ∨
   (∀ c, home nb st sz c → recovered st (put_all dk w) c = V c)).
Proof.
  assert (EF : (copies V bl (slots st 0 (length bl))).*1 = slots st 0 (length bl))
    by (apply copies_fst; by rewrite length_slots).
  unfold commit_writes. intros [[k Hw]|(w' & -> & Hw)]%prefix_app_cases.
  - destruct (before_header w); [|naive_solver].
    intros c Hc. rewrite <-EF, Hw, fmap_app, elem_of_app. by left.
  - destruct w' as [|x w']; [|apply prefix_cons_inv_1 in Hw as Hx; apply prefix_cons_inv_2 in Hw; subst x].
    + rewrite app_nil_r. destruct (before_header (copies V bl (slots st 0 (length bl)))); [|naive_solver].
      by rewrite EF.
    + assert (E : put_all dk (copies V bl (slots st 0 (length bl)) ++ (st, h1) :: w') = put_all dk1 w').
      { unfold dk1. rewrite <-put_all_app, <-app_assoc. done. }
      rewrite E. destruct (recovery_prefix nb st sz A dk1 h0 w') as [O R].
      * rewrite dk1_header. destruct Hh1 as (? & Hn & Hb). split; [done|lia|by rewrite Hb].
      * apply Hh0.
      * apply Hh0.
      * by rewrite dk1_writes.
      * split; [done|]. right. intros c Hc. rewrite R by done. by apply dk1_recovered.
Qed.
End commit_crash.

(** ** initlog *)
Definition log_at (d : block) (st sz : Z) : Prop :=
  sb_logstart (get_sb d) = st ∧ sb_nlog (get_sb d) = sz.

Lemma readsb_spec {p s dk V D} (B : bufs p s dk V D ∅) env :
  1 < k_disksize s → (size D < NBUF)%nat →
  ∃ s', readsb ROOTDEV env s = Done (get_sb (V 1)) s' env ∧ bufs p s' dk V D ∅ ∧ bframe s s'.
Proof.
  intros N HD. unfold readsb.
  destruct (bread_spec B 1 env) as (i & s1 & E1 & B1 & F1);
    [done|done|right; rewrite map_size_empty; lia|].
  rewrite (bind_done _ _ _ _ _ _ _ E1), bind_gets, (bufs_data B1 1 i) by apply lookup_insert_eq.
  destruct (brelse_spec B1 1 i env) as (s2 & E2 & B2 & F2); [apply lookup_insert_eq|].
  rewrite (bind_done _ _ _ _ _ _ _ E2). exists s2. rewrite delete_insert_id in B2 by done.
  split_and!; [done|done|by etransitivity].
Qed.

(** At boot: the cache is empty and the log record is still zeroed. *)
Lemma initlog_spec p nb st sz env s dk V :
  log_area nb st sz → hdr_ok nb st sz (disk_get dk st) → log_at (disk_get dk 1) st sz →
  bufs p s dk V ∅ ∅ → k_disksize s = nb → k_log s = log_zero →
  ∃ s' h0, initlog ROOTDEV env s = Done tt s' env ∧
    length h0 = 512%nat ∧ hd_n h0 = 0 ∧
    (let ws := rec_writes st dk ++ [(st, h0)] in bufs p s' (put_all dk ws) (upd_all V ws) ∅ ∅) ∧
    log_holds s' st sz [] ∧ lframe s s'.
Proof.
  intros A O [Hst Hsz] B N HL. unfold initlog. change (BSIZE <=? sizeof_logheader) with false. cbv iota.
  pose proof (la_start _ _ _ A). pose proof (start_lt _ _ _ A).
  destruct (readsb_spec B env) as (s1 & E1 & B1 & F1);
    [lia|rewrite size_empty; unfold NBUF; lia|].
  rewrite (bind_done _ _ _ _ _ _ _ E1). unfold upd_log at 1. rewrite bind_modify.
  rewrite (bufs_clean B 1), Hst, Hsz by set_solver.
  set (f := λ l : log, _). assert (F2 := lframe_log f s1). assert (B2 := bufs_log f _ _ _ _ _ _ B1).
  destruct (recover_spec p nb st sz [] env (s1 <| k_log ::= f |>) dk V A O B2)
    as (s3 & h0 & E3 & Hl0 & Hn0 & B3 & L3 & F3).
  - split; simpl; by rewrite ?(bframe_log _ _ F1), ?HL.
  - by rewrite (lframe_size _ _ F2), (bframe_size _ _ F1).
  - exists s3, h0. split_and!; [done..|]. etransitivity; [by apply bframe_lframe|by etransitivity].
Qed.

(** ** The log between system calls

    [log_inv p s V bl H]: the in-memory log records exactly the dirty blocks
    [bl], all of them home blocks, the header on disk is empty, and the
    blocks read as [V].  This is what every operation of the file system
    relies on and keeps. *)
Record log_inv (p : nat) (s : kstate) (V : Z → block) (bl : list Z) (H : gmap Z nat) : Prop := {
  li_area : log_area (k_disksize s) (l_start (k_log s)) (l_size (k_log s));
  li_bufs : bufs p s (k_disk s) V (list_to_set bl) H;
  li_log : log_holds s (l_start (k_log s)) (l_size (k_log s)) bl;
  li_nodup : NoDup bl;
  li_home : Forall (home (k_disksize s) (l_start (k_log s)) (l_size (k_log s))) bl;
  li_fit : Z.of_nat (length bl) < l_size (k_log s);
  li_hdr : length (disk_get (k_disk s) (l_start (k_log s))) = 512%nat ∧
           hd_n (disk_get (k_disk s) (l_start (k_log s))) = 0;
  li_sb : log_at (disk_get (k_disk s) 1) (l_start (k_log s)) (l_size (k_log s)) ∧ 1 ∉ bl }.

#[global] Arguments li_area {p s V bl H} _.
#[global] Arguments li_bufs {p s V bl H} _.
#[global] Arguments li_log {p s V bl H} _.
#[global] Arguments li_nodup {p s V bl H} _.
#[global] Arguments li_home {p s V bl H} _.
#[global] Arguments li_fit {p s V bl H} _.
#[global] Arguments li_hdr {p s V bl H} _.
#[global] Arguments li_sb {p s V bl H} _.

(** The location of the log, as the state has it. *)
Definition is_home (s : kstate) (c : Z) : Prop :=
  home (k_disksize s) (l_start (k_log s)) (l_size (k_log s)) c.

(** Counting operations and sleeping processes does not matter. *)
Lemma log_inv_count f p s V bl H :
  (∀ l, l_start (f l) = l_start l ∧ l_size (f l) = l_size l ∧ l_dev (f l) = l_dev l ∧
        l_n (f l) = l_n l ∧ l_block (f l) = l_block l) →
  log_inv p s V bl H → log_inv p (s <| k_log ::= f |>) V bl H.
Proof.
  intros Hf []. destruct (Hf (k_log s)) as (E1 & E2 & E3 & E4 & E5).
  split; simpl; rewrite ?E1, ?E2; try done.
  - by apply bufs_log.
  - destruct li_log0. split; simpl; rewrite ?E1, ?E2, ?E3, ?E4, ?E5; done.
Qed.

Lemma bufs_procs p s dk V D H ps :
  wakes (k_procs s) ps → bufs p s dk V D H → bufs p (s <| k_procs := ps |>) dk V D H.
Proof.
  intros W [B1 B2 B3 B4 B5 B6 B7 B8 B9]. split; try done.
  intros b i Hb. unfold pid_of, get_proc. simpl. rewrite (wakes_pid _ _ _ W). by apply (B8 b).
Qed.

Lemma log_inv_wake p s V bl H ch :
  log_inv p s V bl H → log_inv p (s <| k_procs ::= fmap (wake1 ch) |>) V bl H.
Proof.
  intros []. split; try done.
  - apply (bufs_procs p s); [apply wakes_wake1|done].
  - by destruct li_log0.
Qed.

(** ** log_write *)
Lemma absorb_spec b blk k i (j := absorb b blk k i) :
  (i ≤ j ≤ i + k)%nat ∧ ((j < i + k)%nat → u32 (blk !!! j) = b) ∧
  (j = (i + k)%nat → ∀ m, (i ≤ m < i + k)%nat → u32 (blk !!! m) ≠ b).
Proof.
  subst j. revert i. induction k as [|k IH]; intros i; simpl.
  - split; [lia|]. split; [lia|intros; lia].
  - destruct (u32 (blk !!! i) =? b) eqn:E.
    + apply Z.eqb_eq in E. split; [lia|]. split; [done|intros; lia].
    + apply Z.eqb_neq in E. destruct (IH (S i)) as (H1 & H2 & H3).
      split; [lia|]. split; [intros; apply H2; lia|]. intros Hj m Hm.
      destruct (decide (m = i)) as [->|]; [done|]. apply H3; lia.
Qed.

Definition add_block (b : Z) (bl : list Z) : list Z := if decide (b ∈ bl) then bl else bl ++ [b].

(** Log absorption: a block already in the log keeps its entry, a new one is
    appended. *)
Lemma absorb_add nb st sz s bl b (lg := k_log s)
    (j := absorb b (l_block lg) (Z.to_nat (l_n lg)) 0) :
  log_area nb st sz → log_holds s st sz bl → Forall (home nb st sz) bl → home nb st sz b →
  (length bl < Z.to_nat LOGSIZE)%nat →
  (j < Z.to_nat LOGSIZE)%nat ∧
  take (length (add_block b bl)) (<[j := s32 b]> (l_block lg)) = add_block b bl ∧
  (if Z.of_nat j =? l_n lg then l_n lg + 1 else l_n lg) = Z.of_nat (length (add_block b bl)).
Proof.
  intros A L Hh Hb Hlt.
  assert (Es : s32 b = b).
  { apply s32_small. destruct Hb as [? _]. pose proof (la_max _ _ _ A). lia. }
  assert (Eu : ∀ m, (m < length bl)%nat → u32 (l_block lg !!! m) = bl !!! m).
  { intros m Hm. unfold lg. rewrite (log_holds_lookup _ _ _ _ _ L Hm). eapply home_u32; [done|].
    by apply home_at. }
  destruct (absorb_spec b (l_block lg) (Z.to_nat (l_n lg)) 0) as (J1 & J2 & J3). fold j in J1, J2, J3.
  unfold lg in *. rewrite (lg_n _ _ _ _ L), Nat2Z.id in *. simpl in J1, J2, J3. rewrite Es.
  split; [lia|]. unfold add_block. destruct (decide (j = length bl)) as [Ej|Ej].
  - assert (Hn : b ∉ bl).
    { intros (m & Hm)%list_elem_of_lookup_1. pose proof (lookup_lt_Some _ _ _ Hm) as Hl.
      apply (J3 Ej m); [lia|]. rewrite Eu by done. by apply list_lookup_total_correct. }
    rewrite decide_False, Ej, Z.eqb_refl, length_app by done. simpl length. split; [|lia].
    rewrite Nat.add_1_r, (take_S_r _ _ b).
    + rewrite take_insert_ge by lia. by rewrite (lg_block _ _ _ _ L).
    + rewrite list_lookup_insert_eq; [done|]. rewrite (lg_len _ _ _ _ L). lia.
  - assert (Hj : bl !!! j = b) by (rewrite <-Eu by lia; apply J2; lia).
    rewrite decide_True; [|rewrite <-Hj; apply list_elem_of_lookup_total_2; lia].
    rewrite (proj2 (Z.eqb_neq _ _)) by lia. split; [|done].
    rewrite list_insert_id; [by rewrite (lg_block _ _ _ _ L)|].
    rewrite <-Hj, <-(log_holds_lookup _ _ _ _ _ L) by lia.
    apply list_lookup_lookup_total_lt. rewrite (lg_len _ _ _ _ L). lia.
Qed.

Definition pinned (g : block → block) (q : buf) : buf :=
  q <| b_data ::= g |> <| b_flags ::= λ f, set_flag f B_DIRTY |>.

Lemma stores_pinned g q : valid q = true → stores (g (b_data q)) true q (pinned g q).
Proof.
  intros Hv. split; try done; unfold pinned, valid, dirty in *; simpl.
  - by destruct (set_dirty_bits (b_flags q)) as [-> _].
  - apply set_dirty_bits.
Qed.

(** The log record after [log_write] of block [b]. *)
Definition logged (b : Z) (lg : log) : log :=
  let j := absorb b (l_block lg) (Z.to_nat (l_n lg)) 0 in
  lg <| l_block ::= insert j (s32 b) |>
     <| l_n ::= λ n, if Z.of_nat j =? n then n + 1 else n |>.

Lemma log_write_exact i g env s (b := b_blockno (get_buf s i)) :
  k_locks s = [] → (i < length (k_bcache s))%nat →
  l_n (k_log s) < LOGSIZE → l_n (k_log s) < l_size (k_log s) - 1 → 1 ≤ l_outstanding (k_log s) →
  (absorb b (l_block (k_log s)) (Z.to_nat (l_n (k_log s))) 0 < Z.to_nat LOGSIZE)%nat →
  (upd_buf i (λ q, q <| b_data ::= g |>) ;; log_write i) env s =
    Done tt (s <| k_bcache ::= alter (pinned g) i |> <| k_log ::= logged b |>) env.
Proof.
  intros Hl Hi H1 H2 H3 H4. unfold upd_buf at 1. rewrite bind_modify. unfold log_write.
  rewrite bind_gets. simpl k_log.
  rewrite (proj2 (Z.leb_gt LOGSIZE _)) by done. rewrite (proj2 (Z.leb_gt (_ - 1) _)) by done.
  mred. rewrite (proj2 (Z.ltb_ge _ 1)) by done.
  step acquire_ok by (simpl; rewrite Hl; apply not_elem_of_nil).
  rewrite !bind_gets. unfold get_buf. simpl k_bcache. simpl k_log.
  rewrite (alter_total _ _ i i), decide_True by done. simpl b_blockno. fold (get_buf s i). fold b.
  unfold set_lh_block. rewrite (proj2 (Nat.ltb_lt _ _)) by done.
  unfold upd_log, upd_buf. mstep. unfold logged. set (j := absorb _ _ _ _) in *.
  destruct (Z.of_nat j =? l_n (k_log s)) eqn:E; mstep;
    (erewrite release_ok by done); f_equal; kext;
    (by rewrite list_alter_alter_eq) || (unfold upd; simpl; fold j; by rewrite E).
Qed.

Lemma log_write_spec {p s V bl H} (I : log_inv p s V bl H) b i g env :
  H !! b = Some i → is_home s b → b ≠ 1 →
  Z.of_nat (length bl) < l_size (k_log s) - 1 → 1 ≤ l_outstanding (k_log s) →
  ∃ s', (upd_buf i (λ q, q <| b_data ::= g |>) ;; log_write i) env s = Done tt s' env ∧
    log_inv p s' (<[b := g (V b)]> V) (add_block b bl) H ∧
    lframe s s' ∧ k_disk s' = k_disk s ∧ k_log s' = logged b (k_log s).
Proof.
  intros Hb Hh Hb1 Hfit Hout. pose proof (li_bufs I) as B. pose proof (li_log I) as L.
  pose proof (li_area I) as A. pose proof (la_size _ _ _ A) as Hsz.
  destruct (absorb_add _ _ _ _ _ b A L (li_home I) Hh ltac:(lia)) as (J1 & J2 & J3).
  destruct (bs_mine B _ _ Hb) as [_ Hv]. apply (bs_held B) in Hb as HC. destruct HC as [(Hi & _) _].
  eexists. split.
  { apply log_write_exact; rewrite ?(bufs_blockno B b i Hb); try done.
    - apply B. - rewrite (bi_len _ _ (bs_inv B)). lia. - rewrite (lg_n _ _ _ _ L). lia.
    - rewrite (lg_n _ _ _ _ L). lia. }
  rewrite (bufs_blockno B b i Hb). set (s1 := s <| k_bcache ::= _ |>).
  assert (B1 : bufs p s1 (k_disk s) (<[b := g (V b)]> V) (mark true b (list_to_set bl)) H).
  { apply (bufs_store B b i (pinned g) _ true); [done| |done|discriminate|done|apply bframe_cache|done|done].
    rewrite <-(bufs_data B b i Hb). by apply stores_pinned. }
  replace (mark true b (list_to_set bl)) with (list_to_set (add_block b bl) : gset Z) in B1
    by (unfold mark, add_block; case_decide; set_solver).
  split_and!; [|etransitivity; [apply bframe_lframe, bframe_cache|apply lframe_log]|done|done].
  destruct L as [L1 L2 L3 L4 L5 L6]. split; simpl; try apply I.
  - by apply bufs_log.
  - split; simpl; try done. by rewrite length_insert.
  - unfold add_block. case_decide; [apply I|]. apply NoDup_app.
    split_and!; [apply I|set_solver|apply NoDup_singleton].
  - unfold add_block. case_decide; [apply I|]. apply Forall_app. split; [apply I|by constructor].
  - unfold add_block. case_decide; [lia|]. rewrite length_app. simpl. lia.
  - split; [apply I|]. unfold add_block. destruct (li_sb I). case_decide; set_solver.
Qed.

(** The panics of [log_write]. *)
Lemma log_write_full i env s :
  LOGSIZE ≤ l_n (k_log s) ∨ l_size (k_log s) - 1 ≤ l_n (k_log s) →
  log_write i env s = Panic "too big a transaction".
Proof.
  intros H. unfold log_write. rewrite bind_gets.
  destruct H as [H|H]; apply Z.leb_le in H; rewrite H; [done|by rewrite orb_true_r].
Qed.

(** ** begin_op and end_op *)
Definition log_space (lg : log) : Prop :=
  l_committing lg = false ∧ l_n lg + (l_outstanding lg + 1) * MAXOPBLOCKS ≤ LOGSIZE.

Lemma begin_op_ok env s :
  k_locks s = [] → log_space (k_log s) →
  begin_op env s = Done tt (s <| k_log ::= λ l, l <| l_outstanding ::= λ o, o + 1 |> |>) env.
Proof.
  intros Hl [Hc Hs]. unfold begin_op. step acquire_ok by (rewrite Hl; apply not_elem_of_nil).
  apply sleep_loop_exit. rewrite bind_gets.
  change (k_log (s <| k_locks ::= cons LkLog |>)) with (k_log s). rewrite Hc.
  rewrite (proj2 (Z.ltb_ge LOGSIZE _)) by done. unfold upd_log. mstep.
  step release_ok. unfold ret. f_equal.
Qed.

Lemma release_log lk env s a s' env' :
  release lk env s = Done a s' env' → k_log s' = k_log s ∧ env' = env.
Proof. unfold release. mstep. case_decide; [|done]. by intros [= <- <- <-]. Qed.

(** However often [begin_op] had to sleep, it returns with the space
    reserved. *)
Lemma begin_op_reserved env s s' env' :
  begin_op env s = Done tt s' env' →
  l_committing (k_log s') = false ∧
  l_n (k_log s') + l_outstanding (k_log s') * MAXOPBLOCKS ≤ LOGSIZE.
Proof.
  unfold begin_op. intros (? & s1 & env1 & _ & H)%bind_inv. revert H. unfold sleep_loop.
  generalize (S (length env1)). intros n. revert s1 env1.
  induction n as [|n IH]; intros s1 env1; [done|]. cbn [sleep_rounds].
  rewrite bind_assoc, bind_gets. destruct (l_committing (k_log s1)) eqn:Ec.
  { mstep. intros (? & s2 & env2 & _ & H)%bind_inv. eauto. }
  destruct (LOGSIZE <? _) eqn:Es.
  { mstep. intros (? & s2 & env2 & _ & H)%bind_inv. eauto. }
  apply Z.ltb_ge in Es. unfold upd_log. mstep.
  intros (? & s2 & env2 & [R1 ->]%release_log & H)%bind_inv.
  rewrite bind_ret in H. injection H as <- <-. rewrite R1. simpl. done.
Qed.

(** Every prefix of the writes [ws] to the disk [dk] leaves a disk that
    recovers to the old contents or to the contents [V]. *)
Definition crash_safe (nb st sz : Z) (dk : disk) (V : Z → block) (ws : list (Z * block)) : Prop :=
  ∀ w, w `prefix_of` ws →
    hdr_ok nb st sz (disk_get (put_all dk w) st) ∧ disk_get (put_all dk w) 1 = disk_get dk 1 ∧
    ((∀ c, home nb st sz c → recovered st (put_all dk w) c = disk_get dk c) ∨
     (∀ c, home nb st sz c → recovered st (put_all dk w) c = V c)).

Section commit_inv.
Context {p : nat} {s : kstate} {V : Z → block} {bl : list Z} (I : log_inv p s V bl ∅).
Context {nb st sz : Z} (Hnb : k_disksize s = nb) (Hst : l_start (k_log s) = st) (Hsz : l_size (k_log s) = sz).

Lemma commit_writes_fst h1 h0 c : home nb st sz c → c ∉ bl → c ∉ (commit_writes st bl V h1 h0).*1.
Proof.
  intros Hc Hi. pose proof (li_area I) as A. rewrite Hnb, Hst, Hsz in A. pose proof (li_fit I) as Hf.
  unfold commit_writes. rewrite fmap_app, fmap_cons, fmap_app, !copies_fst by (by rewrite ?length_slots).
  pose proof (st_not_home nb st sz A c Hc).
  rewrite !elem_of_app, elem_of_cons, elem_of_app. simpl. rewrite list_elem_of_singleton.
  intros [Hs|[?|[?|?]]]; try done. revert Hs. eapply home_not_slot; [|done]. rewrite Hsz in Hf. simpl. lia.
Qed.

Lemma upd_commit_writes h1 h0 c : home nb st sz c → upd_all V (commit_writes st bl V h1 h0) c = V c.
Proof.
  intros Hc. pose proof (li_area I) as A. rewrite Hnb, Hst, Hsz in A.
  destruct (decide (c ∈ bl)) as [Hi|Hi]; [|by rewrite upd_all_notin by (by apply commit_writes_fst)].
  unfold commit_writes. rewrite upd_all_app. cbn [upd_all foldl]. rewrite foldl_app. simpl.
  rewrite fn_lookup_insert_ne by (intros E; by apply (st_not_home nb st sz A c Hc)).
  by apply upd_all_id.
Qed.

Lemma commit_inv env :
  ∃ s' ws V', commit env s = Done tt s' env ∧ lframe s s' ∧ log_inv p s' V' [] ∅ ∧
    k_disk s' = put_all (k_disk s) ws ∧ l_start (k_log s') = st ∧ l_size (k_log s') = sz ∧
    (∀ c, home nb st sz c → V' c = V c) ∧ crash_safe nb st sz (k_disk s) V ws.
Proof.
  pose proof I as [A B L ND Hh Hf Hd [Hs1 Hs2]]. rewrite Hnb, Hst, Hsz in *.
  pose proof (λ c Hc, bufs_clean B c Hc) as Hclean. setoid_rewrite elem_of_list_to_set in Hclean.
  destruct (decide (bl = [])) as [Ebl|Hbl].
  { exists s, [], V. subst bl. split_and!; try done.
    - unfold commit. rewrite bind_gets, (lg_n _ _ _ _ L). by unfold when, ret.
    - intros w [k Hk]. symmetry in Hk. apply app_nil in Hk as [-> ->]. simpl.
      destruct Hd. split; [by apply empty_hdr_ok|]. split; [done|]. left. by rewrite recovered_empty. }
  destruct (commit_spec p nb st sz bl A Hh Hf env s (k_disk s) V) as
    (s' & h1 & h0 & E & H1 & H2 & H3 & H4 & H5 & B' & L' & F); try done.
  { rewrite Hclean; [apply Hd|]. eapply st_notin_bl; [done|done]. }
  assert (H1home : home nb st sz 1).
  { pose proof (la_start _ _ _ A). pose proof (start_lt _ _ _ A). split; lia. }
  assert (Hone : ∀ w, w `prefix_of` commit_writes st bl V h1 h0 →
      disk_get (put_all (k_disk s) w) 1 = disk_get (k_disk s) 1).
  { intros w [k Ew]. rewrite disk_get_put_all, upd_all_notin; [done|]. intros Hw.
    apply (commit_writes_fst h1 h0 1 H1home Hs2). rewrite Ew, fmap_app, elem_of_app. by left. }
  exists s', (commit_writes st bl V h1 h0), (upd_all V (commit_writes st bl V h1 h0)).
  pose proof (bs_disk B') as Edk. rewrite (lg_start _ _ _ _ L'), (lg_size _ _ _ _ L').
  split_and!; [done|done| |done|done|done|apply upd_commit_writes|].
  - assert (Est : disk_get (put_all (k_disk s) (commit_writes st bl V h1 h0)) st = h0).
    { rewrite disk_get_put_all. unfold commit_writes. rewrite app_comm_cons, app_assoc, upd_all_app.
      apply fn_lookup_insert. }
    split; rewrite ?(lg_start _ _ _ _ L'), ?(lg_size _ _ _ _ L'), ?(lframe_size _ _ F), ?Hnb, ?Edk, ?Est; try done.
    + apply NoDup_nil_2. + simpl. pose proof (la_size _ _ _ A). lia.
    + rewrite Hone by done. split; [done|apply not_elem_of_nil].
  - intros w Hw. destruct (commit_prefix nb st sz bl (k_disk s) V h1 h0 A Hh Hf Hd Hclean) with (3 := Hw)
      as [O R]; [done|done|]. split_and!; [done|by apply Hone|done].
Qed.
End commit_inv.

(** [end_op] of the last outstanding system call: commits. *)
Lemma end_op_last {p s V bl} (I : log_inv p s V bl ∅) env :
  l_outstanding (k_log s) = 1 → l_committing (k_log s) = false →
  ∃ s' ws V', end_op env s = Done tt s' env ∧ lframe s s' ∧ log_inv p s' V' [] ∅ ∧
    k_disk s' = put_all (k_disk s) ws ∧
    l_start (k_log s') = l_start (k_log s) ∧ l_size (k_log s') = l_size (k_log s) ∧
    (∀ c, is_home s c → V' c = V c) ∧
    crash_safe (k_disksize s) (l_start (k_log s)) (l_size (k_log s)) (k_disk s) V ws.
Proof.
  intros Ho Hc. destruct (bs_runs (li_bufs I)) as [Hl Hp].
  set (f := λ l : log, l <| l_outstanding ::= λ o, o - 1 |> <| l_committing := true |>).
  assert (I1 : log_inv p (s <| k_log ::= f |>) V bl ∅) by (by apply log_inv_count).
  destruct (commit_inv I1 eq_refl eq_refl eq_refl env) as
    (s2 & ws & V' & E2 & F2 & I2 & D2 & S2 & Z2 & H2 & C2).
  destruct (bs_runs (li_bufs I2)) as [Hl2 Hp2].
  exists (s2 <| k_log ::= λ l, l <| l_committing := false |> |> <| k_procs ::= fmap (wake1 ChLog) |>), ws, V'.
  split_and!; [|..|done|done|done|done|done].
  - unfold end_op. step acquire_ok by (rewrite Hl; apply not_elem_of_nil).
    unfold upd_log. rewrite bind_modify, bind_gets.
    simpl. rewrite Hc, Ho. change (1 - 1 =? 0) with true. mred.
    rewrite bind_modify. step release_ok.
    erewrite (bind_done commit) by (rewrite <-E2; f_equal; by kext).
    step acquire_ok by (rewrite Hl2; apply not_elem_of_nil). rewrite bind_modify.
    step wakeup_ok by (simpl; rewrite Hl2; set_solver).
    erewrite release_ok by done. kdone.
  - etransitivity; [apply (lframe_log f)|]. etransitivity; [exact F2|].
    etransitivity; [apply lframe_log|]. split; [by kext|apply wakes_wake1].
  - apply log_inv_wake. by apply log_inv_count.
Qed.

(** [end_op] while other system calls are running. *)
Lemma end_op_more {p s V bl H} (I : log_inv p s V bl H) env :
  1 < l_outstanding (k_log s) → l_committing (k_log s) = false →
  ∃ s', end_op env s = Done tt s' env ∧ lframe s s' ∧ log_inv p s' V bl H ∧ k_disk s' = k_disk s ∧
    k_log s' = (k_log s) <| l_outstanding ::= λ o, o - 1 |>.
Proof.
  intros Ho Hc. destruct (bs_runs (li_bufs I)) as [Hl Hp].
  exists (s <| k_log ::= λ l, l <| l_outstanding ::= λ o, o - 1 |> |> <| k_procs ::= fmap (wake1 ChLog) |>).
  split_and!; [|..|done|done].
  - unfold end_op. step acquire_ok by (rewrite Hl; apply not_elem_of_nil).
    unfold upd_log. rewrite bind_modify, bind_gets.
    simpl. rewrite Hc. rewrite (proj2 (Z.eqb_neq _ _)) by lia. mred.
    step wakeup_ok by (simpl; rewrite Hl; set_solver). step release_ok.
    unfold ret. kdone.
  - etransitivity; [apply lframe_log|]. split; [by kext|apply wakes_wake1].
  - apply log_inv_wake. by apply log_inv_count.
Qed.

(** ** What a system call sees between begin_op and end_op

    Inside a transaction nothing reaches the disk; the cache, the log entries
    and the woken processes change. *)
Record tframe (s s' : kstate) : Prop := {
  tf_frame : lframe s s';
  tf_disk : k_disk s' = k_disk s;
  tf_start : l_start (k_log s') = l_start (k_log s);
  tf_size : l_size (k_log s') = l_size (k_log s);
  tf_out : l_outstanding (k_log s') = l_outstanding (k_log s);
  tf_com : l_committing (k_log s') = l_committing (k_log s) }.

#[global] Instance tframe_preorder : PreOrder tframe.
Proof.
  split; [by intros s; split|]. intros s1 s2 s3 [] [].
  split; [by etransitivity|congruence..].
Qed.

Lemma bframe_tframe s s' : bframe s s' → k_disk s' = k_disk s → tframe s s'.
Proof.
  intros F D. pose proof (bframe_log _ _ F) as E.
  split; [by apply bframe_lframe|done|by rewrite E..].
Qed.

Lemma tframe_home s s' c : tframe s s' → is_home s' c ↔ is_home s c.
Proof. intros []. unfold is_home. by rewrite tf_start0, tf_size0, (lframe_size _ _ tf_frame0). Qed.

Lemma log_inv_frame p s V bl H s' H' :
  log_inv p s V bl H → bframe s s' → bufs p s' (k_disk s) V (list_to_set bl) H' →
  log_inv p s' V bl H' ∧ tframe s s'.
Proof.
  intros I F B. pose proof (bs_disk B) as D. pose proof (bframe_log _ _ F) as E.
  pose proof (bframe_size _ _ F) as N. split; [|by apply bframe_tframe].
  destruct I as [A B0 L ND Hh Hf Hd Hs]. split; rewrite ?E, ?N, ?D; try assumption.
  by eapply log_holds_frame.
Qed.

Lemma log_bread_spec {p s V bl H} (I : log_inv p s V bl H) b env :
  b < k_disksize s → H !! b = None → b ∈ bl ∨ (length bl + size H < NBUF)%nat →
  ∃ i s', bread ROOTDEV b env s = Done i s' env ∧
    log_inv p s' V bl (<[b := i]> H) ∧ tframe s s'.
Proof.
  intros Hb Hn Hr. destruct (bread_spec (li_bufs I) b env Hb Hn) as (i & s' & E & B & F).
  { rewrite elem_of_list_to_set, size_list_to_set by apply I. exact Hr. }
  exists i, s'. split; [exact E|]. by eapply log_inv_frame.
Qed.

Lemma log_brelse_spec {p s V bl H} (I : log_inv p s V bl H) b i env :
  H !! b = Some i →
  ∃ s', brelse i env s = Done tt s' env ∧ log_inv p s' V bl (delete b H) ∧ tframe s s'.
Proof.
  intros Hb. destruct (brelse_spec (li_bufs I) b i env Hb) as (s' & E & B & F).
  exists s'. split; [exact E|]. by eapply log_inv_frame.
Qed.

Lemma log_data {p s V bl H} (I : log_inv p s V bl H) b i :
  H !! b = Some i → b_data (get_buf s i) = V b.
Proof. apply (bufs_data (li_bufs I)). Qed.

Lemma logged_frame b lg :
  l_start (logged b lg) = l_start lg ∧ l_size (logged b lg) = l_size lg ∧
  l_outstanding (logged b lg) = l_outstanding lg ∧ l_committing (logged b lg) = l_committing lg.
Proof. done. Qed.

(** [bp->data[..] = ..; log_write(bp);] *)
Lemma log_store_spec {p s V bl H} (I : log_inv p s V bl H) b i g env :
  H !! b = Some i → is_home s b → b ≠ 1 →
  Z.of_nat (length bl) < l_size (k_log s) - 1 → 1 ≤ l_outstanding (k_log s) →
  ∃ s', (upd_buf i (λ q, q <| b_data ::= g |>) ;; log_write i) env s = Done tt s' env ∧
    log_inv p s' (<[b := g (V b)]> V) (add_block b bl) H ∧ tframe s s'.
Proof.
  intros Hb Hh H1 Hf Ho.
  destruct (log_write_spec I b i g env Hb Hh H1 Hf Ho) as (s' & E & I' & F & D & L).
  exists s'. split; [exact E|]. split; [exact I'|]. by split; rewrite ?L.
Qed.

(** [room s bl H k]: inside a transaction, with log and cache space for [k]
    more blocks. *)
Record room (s : kstate) (bl : list Z) (H : gmap Z nat) (k : nat) : Prop := {
  rm_log : Z.of_nat (length bl + k) ≤ l_size (k_log s) - 1;
  rm_cache : (length bl + size H + k ≤ NBUF)%nat;
  rm_out : 1 ≤ l_outstanding (k_log s) }.

Lemma length_add_block b bl : (length (add_block b bl) ≤ S (length bl))%nat.
Proof. unfold add_block. case_decide; [lia|]. rewrite length_app. simpl. lia. Qed.

Lemma room_add s s' bl H k b : tframe s s' → room s bl H (S k) → room s' (add_block b bl) H k.
Proof.
  intros F [R1 R2 R3]. pose proof (length_add_block b bl). split; [rewrite (tf_size _ _ F); lia|lia|].
  by rewrite (tf_out _ _ F).
Qed.
Lemma room_frame s s' bl H k : tframe s s' → room s bl H k → room s' bl H k.
Proof. intros F []. split; [by rewrite (tf_size _ _ F)|done|by rewrite (tf_out _ _ F)]. Qed.
Lemma room_le s bl H k k' : (k' ≤ k)%nat → room s bl H k → room s bl H k'.
Proof. intros L []. split; [lia|lia|done]. Qed.

(** [bp = bread(dev, b); ... brelse(bp);] without a change. *)
Lemma log_peek_spec {p s V bl H} (I : log_inv p s V bl H) b env :
  b < k_disksize s → H !! b = None → room s bl H 1 →
  ∃ i s1 s2, bread ROOTDEV b env s = Done i s1 env ∧ b_data (get_buf s1 i) = V b ∧
    log_inv p s1 V bl (<[b := i]> H) ∧ tframe s s1 ∧
    brelse i env s1 = Done tt s2 env ∧ log_inv p s2 V bl H ∧ tframe s1 s2.
Proof.
  intros Hb Hn R. destruct (log_bread_spec I b env Hb Hn) as (i & s1 & E1 & I1 & F1).
  { right. destruct R. lia. }
  destruct (log_brelse_spec I1 b i env) as (s2 & E2 & I2 & F2); [apply lookup_insert_eq|].
  rewrite delete_insert_id in I2 by done. exists i, s1, s2.
  split; [exact E1|]. split; [apply (log_data I1), lookup_insert_eq|]. by split_and!.
Qed.

(** [bp->data[..] = ..; log_write(bp); brelse(bp);] for a block just read. *)
Lemma log_modify_spec {p s V bl H} b i (I : log_inv p s V bl (<[b := i]> H)) g env k :
  H !! b = None → is_home s b → b ≠ 1 → room s bl H (S k) →
  ∃ s', ((upd_buf i (λ q, q <| b_data ::= g |>) ;; log_write i) ;; brelse i) env s = Done tt s' env ∧
    log_inv p s' (<[b := g (V b)]> V) (add_block b bl) H ∧ tframe s s' ∧ room s' (add_block b bl) H k.
Proof.
  intros Hn Hh H1 R.
  destruct (log_store_spec I b i g env) as (s1 & E1 & I1 & F1);
    [apply lookup_insert_eq|done|done|destruct R; lia|apply R|].
  destruct (log_brelse_spec I1 b i env) as (s2 & E2 & I2 & F2); [apply lookup_insert_eq|].
  rewrite delete_insert_id in I2 by done. exists s2.
  assert (F : tframe s s2) by (by etransitivity).
  rewrite (bind_done _ _ _ _ _ _ _ E1). split_and!; [exact E2|done|done|].
  by apply (room_add s).
Qed.

(** ** Booting from a disk *)

(** Memory right after the machine restarts on the disk [dk]: process [q]
    runs, the buffer cache and the log record are still zeroed. *)
Record restarted (q : nat) (r : kstate) (dk : disk) (nb : Z) : Prop := {
  rs_runs : runs q r;
  rs_cache : k_bcache r = replicate (S NBUF) buf_zero;
  rs_log : k_log r = log_zero;
  rs_disk : k_disk r = dk;
  rs_size : k_disksize r = nb }.

Lemma boot_spec q r dk nb st sz env :
  restarted q r dk nb → log_area nb st sz → hdr_ok nb st sz (disk_get dk st) →
  log_at (disk_get dk 1) st sz →
  ∃ r' h0, (binit ;; initlog ROOTDEV) env r = Done tt r' env ∧
    length h0 = 512%nat ∧ hd_n h0 = 0 ∧ k_disk r' = put_all dk (rec_writes st dk ++ [(st, h0)]) ∧
    bufs q r' (k_disk r') (disk_get (k_disk r')) ∅ ∅ ∧ log_holds r' st sz [] ∧ lframe r r' ∧
    ∀ c, home nb st sz c → disk_get (k_disk r') c = recovered st dk c.
Proof.
  intros [R1 R2 R3 R4 R5] A O At.
  destruct (binit_spec q env r R1 R2) as (s1 & E1 & F1 & B1). rewrite R4 in B1.
  destruct (initlog_spec q nb st sz env s1 dk (disk_get dk) A O At B1)
    as (s2 & h0 & E2 & H1 & H2 & B2 & L2 & F2).
  { by rewrite (bframe_size _ _ F1). } { by rewrite (bframe_log _ _ F1). }
  pose proof (bs_disk B2) as D2.
  exists s2, h0. rewrite (bind_done _ _ _ _ _ _ _ E1).
  split_and!; [exact E2|exact H1|exact H2|exact D2| |exact L2|..].
  - rewrite D2. destruct B2 as [b1 b2 b3 b4 b5 b6 b7 b8 b9]. split; try assumption.
    intros c. rewrite b4. by rewrite disk_get_put_all.
  - etransitivity; [by apply bframe_lframe|done].
  - intros c Hc. rewrite D2, put_all_app. simpl.
    rewrite disk_get_put, decide_False by (by eapply st_not_home). by rewrite disk_get_put_all.
Qed.

(** A disk between two points of the write history. *)
Lemma history_prefix dk ws w1 w2 :
  reverse ws ++ d_writes dk = w1 ++ w2 ++ d_writes dk →
  reverse w2 `prefix_of` ws ∧ Disk (d_img dk) (w2 ++ d_writes dk) = put_all dk (reverse w2).
Proof.
  rewrite app_assoc. intros E%app_inv_tail. split.
  - exists (reverse w1). rewrite <-reverse_app, <-E. by rewrite reverse_involutive.
  - pose proof (d_writes_put_all dk (reverse w2)) as E1. pose proof (d_img_put_all dk (reverse w2)) as E2.
    rewrite reverse_involutive in E1. destruct (put_all dk (reverse w2)); simpl in *. by subst.
Qed.

(** Clients use the log through [log_inv]. *)
#[global] Opaque initlog begin_op end_op log_write.
