(* ===== verification/Crash.v ===== *)
(** * Crash safety of the log

    The end-to-end statements about log.c: a transaction is atomic with
    respect to crashes, and recovery can itself be interrupted.  A crash
    keeps the disk as it was after some of the writes issued so far and loses
    the memory; the machine then runs [binit] and [initlog] again. *)
From S2P Require Import Prelude State Sync Dll Bio Cache Log.

(** ** A concrete machine, for the examples *)
Definition demo_sb : block :=
  flat_map (le_bytes 4) [1000; 941; 200; 30; 2; 32; 58] ++ replicate 484 0.
Definition demo_img (b : Z) : block := if b =? 1 then demo_sb else replicate 512 0.

Definition demo_boot (dk : disk) : kstate :=
  KState [] (Some 0%nat) (replicate NPROC proc_zero) None 2 0 (λ _, 0) true 0 0 0 0
    (replicate (S NBUF) buf_zero) dk 1000 log_zero (SuperBlock 0 0 0 0 0 0 0)
    (replicate NINODE inode_zero) (replicate NFILE file_zero) ∅ (Input (replicate 128 0) 0 0 0) true [] (IdeState None true []) true 0.

Lemma demo_area : log_area 1000 2 30.
Proof. split; unfold LOGSIZE, MAXOPBLOCKS; lia. Qed.
Lemma demo_restarted dk : restarted 0 (demo_boot dk) dk 1000.
Proof. split; [split; reflexivity|reflexivity..]. Qed.
Lemma demo_hdr : length (demo_img 2) = 512%nat ∧ hd_n (demo_img 2) = 0.
Proof. split; vm_compute; reflexivity. Qed.
Lemma demo_log_at : log_at (demo_img 1) 2 30.
Proof. split; vm_compute; reflexivity. Qed.

(** Booting the empty disk establishes the invariant of the log. *)
Lemma boot_inv q r dk nb st sz env :
  restarted q r dk nb → log_area nb st sz → hdr_ok nb st sz (disk_get dk st) →
  log_at (disk_get dk 1) st sz → 1 ∉ hd_blocks (disk_get dk st) →
  ∃ r', (binit ;; initlog ROOTDEV) env r = Done tt r' env ∧
    log_inv q r' (disk_get (k_disk r')) [] ∅ ∧ lframe r r' ∧
    l_start (k_log r') = st ∧ l_size (k_log r') = sz ∧
    ∀ c, home nb st sz c → disk_get (k_disk r') c = recovered st dk c.
Proof.
  intros R A O At N1.
  destruct (boot_spec q r dk nb st sz env R A O At) as (r' & h0 & E & H1 & H2 & D & B & L & F & C).
  exists r'. pose proof (rs_size _ _ _ _ R) as Hs. pose proof (lframe_size _ _ F) as Hs'.
  split_and!; [exact E| |exact F|apply L|apply L|exact C].
  assert (EL : l_start (k_log r') = st ∧ l_size (k_log r') = sz) by (split; apply L).
  destruct EL as [E1 E2]. rewrite Hs in Hs'.
  split; rewrite ?E1, ?E2, ?Hs'; [exact A|exact B|exact L|apply NoDup_nil_2|apply Forall_nil_2|..].
  - simpl. pose proof (la_size _ _ _ A). lia.
  - rewrite D, put_all_app. simpl. rewrite disk_get_put, decide_True by reflexivity. split; assumption.
  - split; [|apply not_elem_of_nil]. pose proof (la_start _ _ _ A).
    rewrite D, put_all_app. simpl. rewrite disk_get_put, decide_False by lia.
    rewrite disk_get_put_all, upd_all_notin; [done|]. by rewrite rec_writes_fst.
Qed.

(** An open transaction that has written block 100 of the empty disk. *)
Lemma demo_transaction :
  ∃ s V, log_inv 0 s V [100] ∅ ∧ l_outstanding (k_log s) = 1 ∧ l_committing (k_log s) = false.
Proof.
  set (dk := Disk demo_img []).
  destruct (boot_inv 0 (demo_boot dk) dk 1000 2 30 []) as (r & E & I & F & E1 & E2 & C).
  { apply demo_restarted. } { apply demo_area. }
  { destruct demo_hdr. apply empty_hdr_ok; [apply demo_area|assumption..]. }
  { apply demo_log_at. } { vm_compute. intros H. inversion H. }
  pose proof (lframe_size _ _ F) as N. change (k_disksize (demo_boot dk)) with 1000 in N.
  (* begin_op *)
  pose proof (log_inv_count (λ l, l <| l_outstanding := 1 |> <| l_committing := false |>) 0 r _ _ _
    ltac:(intros; repeat split) I) as I1. clear E I F C.
  revert I1 E1 E2 N. generalize (disk_get (k_disk r)). intros V0 I1 E1 E2 N.
  destruct (log_bread_spec I1 100 []) as (i & s2 & E3 & I2 & F2); [simpl; lia|reflexivity|right; vm_compute; lia|].
  clear E3. destruct F2 as [F2 _ S1 S2 S3 S4]. pose proof (lframe_size _ _ F2) as N2. simpl in S1, S2, S3, S4, N2.
  destruct (log_write_spec I2 100 i (λ d, stn 1 d 0 7) []) as (s3 & E4 & I3 & F3 & _ & L3).
  { apply lookup_insert_eq. }
  { unfold is_home, home. rewrite N2, S1, S2, E1, E2, N. lia. } { lia. }
  { rewrite S2, E2. simpl. lia. } { rewrite S3. lia. }
  clear E4. destruct (log_brelse_spec I3 100 i []) as (s4 & E5 & I4 & F4); [apply lookup_insert_eq|].
  clear E5. rewrite delete_insert_id in I4 by reflexivity.
  eexists s4, _. split; [exact I4|]. rewrite (tf_out _ _ F4), (tf_com _ _ F4), L3.
  split; [exact S3|exact S4].
Qed.

(** ** Transactions are atomic *)

(** C2. [end_op] of the last system call of a transaction terminates with the
    transaction on disk, and a crash at any point of it is harmless: whatever
    part [w2] of the writes issued by [end_op] had reached the disk when the
    machine stopped, restarting runs recovery to completion and leaves every
    block outside the log as it was before the transaction, or every one as
    the transaction left it. *)
Theorem end_op_crash_atomic p s V bl env :
  log_inv p s V bl ∅ → l_outstanding (k_log s) = 1 → l_committing (k_log s) = false →
  ∃ s', end_op env s = Done tt s' env ∧
    (∀ c, is_home s c → disk_get (k_disk s') c = V c) ∧
    ∀ w1 w2, d_writes (k_disk s') = w1 ++ w2 ++ d_writes (k_disk s) →
    ∀ q r env', restarted q r (Disk (d_img (k_disk s)) (w2 ++ d_writes (k_disk s))) (k_disksize s) →
    ∃ r', (binit ;; initlog ROOTDEV) env' r = Done tt r' env' ∧
      ((∀ c, is_home s c → disk_get (k_disk r') c = disk_get (k_disk s) c) ∨
       (∀ c, is_home s c → disk_get (k_disk r') c = V c)).
Proof.
  intros I Ho Hc. destruct (end_op_last I env Ho Hc) as (s' & ws & V' & E & F & I' & D & _ & _ & HV & Cr).
  exists s'. split; [exact E|]. split.
  { intros c Hh. rewrite <-(HV c Hh). symmetry. apply (bufs_clean (li_bufs I')). apply not_elem_of_empty. }
  intros w1 w2 Hw q r env' R. rewrite D, d_writes_put_all in Hw.
  apply history_prefix in Hw as [Hp Hd]. rewrite Hd in R.
  destruct (Cr _ Hp) as (O & E1 & Hrec).
  destruct (boot_spec q r _ _ _ _ env' R (li_area I) O) as (r' & h0 & Er & _ & _ & _ & _ & _ & _ & Hr).
  { rewrite E1. apply (li_sb I). }
  exists r'. split; [exact Er|].
  destruct Hrec as [Hrec|Hrec]; [left|right]; intros c Hh; rewrite (Hr c Hh); auto.
Qed.

Lemma end_op_crash_atomic_witness :
  ∃ s V, log_inv 0 s V [100] ∅ ∧ ∃ s', end_op [] s = Done tt s' [] ∧
    ∀ c, is_home s c → disk_get (k_disk s') c = V c.
Proof.
  destruct demo_transaction as (s & V & I & Ho & Hc).
  exists s, V. split; [exact I|].
  destruct (end_op_crash_atomic 0 s V [100] [] I Ho Hc) as (s' & E & H & _).
  exists s'. split; [exact E|exact H].
Defined.

(** C20. Recovery may itself be interrupted: starting from any disk with a
    well-formed log header, whatever part [w2] of the writes of a first
    recovery reached the disk, running recovery again gives the same contents
    as the uninterrupted one. *)
Theorem recovery_restartable q r dk nb st sz env :
  restarted q r dk nb → log_area nb st sz → hdr_ok nb st sz (disk_get dk st) →
  log_at (disk_get dk 1) st sz → 1 ∉ hd_blocks (disk_get dk st) →
  ∃ r', (binit ;; initlog ROOTDEV) env r = Done tt r' env ∧
    hd_n (disk_get (k_disk r') st) = 0 ∧
    ∀ w1 w2, d_writes (k_disk r') = w1 ++ w2 ++ d_writes dk →
    ∀ q2 r2 env2, restarted q2 r2 (Disk (d_img dk) (w2 ++ d_writes dk)) nb →
    ∃ r2', (binit ;; initlog ROOTDEV) env2 r2 = Done tt r2' env2 ∧
      ∀ c, home nb st sz c → disk_get (k_disk r2') c = disk_get (k_disk r') c.
Proof.
  intros R A O At N1.
  destruct (boot_spec q r dk nb st sz env R A O At) as (r' & h0 & E & H1 & H2 & D & B & L & F & C).
  exists r'. split; [exact E|]. clear E R. split.
  { rewrite D, put_all_app. simpl. by rewrite disk_get_put, decide_True. }
  intros w1 w2 Hw q2 r2 env2 R2. rewrite D, d_writes_put_all in Hw.
  apply history_prefix in Hw as [Hp Hd]. rewrite Hd in R2.
  destruct (recovery_prefix nb st sz A dk h0 _ O H1 H2 Hp) as [O2 Hrec].
  destruct (boot_spec q2 r2 _ nb st sz env2 R2 A O2) as (r2' & h2 & E2 & _ & _ & _ & _ & _ & _ & C2).
  { rewrite disk_get_put_all, upd_all_notin; [exact At|].
    pose proof (la_start _ _ _ A). destruct Hp as [k Hk]. intros Hi.
    assert (Hin : 1 ∈ (rec_writes st dk ++ [(st, h0)]).*1) by (rewrite Hk, fmap_app, elem_of_app; by left).
    rewrite fmap_app, elem_of_app, rec_writes_fst in Hin. simpl in Hin.
    rewrite list_elem_of_singleton in Hin. destruct Hin; [contradiction|lia]. }
  exists r2'. split; [exact E2|]. intros c Hc. by rewrite C2, C, Hrec by exact Hc.
Qed.

(** The log of the example holds a committed transaction on block 100. *)
Definition demo_committed : disk :=
  put_all (Disk demo_img []) [(3, stn 1 (replicate 512 0) 0 7); (2, head_store 1 [100] (replicate 512 0))].

Lemma demo_committed_hdr :
  hdr_ok 1000 2 30 (disk_get demo_committed 2) ∧ hd_blocks (disk_get demo_committed 2) = [100].
Proof.
  assert (E : hd_blocks (disk_get demo_committed 2) = [100]) by (vm_compute; reflexivity).
  split; [|exact E]. split; [vm_compute; reflexivity|vm_compute; intuition discriminate|].
  rewrite E. repeat constructor; unfold home; lia.
Qed.

Lemma recovery_restartable_witness :
  ∃ r', (binit ;; initlog ROOTDEV) [] (demo_boot demo_committed) = Done tt r' [] ∧
    hd_n (disk_get (k_disk r') 2) = 0.
Proof.
  destruct demo_committed_hdr as [O E].
  destruct (recovery_restartable 0 (demo_boot demo_committed) demo_committed 1000 2 30 []) as (r' & E' & H & _).
  - apply demo_restarted.
  - apply demo_area.
  - exact O.
  - split; vm_compute; reflexivity.
  - rewrite E. intros H%list_elem_of_singleton. discriminate H.
  - exists r'. split; [exact E'|exact H].
Defined.
