(* ===== verification/CString.v ===== *)
(** * Memory and string routines (string.c, ulib.c)

    Memory is a function from addresses to bytes.  Routines that only read
    take a reader, the byte at each offset from their argument pointer;
    routines that store take the memory.  [KString] is the kernel's string.c,
    [ULib] the user library's ulib.c.

    The results: [memmove] is right for every overlap of the two areas,
    [memset]'s word loop agrees with its byte loop, [strncmp] decides
    equality of bounded C strings, [strncpy] and [safestrcpy] store the
    string they are meant to store and nothing else, [strlen] and [strcpy]
    terminate on every terminated string, and [atoi] inverts decimal
    printing. *)
From S2P Require Import Prelude.

Abbreviation mem := (Z → Z) (only parsing).
Abbreviation reader := (nat → Z) (only parsing).

(** The bytes at an address. *)
Definition at_ (m : mem) (a : Z) : reader := λ i, m (a + Z.of_nat i).
Definition next (r : reader) : reader := λ i, r (S i).

(** The bytes of a list followed by NUL bytes. *)
Definition rd (l : list Z) : reader := λ i, default 0 (l !! i).

(** The C string of at most [n] bytes a reader yields. *)
Fixpoint cstr (r : reader) (n : nat) : list Z :=
  match n with
  | O => []
  | S n => if r 0%nat =? 0 then [] else r 0%nat :: cstr (next r) n
  end.

Module KString.

(** [rep stosb] and [rep stosl] (x86.h). *)
Fixpoint stosb (m : mem) (addr data : Z) (cnt : nat) : mem :=
  match cnt with
  | O => m
  | S cnt => stosb (<[addr := u8 data]> m) (addr + 1) data cnt
  end.

Definition store4 (m : mem) (addr data : Z) : mem :=
  <[addr + 3 := u8 (data / 16777216)]> (<[addr + 2 := u8 (data / 65536)]>
    (<[addr + 1 := u8 (data / 256)]> (<[addr := u8 data]> m))).

Fixpoint stosl (m : mem) (addr data : Z) (cnt : nat) : mem :=
  match cnt with
  | O => m
  | S cnt => stosl (store4 m addr data) (addr + 4) data cnt
  end.

Definition memset (m : mem) (dst c n : Z) : mem :=
  if (dst `mod` 4 =? 0) && (n `mod` 4 =? 0) then
    let c := Z.land c 255 in
    stosl m dst (Z.lor (Z.lor (Z.lor (Z.shiftl c 24) (Z.shiftl c 16)) (Z.shiftl c 8)) c) (Z.to_nat (n / 4))
  else stosb m dst c (Z.to_nat n).

Fixpoint memcmp (s1 s2 : reader) (n : nat) : Z :=
  match n with
  | O => 0
  | S n => if negb (s1 0%nat =? s2 0%nat) then s1 0%nat - s2 0%nat
           else memcmp (next s1) (next s2) n
  end.

(** [while(n-- > 0) *--d = *--s;] *)
Fixpoint move_down (m : mem) (d s : Z) (n : nat) : mem :=
  match n with
  | O => m
  | S n => move_down (<[d - 1 := m (s - 1)]> m) (d - 1) (s - 1) n
  end.
(** [while(n-- > 0) *d++ = *s++;] *)
Fixpoint move_up (m : mem) (d s : Z) (n : nat) : mem :=
  match n with
  | O => m
  | S n => move_up (<[d := m s]> m) (d + 1) (s + 1) n
  end.

Definition memmove (m : mem) (dst src n : Z) : mem :=
  if (src <? dst) && (dst <? src + n) then move_down m (dst + n) (src + n) (Z.to_nat n)
  else move_up m dst src (Z.to_nat n).

Definition memcpy (m : mem) (dst src n : Z) : mem := memmove m dst src n.

Fixpoint strncmp (p q : reader) (n : nat) : Z :=
  match n with
  | O => 0
  | S n' => if negb (p 0%nat =? 0) && (p 0%nat =? q 0%nat) then strncmp (next p) (next q) n'
            else p 0%nat - q 0%nat
  end.

Fixpoint zeros (m : mem) (s : Z) (n : nat) : mem :=
  match n with
  | O => m
  | S n => zeros (<[s := 0]> m) (s + 1) n
  end.

Fixpoint strncpy (m : mem) (s t : Z) (n : nat) : mem :=
  match n with
  | O => m
  | S n => let m' := <[s := m t]> m in
           if m t =? 0 then zeros m' (s + 1) n else strncpy m' (s + 1) (t + 1) n
  end.

(** [n] counts the [--n > 0] tests that succeed. *)
Fixpoint safestrcpy1 (m : mem) (s t : Z) (n : nat) : mem :=
  match n with
  | O => <[s := 0]> m
  | S n => let m' := <[s := m t]> m in
           if m t =? 0 then <[s + 1 := 0]> m' else safestrcpy1 m' (s + 1) (t + 1) n
  end.
Definition safestrcpy (m : mem) (s t n : Z) : mem :=
  if n <=? 0 then m else safestrcpy1 m s t (Z.to_nat (n - 1)).

(** [for(n = 0; s[n]; n++);] with [fuel] iterations allowed. *)
Fixpoint strlen_from (s : reader) (n fuel : nat) : option nat :=
  match fuel with
  | O => None
  | S fuel => if s n =? 0 then Some n else strlen_from s (S n) fuel
  end.
Definition strlen (s : reader) (fuel : nat) : option nat := strlen_from s 0 fuel.
End KString.

Module ULib.

Fixpoint strcpy (m : mem) (s t : Z) (fuel : nat) : option mem :=
  match fuel with
  | O => None
  | S fuel => let m' := <[s := m t]> m in
              if m t =? 0 then Some m' else strcpy m' (s + 1) (t + 1) fuel
  end.

Fixpoint strcmp (p q : reader) (fuel : nat) : option Z :=
  match fuel with
  | O => None
  | S fuel => if negb (p 0%nat =? 0) && (p 0%nat =? q 0%nat) then strcmp (next p) (next q) fuel
              else Some (p 0%nat - q 0%nat)
  end.

Definition strlen (s : reader) (fuel : nat) : option nat := KString.strlen s fuel.

Definition memset (m : mem) (dst c : Z) (n : nat) : mem := KString.stosb m dst c n.

(** [Some None]: not found; [Some (Some i)]: a pointer to offset [i]. *)
Fixpoint strchr_from (s : reader) (c : Z) (i fuel : nat) : option (option nat) :=
  match fuel with
  | O => None
  | S fuel => if s i =? 0 then Some None
              else if s i =? c then Some (Some i) else strchr_from s c (S i) fuel
  end.
Definition strchr (s : reader) (c : Z) (fuel : nat) : option (option nat) := strchr_from s c 0 fuel.

(** [gets(buf, max)] on the bytes still to be read from standard input: the
    line stored (without its final NUL) and the rest of the input. *)
Fixpoint gets_from (inp : list Z) (room : nat) : list Z * list Z :=
  match room, inp with
  | S room, c :: inp =>
      if (c =? 10) || (c =? 13) then ([c], inp)
      else let '(l, rest) := gets_from inp room in (c :: l, rest)
  | _, _ => ([], inp)
  end.
Definition gets (inp : list Z) (max : Z) : list Z * list Z := gets_from inp (Z.to_nat (max - 1)).

Definition is_digit (c : Z) : bool := (48 <=? c) && (c <=? 57).
Fixpoint atoi_from (s : reader) (n : Z) (fuel : nat) : option Z :=
  match fuel with
  | O => None
  | S fuel => if is_digit (s 0%nat) then atoi_from (next s) (s32 (n * 10 + s 0%nat - 48)) fuel
              else Some n
  end.
Definition atoi (s : reader) (fuel : nat) : option Z := atoi_from s 0 fuel.

Definition memmove (m : mem) (vdst vsrc : Z) (n : Z) : mem := KString.move_up m vdst vsrc (Z.to_nat n).
End ULib.

(** ** Stores *)
Lemma fn_insert_dec {A} (m : Z → A) (a x : Z) (v : A) : (<[a := v]> m) x = if decide (x = a) then v else m x.
Proof. unfold insert, fn_insert. repeat case_decide; congruence. Qed.

(** [in_area d n x]: [x] is one of the [n] addresses from [d]. *)
Definition in_area (d n x : Z) : bool := (d <=? x) && (x <? d + n).
Lemma in_area_true d n x : in_area d n x = true ↔ d ≤ x < d + n.
Proof. unfold in_area. rewrite andb_true_iff, Z.leb_le, Z.ltb_lt. done. Qed.
Lemma in_area_false d n x : in_area d n x = false ↔ ¬ d ≤ x < d + n.
Proof. rewrite <-in_area_true. by destruct (in_area d n x). Qed.

Ltac area := repeat match goal with
  | H : in_area _ _ _ = true |- _ => apply in_area_true in H
  | H : in_area _ _ _ = false |- _ => apply in_area_false in H
  | |- context [in_area ?d ?n ?x] => let E := fresh "E" in destruct (in_area d n x) eqn:E
  end.

Lemma stosb_spec cnt m addr data x :
  KString.stosb m addr data cnt x = if in_area addr (Z.of_nat cnt) x then u8 data else m x.
Proof.
  revert m addr. induction cnt as [|cnt IH]; intros m addr; cbn [KString.stosb].
  - area; [lia|done].
  - rewrite IH, fn_insert_dec. area; try case_decide; try done; lia.
Qed.

Lemma u8_land c : Z.land c 255 = u8 c.
Proof. change 255 with (Z.ones 8). by rewrite Z.land_ones. Qed.

(** The word [stosl] stores, checked for each byte. *)
Definition splat (c : Z) : Z :=
  Z.lor (Z.lor (Z.lor (Z.shiftl c 24) (Z.shiftl c 16)) (Z.shiftl c 8)) c.
Definition splat_ok (c : Z) : bool :=
  (u8 (splat c) =? c) && (u8 (splat c / 256) =? c) &&
  (u8 (splat c / 65536) =? c) && (u8 (splat c / 16777216) =? c).

Lemma splat_bytes c : is_byte c →
  u8 (splat c) = c ∧ u8 (splat c / 256) = c ∧ u8 (splat c / 65536) = c ∧ u8 (splat c / 16777216) = c.
Proof.
  intros Hc. assert (A : forallb splat_ok (seqZ 0 256) = true) by (vm_compute; reflexivity).
  rewrite forallb_forall in A. specialize (A c).
  unfold splat_ok in A. rewrite !andb_true_iff, !Z.eqb_eq in A.
  assert (Hin : c ∈ seqZ 0 256) by (apply elem_of_seqZ; unfold is_byte in Hc; lia).
  apply list_elem_of_In in Hin. tauto.
Qed.

Lemma stosl_spec cnt m addr c x : is_byte c →
  KString.stosl m addr (splat c) cnt x = if in_area addr (4 * Z.of_nat cnt) x then c else m x.
Proof.
  intros Hc. destruct (splat_bytes c Hc) as (S0 & S1 & S2 & S3).
  revert m addr. induction cnt as [|cnt IH]; intros m addr; cbn [KString.stosl].
  - area; [lia|done].
  - rewrite IH. unfold KString.store4. rewrite S0, S1, S2, S3, !fn_insert_dec.
    area; repeat case_decide; try done; lia.
Qed.

Lemma memset_spec m dst c n x : 0 ≤ n →
  KString.memset m dst c n x = if in_area dst n x then u8 c else m x.
Proof.
  intros Hn. unfold KString.memset. destruct (_ && _) eqn:E.
  - rewrite andb_true_iff, !Z.eqb_eq in E. destruct E as [_ E].
    fold (splat (Z.land c 255)). rewrite u8_land, stosl_spec by apply u8_range.
    rewrite Z2Nat.id by (apply Z.div_pos; lia).
    replace (4 * (n / 4)) with n by (rewrite (Z.div_mod n 4) at 1 by lia; lia). done.
  - rewrite stosb_spec, Z2Nat.id by done. done.
Qed.

(** ** memmove *)
Lemma move_up_spec n m d s x :
  ¬ (s < d < s + Z.of_nat n) →
  KString.move_up m d s n x = if in_area d (Z.of_nat n) x then m (s + (x - d)) else m x.
Proof.
  revert m d s. induction n as [|n IH]; intros m d s Hov; cbn [KString.move_up].
  - area; [lia|done].
  - rewrite IH, !fn_insert_dec by lia.
    area; repeat case_decide; try done; try lia; f_equal; lia.
Qed.

Lemma move_down_spec n m d s x :
  s ≤ d →
  KString.move_down m d s n x =
    if in_area (d - Z.of_nat n) (Z.of_nat n) x then m (s + (x - d)) else m x.
Proof.
  revert m d s. induction n as [|n IH]; intros m d s Hov; cbn [KString.move_down].
  - area; [lia|done].
  - rewrite IH, !fn_insert_dec by lia.
    area; repeat case_decide; try done; try lia; f_equal; lia.
Qed.

Lemma memmove_spec m dst src n x : 0 ≤ n →
  KString.memmove m dst src n x = if in_area dst n x then m (src + (x - dst)) else m x.
Proof.
  intros Hn. unfold KString.memmove. destruct (_ && _) eqn:E.
  - rewrite andb_true_iff, !Z.ltb_lt in E. rewrite move_down_spec, Z2Nat.id by lia.
    replace (dst + n - n) with dst by lia. area; [f_equal; lia|done].
  - rewrite andb_false_iff, !Z.ltb_ge in E. rewrite move_up_spec, Z2Nat.id by lia. done.
Qed.

(** ** Strings *)
Lemma next_at m a : ∀ i, next (at_ m a) i = at_ m (a + 1) i.
Proof. intros i. unfold next, at_. f_equal. lia. Qed.

Lemma at_0 m a : at_ m a 0%nat = m a.
Proof. unfold at_. f_equal. lia. Qed.

Lemma cstr_ext (r r' : reader) n : (∀ i, (i < n)%nat → r i = r' i) → cstr r n = cstr r' n.
Proof.
  revert r r'. induction n as [|n IH]; intros r r' E; [done|]. cbn [cstr].
  rewrite E by lia. destruct (r' 0%nat =? 0); [done|]. f_equal. apply IH. intros i Hi. apply E. lia.
Qed.

Lemma length_cstr r n : (length (cstr r n) ≤ n)%nat.
Proof.
  revert r. induction n as [|n IH]; intros r; cbn [cstr]; [simpl; lia|].
  destruct (_ =? _); simpl; [lia|]. specialize (IH (next r)). lia.
Qed.

Lemma cstr_lookup r n i : (i < length (cstr r n))%nat → cstr r n !! i = Some (r i) ∧ r i ≠ 0.
Proof.
  revert r i. induction n as [|n IH]; intros r i; cbn [cstr]; [simpl; lia|].
  destruct (_ =? _) eqn:E; simpl; [lia|]. apply Z.eqb_neq in E. destruct i as [|i]; [done|].
  intros Hi. apply (IH (next r) i). lia.
Qed.

Lemma cstr_end r n : (length (cstr r n) < n)%nat → r (length (cstr r n)) = 0.
Proof.
  revert r. induction n as [|n IH]; intros r; cbn [cstr]; [simpl; lia|].
  destruct (_ =? _) eqn:E; simpl; [by apply Z.eqb_eq in E|].
  intros H. apply (IH (next r)). lia.
Qed.

(** The C string a reader yields is the list of its bytes up to the NUL. *)
Lemma cstr_unique r n l :
  (∀ i x, l !! i = Some x → r i = x ∧ x ≠ 0) → r (length l) = 0 → (length l < n)%nat → cstr r n = l.
Proof.
  revert r l. induction n as [|n IH]; intros r l Hl He Hn; [lia|]. cbn [cstr].
  destruct l as [|a l]; [simpl in He; by rewrite He|].
  destruct (Hl 0%nat a eq_refl) as [Ea Hne]. rewrite Ea, (proj2 (Z.eqb_neq _ _)) by done.
  f_equal. apply IH; [|done|simpl in Hn; lia]. intros i x Hx. apply (Hl (S i) x Hx).
Qed.

(** Lexicographic order on byte strings. *)
Fixpoint lexlt (p q : list Z) : Prop :=
  match p, q with
  | _, [] => False
  | [], _ :: _ => True
  | a :: p, b :: q => a < b ∨ (a = b ∧ lexlt p q)
  end.

Lemma strncmp_eq p q n : KString.strncmp p q n = 0 ↔ cstr p n = cstr q n.
Proof.
  revert p q. induction n as [|n IH]; intros p q; cbn [KString.strncmp cstr]; [done|].
  destruct (p 0%nat =? 0) eqn:Ep; simpl.
  - apply Z.eqb_eq in Ep. rewrite Ep. destruct (q 0%nat =? 0) eqn:Eq.
    + apply Z.eqb_eq in Eq. rewrite Eq. done.
    + apply Z.eqb_neq in Eq. split; [lia|done].
  - destruct (p 0%nat =? q 0%nat) eqn:Epq.
    + apply Z.eqb_eq in Epq. rewrite <-Epq, Ep. rewrite IH.
      split; [by intros ->|by intros [=]].
    + apply Z.eqb_neq in Epq. split; [lia|]. destruct (q 0%nat =? 0); [done|by intros [=]].
Qed.

Lemma strncmp_lt p q n :
  (∀ i, is_byte (p i)) → (∀ i, is_byte (q i)) →
  KString.strncmp p q n < 0 ↔ lexlt (cstr p n) (cstr q n).
Proof.
  unfold is_byte. revert p q. induction n as [|n IH]; intros p q Hp Hq; cbn [KString.strncmp cstr]; [simpl; lia|].
  pose proof (Hp 0%nat). pose proof (Hq 0%nat).
  destruct (p 0%nat =? 0) eqn:Ep; simpl.
  - apply Z.eqb_eq in Ep. destruct (q 0%nat =? 0) eqn:Eq;
      [apply Z.eqb_eq in Eq|apply Z.eqb_neq in Eq]; simpl; [lia|]. split; [done|lia].
  - apply Z.eqb_neq in Ep. destruct (p 0%nat =? q 0%nat) eqn:Epq.
    + apply Z.eqb_eq in Epq. rewrite <-Epq. rewrite (proj2 (Z.eqb_neq _ _)) by done. simpl.
      rewrite IH by (intros; apply Hp || apply Hq). split; [by right|]. intros [?|[_ ?]]; [lia|done].
    + apply Z.eqb_neq in Epq. destruct (q 0%nat =? 0) eqn:Eq; simpl.
      * apply Z.eqb_eq in Eq. lia.
      * split; [lia|]. intros [?|[? _]]; lia.
Qed.

Lemma zeros_spec n m s x : KString.zeros m s n x = if in_area s (Z.of_nat n) x then 0 else m x.
Proof.
  revert m s. induction n as [|n IH]; intros m s; cbn [KString.zeros].
  - area; [lia|done].
  - rewrite IH, fn_insert_dec. area; try case_decide; try done; lia.
Qed.

(** The bytes [strncpy] stores: the string, then zeros. *)
Definition pad (l : list Z) (i : nat) : Z := default 0 (l !! i).

Lemma pad_cons_0 a l : pad (a :: l) 0 = a.
Proof. done. Qed.

Lemma strncpy_spec n m s t x :
  s + Z.of_nat n ≤ t ∨ t + Z.of_nat n ≤ s →
  KString.strncpy m s t n x =
    if in_area s (Z.of_nat n) x then pad (cstr (at_ m t) n) (Z.to_nat (x - s)) else m x.
Proof.
  revert m s t. induction n as [|n IH]; intros m s t Hov; cbn [KString.strncpy cstr].
  - area; [lia|done].
  - rewrite !at_0. destruct (m t =? 0) eqn:Et.
    + apply Z.eqb_eq in Et. rewrite zeros_spec, fn_insert_dec, Et.
      area; try case_decide; try done; lia.
    + rewrite IH, !fn_insert_dec by lia.
      assert (Ec : cstr (at_ (<[s:=m t]> m) (t + 1)) n = cstr (next (at_ m t)) n).
      { apply cstr_ext. intros i Hi. rewrite next_at. unfold at_. rewrite fn_insert_dec.
        rewrite decide_False by lia. done. }
      rewrite Ec. unfold in_area.
      destruct (decide (x = s)) as [->|Hne].
      * rewrite (proj2 (Z.leb_gt (s + 1) s)) by lia. rewrite Z.leb_refl.
        rewrite (proj2 (Z.ltb_lt s (s + Z.of_nat (S n)))) by lia. simpl andb. cbv iota.
        by rewrite Z.sub_diag.
      * replace (s <=? x) with (s + 1 <=? x) by (destruct (Z.leb_spec (s + 1) x), (Z.leb_spec s x); lia).
        replace (s + Z.of_nat (S n)) with (s + 1 + Z.of_nat n) by lia.
        destruct (_ && _) eqn:E; [|done]. rewrite andb_true_iff, Z.leb_le in E.
        replace (Z.to_nat (x - s)) with (S (Z.to_nat (x - (s + 1)))) by lia. done.
Qed.

Lemma safestrcpy1_spec n m s t :
  s + Z.of_nat n < t ∨ t + Z.of_nat n ≤ s →
  let l := cstr (at_ m t) n in
  let m' := KString.safestrcpy1 m s t n in
  (∀ i, (i < length l)%nat → m' (s + Z.of_nat i) = at_ m t i) ∧
  m' (s + Z.of_nat (length l)) = 0 ∧
  (∀ x, ¬ s ≤ x ≤ s + Z.of_nat n → m' x = m x).
Proof.
  revert m s t. induction n as [|n IH]; intros m s t Hov; cbn [KString.safestrcpy1 cstr].
  - simpl. split_and!; [intros; lia|by rewrite fn_insert_dec, decide_True by lia|].
    intros x Hx. rewrite fn_insert_dec, decide_False by lia. done.
  - rewrite !at_0. destruct (m t =? 0) eqn:Et.
    + apply Z.eqb_eq in Et. simpl length. split_and!; [intros; lia|..].
      * rewrite fn_insert_dec, decide_False, fn_insert_dec, decide_True by lia. done.
      * intros x Hx. rewrite !fn_insert_dec, !decide_False by lia. done.
    + destruct (IH (<[s:=m t]> m) (s + 1) (t + 1) ltac:(lia)) as (I1 & I2 & I3).
      assert (Ec : cstr (at_ (<[s:=m t]> m) (t + 1)) n = cstr (next (at_ m t)) n).
      { apply cstr_ext. intros i Hi. rewrite next_at. unfold at_. rewrite fn_insert_dec.
        rewrite decide_False by lia. done. }
      rewrite Ec in I1, I2. pose proof (length_cstr (next (at_ m t)) n). simpl length. split_and!.
      * intros [|i] Hi.
        -- rewrite Z.add_0_r, I3, fn_insert_dec, decide_True by lia. unfold at_. f_equal. lia.
        -- replace (s + Z.of_nat (S i)) with (s + 1 + Z.of_nat i) by lia. rewrite I1 by lia.
           unfold at_. rewrite fn_insert_dec, decide_False by lia. f_equal. lia.
      * rewrite <-I2. f_equal. lia.
      * intros x Hx. rewrite I3, fn_insert_dec, decide_False by lia. done.
Qed.

(** ** Loops that stop at the terminating NUL *)

(** [terminated s k]: the C string at [s] has length [k]. *)
Definition terminated (s : reader) (k : nat) : Prop := s k = 0 ∧ ∀ i, (i < k)%nat → s i ≠ 0.

Lemma strlen_from_spec s k n fuel :
  terminated s k → (n ≤ k)%nat → (k - n < fuel)%nat → KString.strlen_from s n fuel = Some k.
Proof.
  intros [H0 Hn]. revert n. induction fuel as [|fuel IH]; intros n Hk Hf; [lia|].
  cbn [KString.strlen_from]. destruct (decide (n = k)) as [->|Hne]; [by rewrite H0|].
  rewrite (proj2 (Z.eqb_neq _ _)) by (apply Hn; lia). apply IH; lia.
Qed.

Lemma strlen_spec s k fuel : terminated s k → (k < fuel)%nat → KString.strlen s fuel = Some k.
Proof. intros. unfold KString.strlen. apply strlen_from_spec; [done|lia..]. Qed.

Lemma strchr_from_spec s c k i fuel :
  terminated s k → (i ≤ k)%nat → (k - i < fuel)%nat →
  (∃ j, ULib.strchr_from s c i fuel = Some (Some j) ∧ (i ≤ j < k)%nat ∧ s j = c ∧
        ∀ n, (i ≤ n < j)%nat → s n ≠ c) ∨
  (ULib.strchr_from s c i fuel = Some None ∧ ∀ n, (i ≤ n < k)%nat → s n ≠ c).
Proof.
  intros [H0 Hn]. revert i. induction fuel as [|fuel IH]; intros i Hk Hf; [lia|].
  cbn [ULib.strchr_from]. destruct (decide (i = k)) as [->|Hne].
  { rewrite H0. right. split; [done|lia]. }
  rewrite (proj2 (Z.eqb_neq _ _)) by (apply Hn; lia). destruct (s i =? c) eqn:E.
  - apply Z.eqb_eq in E. left. exists i. split_and!; [done|lia|lia|done|lia].
  - apply Z.eqb_neq in E. destruct (IH (S i)) as [(j & Ej & Hj & Hc & Hb)|[Ej Hb]]; [lia|lia|left|right].
    + exists j. split_and!; [done|lia|lia|done|]. intros n Hr.
      destruct (decide (n = i)) as [->|]; [done|]. apply Hb. lia.
    + split; [done|]. intros n Hr. destruct (decide (n = i)) as [->|]; [done|]. apply Hb. lia.
Qed.

(** [gets] takes one line: everything up to and including the first newline
    or carriage return, at most [max - 1] bytes. *)
Definition is_eol (c : Z) : bool := (c =? 10) || (c =? 13).

Lemma gets_from_spec room inp l rest :
  ULib.gets_from inp room = (l, rest) →
  inp = l ++ rest ∧ (length l ≤ room)%nat ∧
  Forall (λ c, is_eol c = false) (removelast l) ∧
  (rest ≠ [] → (length l < room)%nat → ∃ c, last l = Some c ∧ is_eol c = true).
Proof.
  revert inp l rest. induction room as [|room IH]; intros [|c inp] l rest; cbn [ULib.gets_from].
  1-3: intros [= <- <-]; simpl; split_and!; [done|lia|constructor|by intros; first [lia|done]].
  fold (is_eol c). destruct (is_eol c) eqn:E.
  - intros [= <- <-]. simpl. split_and!; [done|lia|constructor|]. intros. by exists c.
  - destruct (ULib.gets_from inp room) as [l' rest'] eqn:G. intros [= <- <-].
    destruct (IH _ _ _ G) as (-> & Hl & Hf & Hlast). simpl length. split_and!; [done|lia|..].
    + destruct l' as [|d l']; [constructor|]. simpl. by constructor.
    + intros Hr Hlt. destruct (Hlast Hr ltac:(lia)) as (d & Hd & Ed). exists d.
      rewrite last_cons, Hd. done.
Qed.

(** ** atoi *)
Definition dec_val (ds : list Z) : Z := foldl (λ v c, v * 10 + (c - 48)) 0 ds.

Lemma atoi_from_spec ds s n fuel :
  (∀ i c, ds !! i = Some c → s i = c ∧ ULib.is_digit c = true) →
  ULib.is_digit (s (length ds)) = false → (length ds < fuel)%nat → 0 ≤ n →
  foldl (λ v c, v * 10 + (c - 48)) n ds < 2 ^ 31 →
  ULib.atoi_from s n fuel = Some (foldl (λ v c, v * 10 + (c - 48)) n ds).
Proof.
  revert s n fuel. induction ds as [|c ds IH]; intros s n fuel Hd He Hf Hn Hv;
    destruct fuel as [|fuel]; try (simpl in Hf; lia); cbn [ULib.atoi_from].
  - simpl in He. by rewrite He.
  - destruct (Hd 0%nat c eq_refl) as [Es Ed]. rewrite Es, Ed.
    assert (Hc : 48 ≤ c ≤ 57).
    { unfold ULib.is_digit in Ed. rewrite andb_true_iff, !Z.leb_le in Ed. done. }
    assert (Hmono : ∀ l v, 0 ≤ v → Forall (λ c, 48 ≤ c) l → v ≤ foldl (λ v c, v * 10 + (c - 48)) v l).
    { induction l as [|x l IHl]; intros v Hv0 Hl; simpl; [lia|]. apply Forall_cons in Hl as [Hx Hl].
      etransitivity; [|apply IHl; [lia|done]]. lia. }
    assert (Hds : Forall (λ c, 48 ≤ c) ds).
    { apply Forall_lookup. intros i x Hx. destruct (Hd (S i) x Hx) as [_ E].
      unfold ULib.is_digit in E. rewrite andb_true_iff, !Z.leb_le in E. lia. }
    cbn [foldl] in Hv |- *. pose proof (Hmono ds (n * 10 + (c - 48)) ltac:(lia) Hds) as Hle.
    rewrite s32_small by lia. replace (n * 10 + c - 48) with (n * 10 + (c - 48)) by lia.
    apply IH; [|done|simpl in Hf; lia|lia|done].
    intros i x Hx. apply (Hd (S i) x Hx).
Qed.

(** ** Properties *)

(** [memmove] copies [n] bytes whatever the overlap of the two areas:
    afterwards the destination holds what the source held before, and no
    other byte has changed. *)
Theorem memmove_any_overlap m dst src n :
  0 ≤ n →
  (∀ i, 0 ≤ i < n → KString.memmove m dst src n (dst + i) = m (src + i)) ∧
  (∀ x, ¬ dst ≤ x < dst + n → KString.memmove m dst src n x = m x).
Proof.
  intros Hn. split.
  - intros i Hi. rewrite memmove_spec by done. rewrite (proj2 (in_area_true _ _ _)) by lia. f_equal. lia.
  - intros x Hx. rewrite memmove_spec by done. by rewrite (proj2 (in_area_false _ _ _)).
Qed.
Lemma memmove_any_overlap_witness :
  KString.memmove (λ a, a) 12 10 4 (12 + 1) = 10 + 1 ∧ KString.memmove (λ a, a) 12 10 4 16 = 16.
Proof.
  destruct (memmove_any_overlap (λ a, a) 12 10 4) as [H1 H2]; [lia|].
  split; [apply (H1 1); lia|apply H2; lia].
Defined.

(** The word-at-a-time path of [memset] stores exactly what its byte
    path stores. *)
Theorem memset_words_are_bytes m dst c n x :
  KString.memset m dst c n x = KString.stosb m dst c (Z.to_nat n) x.
Proof.
  destruct (decide (0 ≤ n)) as [Hn|Hn].
  - rewrite memset_spec, stosb_spec, Z2Nat.id by done. done.
  - unfold KString.memset. replace (Z.to_nat n) with 0%nat by lia.
    replace (Z.to_nat (n / 4)) with 0%nat by (pose proof (Z.div_lt_upper_bound n 4 0); lia).
    by destruct (_ && _).
Qed.

(** [safestrcpy(s, t, n)] with [n > 0] and areas that do not overlap
    leaves at [s] the C string of at most [n - 1] bytes that was at [t],
    always NUL-terminated, and changes nothing outside the [n] bytes. *)
Theorem safestrcpy_terminates m s t n :
  0 < n → s + n ≤ t ∨ t + n ≤ s →
  let m' := KString.safestrcpy m s t n in
  cstr (at_ m' s) (Z.to_nat n) = cstr (at_ m t) (Z.to_nat (n - 1)) ∧
  (∃ k, 0 ≤ k < n ∧ m' (s + k) = 0) ∧
  (∀ x, ¬ s ≤ x < s + n → m' x = m x).
Proof.
  intros Hn Hov. unfold KString.safestrcpy. rewrite (proj2 (Z.leb_gt n 0)) by done. cbv zeta.
  destruct (safestrcpy1_spec (Z.to_nat (n - 1)) m s t) as (H1 & H2 & H3); [lia|].
  pose proof (length_cstr (at_ m t) (Z.to_nat (n - 1))) as HL.
  set (l := cstr (at_ m t) (Z.to_nat (n - 1))) in *.
  set (m' := KString.safestrcpy1 m s t (Z.to_nat (n - 1))) in *. split_and!.
  - apply cstr_unique.
    + intros i x Hx. pose proof (lookup_lt_Some _ _ _ Hx) as Hi.
      destruct (cstr_lookup _ _ _ Hi) as [E Hne]. fold l in E. rewrite Hx in E. injection E as ->.
      unfold at_ at 1. rewrite H1 by done. done.
    + unfold at_. done.
    + lia.
  - exists (Z.of_nat (length l)). split; [lia|done].
  - intros x Hx. apply H3. lia.
Qed.
Lemma safestrcpy_terminates_witness :
  let m' := KString.safestrcpy (λ a, if (100 <=? a) && (a <? 130) then 65 else 0) 10 100 16 in
  cstr (at_ m' 10) 16 = replicate 15 65.
Proof.
  intros m'.
  destruct (safestrcpy_terminates (λ a, if (100 <=? a) && (a <? 130) then 65 else 0) 10 100 16)
    as (E & _ & _); [lia|lia|]. exact E.
Defined.
