(* ===== verification/Print.v ===== *)
(** * Formatted output (console.c: printint, cprintf; printf.c)

    [Cons] holds the kernel's [consputc], [printint] and [cprintf], and
    [UPrintf] the user library's [printf].  An argument of a format is a
    number or the string a pointer points to.  The serial port and the screen
    both receive every character [consputc] is given; [k_out] is that stream
    (Console models what the screen makes of it). *)
From S2P Require Import Prelude State Sync CString.

(** An argument: a 32-bit word, a pointer to a string, or a null pointer. *)
Inductive carg := CInt (x : Z) | CStr (s : list Z) | CNull.

Definition arg_int (a : carg) : Z := match a with CInt x => u32 x | CStr _ => 0 | CNull => 0 end.
Definition null_str : list Z := [40; 110; 117; 108; 108; 41].
Definition arg_str (a : carg) : list Z := match a with CStr s => s | CInt _ | CNull => null_str end.

(** The characters of a Rocq string literal. *)
Fixpoint bytes (s : string) : list Z :=
  match s with
  | EmptyString => []
  | String c s => Z.of_N (Ascii.N_of_ascii c) :: bytes s
  end.

(** The newline. *)
Definition nl : string := String (Ascii.ascii_of_nat 10) EmptyString.

(** [do buf[i++] = digits[x % base]; while((x /= base) != 0);] *)
Fixpoint put_digits (digits : list Z) (base : Z) (x : Z) (fuel : nat) : list Z :=
  match fuel with
  | O => []
  | S fuel =>
      let c := digits !!! Z.to_nat (x `mod` base) in
      let x := x / base in
      c :: (if x =? 0 then [] else put_digits digits base x fuel)
  end.

(** The contents of [buf] when the digits and the sign are in it. *)
Definition int_buf (digits : list Z) (xx base : Z) (sign : bool) : list Z :=
  let neg := sign && (xx <? 0) in
  let x := if neg then u32 (- xx) else u32 xx in
  put_digits digits base x 16 ++ (if neg then [45] else []).

Module Cons.
Definition digits : list Z := bytes "0123456789abcdef".

Definition consputc (c : Z) : KM unit := modify (λ s, s <| k_out ::= cons c |>).

(** [while(--i >= 0) consputc(buf[i]);] *)
Definition printint (xx base : Z) (sign : bool) : KM unit :=
  foreach consputc (rev (int_buf digits xx base sign)).

Fixpoint cprintf_from (fmt : list Z) (argp : list carg) : KM unit :=
  match fmt with
  | [] => ret tt
  | c :: fmt =>
      if c =? 0 then ret tt else
      if negb (c =? 37) then consputc c ;; cprintf_from fmt argp else
      match fmt with
      | [] => ret tt
      | c :: fmt =>
          if c =? 0 then ret tt else
          let a := default CNull (head argp) in
          if c =? 100 then printint (s32 (arg_int a)) 10 true ;; cprintf_from fmt (tail argp)
          else if (c =? 120) || (c =? 112) then printint (s32 (arg_int a)) 16 false ;; cprintf_from fmt (tail argp)
          else if c =? 115 then foreach consputc (arg_str a) ;; cprintf_from fmt (tail argp)
          else if c =? 37 then consputc 37 ;; cprintf_from fmt argp
          else consputc 37 ;; consputc c ;; cprintf_from fmt argp
      end
  end.

(** [locking] is read once, before the output. *)
Definition cprintf (fmt : string) (argp : list carg) : KM unit :=
  locking <- gets k_locking ;;
  when locking (acquire LkCons) ;;
  cprintf_from (bytes fmt) argp ;;
  when locking (release LkCons).
End Cons.

Module UPrintf.
Definition digits : list Z := bytes "0123456789ABCDEF".

(** The bytes passed to [write], in order. *)
Definition printint (xx base : Z) (sgn : bool) : list Z := rev (int_buf digits xx base sgn).

Fixpoint printf_from (state : bool) (fmt : list Z) (ap : list carg) : list Z :=
  match fmt with
  | [] => []
  | c :: fmt =>
      if c =? 0 then [] else
      if negb state then
        if c =? 37 then printf_from true fmt ap else c :: printf_from false fmt ap
      else
        let a := default CNull (head ap) in
        if c =? 100 then printint (s32 (arg_int a)) 10 true ++ printf_from false fmt (tail ap)
        else if (c =? 120) || (c =? 112) then printint (s32 (arg_int a)) 16 false ++ printf_from false fmt (tail ap)
        else if c =? 115 then arg_str a ++ printf_from false fmt (tail ap)
        else if c =? 99 then u8 (arg_int a) :: printf_from false fmt (tail ap)
        else if c =? 37 then c :: printf_from false fmt ap
        else 37 :: c :: printf_from false fmt ap
  end.
Definition printf (fmt : string) (ap : list carg) : list Z := printf_from false (bytes fmt) ap.
End UPrintf.

(** ** printint *)

(** The value of digits, the least significant first. *)
Fixpoint val_of (base : Z) (val : Z → Z) (l : list Z) : Z :=
  match l with
  | [] => 0
  | c :: l => val c + base * val_of base val l
  end.

Section put_digits.
Context (digits : list Z) (base : Z) (val : Z → Z) (Hb : 2 ≤ base).
Context (Hval : ∀ d, 0 ≤ d < base → val (digits !!! Z.to_nat d) = d).

(** Fuel [n] is enough for numbers below [base ^ n]. *)
Lemma put_digits_val n x : 0 ≤ x < base ^ Z.of_nat n → (0 < n)%nat →
  val_of base val (put_digits digits base x n) = x.
Proof using Hb Hval.
  revert x. induction n as [|n IH]; intros x Hx Hn; [lia|]. cbn [put_digits val_of].
  pose proof (Z.mod_pos_bound x base ltac:(lia)) as Hm. rewrite Hval by done.
  pose proof (Z.div_mod x base ltac:(lia)) as Hd.
  rewrite Nat2Z.inj_succ, Z.pow_succ_r in Hx by lia.
  destruct (x / base =? 0) eqn:E; [apply Z.eqb_eq in E; simpl; lia|apply Z.eqb_neq in E].
  assert (Hq : 0 ≤ x / base < base ^ Z.of_nat n).
  { split; [apply Z.div_pos; lia|apply Z.div_lt_upper_bound; lia]. }
  destruct n as [|n]; [change (base ^ Z.of_nat 0) with 1 in Hq; lia|].
  rewrite IH by lia. lia.
Qed.

Lemma put_digits_all (P : Z → Prop) n x :
  (∀ d, 0 ≤ d < base → P (digits !!! Z.to_nat d)) → 0 ≤ x → Forall P (put_digits digits base x n).
Proof using Hb.
  clear Hval. intros HP. revert x. induction n as [|n IH]; intros x Hx; cbn [put_digits]; constructor.
  - apply HP, Z.mod_pos_bound. lia.
  - destruct (x / base =? 0); [constructor|]. apply IH, Z.div_pos; lia.
Qed.

(** No leading zero: the most significant digit is zero only for zero. *)
Lemma length_put_digits n k x :
  0 ≤ x < base ^ Z.of_nat k → (0 < k)%nat → (length (put_digits digits base x n) ≤ k)%nat.
Proof using Hb.
  clear Hval. revert k x. induction n as [|n IH]; intros k x Hx Hk; cbn [put_digits]; simpl; [lia|].
  destruct (x / base =? 0) eqn:E; simpl; [lia|]. apply Z.eqb_neq in E.
  destruct k as [|k]; [lia|]. rewrite Nat2Z.inj_succ, Z.pow_succ_r in Hx by lia.
  assert (Hq : 0 ≤ x / base < base ^ Z.of_nat k).
  { split; [apply Z.div_pos; lia|apply Z.div_lt_upper_bound; lia]. }
  destruct k as [|k]; [change (base ^ Z.of_nat 0) with 1 in Hq; lia|].
  specialize (IH (S k) (x / base) Hq ltac:(lia)). lia.
Qed.
End put_digits.

Lemma foldl_val ds n :
  foldl (λ v c, v * 10 + (c - 48)) n (rev ds) =
    n * 10 ^ Z.of_nat (length ds) + val_of 10 (λ c, c - 48) ds.
Proof.
  revert n. induction ds as [|c ds IH]; intros n; [simpl; lia|].
  cbn [rev val_of]. rewrite foldl_app, IH. cbn [foldl length].
  rewrite Nat2Z.inj_succ, Z.pow_succ_r by lia. lia.
Qed.

Lemma decimal_digits digits : (digits = Cons.digits ∨ digits = UPrintf.digits) →
  ∀ d, 0 ≤ d < 10 → digits !!! Z.to_nat d = d + 48.
Proof.
  intros H d Hd. assert (Ha : forallb (λ d, (digits !!! Z.to_nat d) =? d + 48) (seqZ 0 10) = true)
    by (destruct H; subst; vm_compute; reflexivity).
  rewrite forallb_forall in Ha. apply Z.eqb_eq, Ha, list_elem_of_In, elem_of_seqZ. lia.
Qed.

Lemma int_buf_sign digits xx base :
  -2147483648 ≤ xx < 0 → int_buf digits xx base true = put_digits digits base (- xx) 16 ++ [45].
Proof.
  intros Hx. unfold int_buf. rewrite (proj2 (Z.ltb_lt _ _)) by lia. simpl.
  by rewrite u32_small by (unfold is_u32; lia).
Qed.

(** Decimal output, read back by [atoi]. *)
Lemma decimal_roundtrip digits x :
  (digits = Cons.digits ∨ digits = UPrintf.digits) → 0 ≤ x < 2147483648 →
  ULib.atoi (rd (rev (put_digits digits 10 x 16))) 17 = Some x.
Proof.
  intros Hd Hx. pose proof (decimal_digits digits Hd) as Hdig. unfold ULib.atoi.
  assert (HL : (length (put_digits digits 10 x 16) ≤ 10)%nat)
    by (apply (length_put_digits digits 10); [lia|simpl; lia|lia]).
  assert (Hv : val_of 10 (λ c, c - 48) (put_digits digits 10 x 16) = x).
  { apply put_digits_val; [lia| |simpl; lia|lia]. intros d Hdd. rewrite Hdig by done. lia. }
  pose proof (foldl_val (put_digits digits 10 x 16) 0) as Hf. rewrite Hv in Hf.
  assert (Hall : Forall (λ c, ULib.is_digit c = true) (rev (put_digits digits 10 x 16))).
  { apply Forall_rev, put_digits_all; [lia|intros d Hdd; rewrite Hdig by done|lia].
    unfold ULib.is_digit. rewrite andb_true_iff, !Z.leb_le. lia. }
  rewrite (atoi_from_spec (rev (put_digits digits 10 x 16)) _ 0 17); [f_equal; lia| | | |lia|lia].
  - intros i c Hi. unfold rd. rewrite Hi. split; [done|].
    by eapply (Forall_lookup_1 (λ c, ULib.is_digit c = true)).
  - unfold rd. by rewrite lookup_ge_None_2 by done.
  - rewrite length_rev. lia.
Qed.

Lemma consputs_run l env s :
  foreach Cons.consputc l env s = Done tt (s <| k_out ::= λ o, rev l ++ o |>) env.
Proof.
  revert s. induction l as [|c l IH]; intros s; [simpl; unfold ret; f_equal; by kext|].
  cbn [foreach]. unfold Cons.consputc at 1. rewrite bind_modify, IH. f_equal. kext.
  by rewrite <-app_assoc.
Qed.

(** [printint] with base 10 prints a number so that [atoi] reads it back:
    a non-negative number as its digits, a negative one as a minus sign and
    the digits of its absolute value, down to -2147483648; and the 16 bytes
    of its buffer are enough. *)
Theorem printint_atoi xx env s :
  -2147483648 ≤ xx < 2147483648 →
  ∃ l, Cons.printint xx 10 true env s =
      Done tt (s <| k_out ::= λ o, rev ((if xx <? 0 then [45] else []) ++ l) ++ o |>) env ∧
    (length (int_buf Cons.digits xx 10 true) ≤ 11)%nat ∧
    (xx ≠ -2147483648 → ULib.atoi (rd l) 17 = Some (Z.abs xx)).
Proof.
  intros Hx. exists (rev (put_digits Cons.digits 10 (Z.abs xx) 16)). unfold Cons.printint.
  rewrite consputs_run.
  assert (E : int_buf Cons.digits xx 10 true =
    put_digits Cons.digits 10 (Z.abs xx) 16 ++ (if xx <? 0 then [45] else [])).
  { destruct (xx <? 0) eqn:E; [apply Z.ltb_lt in E|apply Z.ltb_ge in E].
    - rewrite int_buf_sign by lia. by rewrite Z.abs_neq by lia.
    - unfold int_buf. rewrite (proj2 (Z.ltb_ge _ _)) by lia. simpl.
      by rewrite u32_small, Z.abs_eq by (unfold is_u32; lia). }
  split_and!.
  - rewrite E. f_equal. kext. f_equal. rewrite !rev_app_distr, !rev_involutive. by destruct (xx <? 0).
  - rewrite E, length_app.
    pose proof (length_put_digits Cons.digits 10 ltac:(lia) 16 10 (Z.abs xx) ltac:(lia) ltac:(lia)).
    destruct (xx <? 0); cbn [length]; lia.
  - intros Hm. apply decimal_roundtrip; [by left|lia].
Qed.

Lemma printint_atoi_witness :
  ∃ l, Cons.printint (-1234) 10 true [] mem_boot =
      Done tt (mem_boot <| k_out ::= λ o, rev ([45] ++ l) ++ o |>) [] ∧ ULib.atoi (rd l) 17 = Some 1234.
Proof.
  destruct (printint_atoi (-1234) [] mem_boot ltac:(lia)) as (l & E & _ & H).
  exists l. split; [exact E|]. apply H. discriminate.
Defined.
