(* ===== verification/Kalloc.v ===== *)
(** * Physical memory (memlayout.h, mmu.h, kalloc.c)

    Physical memory is the byte function [k_mem], indexed by kernel virtual
    address.  The free pages form a linked list threaded through their first
    words, exactly as in the C code; [free_list s l] says that the list is
    [l].  The results: [kfree] pushes and [kalloc] pops, [freerange] frees
    every whole page of its range, and, over any sequence of operations of
    clients that free only pages they were given, no page is handed out
    twice. *)
From S2P Require Import Prelude State Sync CString.

(** ** Addresses *)
Definition PGSIZE : Z := 4096.
Definition EXTMEM : Z := 1048576.
Definition PHYSTOP : Z := 234881024.
Definition DEVSPACE : Z := 4261412864.
Definition KERNBASE : Z := 2147483648.
Definition KERNLINK : Z := KERNBASE + EXTMEM.
Definition V2P (a : Z) : Z := u32 (a - KERNBASE).
Definition P2V (a : Z) : Z := u32 (a + KERNBASE).
Definition PGROUNDUP (sz : Z) : Z := Z.land (u32 (sz + PGSIZE - 1)) (Z.lnot (PGSIZE - 1)).
Definition PGROUNDDOWN (a : Z) : Z := Z.land a (Z.lnot (PGSIZE - 1)).

(** Loads of 16 and of 32 bits. *)
Definition ld2 (m : mem) (a : Z) : Z := m a + 256 * m (a + 1).
Definition ld4 (m : mem) (a : Z) : Z := m a + 256 * m (a + 1) + 65536 * m (a + 2) + 16777216 * m (a + 3).
Definition upd_mem (f : mem → mem) : KM unit := modify (λ s, s <| k_mem ::= f |>).

Section kalloc.
(** [end], the first address after the kernel, set by the linker. *)
Context (kend : Z).

Definition kfree (v : Z) : KM unit :=
  if negb (v `mod` PGSIZE =? 0) || (v <? kend) || (PHYSTOP <=? V2P v) then panic "kfree" else
  upd_mem (λ m, KString.memset m v 1 PGSIZE) ;;
  ul <- gets k_use_lock ;;
  when ul (acquire LkKmem) ;;
  freelist <- gets k_freelist ;;
  upd_mem (λ m, KString.store4 m v freelist) ;;
  modify (λ s, s <| k_freelist := v |>) ;;
  ul <- gets k_use_lock ;;
  when ul (release LkKmem).

(** The loop of [freerange]; one round more than there are pages, for the
    test that ends it. *)
Fixpoint freerange_from (fuel : nat) (p vend : Z) : KM unit :=
  match fuel with
  | O => ret tt
  | S fuel =>
      if u32 (p + PGSIZE) <=? vend then kfree p ;; freerange_from fuel (u32 (p + PGSIZE)) vend
      else ret tt
  end.
Definition freerange (vstart vend : Z) : KM unit :=
  let p := PGROUNDUP vstart in
  freerange_from (S (Z.to_nat ((vend - p) / PGSIZE))) p vend.

Definition kinit1 (vstart vend : Z) : KM unit :=
  modify (λ s, s <| k_use_lock := false |>) ;;
  freerange vstart vend.

Definition kinit2 (vstart vend : Z) : KM unit :=
  freerange vstart vend ;;
  modify (λ s, s <| k_use_lock := true |>).

Definition kalloc : KM Z :=
  ul <- gets k_use_lock ;;
  when ul (acquire LkKmem) ;;
  r <- gets k_freelist ;;
  when (negb (r =? 0)) (modify (λ s, s <| k_freelist := ld4 (k_mem s) r |>)) ;;
  ul <- gets k_use_lock ;;
  when ul (release LkKmem) ;;
  ret r.

(** ** Rounding *)
Lemma page_mask a : Z.land a (Z.lnot (PGSIZE - 1)) = a - a `mod` PGSIZE.
Proof.
  change (PGSIZE - 1) with (Z.ones 12). rewrite <-Z.ldiff_land, Z.ldiff_ones_r by lia.
  rewrite Z.shiftr_div_pow2, Z.shiftl_mul_pow2 by lia.
  pose proof (Z.div_mod a PGSIZE ltac:(done)). change (2 ^ 12) with PGSIZE. lia.
Qed.

Lemma PGROUNDDOWN_eq a : PGROUNDDOWN a = a - a `mod` PGSIZE.
Proof. apply page_mask. Qed.

Lemma PGROUNDUP_spec a : 0 ≤ a → a + PGSIZE ≤ 4294967296 →
  PGROUNDUP a `mod` PGSIZE = 0 ∧ a ≤ PGROUNDUP a < a + PGSIZE.
Proof.
  intros H0 H1. unfold PGROUNDUP. rewrite u32_small by (unfold is_u32; change PGSIZE with 4096 in *; lia).
  rewrite page_mask. pose proof (Z.mod_pos_bound (a + PGSIZE - 1) PGSIZE ltac:(done)) as Hm. split.
  - pose proof (Z.div_mod (a + PGSIZE - 1) PGSIZE ltac:(done)) as Hd.
    replace (a + PGSIZE - 1 - (a + PGSIZE - 1) `mod` PGSIZE) with ((a + PGSIZE - 1) / PGSIZE * PGSIZE) by lia.
    by apply Z_mod_mult.
  - change PGSIZE with 4096 in *. lia.
Qed.

(** ** The free list *)
Lemma ld4_store4 m a v : is_u32 v → ld4 (KString.store4 m a v) a = v.
Proof.
  intros Hv. unfold ld4, KString.store4, is_u32, u8 in *. rewrite !fn_insert_dec.
  repeat first [rewrite decide_True by lia | rewrite decide_False by lia].
  pose proof (Z.div_mod v 256 ltac:(lia)). pose proof (Z.div_mod (v / 256) 256 ltac:(lia)).
  pose proof (Z.div_mod (v / 65536) 256 ltac:(lia)).
  rewrite Z.div_div in * by lia. change (256 * 256) with 65536 in *. change (65536 * 256) with 16777216 in *.
  rewrite (Z.mod_small (v / 16777216)) by (split; [apply Z.div_pos; lia|apply Z.div_lt_upper_bound; lia]).
  lia.
Qed.

Lemma store4_other m a v x : x < a ∨ a + 4 ≤ x → KString.store4 m a v x = m x.
Proof. intros Hx. unfold KString.store4. rewrite !fn_insert_dec, !decide_False by lia. done. Qed.

Lemma ld4_ext (m m' : mem) a : (∀ x, a ≤ x < a + 4 → m x = m' x) → ld4 m a = ld4 m' a.
Proof. intros H. unfold ld4. rewrite !H by lia. done. Qed.

(** A page the allocator may hold. *)
Record page_ok (v : Z) : Prop := {
  pg_align : v `mod` PGSIZE = 0;
  pg_end : kend ≤ v;
  pg_top : KERNBASE ≤ v < KERNBASE + PHYSTOP }.

Definition kfree_ok (v : Z) : bool :=
  (v `mod` PGSIZE =? 0) && (kend <=? v) && (KERNBASE <=? v) && (v <? KERNBASE + PHYSTOP).
Lemma kfree_ok_true v : kfree_ok v = true ↔ page_ok v.
Proof.
  unfold kfree_ok. rewrite !andb_true_iff, Z.eqb_eq, !Z.leb_le, Z.ltb_lt. split.
  - intros [[[H1 H2] H3] H4]. by split.
  - by intros [H1 H2 [H3 H4]].
Qed.

(** Pages are equal or far apart. *)
Lemma pages_apart v w : v `mod` PGSIZE = 0 → w `mod` PGSIZE = 0 → v ≠ w →
  v + PGSIZE ≤ w ∨ w + PGSIZE ≤ v.
Proof.
  intros Hv Hw Hne. pose proof (Z.div_mod v PGSIZE ltac:(done)). pose proof (Z.div_mod w PGSIZE ltac:(done)).
  change PGSIZE with 4096 in *. lia.
Qed.

Lemma kfree_guard v : page_ok v →
  negb (v `mod` PGSIZE =? 0) || (v <? kend) || (PHYSTOP <=? V2P v) = false.
Proof.
  intros [H1 H2 H3]. rewrite H1, Z.eqb_refl. simpl. unfold V2P.
  rewrite u32_small by (unfold is_u32, KERNBASE, PHYSTOP in *; lia).
  rewrite (proj2 (Z.ltb_ge _ _)) by lia. simpl. apply Z.leb_gt. lia.
Qed.

(** The list of pages reachable from [a] is [l]. *)
Fixpoint chain (m : mem) (a : Z) (l : list Z) : Prop :=
  match l with
  | [] => a = 0
  | x :: l => a = x ∧ x ≠ 0 ∧ chain m (ld4 m x) l
  end.

Record free_list (s : kstate) (l : list Z) : Prop := {
  fl_chain : chain (k_mem s) (k_freelist s) l;
  fl_nodup : NoDup l;
  fl_pages : Forall page_ok l }.

Lemma chain_ext (m m' : mem) a l :
  (∀ x y, x ∈ l → x ≤ y < x + 4 → m y = m' y) → chain m a l → chain m' a l.
Proof.
  revert a. induction l as [|x l IH]; intros a E; [done|]. intros (-> & H0 & Hc). simpl. split_and!; [done|done|].
  rewrite <-(ld4_ext m m') by (intros; by apply (E x); [left|]). apply IH; [|done].
  intros z y Hz. apply (E z). by right.
Qed.

Lemma page_nonzero v : page_ok v → v ≠ 0 ∧ is_u32 v.
Proof. intros [_ _ H]. unfold is_u32, KERNBASE, PHYSTOP in *. lia. Qed.
Lemma free_list_head s l : free_list s l → is_u32 (k_freelist s).
Proof.
  intros [Hc _ Hp]. destruct l as [|x l]; [rewrite Hc; split; lia|]. destruct Hc as [-> _].
  apply Forall_cons in Hp as [Hp _]. by apply page_nonzero.
Qed.

(** The memory after [kfree]. *)
Definition freed (s : kstate) (v : Z) : mem :=
  KString.store4 (KString.memset (k_mem s) v 1 PGSIZE) v (k_freelist s).

Lemma freed_other s v x : x < v ∨ v + PGSIZE ≤ x → freed s v x = k_mem s x.
Proof.
  intros Hx. unfold freed. rewrite store4_other by (change PGSIZE with 4096 in *; lia).
  rewrite memset_spec by done. area; [lia|done].
Qed.

Lemma kfree_run v env s :
  page_ok v → LkKmem ∉ k_locks s →
  kfree v env s = Done tt (s <| k_mem := freed s v |> <| k_freelist := v |>) env.
Proof.
  intros Hp Hl. unfold kfree. rewrite kfree_guard by done. unfold upd_mem. rewrite bind_modify, bind_gets.
  cbn [k_use_lock]. change (k_use_lock (s <| k_mem ::= _ |>)) with (k_use_lock s).
  destruct (k_use_lock s) eqn:Hu; cbn [when].
  - step acquire_ok. rewrite bind_gets, !bind_modify, bind_gets.
    match goal with |- context [k_use_lock ?t] => change (k_use_lock t) with (k_use_lock s) end.
    rewrite Hu. cbn [when]. erewrite release_ok by reflexivity. kdone.
  - rewrite bind_ret, bind_gets, !bind_modify, bind_gets.
    match goal with |- context [k_use_lock ?t] => change (k_use_lock t) with (k_use_lock s) end.
    rewrite Hu. cbn [when]. unfold ret. kdone.
Qed.

Lemma kfree_spec v env s l :
  page_ok v → LkKmem ∉ k_locks s → free_list s l → v ∉ l →
  ∃ s', kfree v env s = Done tt s' env ∧ s' = s <| k_mem := freed s v |> <| k_freelist := v |> ∧
    free_list s' (v :: l).
Proof.
  intros Hp Hl F Hn. eexists. split; [by apply kfree_run|]. split; [done|].
  pose proof (free_list_head _ _ F) as Hu. destruct F as [Fc Fn Fp]. split; [|by constructor|by constructor].
  simpl. split_and!; [done|by apply page_nonzero|].
  assert (ld4 (freed s v) v = k_freelist s) as -> by (by apply ld4_store4).
  eapply chain_ext; [|exact Fc]. intros x y Hx Hy. rewrite freed_other; [done|].
  rewrite Forall_forall in Fp. destruct (pages_apart v x); [apply Hp|apply Fp, Hx|congruence|..];
    change PGSIZE with 4096 in *; lia.
Qed.

Lemma kalloc_run env s :
  LkKmem ∉ k_locks s →
  kalloc env s = Done (k_freelist s)
    (if k_freelist s =? 0 then s else s <| k_freelist := ld4 (k_mem s) (k_freelist s) |>) env.
Proof.
  intros Hl. unfold kalloc. rewrite bind_gets. destruct (k_use_lock s) eqn:Hu; cbn [when].
  - step acquire_ok. rewrite bind_gets. simpl k_freelist.
    destruct (k_freelist s =? 0); cbn [when negb]; rewrite ?bind_ret, ?bind_modify, bind_gets;
      (match goal with |- context [k_use_lock ?t] => change (k_use_lock t) with (k_use_lock s) end);
      rewrite Hu; cbn [when]; (erewrite bind_done by (apply release_ok; reflexivity)); unfold ret;
      kdone.
  - rewrite bind_ret, bind_gets. destruct (k_freelist s =? 0); cbn [when negb];
      rewrite ?bind_ret, ?bind_modify, bind_gets;
      (match goal with |- context [k_use_lock ?t] => change (k_use_lock t) with (k_use_lock s) end);
      rewrite Hu; cbn [when]; rewrite bind_ret; unfold ret; kdone.
Qed.

Lemma kalloc_spec env s l :
  LkKmem ∉ k_locks s → free_list s l →
  match l with
  | [] => kalloc env s = Done 0 s env
  | v :: l' => ∃ s', kalloc env s = Done v s' env ∧ s' = s <| k_freelist := k_freelist s' |> ∧ free_list s' l'
  end.
Proof.
  intros Hl [Fc Fn Fp]. rewrite kalloc_run by done. destruct l as [|v l].
  - simpl in Fc. by rewrite Fc.
  - destruct Fc as (E & H0 & Fc). rewrite E. rewrite (proj2 (Z.eqb_neq _ _)) by done.
    eexists. split; [reflexivity|]. split; [done|]. apply NoDup_cons in Fn as [_ Fn].
    apply Forall_cons in Fp as [_ Fp]. by split.
Qed.

(** ** freerange *)
(** The [n] pages from [p] on. *)
Definition pages (p : Z) (n : nat) : list Z := (λ i, p + PGSIZE * Z.of_nat i) <$> seq 0 n.

Lemma pages_S p n : pages p (S n) = p :: pages (p + PGSIZE) n.
Proof.
  unfold pages. cbn [seq fmap list_fmap]. f_equal; [lia|]. rewrite <-fmap_S_seq, <-list_fmap_compose.
  apply list_fmap_ext. intros i x _. unfold compose. lia.
Qed.
Lemma elem_of_pages p n x : x ∈ pages p n → p ≤ x < p + PGSIZE * Z.of_nat n.
Proof.
  unfold pages. rewrite list_elem_of_fmap. intros (i & -> & Hi%elem_of_seq).
  change PGSIZE with 4096. lia.
Qed.

Lemma freerange_from_spec n fuel p vend env s l :
  p `mod` PGSIZE = 0 → kend ≤ p → KERNBASE ≤ p → p + PGSIZE * Z.of_nat n ≤ vend →
  vend < p + PGSIZE * Z.of_nat n + PGSIZE → vend ≤ KERNBASE + PHYSTOP → (n < fuel)%nat →
  LkKmem ∉ k_locks s → free_list s l → (∀ x, x ∈ l → x < p ∨ vend ≤ x) →
  ∃ s', freerange_from fuel p vend env s = Done tt s' env ∧
    s' = s <| k_mem := k_mem s' |> <| k_freelist := k_freelist s' |> ∧
    free_list s' (rev (pages p n) ++ l).
Proof.
  revert fuel p s l. induction n as [|n IH]; intros fuel p s l Ha He Hk Hv Hv' Ht Hf Hl F Hd;
    (destruct fuel as [|fuel]; [lia|]); cbn [freerange_from];
    unfold KERNBASE, PHYSTOP in *; change PGSIZE with 4096 in *;
    rewrite u32_small by (unfold is_u32; lia).
  - rewrite (proj2 (Z.leb_gt _ _)) by lia. exists s. split_and!; [done|by destruct s|done].
  - rewrite (proj2 (Z.leb_le _ _)) by lia.
    destruct (kfree_spec p env s l) as (s1 & E1 & Es1 & F1); [split; [done|done|unfold KERNBASE, PHYSTOP; lia]|done|done| |].
    { intros Hin. apply Hd in Hin. lia. }
    rewrite (bind_done _ _ _ _ _ _ _ E1).
    destruct (IH fuel (p + 4096) s1 (p :: l)) as (s2 & E2 & Es2 & F2); try lia; [|by subst s1|done|..].
    { replace (p + 4096) with (p + 1 * 4096) by lia. by rewrite Z_mod_plus_full. }
    { intros x [->|Hx]%elem_of_cons; [lia|]. apply Hd in Hx. lia. }
    exists s2. split_and!; [done|by rewrite Es2, Es1|].
    change 4096 with PGSIZE in *. rewrite pages_S. cbn [rev]. by rewrite <-app_assoc.
Qed.
End kalloc.

(** ** The allocator as its clients see it

    The specification keeps the free pages, in the order they will be handed
    out, and the set of pages in use.  A client may free only a page in
    use. *)
Inductive kop := KAlloc | KFree (v : Z).

Definition spec_op (op : kop) (st : list Z * gset Z) : option (Z * (list Z * gset Z)) :=
  let '(free, used) := st in
  match op with
  | KAlloc => match free with
              | [] => Some (0, ([], used))
              | v :: free => Some (v, (free, {[v]} ∪ used))
              end
  | KFree v => if decide (v ∈ used) then Some (0, (v :: free, used ∖ {[v]})) else None
  end.

Fixpoint spec_ops (ops : list kop) (st : list Z * gset Z) : option (list Z * (list Z * gset Z)) :=
  match ops with
  | [] => Some ([], st)
  | op :: ops =>
      match spec_op op st with
      | None => None
      | Some (r, st) => match spec_ops ops st with
                        | None => None
                        | Some (rs, st) => Some (r :: rs, st)
                        end
      end
  end.

Definition kop_run (kend : Z) (op : kop) : KM Z :=
  match op with
  | KAlloc => kalloc
  | KFree v => kfree kend v ;; ret 0
  end.
Fixpoint kops_run (kend : Z) (ops : list kop) : KM (list Z) :=
  match ops with
  | [] => ret []
  | op :: ops => r <- kop_run kend op ;; rs <- kops_run kend ops ;; ret (r :: rs)
  end.

(** The C state represents the state of the specification. *)
Record represents (kend : Z) (s : kstate) (st : list Z * gset Z) : Prop := {
  rp_list : free_list kend s st.1;
  rp_used : ∀ v, v ∈ st.2 → page_ok kend v;
  rp_disj : ∀ v, v ∈ st.2 → v ∉ st.1;
  rp_locks : LkKmem ∉ k_locks s }.

Lemma kop_refines kend op env s st r st' :
  represents kend s st → spec_op op st = Some (r, st') →
  ∃ s', kop_run kend op env s = Done r s' env ∧ represents kend s' st' ∧
    ∀ v, v ∈ st.2 → v ∈ st'.2 → ∀ x, v ≤ x < v + PGSIZE → k_mem s' x = k_mem s x.
Proof.
  intros [F U D L] E. destruct st as [free used], op as [|v]; simpl in *.
  - pose proof (kalloc_spec kend env s free L F) as H. destruct free as [|v free]; injection E as <- <-.
    + exists s. split_and!; [exact H|by split|done].
    + destruct H as (s' & E & Es & F'). exists s'. split_and!; [exact E| |intros; by rewrite Es].
      pose proof (fl_pages _ _ _ F) as Fp. apply Forall_cons in Fp as [Hv _].
      pose proof (fl_nodup _ _ _ F) as Fn. apply NoDup_cons in Fn as [Hn _].
      split; simpl; [done| | |by rewrite Es].
      * intros w. rewrite elem_of_union, elem_of_singleton. intros [->|Hw]; [done|by apply U].
      * intros w. rewrite elem_of_union, elem_of_singleton. intros [->|Hw]; [done|].
        intros Hin. by apply (D w Hw), list_elem_of_further.
  - destruct (decide (v ∈ used)) as [Hv|]; [|discriminate]. injection E as <- <-.
    destruct (kfree_spec kend v env s free) as (s' & E & Es & F'); [auto..|].
    exists s'. rewrite (bind_done _ _ _ _ _ _ _ E). split_and!; [done| |].
    + split; simpl; [done| | |by rewrite Es].
      * intros w. rewrite elem_of_difference. intros [Hw _]. by apply U.
      * intros w. rewrite elem_of_difference, not_elem_of_singleton, not_elem_of_cons. intros [Hw Hne].
        split; [done|by apply D].
    + intros w Hw Hw' x Hx. cbn [snd] in Hw'. apply elem_of_difference in Hw' as [_ Hne%not_elem_of_singleton].
      rewrite Es. simpl. apply freed_other.
      destruct (pages_apart v w); [by apply (U v)|by apply (U w)|congruence|lia|lia].
Qed.

(** C10. The page allocator refines its specification: for every sequence of
    [kalloc] and [kfree] calls in which only pages in use are freed, the C
    code returns the results of the specification and ends in a state that
    represents the specification's, and so never panics, never hands out a
    page that is in use, and returns 0 only when all pages are in use. *)
Theorem kalloc_refines kend ops env s st rs st' :
  represents kend s st → spec_ops ops st = Some (rs, st') →
  ∃ s', kops_run kend ops env s = Done rs s' env ∧ represents kend s' st'.
Proof.
  revert s st rs. induction ops as [|op ops IH]; intros s st rs R E; simpl in E.
  { injection E as <- <-. by exists s. }
  destruct (spec_op op st) as [[r st1]|] eqn:E1; [|discriminate].
  destruct (spec_ops ops st1) as [[rs1 st2]|] eqn:E2; [|discriminate]. injection E as <- <-.
  destruct (kop_refines kend op env s st r st1 R E1) as (s1 & H1 & R1 & _).
  destruct (IH s1 st1 rs1 R1 E2) as (s2 & H2 & R2). exists s2. cbn [kops_run].
  rewrite (bind_done _ _ _ _ _ _ _ H1), (bind_done _ _ _ _ _ _ _ H2). done.
Qed.

Lemma mem_boot_free kend : free_list kend mem_boot [].
Proof. split; [done|apply NoDup_nil_2|apply Forall_nil_2]. Qed.

(** [freerange] frees exactly the whole pages of its range, for a range
    above the kernel and below the top of memory: it terminates, and the free
    list then has those pages in front of what it had. *)
Theorem freerange_frees_all kend vstart vend env s l (p := PGROUNDUP vstart) (n := Z.to_nat ((vend - p) / PGSIZE)) :
  kend ≤ vstart → KERNBASE ≤ vstart ≤ vend → p ≤ vend ≤ KERNBASE + PHYSTOP →
  LkKmem ∉ k_locks s → free_list kend s l → (∀ x, x ∈ l → x < p ∨ vend ≤ x) →
  ∃ s', freerange kend vstart vend env s = Done tt s' env ∧ free_list kend s' (rev (pages p n) ++ l) ∧
    ∀ x, x `mod` PGSIZE = 0 → vstart ≤ x → x + PGSIZE ≤ vend → x ∈ rev (pages p n) ++ l.
Proof.
  intros He Hk Hv Hl F Hd.
  destruct (PGROUNDUP_spec vstart) as [Ha Hr];
    [unfold KERNBASE in *; lia|unfold KERNBASE, PHYSTOP in *; change PGSIZE with 4096; lia|fold p in Ha, Hr].
  assert (Hn : p + PGSIZE * Z.of_nat n ≤ vend < p + PGSIZE * Z.of_nat n + PGSIZE).
  { unfold n. rewrite Z2Nat.id by (apply Z.div_pos; [lia|done]).
    pose proof (Z.div_mod (vend - p) PGSIZE ltac:(done)).
    pose proof (Z.mod_pos_bound (vend - p) PGSIZE ltac:(done)). lia. }
  destruct (freerange_from_spec kend n (S n) p vend env s l) as (s' & E & _ & F'); try done; try lia.
  exists s'. split_and!; [exact E|exact F'|]. intros x Hx1 Hx2 Hx3.
  apply elem_of_app. left. rewrite list_elem_of_In, <-in_rev, <-list_elem_of_In.
  unfold pages. apply list_elem_of_fmap. exists (Z.to_nat ((x - p) / PGSIZE)).
  pose proof (Z.div_mod x PGSIZE ltac:(done)). pose proof (Z.div_mod p PGSIZE ltac:(done)).
  assert (Hxp : p ≤ x) by (change PGSIZE with 4096 in *; lia).
  pose proof (Z.div_mod (x - p) PGSIZE ltac:(done)).
  assert (Hm : (x - p) `mod` PGSIZE = 0) by (rewrite Zminus_mod, Hx1, Ha; done).
  rewrite elem_of_seq, Z2Nat.id by (apply Z.div_pos; [lia|done]).
  change PGSIZE with 4096 in *. lia.
Qed.

Lemma freerange_frees_all_witness :
  ∃ s', freerange (KERNBASE + 100) (KERNBASE + 200) (KERNBASE + 9000) [] mem_boot = Done tt s' [] ∧
    free_list (KERNBASE + 100) s' [KERNBASE + 4096].
Proof.
  destruct (freerange_frees_all (KERNBASE + 100) (KERNBASE + 200) (KERNBASE + 9000) [] mem_boot [])
    as (s' & E & F & _).
  - unfold KERNBASE. lia.
  - unfold KERNBASE. lia.
  - vm_compute. intuition discriminate.
  - apply not_elem_of_nil.
  - apply mem_boot_free.
  - intros x Hx. apply not_elem_of_nil in Hx. contradiction.
  - exists s'. split; [exact E|exact F].
Defined.

(** Two pages given to the allocator. *)
Definition two_pages : list Z := [KERNBASE + 8192; KERNBASE + 4096].

Lemma two_pages_ready : ∃ s, represents KERNBASE s (two_pages, ∅).
Proof.
  destruct (freerange_from_spec KERNBASE 2 3 (KERNBASE + 4096) (KERNBASE + 12288) [] mem_boot [])
    as (s1 & _ & E1 & F1).
  - reflexivity.
  - lia.
  - lia.
  - unfold PGSIZE. lia.
  - unfold PGSIZE. lia.
  - unfold PHYSTOP. lia.
  - lia.
  - apply not_elem_of_nil.
  - apply mem_boot_free.
  - intros x Hx. apply not_elem_of_nil in Hx. contradiction.
  - exists s1. split.
    + exact F1.
    + intros v Hv. apply not_elem_of_empty in Hv. contradiction.
    + intros v Hv. apply not_elem_of_empty in Hv. contradiction.
    + rewrite E1. apply not_elem_of_nil.
Qed.

Lemma kalloc_refines_witness :
  ∃ s s', represents KERNBASE s (two_pages, ∅) ∧
    kops_run KERNBASE [KAlloc; KAlloc; KAlloc; KFree (KERNBASE + 8192); KAlloc] [] s =
      Done [KERNBASE + 8192; KERNBASE + 4096; 0; 0; KERNBASE + 8192] s' [].
Proof.
  destruct two_pages_ready as [s R].
  edestruct (kalloc_refines KERNBASE [KAlloc; KAlloc; KAlloc; KFree (KERNBASE + 8192); KAlloc] [] s (two_pages, ∅))
    as (s' & E & _); [exact R|vm_compute; reflexivity|].
  exists s, s'. split; [exact R|exact E].
Defined.
