(* ===== verification/Fs.v ===== *)
(** * The file system (fs.c, fs.h)

    Blocks (bitmap), inodes, inode contents, directories and path names, each
    a transcription of the routine of the same name of fs.c.  An inode
    pointer is an index into the table [k_icache]; [ilock] and [iunlock],
    which test for the null pointer, take an [option].  [readi] returns the
    bytes it copies to [dst] together with its result; [writei] takes the
    bytes at [src].  The device switch is an interface ([Devsw]) that the
    drivers implement. *)
From S2P Require Import Prelude State Sync Dll Bio Cache Log CString Print.

(** ** fs.h *)
Definition IBLOCK (i : Z) (sb : superblock) : Z := i / IPB + sb_inodestart sb.
Definition BBLOCK (b : Z) (sb : superblock) : Z := b / BPB + sb_bmapstart sb.

(** [struct dinode] at byte [o] of a block. *)
Record dinode := DInode {
  d_type : Z; d_major : Z; d_minor : Z; d_nlink : Z; d_size : Z; d_addrs : list Z }.

Definition get_dinode (d : block) (o : nat) : dinode :=
  DInode (s16 (ldn 2 d o)) (s16 (ldn 2 d (o + 2))) (s16 (ldn 2 d (o + 4))) (s16 (ldn 2 d (o + 6)))
    (ldn 4 d (o + 8)) ((λ i, ldn 4 d (o + 12 + 4 * i)) <$> seq 0 13).

Definition put_dinode (di : dinode) (o : nat) (d : block) : block :=
  let d := stn 2 d o (d_type di) in
  let d := stn 2 d (o + 2) (d_major di) in
  let d := stn 2 d (o + 4) (d_minor di) in
  let d := stn 2 d (o + 6) (d_nlink di) in
  let d := stn 4 d (o + 8) (d_size di) in
  st_words (o + 12) (d_addrs di) d (seq 0 13).

(** Byte offset of inode [inum] in its block. *)
Definition dioff (inum : Z) : nat := Z.to_nat (64 * (inum `mod` IPB)).

(** ** The device switch *)
Class Devsw := {
  devsw_read : Z → option (nat → Z → KM (Z * list Z));
  devsw_write : Z → option (nat → list Z → Z → KM Z) }.

Section fs.
Context `{Devsw}.

(** ** Blocks *)
Definition bzero `{Driver} (dev bno : Z) : KM unit :=
  bp <- bread dev bno ;;
  (upd_buf bp (λ q, q <| b_data ::= λ _, replicate (Z.to_nat BSIZE) 0 |>) ;;
   log_write bp) ;;
  brelse bp.

(** Bit [bi] of a bitmap block. *)
Definition bit_get (d : block) (bi : Z) : bool :=
  negb (Z.land (d !!! Z.to_nat (bi / 8)) (Z.shiftl 1 (bi `mod` 8)) =? 0).
Definition bit_set (bi : Z) (d : block) : block :=
  alter (λ x, u8 (Z.lor x (Z.shiftl 1 (bi `mod` 8)))) (Z.to_nat (bi / 8)) d.
Definition bit_clear (bi : Z) (d : block) : block :=
  alter (λ x, u8 (Z.land x (Z.lnot (Z.shiftl 1 (bi `mod` 8))))) (Z.to_nat (bi / 8)) d.

(** [for(bi = 0; bi < BPB && b + bi < sb.size; bi++)]: the first clear bit. *)
Fixpoint free_bit (d : block) (b size : Z) (n : nat) (bi : Z) : option Z :=
  match n with
  | O => None
  | S n => if b + bi <? size then
             if negb (bit_get d bi) then Some bi else free_bit d b size n (bi + 1)
           else None
  end.

(** The outer loop of [balloc], [n] bitmap blocks from block number [b]. *)
Fixpoint balloc_from `{Driver} (dev : Z) (n : nat) (b : Z) : KM Z :=
  sb <- gets k_sb ;;
  match n with
  | O => panic "balloc: out of blocks"
  | S n =>
      if b <? sb_size sb then
        bp <- bread dev (BBLOCK b sb) ;;
        d <- gets (λ s, b_data (get_buf s bp)) ;;
        match free_bit d b (sb_size sb) (Z.to_nat BPB) 0 with
        | Some bi =>
            (upd_buf bp (λ q, q <| b_data ::= bit_set bi |>) ;;
             log_write bp) ;;
            brelse bp ;;
            bzero dev (b + bi) ;;
            ret (b + bi)
        | None => brelse bp ;; balloc_from dev n (b + BPB)
        end
      else panic "balloc: out of blocks"
  end.
Definition balloc `{Driver} (dev : Z) : KM Z :=
  sb <- gets k_sb ;;
  balloc_from dev (S (Z.to_nat (sb_size sb / BPB))) 0.

Definition bfree `{Driver} (dev b : Z) : KM unit :=
  sb <- gets k_sb ;;
  bp <- bread dev (BBLOCK b sb) ;;
  let bi := b `mod` BPB in
  d <- gets (λ s, b_data (get_buf s bp)) ;;
  if negb (bit_get d bi) then panic "freeing free block" else
  (upd_buf bp (λ q, q <| b_data ::= bit_clear bi |>) ;;
   log_write bp) ;;
  brelse bp.

(** ** Inodes *)
Definition iinit `{Driver} (dev : Z) : KM unit :=
  foreach (λ i, initsleeplock (SlInode i)) (seq 0 NINODE) ;;
  sb <- readsb dev ;;
  modify (λ s, s <| k_sb := sb |>) ;;
  Cons.cprintf (String.append "sb: size %d nblocks %d ninodes %d nlog %d logstart %d inodestart %d bmap start %d" nl)
    (CInt <$> [sb_size sb; sb_nblocks sb; sb_ninodes sb; sb_nlog sb; sb_logstart sb; sb_inodestart sb;
               sb_bmapstart sb]).

(** The scan of [iget]: the cached entry, or else the first empty one. *)
Fixpoint iget_scan (dev inum : Z) (tab : list inode) (i : nat) (empty : option nat)
  : option nat * option nat :=
  match tab with
  | [] => (None, empty)
  | ip :: tab =>
      if (0 <? i_ref ip) && (i_dev ip =? dev) && (i_inum ip =? inum) then (Some i, empty)
      else iget_scan dev inum tab (S i)
             (match empty with None => if i_ref ip =? 0 then Some i else None | _ => empty end)
  end.

Definition iget (dev inum : Z) : KM nat :=
  acquire LkIcache ;;
  r <- gets (λ s, iget_scan dev inum (k_icache s) 0 None) ;;
  match r with
  | (Some i, _) =>
      upd_inode i (λ ip, ip <| i_ref ::= λ r, r + 1 |>) ;;
      release LkIcache ;;
      ret i
  | (None, None) => panic "iget: no inodes"
  | (None, Some i) =>
      upd_inode i (λ ip, ip <| i_dev := dev |> <| i_inum := inum |>
                            <| i_ref := 1 |> <| i_valid := false |>) ;;
      release LkIcache ;;
      ret i
  end.

(** The loop of [ialloc] over the inode numbers from [inum], [n] at most. *)
Fixpoint ialloc_from `{Driver} (dev type : Z) (n : nat) (inum : Z) : KM nat :=
  sb <- gets k_sb ;;
  match n with
  | O => panic "ialloc: no inodes"
  | S n =>
      if inum <? sb_ninodes sb then
        bp <- bread dev (IBLOCK inum sb) ;;
        d <- gets (λ s, b_data (get_buf s bp)) ;;
        if s16 (ldn 2 d (dioff inum)) =? 0 then
          (upd_buf bp (λ q, q <| b_data ::= λ d,
             stn 2 (list_inserts (dioff inum) (replicate 64 0) d) (dioff inum) type |>) ;;
           log_write bp) ;;
          brelse bp ;;
          iget dev inum
        else brelse bp ;; ialloc_from dev type n (inum + 1)
      else panic "ialloc: no inodes"
  end.
Definition ialloc `{Driver} (dev type : Z) : KM nat :=
  sb <- gets k_sb ;;
  ialloc_from dev type (Z.to_nat (sb_ninodes sb)) 1.

Definition dinode_of (ip : inode) : dinode :=
  DInode (i_type ip) (i_major ip) (i_minor ip) (i_nlink ip) (i_size ip) (i_addrs ip).

Definition iupdate `{Driver} (i : nat) : KM unit :=
  ip <- gets (λ s, get_inode s i) ;;
  sb <- gets k_sb ;;
  bp <- bread (i_dev ip) (IBLOCK (i_inum ip) sb) ;;
  (upd_buf bp (λ q, q <| b_data ::= put_dinode (dinode_of ip) (dioff (i_inum ip)) |>) ;;
   log_write bp) ;;
  brelse bp.

Definition idup (i : nat) : KM nat :=
  acquire LkIcache ;;
  upd_inode i (λ ip, ip <| i_ref ::= λ r, r + 1 |>) ;;
  release LkIcache ;;
  ret i.

Definition load_dinode (di : dinode) (ip : inode) : inode :=
  ip <| i_type := d_type di |> <| i_major := d_major di |> <| i_minor := d_minor di |>
     <| i_nlink := d_nlink di |> <| i_size := d_size di |> <| i_addrs := d_addrs di |>.

Definition ilock `{Driver} (ipp : option nat) : KM unit :=
  match ipp with
  | None => panic "ilock"
  | Some i =>
      ip <- gets (λ s, get_inode s i) ;;
      if i_ref ip <? 1 then panic "ilock" else
      acquiresleep (SlInode i) ;;
      ip <- gets (λ s, get_inode s i) ;;
      if i_valid ip then ret tt else
      sb <- gets k_sb ;;
      bp <- bread (i_dev ip) (IBLOCK (i_inum ip) sb) ;;
      d <- gets (λ s, b_data (get_buf s bp)) ;;
      upd_inode i (load_dinode (get_dinode d (dioff (i_inum ip)))) ;;
      brelse bp ;;
      upd_inode i (λ ip, ip <| i_valid := true |>) ;;
      ip <- gets (λ s, get_inode s i) ;;
      if i_type ip =? 0 then panic "ilock: no type" else ret tt
  end.

Definition iunlock (ipp : option nat) : KM unit :=
  match ipp with
  | None => panic "iunlock"
  | Some i =>
      h <- holdingsleep (SlInode i) ;;
      ip <- gets (λ s, get_inode s i) ;;
      if negb h || (i_ref ip <? 1) then panic "iunlock"
      else releasesleep (SlInode i)
  end.

(** ** Inode contents *)
Definition set_addr (i bn : nat) (a : Z) : KM unit :=
  upd_inode i (λ ip, ip <| i_addrs ::= insert bn a |>).

Definition bmap `{Driver} (i : nat) (bn : Z) : KM Z :=
  ip <- gets (λ s, get_inode s i) ;;
  if bn <? NDIRECT then
    let addr := i_addrs ip !!! Z.to_nat bn in
    if addr =? 0 then
      addr <- balloc (i_dev ip) ;;
      set_addr i (Z.to_nat bn) addr ;;
      ret addr
    else ret addr
  else
    let bn := bn - NDIRECT in
    if bn <? NINDIRECT then
      (* load the indirect block, allocating if necessary *)
      addr <- (let addr := i_addrs ip !!! Z.to_nat NDIRECT in
               if addr =? 0 then
                 addr <- balloc (i_dev ip) ;;
                 set_addr i (Z.to_nat NDIRECT) addr ;;
                 ret addr
               else ret addr) ;;
      bp <- bread (i_dev ip) addr ;;
      a <- gets (λ s, b_data (get_buf s bp)) ;;
      let addr := ldn 4 a (Z.to_nat (4 * bn)) in
      addr <- (if addr =? 0 then
                 addr <- balloc (i_dev ip) ;;
                 (upd_buf bp (λ q, q <| b_data ::= λ d, stn 4 d (Z.to_nat (4 * bn)) addr |>) ;;
                  log_write bp) ;;
                 ret addr
               else ret addr) ;;
      brelse bp ;;
      ret addr
    else panic "bmap: out of range".

Definition itrunc1 `{Driver} (i j : nat) : KM unit :=
  ip <- gets (λ s, get_inode s i) ;;
  let a := i_addrs ip !!! j in
  when (negb (a =? 0))
    (bfree (i_dev ip) a ;;
     set_addr i j 0).

Definition itrunc `{Driver} (i : nat) : KM unit :=
  foreach (itrunc1 i) (seq 0 (Z.to_nat NDIRECT)) ;;
  ip <- gets (λ s, get_inode s i) ;;
  let ind := i_addrs ip !!! Z.to_nat NDIRECT in
  when (negb (ind =? 0))
    (bp <- bread (i_dev ip) ind ;;
     foreach (λ j, a <- gets (λ s, ldn 4 (b_data (get_buf s bp)) (4 * j)) ;;
                   when (negb (a =? 0)) (bfree (i_dev ip) a))
       (seq 0 (Z.to_nat NINDIRECT)) ;;
     brelse bp ;;
     bfree (i_dev ip) ind ;;
     set_addr i (Z.to_nat NDIRECT) 0) ;;
  upd_inode i (λ ip, ip <| i_size := 0 |>) ;;
  iupdate i.

Definition iput `{Driver} (i : nat) : KM unit :=
  acquiresleep (SlInode i) ;;
  ip <- gets (λ s, get_inode s i) ;;
  when (i_valid ip && (i_nlink ip =? 0))
    (acquire LkIcache ;;
     r <- gets (λ s, i_ref (get_inode s i)) ;;
     release LkIcache ;;
     when (r =? 1)
       (itrunc i ;;
        upd_inode i (λ ip, ip <| i_type := 0 |>) ;;
        iupdate i ;;
        upd_inode i (λ ip, ip <| i_valid := false |>))) ;;
  releasesleep (SlInode i) ;;
  acquire LkIcache ;;
  upd_inode i (λ ip, ip <| i_ref ::= λ r, r - 1 |>) ;;
  release LkIcache.

Definition iunlockput `{Driver} (i : nat) : KM unit :=
  iunlock (Some i) ;;
  iput i.

Record stat := Stat { st_type : Z; st_dev_ : Z; st_ino : Z; st_nlink : Z; st_size : Z }.
Definition stati (i : nat) : KM stat :=
  ip <- gets (λ s, get_inode s i) ;;
  ret (Stat (i_type ip) (i_dev ip) (i_inum ip) (i_nlink ip) (i_size ip)).

(** The copy loop of [readi]: [left] bytes from [off] on.  Every round
    copies at least one byte, so [left] rounds are enough. *)
Fixpoint readi_loop `{Driver} (fuel : nat) (i : nat) (off left : Z) : KM (list Z) :=
  match fuel with
  | O => ret []
  | S fuel =>
      if left <=? 0 then ret [] else
      ip <- gets (λ s, get_inode s i) ;;
      addr <- bmap i (off / BSIZE) ;;
      bp <- bread (i_dev ip) addr ;;
      let m := Z.min left (BSIZE - off `mod` BSIZE) in
      d <- gets (λ s, take (Z.to_nat m) (drop (Z.to_nat (off `mod` BSIZE)) (b_data (get_buf s bp)))) ;;
      brelse bp ;;
      rest <- readi_loop fuel i (off + m) (left - m) ;;
      ret (d ++ rest)
  end.

Definition readi `{Driver} (i : nat) (off n : Z) : KM (Z * list Z) :=
  ip <- gets (λ s, get_inode s i) ;;
  if i_type ip =? T_DEV then
    if (i_major ip <? 0) || (NDEV <=? i_major ip) then ret (-1, []) else
    match devsw_read (i_major ip) with
    | None => ret (-1, [])
    | Some rd => rd i n
    end
  else
  if (i_size ip <? off) || (u32 (off + n) <? off) then ret (-1, []) else
  let n := if i_size ip <? u32 (off + n) then i_size ip - off else n in
  d <- readi_loop (Z.to_nat n) i off n ;;
  ret (n, d).

Fixpoint writei_loop `{Driver} (fuel : nat) (i : nat) (src : list Z) (off left : Z) : KM unit :=
  match fuel with
  | O => ret tt
  | S fuel =>
      if left <=? 0 then ret tt else
      ip <- gets (λ s, get_inode s i) ;;
      addr <- bmap i (off / BSIZE) ;;
      bp <- bread (i_dev ip) addr ;;
      let m := Z.min left (BSIZE - off `mod` BSIZE) in
      (upd_buf bp (λ q, q <| b_data ::= list_inserts (Z.to_nat (off `mod` BSIZE)) (take (Z.to_nat m) src) |>) ;;
       log_write bp) ;;
      brelse bp ;;
      writei_loop fuel i (drop (Z.to_nat m) src) (off + m) (left - m)
  end.

Definition writei `{Driver} (i : nat) (src : list Z) (off n : Z) : KM Z :=
  ip <- gets (λ s, get_inode s i) ;;
  if i_type ip =? T_DEV then
    if (i_major ip <? 0) || (NDEV <=? i_major ip) then ret (-1) else
    match devsw_write (i_major ip) with
    | None => ret (-1)
    | Some wr => wr i src n
    end
  else
  if (i_size ip <? off) || (u32 (off + n) <? off) then ret (-1) else
  if MAXFILE * BSIZE <? u32 (off + n) then ret (-1) else
  writei_loop (Z.to_nat n) i src off n ;;
  ip <- gets (λ s, get_inode s i) ;;
  when ((0 <? n) && (i_size ip <? off + n))
    (upd_inode i (λ ip, ip <| i_size := off + n |>) ;;
     iupdate i) ;;
  ret n.

(** ** Directories *)
Definition namecmp (s t : list Z) : Z := KString.strncmp (rd s) (rd t) DIRSIZ.

(** [struct dirent]: a 16-bit inode number and 14 bytes of name. *)
Definition de_inum (de : list Z) : Z := ldn 2 de 0.
Definition de_name (de : list Z) : list Z := drop 2 de.
(** [strncpy(de.name, name, DIRSIZ); de.inum = inum;] *)
Definition mk_dirent (name : list Z) (inum : Z) : list Z :=
  le_bytes 2 inum ++ (pad (cstr (rd name) DIRSIZ) <$> seq 0 DIRSIZ).

(** The scan of [dirlookup]: the inode number and the offset of the entry. *)
Fixpoint dirlookup_from `{Driver} (n : nat) (i : nat) (name : list Z) (off : Z) : KM (option (Z * Z)) :=
  match n with
  | O => ret None
  | S n =>
      ip <- gets (λ s, get_inode s i) ;;
      if off <? i_size ip then
        r <- readi i off 16 ;;
        if negb (r.1 =? 16) then panic "dirlookup read" else
        let de := r.2 in
        if de_inum de =? 0 then dirlookup_from n i name (off + 16)
        else if namecmp name (de_name de) =? 0 then ret (Some (de_inum de, off))
        else dirlookup_from n i name (off + 16)
      else ret None
  end.

(** The result is the inode and, for a caller that passes [poff], the offset
    of the entry. *)
Definition dirlookup `{Driver} (i : nat) (name : list Z) : KM (option (nat * Z)) :=
  ip <- gets (λ s, get_inode s i) ;;
  if negb (i_type ip =? T_DIR) then panic "dirlookup not DIR" else
  r <- dirlookup_from (S (Z.to_nat (i_size ip))) i name 0 ;;
  match r with
  | None => ret None
  | Some (inum, off) => j <- iget (i_dev ip) inum ;; ret (Some (j, off))
  end.

(** [for(off = 0; off < dp->size; off += sizeof(de))]: the first free slot,
    or the end of the directory. *)
Fixpoint dirlink_slot `{Driver} (n : nat) (i : nat) (off : Z) : KM Z :=
  match n with
  | O => ret off
  | S n =>
      ip <- gets (λ s, get_inode s i) ;;
      if off <? i_size ip then
        r <- readi i off 16 ;;
        if negb (r.1 =? 16) then panic "dirlink read" else
        if de_inum r.2 =? 0 then ret off else dirlink_slot n i (off + 16)
      else ret off
  end.

Definition dirlink `{Driver} (i : nat) (name : list Z) (inum : Z) : KM Z :=
  r <- dirlookup i name ;;
  match r with
  | Some (j, _) => iput j ;; ret (-1)
  | None =>
      size <- gets (λ s, i_size (get_inode s i)) ;;
      off <- dirlink_slot (S (Z.to_nat size)) i 0 ;;
      n <- writei i (mk_dirent name inum) off 16 ;;
      if negb (n =? 16) then panic "dirlink" else ret 0
  end.

(** ** Paths *)
Fixpoint skip_slashes (path : list Z) : list Z :=
  match path with
  | c :: path' => if c =? 47 then skip_slashes path' else path
  | [] => []
  end.
(** The bytes up to the next slash or the end. *)
Fixpoint path_elem (path : list Z) : list Z * list Z :=
  match path with
  | c :: path' => if c =? 47 then ([], path)
                  else let '(e, rest) := path_elem path' in (c :: e, rest)
  | [] => ([], [])
  end.

(** [skipelem]: the rest of the path and the element copied to [name], which
    holds at most [DIRSIZ] bytes. *)
Definition skipelem (path : list Z) : option (list Z * list Z) :=
  match skip_slashes path with
  | [] => None
  | path => let '(e, rest) := path_elem path in Some (skip_slashes rest, take DIRSIZ e)
  end.

(** The loop of [namex].  Each round consumes at least one byte of the path,
    so its length bounds the rounds. *)
Fixpoint namex_from `{Driver} (fuel : nat) (ip : nat) (path : list Z) (nameiparent : bool) (name : list Z)
  : KM (option nat * list Z) :=
  match fuel with
  | O => ret (None, name)
  | S fuel =>
      match skipelem path with
      | None => if nameiparent then iput ip ;; ret (None, name) else ret (Some ip, name)
      | Some (path, name) =>
          ilock (Some ip) ;;
          t <- gets (λ s, i_type (get_inode s ip)) ;;
          if negb (t =? T_DIR) then iunlockput ip ;; ret (None, name) else
          if nameiparent && bool_decide (path = []) then
            iunlock (Some ip) ;; ret (Some ip, name)
          else
          next <- dirlookup ip name ;;
          match next with
          | None => iunlockput ip ;; ret (None, name)
          | Some (next, _) => iunlockput ip ;; namex_from fuel next path nameiparent name
          end
      end
  end.

Definition namex `{Driver} (path : list Z) (nameiparent : bool) : KM (option nat * list Z) :=
  ip <- (if bool_decide (head path = Some 47) then iget ROOTDEV ROOTINO
         else p <- curproc ;;
              cwd <- gets (λ s, p_cwd (get_proc s p)) ;;
              match cwd with Some i => idup i | None => panic "trap" end) ;;
  namex_from (S (length path)) ip path nameiparent [].

Definition namei `{Driver} (path : list Z) : KM (option nat) :=
  r <- namex path false ;; ret r.1.

Definition nameiparent `{Driver} (path : list Z) : KM (option nat * list Z) := namex path true.
End fs.
