(* ===== verification/Blocks.v ===== *)
(** * Disk block allocation

    What [balloc] and [bfree] of fs.c do to the free map: [balloc] takes the
    first free block of the map, marks it and zeroes it; [bfree] clears the
    mark and refuses to free a free block; no other block changes.  [nfree] is
    the number of free blocks. *)
From S2P Require Import Prelude State Sync Dll Bio Cache Log CString Fs.

(** ** Bits of a bitmap block *)
Lemma bit_get_testbit d bi :
  0 ≤ bi → bit_get d bi = Z.testbit (d !!! Z.to_nat (bi / 8)) (bi `mod` 8).
Proof.
  intros Hb. unfold bit_get. assert (0 ≤ bi `mod` 8 < 8) by (apply Z.mod_pos_bound; lia).
  rewrite Z.shiftl_mul_pow2, Z.mul_1_l, land_pow2 by lia.
  destruct (Z.testbit _ _); [|done].
  rewrite (proj2 (Z.eqb_neq _ _)); [done|]. pose proof (Z.pow_pos_nonneg 2 (bi `mod` 8)). lia.
Qed.

Lemma u8_testbit x k : 0 ≤ k < 8 → Z.testbit (u8 x) k = Z.testbit x k.
Proof. intros Hk. unfold u8. change 256 with (2 ^ 8). apply Z.mod_pow2_bits_low. lia. Qed.

Lemma testbit_1_shiftl k j : 0 ≤ k → 0 ≤ j → Z.testbit (Z.shiftl 1 k) j = bool_decide (j = k).
Proof.
  intros Hk Hj. rewrite Z.shiftl_mul_pow2, Z.mul_1_l by done.
  destruct (decide (j = k)) as [->|Hne].
  - rewrite Z.pow2_bits_true by done. by rewrite bool_decide_eq_true_2.
  - rewrite Z.pow2_bits_false by done. by rewrite bool_decide_eq_false_2.
Qed.

Section bits.
Context (d : block) (Hd : length d = 512%nat).

Lemma bit_index bi : 0 ≤ bi < BPB → (Z.to_nat (bi / 8) < length d)%nat.
Proof.
  intros Hb. rewrite Hd. change BPB with 4096 in Hb. assert (0 ≤ bi / 8 < 512); [|lia].
  split; [apply Z.div_pos; lia|apply Z.div_lt_upper_bound; lia].
Qed.

Lemma bit_eq bi bj : 0 ≤ bi → 0 ≤ bj →
  bi = bj ↔ Z.to_nat (bi / 8) = Z.to_nat (bj / 8) ∧ bi `mod` 8 = bj `mod` 8.
Proof.
  intros Hi Hj. split; [by intros ->|]. intros [E1 E2].
  assert (bi / 8 = bj / 8) as E by (apply Z2Nat.inj; try apply Z.div_pos; lia).
  rewrite (Z.div_mod bi 8), (Z.div_mod bj 8) by lia. congruence.
Qed.

Lemma bit_get_set bi bj : 0 ≤ bi < BPB → 0 ≤ bj < BPB →
  bit_get (bit_set bi d) bj = if decide (bj = bi) then true else bit_get d bj.
Proof.
  intros Hi Hj. rewrite !bit_get_testbit by lia. unfold bit_set.
  assert (Mi : 0 ≤ bi `mod` 8 < 8) by (apply Z.mod_pos_bound; lia).
  assert (Mj : 0 ≤ bj `mod` 8 < 8) by (apply Z.mod_pos_bound; lia).
  rewrite alter_total by (by apply bit_index). pose proof (bit_eq bi bj) as E.
  destruct (decide (Z.to_nat (bi / 8) = Z.to_nat (bj / 8))) as [E1|E1].
  - rewrite u8_testbit, Z.lor_spec, testbit_1_shiftl, E1 by lia.
    destruct (decide (bj = bi)) as [->|Hne]; [by rewrite bool_decide_eq_true_2, orb_true_r|].
    rewrite bool_decide_eq_false_2, orb_false_r; [done|]. intros E2. apply Hne.
    symmetry. apply E; [lia..|done].
  - rewrite decide_False; [done|]. by intros ->.
Qed.

Lemma bit_get_clear bi bj : 0 ≤ bi < BPB → 0 ≤ bj < BPB →
  bit_get (bit_clear bi d) bj = if decide (bj = bi) then false else bit_get d bj.
Proof.
  intros Hi Hj. rewrite !bit_get_testbit by lia. unfold bit_clear.
  assert (Mi : 0 ≤ bi `mod` 8 < 8) by (apply Z.mod_pos_bound; lia).
  assert (Mj : 0 ≤ bj `mod` 8 < 8) by (apply Z.mod_pos_bound; lia).
  rewrite alter_total by (by apply bit_index). pose proof (bit_eq bi bj) as E.
  destruct (decide (Z.to_nat (bi / 8) = Z.to_nat (bj / 8))) as [E1|E1].
  - rewrite u8_testbit, Z.land_spec, Z.lnot_spec, testbit_1_shiftl, E1 by lia.
    destruct (decide (bj = bi)) as [->|Hne]; [by rewrite bool_decide_eq_true_2, andb_false_r|].
    rewrite bool_decide_eq_false_2, andb_true_r; [done|]. intros E2. apply Hne.
    symmetry. apply E; [lia..|done].
  - rewrite decide_False; [done|]. by intros ->.
Qed.
End bits.

Lemma length_bit_set bi d : length (bit_set bi d) = length d.
Proof. apply length_alter. Qed.
Lemma length_bit_clear bi d : length (bit_clear bi d) = length d.
Proof. apply length_alter. Qed.

Lemma free_bit_Some d b size n bi r :
  free_bit d b size n bi = Some r →
  bi ≤ r < bi + Z.of_nat n ∧ b + r < size ∧ bit_get d r = false ∧
  ∀ j, bi ≤ j < r → bit_get d j = true.
Proof.
  revert bi. induction n as [|n IH]; intros bi; cbn [free_bit]; [done|].
  destruct (b + bi <? size) eqn:E; [|done]. apply Z.ltb_lt in E.
  destruct (bit_get d bi) eqn:G; simpl.
  - intros (I1 & I2 & I3 & I4)%IH. split; [lia|]. split; [done|]. split; [done|].
    intros j Hj. destruct (decide (j = bi)) as [->|]; [done|]. apply I4. lia.
  - intros [= <-]. split; [lia|]. split; [done|]. split; [done|]. lia.
Qed.

Lemma free_bit_None d b size n bi :
  free_bit d b size n bi = None →
  ∀ j, bi ≤ j < bi + Z.of_nat n → b + j < size → bit_get d j = true.
Proof.
  revert bi. induction n as [|n IH]; intros bi; cbn [free_bit]; [lia|].
  destruct (b + bi <? size) eqn:E; [apply Z.ltb_lt in E|apply Z.ltb_ge in E; lia].
  destruct (bit_get d bi) eqn:G; simpl; [|done]. intros I j Hj Hs.
  destruct (decide (j = bi)) as [->|]; [done|]. eapply IH; [done|lia|done].
Qed.

(** ** The free map *)
Definition used (V : Z → block) (sb : superblock) (b : Z) : bool :=
  bit_get (V (BBLOCK b sb)) (b `mod` BPB).

(** The map covers the disk, its blocks are neither in the log nor the
    superblock, and every block marked free is a data block. *)
Record bitmap_ok (s : kstate) (V : Z → block) : Prop := {
  bm_size : 0 ≤ sb_size (k_sb s) ≤ k_disksize s;
  bm_home b : 0 ≤ b < sb_size (k_sb s) → is_home s (BBLOCK b (k_sb s)) ∧ BBLOCK b (k_sb s) ≠ 1;
  bm_len b : 0 ≤ b < sb_size (k_sb s) → length (V (BBLOCK b (k_sb s))) = 512%nat;
  bm_free b : 0 ≤ b < sb_size (k_sb s) → used V (k_sb s) b = false →
    is_home s b ∧ 1 < b ∧ ∀ c, 0 ≤ c < sb_size (k_sb s) → b ≠ BBLOCK c (k_sb s) }.

(** None of the buffers held belongs to the map or to a free block. *)
Definition clear_of_map (s : kstate) (V : Z → block) (H : gmap Z nat) : Prop :=
  ∀ b, 0 ≤ b < sb_size (k_sb s) →
    H !! BBLOCK b (k_sb s) = None ∧ (used V (k_sb s) b = false → H !! b = None).

Lemma lframe_sb s s' : lframe s s' → k_sb s' = k_sb s.
Proof. by intros [-> _]. Qed.
Lemma lframe_icache s s' : lframe s s' → k_icache s' = k_icache s.
Proof. by intros [-> _]. Qed.
Lemma tframe_sb s s' : tframe s s' → k_sb s' = k_sb s.
Proof. intros F. by apply lframe_sb, tf_frame. Qed.
Lemma tframe_disksize s s' : tframe s s' → k_disksize s' = k_disksize s.
Proof. intros F. by apply lframe_size, tf_frame. Qed.

Lemma BBLOCK_block b k sb : 0 ≤ k < BPB → b `mod` BPB = 0 → BBLOCK (b + k) sb = BBLOCK b sb.
Proof.
  intros Hk Hb. unfold BBLOCK. f_equal. apply Z.mod_divide in Hb as [q ->]; [|done].
  rewrite (Z.add_comm (q * BPB)), Z.div_add, (Z.div_small k), Z.div_mul by done. lia.
Qed.
Lemma mod_block b k : 0 ≤ k < BPB → b `mod` BPB = 0 → (b + k) `mod` BPB = k.
Proof.
  intros Hk Hb. apply Z.mod_divide in Hb as [q ->]; [|done].
  by rewrite Z.add_comm, Z_mod_plus_full, Z.mod_small.
Qed.

Definition zero_block : block := replicate (Z.to_nat BSIZE) 0.

Lemma bzero_spec {p s V bl H} (I : log_inv p s V bl H) b env k :
  is_home s b → b ≠ 1 → H !! b = None → room s bl H (S k) →
  ∃ s', bzero ROOTDEV b env s = Done tt s' env ∧
    log_inv p s' (<[b := zero_block]> V) (add_block b bl) H ∧ tframe s s' ∧
    room s' (add_block b bl) H k.
Proof.
  intros Hh H1 Hn R. unfold bzero.
  destruct (log_bread_spec I b env) as (i & s1 & E1 & I1 & F1);
    [destruct Hh; lia|done|right; destruct R; lia|].
  rewrite (bind_done _ _ _ _ _ _ _ E1).
  destruct (log_modify_spec b i I1 (λ _, zero_block) env k) as (s2 & E2 & I2 & F2 & R2);
    [done|by apply (tframe_home _ _ _ F1)|done|by eapply room_frame|].
  exists s2. rewrite bind_assoc in E2 |- *. split_and!; [exact E2|exact I2|by etransitivity|exact R2].
Qed.

(** The effect of allocating block [r]. *)
Definition take_block (sb : superblock) (r : Z) (V : Z → block) : Z → block :=
  <[r := zero_block]> (<[BBLOCK r sb := bit_set (r `mod` BPB) (V (BBLOCK r sb))]> V).

Section balloc.
Context {p : nat} {V : Z → block} {bl : list Z} {H : gmap Z nat} (env : list (kstate → kstate)) (k : nat).

(** Marking and zeroing the free block [b + bi] of the map block being read. *)
Lemma balloc_take s s1 i b bi :
  log_inv p s1 V bl (<[BBLOCK b (k_sb s) := i]> H) → tframe s s1 →
  bitmap_ok s V → clear_of_map s V H → room s bl H (S (S k)) →
  0 ≤ b → b `mod` BPB = 0 → 0 ≤ bi < BPB → b + bi < sb_size (k_sb s) →
  used V (k_sb s) (b + bi) = false →
  ∃ s', ((upd_buf i (λ q, q <| b_data ::= bit_set bi |>) ;; log_write i) ;;
         brelse i ;; bzero ROOTDEV (b + bi) ;; ret (b + bi)) env s1 = Done (b + bi) s' env ∧
    let bl' := add_block (b + bi) (add_block (BBLOCK b (k_sb s)) bl) in
    log_inv p s' (take_block (k_sb s) (b + bi) V) bl' H ∧ tframe s s' ∧ room s' bl' H k.
Proof.
  intros I F G C R Hb0 Hb Hbi Hs Hu.
  destruct (bm_home _ _ G b ltac:(lia)) as [Hh H1].
  destruct (bm_free _ _ G (b + bi) ltac:(lia) Hu) as (Hfh & Hf1 & Hfb).
  destruct (C b ltac:(lia)) as [Cb _]. destruct (C (b + bi) ltac:(lia)) as [_ Cf].
  destruct (log_modify_spec _ i I (bit_set bi) env (S k)) as (s2 & E2 & I2 & F2 & R2);
    [done|by apply (tframe_home _ _ _ F)|done|by eapply room_frame|].
  assert (F02 : tframe s s2) by (by etransitivity).
  destruct (bzero_spec I2 (b + bi) env k) as (s3 & E3 & I3 & F3 & R3);
    [by apply (tframe_home _ _ _ F02)|lia|by apply Cf|done|].
  exists s3. split.
  - rewrite (bind_done2 _ _ _ _ _ _ _ _ E2). by rewrite (bind_done _ _ _ _ _ _ _ E3).
  - split_and!; [|by etransitivity|done].
    unfold take_block. by rewrite BBLOCK_block, mod_block.
Qed.

(** What a search of the map yields: the first free block, or none. *)
Definition alloc_outcome (s : kstate) (r : outcome kstate Z) : Prop :=
  (∃ b s', 0 ≤ b < sb_size (k_sb s) ∧ used V (k_sb s) b = false ∧
     (∀ c, 0 ≤ c < b → used V (k_sb s) c = true) ∧ r = Done b s' env ∧
     let bl' := add_block b (add_block (BBLOCK b (k_sb s)) bl) in
     log_inv p s' (take_block (k_sb s) b V) bl' H ∧ tframe s s' ∧ room s' bl' H k) ∨
  ((∀ c, 0 ≤ c < sb_size (k_sb s) → used V (k_sb s) c = true) ∧ r = Panic "balloc: out of blocks").

Lemma alloc_outcome_frame s s1 r : tframe s s1 → alloc_outcome s1 r → alloc_outcome s r.
Proof.
  intros F. unfold alloc_outcome. rewrite (tframe_sb _ _ F).
  intros [(b & s' & O1 & O2 & O3 & O4 & O5 & O6 & O7)|O]; [left|by right].
  exists b, s'. split_and!; try done; [lia..|]. by etransitivity.
Qed.

Lemma bitmap_ok_frame s s1 W : tframe s s1 → bitmap_ok s W → bitmap_ok s1 W.
Proof.
  intros F []. pose proof (tframe_sb _ _ F) as Esb. pose proof (tframe_disksize _ _ F) as Ed.
  split; rewrite ?Esb, ?Ed; try done; setoid_rewrite (tframe_home _ _ _ F); done.
Qed.

Lemma balloc_from_spec n b s :
  log_inv p s V bl H → bitmap_ok s V → clear_of_map s V H → room s bl H (S (S k)) →
  0 ≤ b → b `mod` BPB = 0 → sb_size (k_sb s) < b + Z.of_nat n * BPB →
  (∀ c, 0 ≤ c < b → c < sb_size (k_sb s) → used V (k_sb s) c = true) →
  alloc_outcome s (balloc_from ROOTDEV n b env s).
Proof.
  revert b s. induction n as [|n IH]; intros b s I G C R Hb0 Hb Hn Hall; cbn [balloc_from]; rewrite bind_gets.
  { right. split; [|done]. intros c Hc. apply Hall; lia. }
  destruct (b <? sb_size (k_sb s)) eqn:Es.
  2:{ apply Z.ltb_ge in Es. right. split; [|done]. intros c Hc. apply Hall; lia. }
  apply Z.ltb_lt in Es. destruct (bm_home _ _ G b ltac:(lia)) as [Hh H1]. destruct (C b ltac:(lia)) as [Cb _].
  destruct (log_peek_spec I (BBLOCK b (k_sb s)) env) as (i & s1 & s2 & E1 & D1 & I1 & F1 & E2 & I2 & F2);
    [destruct Hh; lia|done|eapply room_le; [|done]; lia|].
  rewrite (bind_done _ _ _ _ _ _ _ E1), bind_gets, D1.
  destruct (free_bit _ _ _ _ _) as [bi|] eqn:Ef.
  - apply free_bit_Some in Ef as (Hbi & Hs & Hg & Hlt). simpl in Hbi.
    assert (Hu : used V (k_sb s) (b + bi) = false) by (unfold used; by rewrite BBLOCK_block, mod_block).
    destruct (balloc_take s s1 i b bi) as (s3 & E3 & I3 & F3 & R3); [done..|lia|done|done|done|].
    left. exists (b + bi), s3. rewrite BBLOCK_block by done.
    split; [lia|]. split; [done|]. split; [|by split_and!].
    intros c Hc. destruct (decide (c < b)); [apply Hall; lia|].
    replace c with (b + (c - b)) by lia. unfold used. rewrite BBLOCK_block, mod_block by lia.
    apply Hlt. lia.
  - rewrite (bind_done _ _ _ _ _ _ _ E2). assert (F02 : tframe s s2) by (by etransitivity).
    apply (alloc_outcome_frame _ _ _ F02). pose proof (tframe_sb _ _ F02) as Esb.
    apply IH; rewrite ?Esb.
    + done.
    + by eapply bitmap_ok_frame.
    + unfold clear_of_map. by rewrite Esb.
    + by eapply room_frame.
    + change BPB with 4096. lia.
    + rewrite Z.add_mod, Hb, Z.mod_same by done. done.
    + lia.
    + intros c Hc Hs. destruct (decide (c < b)); [apply Hall; lia|].
      replace c with (b + (c - b)) by lia. unfold used. rewrite BBLOCK_block, mod_block by lia.
      eapply free_bit_None; [exact Ef| |lia]. simpl. lia.
Qed.

Lemma balloc_spec s :
  log_inv p s V bl H → bitmap_ok s V → clear_of_map s V H → room s bl H (S (S k)) →
  alloc_outcome s (balloc ROOTDEV env s).
Proof.
  intros I G C R. unfold balloc. rewrite bind_gets. apply balloc_from_spec; try done; [|lia].
  pose proof (bm_size _ _ G). rewrite Nat2Z.inj_succ, Z2Nat.id by (apply Z.div_pos; [lia|done]).
  pose proof (Z.mul_succ_div_gt (sb_size (k_sb s)) BPB ltac:(done)). lia.
Qed.
End balloc.

(** ** The map after an allocation and after a free *)
Definition drop_block (sb : superblock) (r : Z) (V : Z → block) : Z → block :=
  <[BBLOCK r sb := bit_clear (r `mod` BPB) (V (BBLOCK r sb))]> V.

Lemma mod_BPB b : 0 ≤ b `mod` BPB < BPB.
Proof. by apply Z.mod_pos_bound. Qed.

Lemma same_bit b c sb : BBLOCK b sb = BBLOCK c sb → b `mod` BPB = c `mod` BPB → b = c.
Proof.
  unfold BBLOCK. intros E1 E2. rewrite (Z.div_mod b BPB), (Z.div_mod c BPB) by done.
  rewrite E2. f_equal. f_equal. lia.
Qed.

Section map.
Context (s : kstate) (V : Z → block) (G : bitmap_ok s V) (r : Z) (Hr : 0 ≤ r < sb_size (k_sb s)).

Lemma used_drop c : 0 ≤ c < sb_size (k_sb s) →
  used (drop_block (k_sb s) r V) (k_sb s) c = if decide (c = r) then false else used V (k_sb s) c.
Proof.
  intros Hc. unfold used, drop_block. destruct (decide (BBLOCK c (k_sb s) = BBLOCK r (k_sb s))) as [E|E].
  - rewrite E, fn_lookup_insert, bit_get_clear by (apply mod_BPB || by apply G).
    repeat case_decide; try congruence. exfalso. eauto using same_bit.
  - rewrite fn_lookup_insert_ne by done. case_decide; [congruence|done].
Qed.

Lemma drop_len c : 0 ≤ c < sb_size (k_sb s) → length (drop_block (k_sb s) r V (BBLOCK c (k_sb s))) = 512%nat.
Proof.
  intros Hc. unfold drop_block. rewrite fn_insert_dec. case_decide; [|by apply G].
  rewrite length_bit_clear. by apply G.
Qed.

(** Freeing a data block keeps the map well formed. *)
Lemma bitmap_ok_drop :
  is_home s r → 1 < r → (∀ c, 0 ≤ c < sb_size (k_sb s) → r ≠ BBLOCK c (k_sb s)) →
  bitmap_ok s (drop_block (k_sb s) r V).
Proof.
  intros Hh H1 Hm. split; [apply G|apply G|apply drop_len|].
  intros c Hc. rewrite used_drop by done. case_decide; [by subst|]. by apply G.
Qed.

Context (Hf : used V (k_sb s) r = false).

Lemma used_take c : 0 ≤ c < sb_size (k_sb s) →
  used (take_block (k_sb s) r V) (k_sb s) c = if decide (c = r) then true else used V (k_sb s) c.
Proof.
  intros Hc. destruct (bm_free _ _ G r Hr Hf) as (_ & _ & Hm). unfold used, take_block.
  rewrite fn_lookup_insert_ne by (by apply Hm).
  destruct (decide (BBLOCK c (k_sb s) = BBLOCK r (k_sb s))) as [E|E].
  - rewrite E, fn_lookup_insert, bit_get_set by (apply mod_BPB || by apply G).
    repeat case_decide; try congruence. exfalso. eauto using same_bit.
  - rewrite fn_lookup_insert_ne by done. case_decide; [congruence|done].
Qed.

Lemma take_len c : 0 ≤ c < sb_size (k_sb s) → length (take_block (k_sb s) r V (BBLOCK c (k_sb s))) = 512%nat.
Proof.
  intros Hc. destruct (bm_free _ _ G r Hr Hf) as (_ & _ & Hm). unfold take_block.
  rewrite fn_lookup_insert_ne, fn_insert_dec by (by apply Hm). case_decide; [|by apply G].
  rewrite length_bit_set. by apply G.
Qed.

Lemma bitmap_ok_take : bitmap_ok s (take_block (k_sb s) r V).
Proof.
  split; [apply G|apply G|apply take_len|].
  intros c Hc. rewrite used_take by done. case_decide; [done|]. by apply G.
Qed.
End map.

(** ** The number of free blocks *)
Definition nfree (V : Z → block) (sb : superblock) : nat :=
  length (filter (λ c, used V sb c = false) (seqZ 0 (sb_size sb))).

Lemma filter_length_ext {A} (P Q : A → Prop) `{!∀ x, Decision (P x), !∀ x, Decision (Q x)} l :
  (∀ x, x ∈ l → P x ↔ Q x) → length (filter P l) = length (filter Q l).
Proof.
  induction l as [|x l IH]; intros E; [done|]. rewrite !filter_cons. specialize (E x (list_elem_of_here _ _)) as Ex.
  assert (IH' : length (filter P l) = length (filter Q l)) by (apply IH; intros y Hy; apply E; by constructor).
  repeat case_decide; simpl; tauto || lia.
Qed.

Lemma nfree_ext V V' sb : (∀ c, 0 ≤ c < sb_size sb → used V' sb c = used V sb c) → nfree V' sb = nfree V sb.
Proof. intros E. apply filter_length_ext. intros c Hc%elem_of_seqZ. by rewrite E by lia. Qed.

Lemma nfree_full V sb : (∀ c, 0 ≤ c < sb_size sb → used V sb c = true) → nfree V sb = 0%nat.
Proof.
  intros E. unfold nfree. rewrite (filter_length_ext _ (λ _, False)).
  - by induction (seqZ 0 (sb_size sb)).
  - intros c Hc%elem_of_seqZ. rewrite E by lia. done.
Qed.

Lemma nfree_take s V r : bitmap_ok s V → 0 ≤ r < sb_size (k_sb s) → used V (k_sb s) r = false →
  nfree V (k_sb s) = S (nfree (take_block (k_sb s) r V) (k_sb s)).
Proof.
  intros G Hr Hf. unfold nfree. destruct (proj1 (elem_of_Permutation (seqZ 0 (sb_size (k_sb s))) r)) as [l Hl]; [apply elem_of_seqZ; lia|].
  assert (Hn : r ∉ l) by (pose proof (NoDup_seqZ 0 (sb_size (k_sb s))) as N; rewrite Hl in N; by apply NoDup_cons in N as [? _]).
  assert (Hin : ∀ c, c ∈ l → 0 ≤ c < sb_size (k_sb s)).
  { intros c Hc. assert (c ∈ seqZ 0 (sb_size (k_sb s))) as ?%elem_of_seqZ by (rewrite Hl; by constructor). lia. }
  rewrite Hl, filter_cons_True by done. rewrite filter_cons_False by (rewrite used_take, decide_True by done; done).
  simpl. f_equal. apply filter_length_ext. intros c Hc. rewrite used_take by auto. rewrite decide_False; [done|]. by intros ->.
Qed.

(** ** bfree *)
Lemma bfree_spec {p s V bl H} (I : log_inv p s V bl H) b env k :
  bitmap_ok s V → H !! BBLOCK b (k_sb s) = None → room s bl H (S k) → 0 ≤ b < sb_size (k_sb s) →
  if used V (k_sb s) b then
    ∃ s', bfree ROOTDEV b env s = Done tt s' env ∧
      log_inv p s' (drop_block (k_sb s) b V) (add_block (BBLOCK b (k_sb s)) bl) H ∧ tframe s s' ∧
      room s' (add_block (BBLOCK b (k_sb s)) bl) H k
  else bfree ROOTDEV b env s = Panic "freeing free block".
Proof.
  intros G Hn R Hb. destruct (bm_home _ _ G b Hb) as [Hh H1]. unfold bfree. rewrite bind_gets.
  destruct (log_bread_spec I (BBLOCK b (k_sb s)) env) as (i & s1 & E1 & I1 & F1);
    [destruct Hh; lia|done|right; destruct R; lia|].
  assert (E2 : (d <- gets (λ s, b_data (get_buf s i)) ;;
      if negb (bit_get d (b `mod` BPB)) then panic "freeing free block" else
      (upd_buf i (λ q, q <| b_data ::= bit_clear (b `mod` BPB) |>) ;; log_write i) ;; brelse i) env s1 =
    if used V (k_sb s) b then
      ((upd_buf i (λ q, q <| b_data ::= bit_clear (b `mod` BPB) |>) ;; log_write i) ;; brelse i) env s1
    else Panic "freeing free block").
  { rewrite bind_gets, (log_data I1 _ _ (lookup_insert_eq _ _ _)).
    fold (used V (k_sb s) b). by destruct (used V (k_sb s) b). }
  rewrite (bind_done _ _ _ _ _ _ _ E1), E2. destruct (used V (k_sb s) b); [|done].
  destruct (log_modify_spec _ i I1 (bit_clear (b `mod` BPB)) env k) as (s2 & E3 & I3 & F3 & R3);
    [done|by apply (tframe_home _ _ _ F1)|done|by eapply room_frame|].
  exists s2. split_and!; [exact E3|exact I3|by etransitivity|exact R3].
Qed.
