(* ===== verification/Inodes.v ===== *)
(** * Inodes

    The on-disk inode is read back as it was written and its neighbours in
    the block are not touched; the inode cache holds at most one entry per
    inode and counts its references; [ilock] loads the inode from disk
    exactly when the entry is not valid. *)
From S2P Require Import Prelude State Sync Dll Bio Cache Log CString Fs Blocks.

(** ** The on-disk inode *)
Record dinode_ok (di : dinode) : Prop := {
  do_type : -32768 ≤ d_type di < 32768;
  do_major : -32768 ≤ d_major di < 32768;
  do_minor : -32768 ≤ d_minor di < 32768;
  do_nlink : -32768 ≤ d_nlink di < 32768;
  do_size : is_u32 (d_size di);
  do_len : length (d_addrs di) = 13%nat;
  do_addrs : Forall is_u32 (d_addrs di) }.

Lemma s16_mod v : -32768 ≤ v < 32768 → s16 (v `mod` 256 ^ Z.of_nat 2) = v.
Proof.
  intros Hv. change (256 ^ Z.of_nat 2) with 65536. unfold s16.
  rewrite Zplus_mod_idemp_l, Z.mod_small by lia. lia.
Qed.

Lemma u32_mod v : is_u32 v → v `mod` 256 ^ Z.of_nat 4 = v.
Proof. intros Hv. change (256 ^ Z.of_nat 4) with 4294967296. by apply Z.mod_small. Qed.

(** Reading one of the fields of a freshly stored inode. *)
Ltac field := unfold put_dinode;
  repeat first
    [ rewrite ldn_st_words_ne by (intros ? ?%elem_of_seq; lia)
    | rewrite ldn_stn by (rewrite ?length_stn; lia)
    | rewrite ldn_stn_ne by lia ].

Lemma get_put_dinode di o d :
  dinode_ok di → (o + 64 ≤ length d)%nat → get_dinode (put_dinode di o d) o = di.
Proof.
  intros [] Ho. unfold get_dinode. destruct di as [ty ma mi nl sz ad].
  cbn [d_type d_major d_minor d_nlink d_size d_addrs] in *. f_equal.
  1-4: field; by apply s16_mod.
  - field. by apply u32_mod.
  - apply list_eq_same_length with 13%nat; [done|by rewrite length_fmap, length_seq|].
    intros i x y Hi. rewrite list_lookup_fmap, lookup_seq_lt by done. intros [= <-] Hy.
    replace (o + 12 + (i + (i + (i + (i + 0)))))%nat with (o + 12 + 4 * i)%nat by lia.
    unfold put_dinode. cbn [d_addrs].
    rewrite ldn_st_words by (rewrite ?length_stn; lia).
    rewrite (list_lookup_total_correct _ _ _ Hy). apply u32_mod.
    rewrite Forall_lookup in do_addrs0. eauto.
Qed.

Lemma ldn_put_dinode_ne di o d n off :
  (off + n ≤ o ∨ o + 64 ≤ off)%nat → ldn n (put_dinode di o d) off = ldn n d off.
Proof. intros H. field. done. Qed.

Lemma get_put_dinode_ne di o d o' :
  (o' + 64 ≤ o ∨ o + 64 ≤ o')%nat → get_dinode (put_dinode di o d) o' = get_dinode d o'.
Proof.
  intros H. unfold get_dinode. f_equal; [by rewrite ldn_put_dinode_ne by lia..|].
  apply list_fmap_ext. intros i j Hj%lookup_seq. destruct Hj as [-> Hj].
  by rewrite ldn_put_dinode_ne by lia.
Qed.

Lemma length_put_dinode di o d : length (put_dinode di o d) = length d.
Proof. unfold put_dinode. by rewrite length_st_words, !length_stn. Qed.

Lemma dioff_bound n : (dioff n + 64 ≤ 512)%nat.
Proof.
  unfold dioff. change IPB with 8. pose proof (Z.mod_pos_bound n 8 ltac:(lia)). lia.
Qed.

(** Two inodes of the same block occupy different bytes. *)
Lemma dioff_disjoint m n sb :
  0 ≤ m → 0 ≤ n → m ≠ n → IBLOCK m sb = IBLOCK n sb →
  (dioff m + 64 ≤ dioff n ∨ dioff n + 64 ≤ dioff m)%nat.
Proof.
  unfold IBLOCK, dioff. change IPB with 8. intros Hm Hn Hne E.
  pose proof (Z.div_mod m 8 ltac:(lia)). pose proof (Z.div_mod n 8 ltac:(lia)).
  pose proof (Z.mod_pos_bound m 8 ltac:(lia)). pose proof (Z.mod_pos_bound n 8 ltac:(lia)).
  assert (m `mod` 8 ≠ n `mod` 8) by lia. lia.
Qed.

(** Inode number [n] as the blocks [V] have it. *)
Definition disk_inode (V : Z → block) (sb : superblock) (n : Z) : dinode :=
  get_dinode (V (IBLOCK n sb)) (dioff n).

(** ** What an inode operation may change: also the inode cache *)
Definition iframe (s s' : kstate) : Prop := tframe (s <| k_icache := k_icache s' |>) s'.

#[global] Instance iframe_preorder : PreOrder iframe.
Proof.
  split.
  - intros s. unfold iframe. replace (s <| k_icache := k_icache s |>) with s by (by destruct s). done.
  - intros s1 s2 s3 F1 [[E W] ? ? ? ? ?]. unfold iframe in *. etransitivity.
    + instantiate (1 := s2 <| k_icache := k_icache s3 |>).
      destruct F1 as [[E1 W1] ? ? ? ? ?]. split; try done. split; [|done].
      rewrite E1 at 1. done.
    + by split.
Qed.

Lemma tframe_iframe s s' : tframe s s' → iframe s s'.
Proof.
  intros F. unfold iframe. rewrite (lframe_icache _ _ (tf_frame _ _ F)).
  by replace (s <| k_icache := k_icache s |>) with s by (by destruct s).
Qed.
Lemma iframe_icache s f : iframe s (s <| k_icache ::= f |>).
Proof. unfold iframe. simpl. by replace (s <| k_icache ::= f |>) with (s <| k_icache := f (k_icache s) |>). Qed.
Lemma iframe_sb s s' : iframe s s' → k_sb s' = k_sb s.
Proof. intros F. by apply tframe_sb in F. Qed.
Lemma iframe_disksize s s' : iframe s s' → k_disksize s' = k_disksize s.
Proof. intros F. by apply tframe_disksize in F. Qed.

Lemma log_inv_icache f p s V bl H :
  log_inv p s V bl H → log_inv p (s <| k_icache ::= f |>) V bl H.
Proof.
  intros [A [B1 B2 B3 B4 B5 B6 B7 B8 B9] [L1 L2 L3 L4 L5 L6] ND Hh Hf Hd Hs].
  split; try done; by split.
Qed.

(** ** Reading and writing the on-disk copy *)

(** Inode [n] lives in a block of the inode area of the disk. *)
Record inode_block (s : kstate) (V : Z → block) (n : Z) : Prop := {
  ib_pos : 0 ≤ n;
  ib_home : is_home s (IBLOCK n (k_sb s));
  ib_one : IBLOCK n (k_sb s) ≠ 1;
  ib_len : length (V (IBLOCK n (k_sb s))) = 512%nat }.

(** The blocks after [iupdate] of inode [n]. *)
Definition store_inode (sb : superblock) (n : Z) (di : dinode) (V : Z → block) : Z → block :=
  <[IBLOCK n sb := put_dinode di (dioff n) (V (IBLOCK n sb))]> V.

Lemma disk_inode_store sb n di V m :
  0 ≤ n → 0 ≤ m → length (V (IBLOCK n sb)) = 512%nat → dinode_ok di →
  disk_inode (store_inode sb n di V) sb m = if decide (m = n) then di else disk_inode V sb m.
Proof.
  intros Hn Hm HL Hd. unfold disk_inode, store_inode. rewrite fn_insert_dec.
  destruct (decide (m = n)) as [->|Hne].
  - rewrite decide_True by done. apply get_put_dinode; [done|]. rewrite HL. apply dioff_bound.
  - case_decide as E; [|done]. rewrite get_put_dinode_ne, E; [done|]. by eapply dioff_disjoint.
Qed.

Lemma iupdate_spec {p s V bl H} (I : log_inv p s V bl H) i env k (ip := get_inode s i) :
  i_dev ip = ROOTDEV → inode_block s V (i_inum ip) → H !! IBLOCK (i_inum ip) (k_sb s) = None →
  room s bl H (S k) →
  ∃ s', iupdate i env s = Done tt s' env ∧
    log_inv p s' (store_inode (k_sb s) (i_inum ip) (dinode_of ip) V)
      (add_block (IBLOCK (i_inum ip) (k_sb s)) bl) H ∧
    tframe s s' ∧ room s' (add_block (IBLOCK (i_inum ip) (k_sb s)) bl) H k.
Proof.
  intros Hd [B0 B1 B2 B3] Hn R. unfold iupdate. rewrite !bind_gets. fold ip. rewrite Hd.
  destruct (log_bread_spec I (IBLOCK (i_inum ip) (k_sb s)) env) as (j & s1 & E1 & I1 & F1);
    [destruct B1; lia|done|right; destruct R; lia|].
  rewrite (bind_done _ _ _ _ _ _ _ E1).
  destruct (log_modify_spec _ j I1 (put_dinode (dinode_of ip) (dioff (i_inum ip))) env k)
    as (s2 & E2 & I2 & F2 & R2); [done|by apply (tframe_home _ _ _ F1)|done|by eapply room_frame|].
  exists s2. split_and!; [exact E2|exact I2|by etransitivity|exact R2].
Qed.

(** ** Locking *)
Lemma lock_inode_run p r env s :
  runs p s → i_lock (get_inode s r) = sl_init →
  acquiresleep (SlInode r) env s =
    Done tt (s <| k_icache ::= alter (λ ip, ip <| i_lock := SleepLock true (pid_of s p) |>) r |>) env.
Proof.
  intros [Hl Hp] Hf. rewrite (acquiresleep_free _ p) by (try done; simpl; by rewrite Hf). done.
Qed.

Lemma iframe_home s s' c : iframe s s' → is_home s' c ↔ is_home s c.
Proof. intros F. by apply (tframe_home _ _ c F). Qed.

(** [ilock] of a valid entry only takes the lock. *)
Lemma ilock_valid {p s V bl H} (I : log_inv p s V bl H) i env (ip := get_inode s i) :
  (i < length (k_icache s))%nat → i_lock ip = sl_init → 1 ≤ i_ref ip → i_valid ip = true →
  ilock (Some i) env s =
    Done tt (s <| k_icache ::= alter (λ ip, ip <| i_lock := SleepLock true (pid_of s p) |>) i |>) env.
Proof.
  intros Hi Hl Hr Hv. unfold ilock. rewrite bind_gets. fold ip.
  rewrite (proj2 (Z.ltb_ge _ _)) by done.
  rewrite (bind_done _ _ _ _ _ _ _ (lock_inode_run p i env s (bs_runs (li_bufs I)) Hl)), bind_gets.
  assert (E : i_valid (get_inode (s <| k_icache ::=
      alter (λ ip, ip <| i_lock := SleepLock true (pid_of s p) |>) i |>) i) = true).
  { unfold get_inode. simpl. by rewrite alter_total, decide_True. }
  by rewrite E.
Qed.

(** What [ilock] makes of an entry that is not valid. *)
Definition loaded (pid : Z) (di : dinode) (ip : inode) : inode :=
  (load_dinode di (ip <| i_lock := SleepLock true pid |>)) <| i_valid := true |>.

Lemma ilock_load {p s V bl H} (I : log_inv p s V bl H) i env (ip := get_inode s i)
    (di := disk_inode V (k_sb s) (i_inum ip)) :
  (i < length (k_icache s))%nat → i_lock ip = sl_init → 1 ≤ i_ref ip → i_valid ip = false →
  i_dev ip = ROOTDEV → IBLOCK (i_inum ip) (k_sb s) < k_disksize s →
  H !! IBLOCK (i_inum ip) (k_sb s) = None → room s bl H 1 →
  if d_type di =? 0 then ilock (Some i) env s = Panic "ilock: no type"
  else ∃ s', ilock (Some i) env s = Done tt s' env ∧ log_inv p s' V bl H ∧ iframe s s' ∧
    k_icache s' = alter (loaded (pid_of s p) di) i (k_icache s).
Proof.
  intros Hi Hl Hr Hv Hdev Hsz Hn R. unfold ilock. rewrite bind_gets. fold ip.
  rewrite (proj2 (Z.ltb_ge _ _)) by done.
  rewrite (bind_done _ _ _ _ _ _ _ (lock_inode_run p i env s (bs_runs (li_bufs I)) Hl)).
  set (f := λ ip : inode, ip <| i_lock := SleepLock true (pid_of s p) |>).
  pose proof (log_inv_icache (alter f i) _ _ _ _ _ I) as I1.
  pose proof (iframe_icache s (alter f i)) as F1.
  assert (G1 : get_inode (s <| k_icache ::= alter f i |>) i = f ip).
  { unfold get_inode. simpl. by rewrite alter_total, decide_True. }
  assert (K1 : k_icache (s <| k_icache ::= alter f i |>) = alter f i (k_icache s)) by done.
  assert (R1 : room (s <| k_icache ::= alter f i |>) bl H 1) by (destruct R; by split).
  assert (S1 : k_sb (s <| k_icache ::= alter f i |>) = k_sb s) by done.
  assert (Z1 : k_disksize (s <| k_icache ::= alter f i |>) = k_disksize s) by done.
  revert I1 F1 G1 K1 R1 S1 Z1. generalize (s <| k_icache ::= alter f i |>). intros s1 I1 F1 G1 K1 R1 S1 Z1.
  rewrite bind_gets, G1. change (i_valid (f ip)) with (i_valid ip). rewrite Hv, bind_gets, S1.
  change (i_dev (f ip)) with (i_dev ip). change (i_inum (f ip)) with (i_inum ip). rewrite Hdev.
  destruct (log_bread_spec I1 (IBLOCK (i_inum ip) (k_sb s)) env) as (j & s2 & E2 & I2 & F2);
    [by rewrite Z1|done|right; destruct R1; lia|].
  rewrite (bind_done _ _ _ _ _ _ _ E2), bind_gets, (log_data I2 _ _ (lookup_insert_eq _ _ _)).
  fold (disk_inode V (k_sb s) (i_inum ip)). fold di. unfold upd_inode. rewrite bind_modify.
  pose proof (log_inv_icache (alter (load_dinode di) i) _ _ _ _ _ I2) as I3.
  pose proof (iframe_icache s2 (alter (load_dinode di) i)) as F3.
  destruct (log_brelse_spec I3 (IBLOCK (i_inum ip) (k_sb s)) j env) as (s4 & E4 & I4 & F4);
    [apply lookup_insert_eq|]. rewrite delete_insert_id in I4 by done.
  rewrite (bind_done _ _ _ _ _ _ _ E4), bind_modify, bind_gets.
  assert (K4 : k_icache (s4 <| k_icache ::= alter (λ ip, ip <| i_valid := true |>) i |>) =
    alter (loaded (pid_of s p) di) i (k_icache s)).
  { simpl. rewrite (lframe_icache _ _ (tf_frame _ _ F4)). simpl.
    rewrite (lframe_icache _ _ (tf_frame _ _ F2)), K1, !list_alter_alter_eq. done. }
  assert (T : i_type (get_inode (s4 <| k_icache ::= alter (λ ip, ip <| i_valid := true |>) i |>) i) = d_type di).
  { unfold get_inode. rewrite K4, alter_total, decide_True by done. done. }
  rewrite T. destruct (d_type di =? 0); [done|].
  eexists. split; [reflexivity|]. split; [by apply log_inv_icache|]. split; [|exact K4].
  etransitivity; [exact F1|]. etransitivity; [by apply tframe_iframe|].
  etransitivity; [exact F3|]. etransitivity; [by apply tframe_iframe|]. apply iframe_icache.
Qed.

Lemma iunlock_run p i env s (ip := get_inode s i) :
  runs p s → i_lock ip = SleepLock true (pid_of s p) → 1 ≤ i_ref ip →
  iunlock (Some i) env s =
    Done tt (s <| k_icache ::= alter (λ ip, ip <| i_lock := sl_init |>) i |>
               <| k_procs ::= fmap (wake1 (ChSleep (SlInode i))) |>) env.
Proof.
  intros [Hl Hp] Hm Hr. unfold iunlock. step (holdingsleep_ok _ p). rewrite bind_gets. fold ip.
  rewrite (proj2 (Z.ltb_ge _ _)) by done. simpl. by rewrite releasesleep_ok.
Qed.

(** ** The inode cache *)
Definition caches_inode (dev inum : Z) (ip : inode) : bool :=
  (0 <? i_ref ip) && (i_dev ip =? dev) && (i_inum ip =? inum).

Lemma caches_inode_true dev inum ip :
  caches_inode dev inum ip = true ↔ 0 < i_ref ip ∧ i_dev ip = dev ∧ i_inum ip = inum.
Proof. unfold caches_inode. rewrite !andb_true_iff, Z.ltb_lt, !Z.eqb_eq. tauto. Qed.

(** No inode is cached twice, and counts are never negative. *)
Record icache_ok (tab : list inode) : Prop := {
  ic_ref i : (i < length tab)%nat → 0 ≤ i_ref (tab !!! i);
  ic_uniq i j : (i < length tab)%nat → (j < length tab)%nat →
    0 < i_ref (tab !!! i) → 0 < i_ref (tab !!! j) →
    i_dev (tab !!! i) = i_dev (tab !!! j) → i_inum (tab !!! i) = i_inum (tab !!! j) → i = j }.

Lemma iget_scan_spec dev inum tab k e :
  match iget_scan dev inum tab k e with
  | (Some i, _) => ∃ j, i = (k + j)%nat ∧ (j < length tab)%nat ∧ caches_inode dev inum (tab !!! j) = true
  | (None, e') => (∀ j, (j < length tab)%nat → caches_inode dev inum (tab !!! j) = false) ∧
      match e with
      | Some _ => e' = e
      | None => match e' with
                | Some i => ∃ j, i = (k + j)%nat ∧ (j < length tab)%nat ∧ i_ref (tab !!! j) = 0 ∧
                                 ∀ l, (l < j)%nat → i_ref (tab !!! l) ≠ 0
                | None => ∀ j, (j < length tab)%nat → i_ref (tab !!! j) ≠ 0
                end
      end
  end.
Proof.
  revert k e. induction tab as [|ip tab IH]; intros k e; cbn [iget_scan].
  { split; [simpl; lia|]. destruct e; [done|]. simpl; lia. }
  fold (caches_inode dev inum ip). destruct (caches_inode dev inum ip) eqn:Ec.
  { exists 0%nat. simpl. split_and!; [lia|lia|done]. }
  set (e1 := match e with None => _ | _ => _ end). specialize (IH (S k) e1).
  destruct (iget_scan dev inum tab (S k) e1) as [[i|] e'].
  - destruct IH as (j & -> & Hj & Hc). exists (S j). simpl. split_and!; [lia|lia|done].
  - destruct IH as [Hn He]. split.
    { intros [|j] Hj; [done|]. apply Hn. simpl in Hj. lia. }
    unfold e1 in He. destruct e as [e|]; [done|].
    destruct (i_ref ip =? 0) eqn:E0; [apply Z.eqb_eq in E0|apply Z.eqb_neq in E0].
    + subst e'. exists 0%nat. simpl. split_and!; [lia|lia|done|lia].
    + destruct e' as [i|].
      * destruct He as (j & -> & Hj & Hz & Hl). exists (S j). simpl. split_and!; [lia|lia|done|].
        intros [|l] Hlt; [done|]. apply Hl. lia.
      * intros [|j] Hj; [done|]. apply He. simpl in Hj. lia.
Qed.

Definition grab_inode (dev inum : Z) (ip : inode) : inode :=
  if caches_inode dev inum ip then ip <| i_ref ::= λ r, r + 1 |>
  else ip <| i_dev := dev |> <| i_inum := inum |> <| i_ref := 1 |> <| i_valid := false |>.

Lemma iget_spec dev inum env s :
  k_locks s = [] →
  (∃ i, iget dev inum env s = Done i (s <| k_icache ::= alter (grab_inode dev inum) i |>) env ∧
     (i < length (k_icache s))%nat ∧
     (caches_inode dev inum (get_inode s i) = true ∨
      (∀ j, (j < length (k_icache s))%nat → caches_inode dev inum (get_inode s j) = false) ∧
      i_ref (get_inode s i) = 0)) ∨
  (iget dev inum env s = Panic "iget: no inodes" ∧
   (∀ j, (j < length (k_icache s))%nat → i_ref (get_inode s j) ≠ 0 ∧ caches_inode dev inum (get_inode s j) = false)).
Proof.
  intros Hl. unfold iget. step acquire_ok by (rewrite Hl; apply not_elem_of_nil). rewrite bind_gets.
  change (k_icache (s <| k_locks ::= cons LkIcache |>)) with (k_icache s).
  pose proof (iget_scan_spec dev inum (k_icache s) 0 None) as Sc.
  destruct (iget_scan dev inum (k_icache s) 0 None) as [[i|] e].
  - destruct Sc as (j & -> & Hj & Hc). left. exists j. split_and!; [|done|by left].
    unfold upd_inode. rewrite bind_modify. step release_ok. unfold ret. f_equal. kext.
    apply alter_ext_total. unfold grab_inode. by rewrite Hc.
  - destruct Sc as [Hn Sc]. destruct e as [i|]; [left|right; split; [done|]; intros j Hj; split; [by apply Sc|by apply Hn]].
    destruct Sc as (j & -> & Hj & Hz & Hlt). exists j. split_and!; [|done|by right].
    unfold upd_inode. rewrite bind_modify. step release_ok. unfold ret. f_equal. kext.
    apply alter_ext_total. unfold grab_inode. by rewrite Hn.
Qed.

Lemma icache_ok_grab dev inum tab i :
  icache_ok tab → (i < length tab)%nat →
  (caches_inode dev inum (tab !!! i) = true ∨
   (∀ j, (j < length tab)%nat → caches_inode dev inum (tab !!! j) = false)) →
  icache_ok (alter (grab_inode dev inum) i tab).
Proof.
  intros [C1 C2] Hi Hc.
  assert (T : ∀ j, alter (grab_inode dev inum) i tab !!! j =
     if decide (i = j) then grab_inode dev inum (tab !!! i) else tab !!! j) by (intros; by apply alter_total).
  assert (G : i_dev (grab_inode dev inum (tab !!! i)) = dev ∧ i_inum (grab_inode dev inum (tab !!! i)) = inum ∧
    0 < i_ref (grab_inode dev inum (tab !!! i))).
  { unfold grab_inode. destruct (caches_inode dev inum (tab !!! i)) eqn:E; simpl; [|lia].
    apply caches_inode_true in E. lia. }
  assert (U : ∀ j, (j < length tab)%nat → j ≠ i → 0 < i_ref (tab !!! j) →
    ¬ (i_dev (tab !!! j) = dev ∧ i_inum (tab !!! j) = inum)).
  { intros j Hj Hne Hr [Hd Hn]. destruct Hc as [E|Hn'].
    - apply caches_inode_true in E as (? & ? & ?). apply Hne. apply C2; [done..|congruence|congruence].
    - specialize (Hn' j Hj). apply not_true_iff_false in Hn'. apply Hn', caches_inode_true. done. }
  destruct G as (G1 & G2 & G3).
  split; rewrite length_alter.
  - intros j Hj. rewrite T. case_decide; [lia|by apply C1].
  - intros j k Hj Hk. rewrite !T. repeat case_decide; subst; try done.
    + intros _ Hr Ed En. destruct (U k Hk ltac:(done) Hr). rewrite <-Ed, <-En. done.
    + intros Hr _ Ed En. destruct (U j Hj ltac:(done) Hr). rewrite Ed, En. done.
    + by apply C2.
Qed.
