(* ===== verification/Files.v ===== *)
(** * File contents

    [readi] and [writei] of fs.c against the contents of a file as a
    sequence of blocks.  The contents of an inode are the blocks its
    direct and indirect addresses name, a missing block reading as zeros;
    [bmap] may allocate but never changes them; [readi] returns the bytes at
    the requested offset and [writei] overwrites exactly those bytes.  The
    blocks allocated are counted: as many are taken from the free ones as
    were missing. *)
From S2P Require Import Prelude State Sync Dll Bio Cache Log CString Fs Blocks Inodes.

(** ** The block map of a file *)
Definition ind_addr (ip : inode) : Z := i_addrs ip !!! 12%nat.

(** The address of block [bn] of the file, 0 when there is none. *)
Definition addr (V : Z → block) (ip : inode) (bn : Z) : Z :=
  if bn <? NDIRECT then i_addrs ip !!! Z.to_nat bn
  else if ind_addr ip =? 0 then 0
  else ldn 4 (V (ind_addr ip)) (Z.to_nat (4 * (bn - NDIRECT))).

(** Block [bn] of the file. *)
Definition fblock (V : Z → block) (ip : inode) (bn : Z) : block :=
  if addr V ip bn =? 0 then zero_block else V (addr V ip bn).

Definition is_map (s : kstate) (a : Z) : Prop := ∃ c, 0 ≤ c < sb_size (k_sb s) ∧ a = BBLOCK c (k_sb s).

(** A data block in use. *)
Record data_block (s : kstate) (V : Z → block) (a : Z) : Prop := {
  db_range : 0 ≤ a < sb_size (k_sb s);
  db_used : used V (k_sb s) a = true;
  db_home : is_home s a;
  db_one : 1 < a;
  db_map : ¬ is_map s a;
  db_len : length (V a) = 512%nat }.

(** The map of a file: its blocks are data blocks, used once. *)
Record file_ok (s : kstate) (V : Z → block) (ip : inode) : Prop := {
  fo_len : length (i_addrs ip) = 13%nat;
  fo_ind : ind_addr ip ≠ 0 → data_block s V (ind_addr ip);
  fo_data bn : 0 ≤ bn < MAXFILE → addr V ip bn ≠ 0 → data_block s V (addr V ip bn);
  fo_inj bn bn' : 0 ≤ bn < MAXFILE → 0 ≤ bn' < MAXFILE → addr V ip bn ≠ 0 →
    addr V ip bn = addr V ip bn' → bn = bn';
  fo_ind_ne bn : 0 ≤ bn < MAXFILE → ind_addr ip ≠ 0 → addr V ip bn ≠ ind_addr ip }.

#[global] Arguments fo_len {s V ip} _.
#[global] Arguments fo_ind {s V ip} _.
#[global] Arguments fo_data {s V ip} _.
#[global] Arguments fo_inj {s V ip} _.
#[global] Arguments fo_ind_ne {s V ip} _.

(** States with the same geometry. *)
Definition same_geom (s s' : kstate) : Prop :=
  k_sb s' = k_sb s ∧ k_disksize s' = k_disksize s ∧ ∀ c, is_home s' c ↔ is_home s c.

#[global] Instance same_geom_preorder : PreOrder same_geom.
Proof.
  split; [by intros s; split_and!|].
  intros s1 s2 s3 (A1 & A2 & A3) (B1 & B2 & B3). split_and!; [congruence..|].
  intros c. by rewrite B3, A3.
Qed.
Lemma iframe_geom s s' : iframe s s' → same_geom s s'.
Proof.
  intros F. split_and!; [by apply iframe_sb|by apply iframe_disksize|].
  intros c. by apply iframe_home.
Qed.
Lemma tframe_geom s s' : tframe s s' → same_geom s s'.
Proof. intros F. by apply iframe_geom, tframe_iframe. Qed.

Lemma is_map_geom s s' a : same_geom s s' → is_map s' a ↔ is_map s a.
Proof. intros (E & _). unfold is_map. by rewrite E. Qed.
Lemma data_block_geom s s' V a : same_geom s s' → data_block s V a → data_block s' V a.
Proof.
  intros G []. pose proof G as (E1 & E2 & E3).
  split; rewrite ?E1, ?(is_map_geom _ _ _ G), ?E3; done.
Qed.
Lemma file_ok_geom s s' V ip : same_geom s s' → file_ok s V ip → file_ok s' V ip.
Proof.
  intros G []. split; try done.
  - intros Hi. apply (data_block_geom s); auto.
  - intros bn Hb Ha. apply (data_block_geom s); auto.
Qed.
Lemma bitmap_ok_geom s s' V : same_geom s s' → bitmap_ok s V → bitmap_ok s' V.
Proof.
  intros (E1 & E2 & E3) []. split; rewrite ?E1, ?E2; try done; setoid_rewrite E3; done.
Qed.

(** The map depends on the contents of its own blocks only. *)
Lemma used_ext s V V' c : (∀ m, is_map s m → V' m = V m) → 0 ≤ c < sb_size (k_sb s) →
  used V' (k_sb s) c = used V (k_sb s) c.
Proof. intros E Hc. unfold used. rewrite E; [done|]. by exists c. Qed.
Lemma bitmap_ok_ext s V V' : (∀ m, is_map s m → V' m = V m) → bitmap_ok s V → bitmap_ok s V'.
Proof.
  intros E [M1 M2 M3 M4]. split; [done|done|..].
  - intros c Hc. rewrite E by (by exists c). by apply M3.
  - intros c Hc. rewrite (used_ext s V) by done. by apply M4.
Qed.

(** Overwriting a data block. *)
Lemma data_store s V a d : data_block s V a → length d = 512%nat →
  (∀ m, is_map s m → <[a := d]> V m = V m) ∧
  (∀ c, data_block s V c → data_block s (<[a := d]> V) c).
Proof.
  intros D HL. assert (Em : ∀ m, is_map s m → <[a := d]> V m = V m).
  { intros m Hm. rewrite fn_lookup_insert_ne; [done|]. intros <-. by apply (db_map _ _ _ D). }
  split; [done|]. intros c [D1 D2 D3 D4 D5 D6]. split; try done.
  - by rewrite (used_ext s V).
  - rewrite fn_insert_dec. by case_decide.
Qed.

(** ** Blocks that keep their contents *)

(** [keeps V V' s]: every data block keeps its contents and its mark. *)
Definition keeps (s : kstate) (V V' : Z → block) : Prop :=
  ∀ a, data_block s V a → V' a = V a ∧ data_block s V' a.

Lemma keeps_take s V r :
  bitmap_ok s V → 0 ≤ r < sb_size (k_sb s) → used V (k_sb s) r = false →
  keeps s V (take_block (k_sb s) r V).
Proof.
  intros G Hr Hu a [D1 D2 D3 D4 D5 D6].
  assert (Hne : a ≠ r) by congruence.
  assert (E : take_block (k_sb s) r V a = V a).
  { unfold take_block. rewrite !fn_insert_dec, !decide_False; [done| |done].
    intros ->. apply D5. by exists r. }
  split; [done|]. split; rewrite ?E; try done.
  rewrite (used_take s V G r Hr Hu) by done. by rewrite decide_False.
Qed.

(** The block just allocated is a data block, full of zeros. *)
Lemma data_block_take s V r :
  bitmap_ok s V → 0 ≤ r < sb_size (k_sb s) → used V (k_sb s) r = false →
  data_block s (take_block (k_sb s) r V) r ∧ take_block (k_sb s) r V r = zero_block.
Proof.
  intros G Hr Hu. destruct (bm_free _ _ G r Hr Hu) as (F1 & F2 & F3).
  assert (E : take_block (k_sb s) r V r = zero_block) by apply fn_lookup_insert.
  split; [|done]. split; rewrite ?E; try done.
  - rewrite (used_take s V G r Hr Hu) by done. by rewrite decide_True.
  - intros (c & Hc & ->). by apply (F3 c Hc).
Qed.

Lemma ldn_zero_block off : (off + 4 ≤ 512)%nat → ldn 4 zero_block off = 0.
Proof.
  intros H. unfold ldn, zero_block. change (Z.to_nat BSIZE) with 512%nat.
  rewrite drop_replicate, take_replicate. rewrite Nat.min_l by lia. done.
Qed.

Section keeps.
Context (s : kstate) (V V' : Z → block) (ip : inode) (K : keeps s V V') (F : file_ok s V ip).

Lemma addr_keeps bn : addr V' ip bn = addr V ip bn.
Proof.
  unfold addr. destruct (bn <? NDIRECT); [done|]. destruct (ind_addr ip =? 0) eqn:E; [done|].
  apply Z.eqb_neq in E. by rewrite (proj1 (K _ (fo_ind F E))).
Qed.

Lemma fblock_keeps bn : 0 ≤ bn < MAXFILE → fblock V' ip bn = fblock V ip bn.
Proof.
  intros Hb. unfold fblock. rewrite addr_keeps. destruct (addr V ip bn =? 0) eqn:E; [done|].
  apply Z.eqb_neq in E. by apply K, F.
Qed.

Lemma file_ok_keeps : file_ok s V' ip.
Proof.
  split; [apply F|..].
  - intros Hi. by apply K, F.
  - intros bn Hb. rewrite addr_keeps. intros Ha. by apply K, F.
  - intros bn bn' Hb Hb'. rewrite !addr_keeps. by apply F.
  - intros bn Hb. rewrite addr_keeps. by apply F.
Qed.
End keeps.

(** ** Adding a block to the map *)
Record alloc_ok (s : kstate) (V V1 : Z → block) (r : Z) : Prop := {
  ao_keeps : keeps s V V1;
  ao_data : data_block s V1 r;
  ao_zero : V1 r = zero_block;
  ao_new a : data_block s V a → a ≠ r;
  ao_map : bitmap_ok s V1;
  ao_count : nfree V (k_sb s) = S (nfree V1 (k_sb s)) }.

Lemma alloc_ok_take s V r :
  bitmap_ok s V → 0 ≤ r < sb_size (k_sb s) → used V (k_sb s) r = false →
  alloc_ok s V (take_block (k_sb s) r V) r.
Proof.
  intros G Hr Hu. destruct (data_block_take s V r G Hr Hu). split; try done.
  - by apply keeps_take.
  - intros a D ->. destruct D. congruence.
  - by apply bitmap_ok_take.
  - by apply nfree_take.
Qed.

Lemma same_geom_sym s s' : same_geom s s' → same_geom s' s.
Proof. intros (A1 & A2 & A3). split_and!; [done|done|]. intros c. by rewrite A3. Qed.

Lemma alloc_ok_geom s s' V V1 r : same_geom s s' → alloc_ok s V V1 r → alloc_ok s' V V1 r.
Proof.
  intros G [A1 A2 A3 A4 A5 A6]. pose proof (same_geom_sym _ _ G) as G'. split.
  - intros c Dc. apply (data_block_geom _ s) in Dc; [|done].
    destruct (A1 c Dc). split; [done|]. by apply (data_block_geom s).
  - by apply (data_block_geom s).
  - done.
  - intros c Dc. apply A4. by apply (data_block_geom s').
  - by apply (bitmap_ok_geom s).
  - by rewrite (proj1 G).
Qed.

Lemma addr_neq s V ip r bn :
  file_ok s V ip → (∀ a, data_block s V a → a ≠ r) → r ≠ 0 → 0 ≤ bn < MAXFILE → addr V ip bn ≠ r.
Proof.
  intros F Hn Hr Hb E. destruct (decide (addr V ip bn = 0)) as [E0|E0]; [congruence|].
  by apply (Hn _ (fo_data F bn Hb E0)).
Qed.
Lemma ind_neq s V ip r : file_ok s V ip → (∀ a, data_block s V a → a ≠ r) → r ≠ 0 → ind_addr ip ≠ r.
Proof.
  intros F Hn Hr E. destruct (decide (ind_addr ip = 0)) as [E0|E0]; [congruence|].
  by apply (Hn _ (fo_ind F E0)).
Qed.

(** Block [r], just allocated, becomes block [b0] of the file. *)
Section add.
Context (s : kstate) (V V1 V' : Z → block) (ip ip' : inode) (b0 r : Z).
Context (F : file_ok s V ip) (A : alloc_ok s V V1 r).
Context (Hlen : length (i_addrs ip') = 13%nat) (Hind : ind_addr ip' = ind_addr ip).
Context (Haddr : ∀ bn, 0 ≤ bn < MAXFILE → addr V' ip' bn = if decide (bn = b0) then r else addr V ip bn).
Context (Hdata : ∀ a, data_block s V1 a → data_block s V' a ∧ (a ≠ ind_addr ip → V' a = V1 a)).
Context (Hold : addr V ip b0 = 0).

Lemma r_pos : 1 < r.
Proof. apply (ao_data _ _ _ _ A). Qed.

Lemma file_ok_add : file_ok s V' ip'.
Proof.
  pose proof r_pos as Hr. pose proof (ao_new _ _ _ _ A) as Hn.
  split; rewrite ?Hind; [done|..].
  - intros Hi. by apply Hdata, (ao_keeps _ _ _ _ A), F.
  - intros bn Hb. rewrite Haddr by done. case_decide; intros Ha; apply Hdata.
    + apply (ao_data _ _ _ _ A).
    + by apply (ao_keeps _ _ _ _ A), F.
  - intros bn bn' Hb Hb'. rewrite !Haddr by done. repeat case_decide; subst; try done.
    + intros _ E. symmetry in E. by apply (addr_neq s V ip r bn' F Hn) in E; [|lia|].
    + intros _ E. by apply (addr_neq s V ip r bn F Hn) in E; [|lia|].
    + by apply F.
  - intros bn Hb Hi. rewrite Haddr by done. case_decide; [|by apply F].
    intros E. symmetry in E. by apply (ind_neq s V ip r F Hn) in E; [|lia].
Qed.

Lemma fblock_add bn : 0 ≤ bn < MAXFILE → fblock V' ip' bn = fblock V ip bn.
Proof.
  intros Hb. pose proof r_pos as Hr. pose proof (ao_new _ _ _ _ A) as Hn.
  unfold fblock. rewrite Haddr by done. case_decide as E.
  - subst bn. rewrite Hold, (proj2 (Z.eqb_neq r 0)) by lia. simpl.
    rewrite (proj2 (Hdata r (ao_data _ _ _ _ A))); [apply A|].
    intros E. symmetry in E. by apply (ind_neq s V ip r F Hn) in E; [|lia].
  - destruct (addr V ip bn =? 0) eqn:E0; [done|]. apply Z.eqb_neq in E0.
    destruct (ao_keeps _ _ _ _ A _ (fo_data F bn Hb E0)) as [E1 D1].
    rewrite (proj2 (Hdata _ D1)); [done|].
    destruct (decide (ind_addr ip = 0)) as [E2|E2]; [congruence|]. by apply F.
Qed.
End add.

(** A direct block. *)
Lemma addr_direct V ip b0 r bn :
  length (i_addrs ip) = 13%nat → 0 ≤ b0 < NDIRECT → 0 ≤ bn →
  addr V (ip <| i_addrs ::= insert (Z.to_nat b0) r |>) bn = if decide (bn = b0) then r else addr V ip bn.
Proof.
  intros HL Hb Hn. change NDIRECT with 12 in Hb. unfold addr, ind_addr. simpl.
  rewrite (list_lookup_total_insert_ne _ (Z.to_nat b0) 12%nat) by lia.
  destruct (bn <? NDIRECT) eqn:E; [apply Z.ltb_lt in E|apply Z.ltb_ge in E]; change NDIRECT with 12 in *.
  - case_decide as E1; [subst; rewrite list_lookup_total_insert_eq by lia; done|].
    by rewrite list_lookup_total_insert_ne by lia.
  - rewrite decide_False by lia. done.
Qed.

(** The indirect block itself: it names no data block yet. *)
Lemma addr_new_ind V ip r bn :
  length (i_addrs ip) = 13%nat → ind_addr ip = 0 → r ≠ 0 → V r = zero_block → 0 ≤ bn < MAXFILE →
  addr V (ip <| i_addrs ::= insert 12%nat r |>) bn = addr V ip bn.
Proof.
  intros HL Hi Hr Hz Hb. unfold addr. rewrite Hi. unfold ind_addr. simpl.
  destruct (bn <? NDIRECT) eqn:E; [apply Z.ltb_lt in E|apply Z.ltb_ge in E]; change NDIRECT with 12 in *.
  - by rewrite list_lookup_total_insert_ne by lia.
  - rewrite list_lookup_total_insert_eq by lia. rewrite (proj2 (Z.eqb_neq r 0)) by done.
    rewrite Hz, ldn_zero_block; [done|]. change MAXFILE with 140 in Hb. lia.
Qed.

(** A block named by the indirect block. *)
Lemma addr_indirect V ip b0 r bn :
  ind_addr ip ≠ 0 → length (V (ind_addr ip)) = 512%nat → is_u32 r →
  NDIRECT ≤ b0 < MAXFILE → 0 ≤ bn < MAXFILE →
  addr (<[ind_addr ip := stn 4 (V (ind_addr ip)) (Z.to_nat (4 * (b0 - NDIRECT))) r]> V) ip bn =
    if decide (bn = b0) then r else addr V ip bn.
Proof.
  intros Hi HL Hr Hb Hn. change NDIRECT with 12 in *. change MAXFILE with 140 in *. unfold addr.
  change NDIRECT with 12. destruct (bn <? 12) eqn:E; [apply Z.ltb_lt in E|apply Z.ltb_ge in E].
  - by rewrite decide_False by lia.
  - rewrite (proj2 (Z.eqb_neq _ 0)) by done. rewrite fn_lookup_insert. case_decide as E1.
    + subst. rewrite ldn_stn by lia. by apply u32_mod.
    + by rewrite ldn_stn_ne by lia.
Qed.

(** ** bmap *)

(** [a] is one of the blocks of the file. *)
Definition owns (V : Z → block) (ip : inode) (a : Z) : Prop :=
  a ≠ 0 ∧ (a = ind_addr ip ∨ ∃ bn, 0 ≤ bn < MAXFILE ∧ a = addr V ip bn).

(** An operation on the file that leaves every other data block alone. *)
Record grows (s : kstate) (V : Z → block) (ip : inode) (V' : Z → block) (ip' : inode) : Prop := {
  gr_keep a : data_block s V a → data_block s V' a ∧ (¬ owns V ip a → V' a = V a);
  gr_owns a : owns V' ip' a → owns V ip a ∨ ¬ data_block s V a;
  gr_mono b : 0 ≤ b < MAXFILE → addr V ip b ≠ 0 → addr V' ip' b ≠ 0 }.

Lemma grows_refl s V ip : grows s V ip V ip.
Proof. split; auto. Qed.
Lemma grows_trans s V ip V1 ip1 V2 ip2 :
  grows s V ip V1 ip1 → grows s V1 ip1 V2 ip2 → grows s V ip V2 ip2.
Proof.
  intros [K1 O1 M1] [K2 O2 M2]. split; [..|auto].
  - intros a D. destruct (K1 a D) as [D1 E1]. destruct (K2 a D1) as [D2 E2]. split; [done|].
    intros N. rewrite E2, E1; [done|done|]. intros [?|?]%O1; auto.
  - intros a [H|H]%O2; [by apply O1|]. right. intros D. apply H. by apply K1.
Qed.
Lemma grows_geom s s' V ip V' ip' : same_geom s s' → grows s V ip V' ip' → grows s' V ip V' ip'.
Proof.
  intros G [K O Mo]. pose proof (same_geom_sym _ _ G) as G'. split; [..|auto].
  - intros a D%(data_block_geom _ _ _ _ G'). destruct (K a D) as [D' E].
    split; [by apply (data_block_geom s)|done].
  - intros a [?|N]%O; [by left|right]. intros D%(data_block_geom _ _ _ _ G'). done.
Qed.

Record file_state (p : nat) (s : kstate) (V : Z → block) (bl : list Z) (i k : nat) : Prop := {
  fs_log : log_inv p s V bl ∅;
  fs_map : bitmap_ok s V;
  fs_file : file_ok s V (get_inode s i);
  fs_dev : i_dev (get_inode s i) = ROOTDEV;
  fs_idx : (i < length (k_icache s))%nat;
  fs_room : room s bl ∅ k }.

Lemma file_state_le p s V bl i k k' : (k' ≤ k)%nat → file_state p s V bl i k → file_state p s V bl i k'.
Proof. intros L []. split; try done. by eapply room_le. Qed.

Lemma balloc_file {p s V bl H} env k :
  log_inv p s V bl H → bitmap_ok s V → clear_of_map s V H → room s bl H (S (S k)) →
  balloc ROOTDEV env s = Panic "balloc: out of blocks" ∧ nfree V (k_sb s) = 0%nat ∨
  ∃ r s1 V1 bl1, balloc ROOTDEV env s = Done r s1 env ∧ log_inv p s1 V1 bl1 H ∧ tframe s s1 ∧
    room s1 bl1 H k ∧ alloc_ok s V V1 r.
Proof.
  intros I G C R. destruct (balloc_spec env k s I G C R) as
    [(r & s1 & Hr & Hu & _ & E & I1 & F1 & R1)|[Hall E]]; [right|left; split; [done|by apply nfree_full]].
  eexists r, s1, _, _. split; [exact E|]. split; [exact I1|]. split; [exact F1|]. split; [exact R1|].
  by apply alloc_ok_take.
Qed.

(** The blocks among [bs] that the file does not have, and the indirect block
    if it does not have that and one of them needs it. *)
Definition missing (V : Z → block) (ip : inode) (bs : list Z) : nat :=
  length (filter (λ b, addr V ip b = 0) bs) + Nat.b2n (existsb (Z.leb NDIRECT) bs && (ind_addr ip =? 0)).

(** The addresses after block [bn] has been added: that one is there, with the
    indirect block if it needs it, and the others are as before. *)
Record added (V : Z → block) (ip : inode) (V' : Z → block) (ip' : inode) (bn : Z) : Prop := {
  ad_new : addr V' ip' bn ≠ 0;
  ad_other b : 0 ≤ b < MAXFILE → b ≠ bn → addr V' ip' b = addr V ip b;
  ad_ind : ind_addr ip' = 0 ↔ ind_addr ip = 0 ∧ bn < NDIRECT }.

Lemma missing_cons V ip V' ip' b bs : added V ip V' ip' b → Forall (λ b, 0 ≤ b < MAXFILE) bs → b ∉ bs →
  missing V ip (b :: bs) = (missing V ip [b] + missing V' ip' bs)%nat.
Proof.
  intros [An Ao Ai] Hr Hn. unfold missing.
  assert (E : length (filter (λ b, addr V' ip' b = 0) bs) = length (filter (λ b, addr V ip b = 0) bs)).
  { apply filter_length_ext. intros c Hc. rewrite Forall_forall in Hr. rewrite Ao; [done|by apply Hr|]. by intros ->. }
  rewrite E, !filter_cons, filter_nil. cbn [existsb]. rewrite orb_false_r.
  assert (L : Nat.b2n (existsb (Z.leb NDIRECT) (b :: bs) && (ind_addr ip =? 0)) =
    Nat.add (Nat.b2n ((NDIRECT <=? b) && (ind_addr ip =? 0))) (Nat.b2n (existsb (Z.leb NDIRECT) bs && (ind_addr ip' =? 0)))).
  { cbn [existsb]. destruct (Z.leb_spec NDIRECT b), (Z.eqb_spec (ind_addr ip) 0), (Z.eqb_spec (ind_addr ip') 0), (existsb _ bs); simpl;
      try done; exfalso; intuition lia. }
  cbn [existsb] in L. rewrite L. case_decide; simpl; lia.
Qed.

Lemma missing_head V ip b bs : (missing V ip [b] ≤ missing V ip (b :: bs))%nat.
Proof.
  unfold missing. rewrite !filter_cons, filter_nil. cbn [existsb]. rewrite orb_false_r.
  destruct (NDIRECT <=? b), (ind_addr ip =? 0), (existsb _ bs); case_decide; simpl; lia.
Qed.

(** The result of [bmap] and of its two halves. *)
Definition bmap_post (p i k : nat) (s : kstate) (V : Z → block) (s' : kstate) (V' : Z → block)
    (bl' : list Z) : Prop :=
  file_state p s' V' bl' i k ∧ iframe s s' ∧
  (∃ l, k_icache s' = alter (λ ip, ip <| i_addrs := l |>) i (k_icache s)) ∧
  (∀ bn, 0 ≤ bn < MAXFILE → fblock V' (get_inode s' i) bn = fblock V (get_inode s i) bn) ∧
  grows s V (get_inode s i) V' (get_inode s' i).

Lemma get_inode_alter s f i : (i < length (k_icache s))%nat →
  get_inode (s <| k_icache ::= alter f i |>) i = f (get_inode s i).
Proof. intros Hi. unfold get_inode. simpl. by rewrite alter_total, decide_True. Qed.

Lemma owns_data s V ip a : file_ok s V ip → owns V ip a → data_block s V a.
Proof.
  intros F [H0 [->|(bn & Hb & ->)]]; [by apply F|]. by apply F.
Qed.

(** A newly allocated block enters the inode's own address array. *)
Lemma set_addr_post p s V bl i k s1 V1 bl1 r n :
  file_state p s V bl i (S (S k)) → log_inv p s1 V1 bl1 ∅ → tframe s s1 → room s1 bl1 ∅ k →
  alloc_ok s V V1 r → 
  let ip' := (get_inode s i) <| i_addrs ::= insert n r |> in
  let s' := s1 <| k_icache ::= alter (λ ip, ip <| i_addrs ::= insert n r |>) i |> in
  file_ok s V1 ip' → (∀ bn, 0 ≤ bn < MAXFILE → fblock V1 ip' bn = fblock V (get_inode s i) bn) →
  (∀ a, owns V1 ip' a → owns V (get_inode s i) a ∨ a = r) →
  (∀ b, 0 ≤ b < MAXFILE → addr V (get_inode s i) b ≠ 0 → addr V1 ip' b ≠ 0) →
  bmap_post p i k s V s' V1 bl1 ∧ get_inode s' i = ip'.
Proof.
  intros [L M Fi Dv Ix Rm] I1 F1 R1 A ip' s' Fo Hb Ho Hmo.
  pose proof (lframe_icache _ _ (tf_frame _ _ F1)) as Ei.
  assert (Eg : get_inode s1 i = get_inode s i) by (unfold get_inode; by rewrite Ei).
  assert (E : get_inode s' i = ip') by (unfold s'; rewrite get_inode_alter, Eg by (by rewrite Ei); done).
  assert (Fr : iframe s s') by (etransitivity; [by apply tframe_iframe|apply iframe_icache]).
  pose proof (iframe_geom _ _ Fr) as G.
  split; [|exact E]. unfold bmap_post. rewrite E. split_and!; [|exact Fr| |exact Hb|].
  - split; rewrite ?E; [by apply log_inv_icache| | |done| |].
    + by apply (bitmap_ok_geom s), A.
    + by apply (file_ok_geom s).
    + simpl. by rewrite length_alter, Ei.
    + by destruct R1; split.
  - exists (i_addrs ip'). simpl. rewrite Ei. by apply alter_ext_total.
  - split; [..|exact Hmo].
    + intros a D. destruct (ao_keeps _ _ _ _ A a D). done.
    + intros a [?| ->]%Ho; [by left|right]. intros D. by apply (ao_new _ _ _ _ A r D).
Qed.

Section bmap.
Context (p i k : nat) (env : list (kstate → kstate)).

Lemma clear_empty s V : clear_of_map s V ∅.
Proof. intros b _. split; [done|]. intros _. done. Qed.

(** Take the [n]th address of the inode, allocating a block if it is 0. *)
Definition get_addr (n : nat) (s : kstate) : KM Z :=
  let addr := i_addrs (get_inode s i) !!! n in
  if addr =? 0 then
    addr <- balloc (i_dev (get_inode s i)) ;; set_addr i n addr ;; ret addr
  else ret addr.

Lemma get_addr_have s V bl n :
  file_state p s V bl i (S (S k)) → i_addrs (get_inode s i) !!! n ≠ 0 →
  get_addr n s env s = Done (i_addrs (get_inode s i) !!! n) s env ∧ bmap_post p i k s V s V bl.
Proof.
  intros S Hn. unfold get_addr. rewrite (proj2 (Z.eqb_neq _ _)) by done. split; [done|].
  split_and!; [by eapply file_state_le; [|exact S]; lia|done| |done|apply grows_refl].
  exists (i_addrs (get_inode s i)). symmetry.
  rewrite (alter_ext_total _ id); [by apply list_alter_id|]. unfold get_inode. by destruct (_ !!! i).
Qed.

Lemma get_addr_direct s V bl bn :
  file_state p s V bl i (S (S k)) → 0 ≤ bn < NDIRECT →
  get_addr (Z.to_nat bn) s env s = Panic "balloc: out of blocks" ∧ (nfree V (k_sb s) < missing V (get_inode s i) [bn])%nat ∨
  ∃ a s' V' bl', get_addr (Z.to_nat bn) s env s = Done a s' env ∧ bmap_post p i k s V s' V' bl' ∧
    addr V' (get_inode s' i) bn = a ∧ added V (get_inode s i) V' (get_inode s' i) bn ∧
    nfree V (k_sb s) = (nfree V' (k_sb s) + missing V (get_inode s i) [bn])%nat.
Proof.
  intros S Hb. pose proof S as [L M Fi Dv Ix Rm].
  assert (Hm : missing V (get_inode s i) [bn] = if decide (addr V (get_inode s i) bn = 0) then 1%nat else 0%nat).
  { unfold missing. simpl. rewrite filter_cons, (proj2 (Z.leb_gt _ _)) by lia. by case_decide. }
  assert (Ea : ∀ V' ip, addr V' ip bn = i_addrs ip !!! Z.to_nat bn).
  { intros V' ip. unfold addr. by rewrite (proj2 (Z.ltb_lt _ _)) by lia. }
  destruct (decide (i_addrs (get_inode s i) !!! Z.to_nat bn = 0)) as [E0|E0].
  2:{ right. destruct (get_addr_have s V bl (Z.to_nat bn) S E0) as [E P].
      eexists _, s, V, bl. split; [exact E|]. split; [exact P|]. rewrite Hm, decide_False by (by rewrite Ea). split_and!; [by rewrite Ea| |lia].
      split; [by rewrite Ea|done|]. split; [lia|]. by intros [? _]. }
  rewrite Hm, decide_True by (by rewrite Ea). clear Hm. unfold get_addr. rewrite E0, Dv. simpl.
  destruct (balloc_file env k L M (clear_empty s V) Rm) as [[E E0f]|(r & s1 & V1 & bl1 & E & I1 & F1 & R1 & A)].
  { left. rewrite (bind_panic _ _ _ _ _ E). split; [done|lia]. }
  right. rewrite (bind_done _ _ _ _ _ _ _ E). unfold set_addr, upd_inode. rewrite bind_modify.
  pose proof (ao_data _ _ _ _ A) as Dr.
  assert (Hadd : ∀ b, 0 ≤ b < MAXFILE → addr V1 ((get_inode s i) <| i_addrs ::= insert (Z.to_nat bn) r |>) b =
    if decide (b = bn) then r else addr V (get_inode s i) b).
  { intros b Hbb. rewrite addr_direct; [|apply (fo_len Fi)|done|lia].
    case_decide; [done|]. apply (addr_keeps s V V1 _ (ao_keeps _ _ _ _ A) Fi). }
  assert (Hl' : length (i_addrs ((get_inode s i) <| i_addrs ::= insert (Z.to_nat bn) r |>)) = 13%nat)
    by (simpl; rewrite length_insert; apply Fi).
  assert (Hi' : ind_addr ((get_inode s i) <| i_addrs ::= insert (Z.to_nat bn) r |>) = ind_addr (get_inode s i)).
  { unfold ind_addr. simpl. rewrite list_lookup_total_insert_ne; [done|]. change NDIRECT with 12 in Hb. lia. }
  destruct (set_addr_post p s V bl i k s1 V1 bl1 r (Z.to_nat bn) S I1 F1 R1 A) as [P Eg].
  - apply (file_ok_add s V V1 V1 (get_inode s i) _ bn r Fi A Hl' Hi' Hadd). auto.
  - intros b Hbb. apply (fblock_add s V V1 V1 (get_inode s i) _ bn r Fi A Hl' Hadd); [auto|by rewrite Ea|done].
  - intros a [Ha [->|(b & Hbb & ->)]]; [rewrite Hi' in Ha |- *; left; split; auto|].
    rewrite Hadd in Ha |- * by done. case_decide; [by right|left]. split; [done|]. right. by exists b.
  - intros b Hbb. rewrite Hadd by done. case_decide; [|done]. pose proof (db_one _ _ _ Dr). lia.
  - assert (Hbm : 0 ≤ bn < MAXFILE) by (change NDIRECT with 12 in Hb; change MAXFILE with 140; lia).
    assert (En : addr V1 ((get_inode s i) <| i_addrs ::= insert (Z.to_nat bn) r |>) bn = r) by (by rewrite Hadd, decide_True).
    eexists r, _, V1, bl1. split; [reflexivity|]. split; [exact P|]. rewrite Eg. split; [done|]. split; [split|].
    + rewrite En. destruct Dr. lia.
    + intros b Hbb Hne. by rewrite Hadd, decide_False.
    + rewrite Hi'. split; [by split; [|lia]|]. by intros [? _].
    + pose proof (ao_count _ _ _ _ A). lia.
Qed.

Lemma get_addr_ind s V bl :
  file_state p s V bl i (S (S k)) →
  get_addr 12 s env s = Panic "balloc: out of blocks" ∧ nfree V (k_sb s) = 0%nat ∧ ind_addr (get_inode s i) = 0 ∨
  ∃ a s' V' bl', get_addr 12 s env s = Done a s' env ∧ bmap_post p i k s V s' V' bl' ∧
    ind_addr (get_inode s' i) = a ∧ a ≠ 0 ∧
    (∀ b, 0 ≤ b < MAXFILE → addr V' (get_inode s' i) b = addr V (get_inode s i) b) ∧
    nfree V (k_sb s) = (nfree V' (k_sb s) + if decide (ind_addr (get_inode s i) = 0%Z) then 1 else 0)%nat.
Proof.
  intros S. pose proof S as [L M Fi Dv Ix Rm].
  destruct (decide (ind_addr (get_inode s i) = 0)) as [E0|E0].
  2:{ right. destruct (get_addr_have s V bl 12 S E0) as [E P].
      eexists _, s, V, bl. split; [exact E|]. split; [exact P|]. split_and!; [done..|lia]. }
  unfold get_addr. fold (ind_addr (get_inode s i)). rewrite E0, Dv. simpl.
  destruct (balloc_file env k L M (clear_empty s V) Rm) as [[E E0f]|(r & s1 & V1 & bl1 & E & I1 & F1 & R1 & A)].
  { left. by rewrite (bind_panic _ _ _ _ _ E). }
  right. rewrite (bind_done _ _ _ _ _ _ _ E). unfold set_addr, upd_inode. rewrite bind_modify.
  pose proof (ao_data _ _ _ _ A) as Dr. pose proof (ao_count _ _ _ _ A) as Cr. assert (Hr : 1 < r) by apply Dr.
  set (ip' := (get_inode s i) <| i_addrs ::= insert 12%nat r |>).
  assert (Hadd : ∀ b, 0 ≤ b < MAXFILE → addr V1 ip' b = addr V (get_inode s i) b).
  { intros b Hbb. unfold ip'. rewrite addr_new_ind; [|apply Fi|done|lia|apply A|done].
    apply (addr_keeps s V V1 _ (ao_keeps _ _ _ _ A) Fi). }
  assert (Hi' : ind_addr ip' = r).
  { unfold ind_addr. simpl. rewrite list_lookup_total_insert_eq; [done|]. rewrite (fo_len Fi). lia. }
  assert (Fo : file_ok s V1 ip').
  { split; rewrite ?Hi'.
    - simpl. rewrite length_insert. apply Fi.
    - done.
    - intros b Hbb. rewrite Hadd by done. intros Ha. by apply (ao_keeps _ _ _ _ A), Fi.
    - intros b b' Hbb Hbb'. rewrite !Hadd by done. by apply Fi.
    - intros b Hbb _. rewrite Hadd by done. eapply addr_neq; [done|apply A|lia|done]. }
  destruct (set_addr_post p s V bl i k s1 V1 bl1 r 12 S I1 F1 R1 A Fo) as [P Eg].
  - intros b Hbb. fold ip'. unfold fblock. rewrite Hadd by done.
    destruct (addr V (get_inode s i) b =? 0) eqn:E1; [done|]. apply Z.eqb_neq in E1.
    by apply (ao_keeps _ _ _ _ A), Fi.
  - fold ip'. intros a [Ha [->|(b & Hbb & ->)]]; [by right|left].
    rewrite Hadd in Ha |- * by done. split; [done|]. right. by exists b.
  - intros b Hbb. fold ip'. by rewrite Hadd.
  - eexists r, _, V1, bl1. split; [reflexivity|]. split; [exact P|]. rewrite Eg. split_and!; [done|lia|exact Hadd|lia].
Qed.

(** The second half of the indirect case: find or add the entry of [bn] in
    the indirect block. *)
Definition ind_entry (bn a : Z) (dev : Z) : KM Z :=
  bp <- bread dev a ;;
  d <- gets (λ s, b_data (get_buf s bp)) ;;
  let addr := ldn 4 d (Z.to_nat (4 * bn)) in
  addr <- (if addr =? 0 then
             addr <- balloc dev ;;
             (upd_buf bp (λ q, q <| b_data ::= λ d, stn 4 d (Z.to_nat (4 * bn)) addr |>) ;;
              log_write bp) ;;
             ret addr
           else ret addr) ;;
  brelse bp ;;
  ret addr.

Lemma clear_ind s V a j : data_block s V a → clear_of_map s V (<[a := j]> ∅).
Proof.
  intros D b Hb. split.
  - rewrite lookup_insert_ne; [done|]. intros ->. apply (db_map _ _ _ D). by exists b.
  - intros Hu. rewrite lookup_insert_ne; [done|]. intros ->. pose proof (db_used _ _ _ D). congruence.
Qed.

Lemma bmap_post_same s V s' bl' :
  log_inv p s' V bl' ∅ → tframe s s' → room s' bl' ∅ k →
  bitmap_ok s V → file_ok s V (get_inode s i) → i_dev (get_inode s i) = ROOTDEV →
  (i < length (k_icache s))%nat → bmap_post p i k s V s' V bl'.
Proof.
  intros I F R M Fo Dv Ix. pose proof (lframe_icache _ _ (tf_frame _ _ F)) as Ei.
  assert (Eg : get_inode s' i = get_inode s i) by (unfold get_inode; by rewrite Ei).
  pose proof (tframe_geom _ _ F) as G.
  unfold bmap_post. rewrite Eg. split_and!; [|by apply tframe_iframe| |done|apply grows_refl].
  - split; rewrite ?Eg; [done|by apply (bitmap_ok_geom s)|by apply (file_ok_geom s)|done|by rewrite Ei|done].
  - exists (i_addrs (get_inode s i)). rewrite Ei. symmetry.
    rewrite (alter_ext_total _ id); [by apply list_alter_id|]. unfold get_inode. by destruct (_ !!! i).
Qed.

(** The new entry is stored in the indirect block, still held. *)
Lemma ind_store s V s1 V1 bl1 r j bn (ip := get_inode s i) (a := ind_addr ip)
    (off := Z.to_nat (4 * (bn - NDIRECT))) (V2 := <[a := stn 4 (V1 a) off r]> V1) :
  file_ok s V ip → a ≠ 0 → NDIRECT ≤ bn < MAXFILE → addr V ip bn = 0 → k_disksize s < 2 ^ 31 →
  log_inv p s1 V1 bl1 (<[a := j]> ∅) → tframe s s1 → room s1 bl1 (<[a := j]> ∅) (S k) →
  alloc_ok s V V1 r → (i < length (k_icache s))%nat → i_dev ip = ROOTDEV →
  ∃ s', ((upd_buf j (λ q, q <| b_data ::= λ d, stn 4 d off r |>) ;; log_write j) ;; brelse j) env s1
      = Done tt s' env ∧
    bmap_post p i k s V s' V2 (add_block a bl1) ∧ addr V2 ip bn = r ∧ get_inode s' i = ip ∧ added V ip V2 ip bn ∧
    nfree V2 (k_sb s) = nfree V1 (k_sb s).
Proof.
  intros Fo Ha Hb H0 Hds I1 F1 R1 A Ix Dv. pose proof (fo_ind Fo Ha) as Da.
  destruct (ao_keeps _ _ _ _ A _ Da) as [Ea Da1]. fold a in Ea, Da, Da1.
  destruct (log_modify_spec a j I1 (λ d, stn 4 d off r) env k) as (s2 & E2 & I2 & F2 & R2);
    [done|apply (tframe_home _ _ _ F1), Da|pose proof (db_one _ _ _ Da); lia| |].
  { destruct R1 as [R11 R12 R13]. split; [done| |done]. rewrite map_size_insert_None in R12 by done.
    rewrite map_size_empty in R12 |- *. lia. }
  exists s2. split; [exact E2|]. clear E2. fold V2 in I2.
  assert (F : tframe s s2) by (by etransitivity).
  pose proof (ao_data _ _ _ _ A) as Dr. assert (Hr : is_u32 r).
  { destruct Dr as [[? ?] _ [? _] ? _ _]. split; lia. }
  assert (Har : a ≠ r) by (eapply ind_neq; [done|apply A|destruct Dr; lia]).
  assert (Hadd : ∀ b, 0 ≤ b < MAXFILE → addr V2 ip b = if decide (b = bn) then r else addr V ip b).
  { intros b Hbb. unfold V2, a, off. rewrite addr_indirect; [|done|apply Da1|done|done|done].
    case_decide; [done|]. apply (addr_keeps s V V1 _ (ao_keeps _ _ _ _ A) Fo). }
  destruct (data_store s V1 a (stn 4 (V1 a) off r) Da1) as [Em Hds2]; [by rewrite length_stn; apply Da1|].
  fold V2 in Em, Hds2.
  assert (Hdat : ∀ c, data_block s V1 c → data_block s V2 c ∧ (c ≠ a → V2 c = V1 c)).
  { intros c Dc. split; [auto|]. intros. unfold V2. by rewrite fn_lookup_insert_ne. }
  assert (Fo2 : file_ok s V2 ip) by (apply (file_ok_add s V V1 V2 ip ip bn r Fo A); [apply Fo|done|done|done]).
  assert (M2 : bitmap_ok s V2) by (apply (bitmap_ok_ext s V1); [done|apply A]).
  pose proof (lframe_icache _ _ (tf_frame _ _ F)) as Ei.
  assert (Eg : get_inode s2 i = ip) by (unfold ip, get_inode; by rewrite Ei).
  pose proof (bmap_post_same s V2 s2 (add_block a bl1) I2 F R2 M2 Fo2 Dv Ix) as (P1 & P2 & P3 & _ & _).
  assert (Hbm : 0 ≤ bn < MAXFILE) by (change NDIRECT with 12 in Hb; lia).
  split; [|split; [by rewrite Hadd, decide_True|split; [done|]]].
  2:{ split; [split|].
      - rewrite Hadd, decide_True by done. pose proof (db_one _ _ _ Dr). lia.
      - intros b Hbb Hne. by rewrite Hadd, decide_False.
      - split; [done|]. by intros [? _].
      - apply nfree_ext. intros c Hc. by apply (used_ext s). }
  unfold bmap_post. rewrite Eg. split_and!; [exact P1|exact P2|exact P3|..].
  - intros b Hbb. by apply (fblock_add s V V1 V2 ip ip bn r Fo A); [apply Fo|..].
  - split.
    + intros c Dc. destruct (ao_keeps _ _ _ _ A _ Dc) as [E1 D1]. destruct (Hdat c D1) as [D2 E2].
      split; [done|]. intros N. rewrite E2; [done|]. intros ->. apply N. split; [done|]. by left.
    + intros c [Hc [->|(b & Hbb & ->)]]; [left; split; [done|by left]|].
      rewrite Hadd in Hc |- * by done. case_decide.
      * right. intros D. by apply (ao_new _ _ _ _ A r D).
      * left. split; [done|]. right. by exists b.
    + intros b Hbb. rewrite Hadd by done. case_decide; [|done]. pose proof (db_one _ _ _ Dr). lia.
Qed.

Lemma ind_entry_spec s V bl bn (a := ind_addr (get_inode s i)) :
  file_state p s V bl i (4 + k) → a ≠ 0 → NDIRECT ≤ bn < MAXFILE →
  ind_entry (bn - NDIRECT) a ROOTDEV env s = Panic "balloc: out of blocks" ∧
    nfree V (k_sb s) = 0%nat ∧ addr V (get_inode s i) bn = 0 ∨
  ∃ r s' V' bl', ind_entry (bn - NDIRECT) a ROOTDEV env s = Done r s' env ∧
    bmap_post p i k s V s' V' bl' ∧ addr V' (get_inode s' i) bn = r ∧ added V (get_inode s i) V' (get_inode s' i) bn ∧
    nfree V (k_sb s) = (nfree V' (k_sb s) + if decide (addr V (get_inode s i) bn = 0%Z) then 1 else 0)%nat.
Proof.
  intros S Ha Hb. pose proof S as [L M Fo Dv Ix Rm]. pose proof (fo_ind Fo Ha) as Da. fold a in Da.
  assert (Ea : addr V (get_inode s i) bn = ldn 4 (V a) (Z.to_nat (4 * (bn - NDIRECT)))).
  { unfold addr. fold a. rewrite (proj2 (Z.ltb_ge _ _)), (proj2 (Z.eqb_neq _ _)) by lia. done. }
  unfold ind_entry.
  destruct (log_bread_spec L a env) as (j & s1 & E1 & I1 & F1);
    [destruct (db_home _ _ _ Da); lia|done|right; destruct Rm; lia|].
  rewrite (bind_done _ _ _ _ _ _ _ E1), bind_gets, (log_data I1 _ _ (lookup_insert_eq _ _ _)).
  cbv zeta. rewrite <-Ea. clear E1.
  assert (R1 : room s1 bl (<[a:=j]> ∅) (3 + k)).
  { apply (room_frame _ _ _ _ _ F1) in Rm as [? ? ?]. split; [lia| |done].
    rewrite map_size_insert_None by done. lia. }
  destruct (decide (addr V (get_inode s i) bn = 0)) as [E0|E0].
  - rewrite E0. simpl.
    destruct (balloc_file env (Datatypes.S k) I1) as [[E2 E0f]|(r & s2 & V2 & bl2 & E2 & I2 & F2 & R2 & A)].
    { by apply (bitmap_ok_frame s). }
    { apply clear_ind. apply (data_block_geom s); [by apply tframe_geom|done]. } { done. }
    { left. rewrite (tframe_sb _ _ F1) in E0f. rewrite !bind_assoc. by rewrite (bind_panic _ _ _ _ _ E2). }
    right. rewrite !bind_assoc, (bind_done _ _ _ _ _ _ _ E2).
    assert (A' : alloc_ok s V V2 r) by (apply (alloc_ok_geom s1); [by apply same_geom_sym, tframe_geom|done]).
    destruct (ind_store s V s2 V2 bl2 r j bn) as (s3 & E3 & P & Ear & Eg & Ad & Nf);
      [done|done|done|done|apply (la_max _ _ _ (li_area L))|done|by etransitivity|done|done|done|done|].
    eexists r, s3, _, _. split; [|split; [exact P|split; [by rewrite Eg|split; [by rewrite Eg|]]]].
    + rewrite bind_assoc. by apply (bind_done2 _ _ (λ _, ret r) _ _ _ _ _ E3).
    + rewrite Nf. pose proof (ao_count _ _ _ _ A'). lia.
  - rewrite (proj2 (Z.eqb_neq _ _)), bind_ret by done. right.
    destruct (log_brelse_spec I1 a j env) as (s2 & E2 & I2 & F2); [apply lookup_insert_eq|].
    rewrite delete_insert_id in I2 by done. rewrite (bind_done _ _ _ _ _ _ _ E2).
    assert (F : tframe s s2) by (by etransitivity).
    eexists _, s2, V, bl. split; [reflexivity|]. split.
    + apply bmap_post_same; try done. eapply room_le; [|by eapply room_frame]. lia.
    + assert (Eg : get_inode s2 i = get_inode s i)
        by (unfold get_inode; by rewrite (lframe_icache _ _ (tf_frame _ _ F))).
      rewrite Eg. split_and!; [done| |lia]. split; [done|done|]. split; [done|]. by intros [? _].
Qed.
End bmap.

Lemma bmap_post_trans p i k k1 s V s1 V1 bl1 s2 V2 bl2 :
  bmap_post p i k1 s V s1 V1 bl1 → bmap_post p i k s1 V1 s2 V2 bl2 → bmap_post p i k s V s2 V2 bl2.
Proof.
  intros (S1 & F1 & (l1 & L1) & B1 & G1) (S2 & F2 & (l2 & L2) & B2 & G2).
  split_and!; [done|by etransitivity|..].
  - exists l2. rewrite L2, L1, list_alter_alter_eq. by apply alter_ext_total.
  - intros bn Hb. by rewrite B2, B1.
  - eapply grows_trans; [done|]. eapply grows_geom; [|done].
    by apply same_geom_sym, iframe_geom.
Qed.

(** [bmap(ip, bn)]: the address of the block, allocated if need be; the
    contents of the file do not change.  It needs log space for at most six
    blocks. *)
Lemma bmap_spec p i k env s V bl bn :
  file_state p s V bl i (6 + k) → 0 ≤ bn < MAXFILE →
  bmap i bn env s = Panic "balloc: out of blocks" ∧ (nfree V (k_sb s) < missing V (get_inode s i) [bn])%nat ∨
  ∃ a s' V' bl', bmap i bn env s = Done a s' env ∧ bmap_post p i k s V s' V' bl' ∧
    addr V' (get_inode s' i) bn = a ∧ added V (get_inode s i) V' (get_inode s' i) bn ∧
    nfree V (k_sb s) = (nfree V' (k_sb s) + missing V (get_inode s i) [bn])%nat.
Proof.
  intros S Hb. unfold bmap. rewrite bind_gets. destruct (bn <? NDIRECT) eqn:E.
  - apply Z.ltb_lt in E. destruct (get_addr_direct p i (4 + k) env s V bl bn) as
      [P|(a & s' & V' & bl' & E' & P & Ha)]; [exact S|lia|by left|right].
    exists a, s', V', bl'. split; [exact E'|]. split; [|exact Ha].
    destruct P as (P1 & P2). split; [|exact P2]. eapply file_state_le; [|exact P1]. lia.
  - apply Z.ltb_ge in E. rewrite (proj2 (Z.ltb_lt _ _)) by (change NINDIRECT with 128; change MAXFILE with 140 in Hb; change NDIRECT with 12; lia).
    assert (Hm : missing V (get_inode s i) [bn] =
      ((if decide (addr V (get_inode s i) bn = 0%Z) then 1 else 0) + (if decide (ind_addr (get_inode s i) = 0%Z) then 1 else 0))%nat).
    { unfold missing. rewrite filter_cons, filter_nil. cbn [existsb]. rewrite (proj2 (Z.leb_le _ _)) by lia. cbn [orb andb].
      destruct (Z.eqb_spec (ind_addr (get_inode s i)) 0); repeat case_decide; done. }
    rewrite Hm. clear Hm.
    destruct (get_addr_ind p i (4 + k) env s V bl) as [(P & N0 & I0)|(a & s1 & V1 & bl1 & E1 & P1 & Ha & Ha0 & Oth & N1)];
      [exact S|left; split; [exact (bind_panic _ _ _ _ _ P)|rewrite N0, (decide_True _ _ I0); lia]|].
    assert (Ed : i_dev (get_inode s i) = ROOTDEV) by apply (fs_dev _ _ _ _ _ _ S).
    assert (Esb : k_sb s1 = k_sb s) by apply (iframe_sb _ _ (proj1 (proj2 P1))).
    destruct (ind_entry_spec p i k env s1 V1 bl1 bn) as [(P & N0 & I0)|(r & s2 & V2 & bl2 & E2 & P2 & Hr & Ad & N2)];
      [apply P1|by rewrite Ha|lia| |]; rewrite Esb, Oth in * by done.
    + left. split; [|rewrite (decide_True _ _ I0); lia].
      etransitivity; [apply (bind_done _ _ _ _ _ _ _ E1)|]. rewrite Ha in P. rewrite Ed. exact P.
    + right. exists r, s2, V2, bl2. split; [|split; [by eapply bmap_post_trans|split; [exact Hr|split; [|lia]]]].
      * etransitivity; [apply (bind_done _ _ _ _ _ _ _ E1)|]. rewrite Ha in E2. rewrite Ed. exact E2.
      * destruct Ad as [Ad1 Ad2 Ad3]. split; [done|intros b Hbb Hne; by rewrite Ad2, Oth|]. rewrite Ad3, Ha. intuition lia.
Qed.

(** ** The bytes of a file *)
Definition fbyte (V : Z → block) (ip : inode) (k : Z) : Z :=
  fblock V ip (k / BSIZE) !!! Z.to_nat (k `mod` BSIZE).
Definition slice (V : Z → block) (ip : inode) (off : Z) (n : nat) : list Z :=
  (λ j, fbyte V ip (off + Z.of_nat j)) <$> seq 0 n.

Lemma length_slice V ip off n : length (slice V ip off n) = n.
Proof. unfold slice. by rewrite length_fmap, length_seq. Qed.

Lemma slice_app V ip off a b : slice V ip off (a + b) = slice V ip off a ++ slice V ip (off + Z.of_nat a) b.
Proof.
  unfold slice. rewrite seq_app, fmap_app. f_equal. rewrite Nat.add_0_l.
  replace (seq a b) with (Nat.add a <$> seq 0 b) by (rewrite fmap_add_seq; f_equal; lia).
  rewrite <-list_fmap_compose. apply list_fmap_ext. intros j x _. simpl. f_equal. lia.
Qed.

Lemma slice_lookup V ip off n j : (j < n)%nat → slice V ip off n !! j = Some (fbyte V ip (off + Z.of_nat j)).
Proof. intros Hj. unfold slice. by rewrite list_lookup_fmap, lookup_seq_lt. Qed.

Lemma off_split off j :
  0 ≤ off → 0 ≤ j < BSIZE - off `mod` BSIZE →
  (off + j) / BSIZE = off / BSIZE ∧ (off + j) `mod` BSIZE = off `mod` BSIZE + j.
Proof.
  change BSIZE with 512. intros Ho Hj. pose proof (Z.mod_pos_bound off 512 ltac:(lia)).
  pose proof (Z.div_mod off 512 ltac:(lia)).
  replace (off + j) with ((off `mod` 512 + j) + (off / 512) * 512) by lia.
  rewrite Z.div_add, Z_mod_plus_full, Z.div_small, Z.mod_small by lia. lia.
Qed.

Lemma slice_in_block V ip off (m : nat) :
  0 ≤ off → Z.of_nat m ≤ BSIZE - off `mod` BSIZE → length (fblock V ip (off / BSIZE)) = 512%nat →
  take m (drop (Z.to_nat (off `mod` BSIZE)) (fblock V ip (off / BSIZE))) = slice V ip off m.
Proof.
  intros Ho Hm HL. change BSIZE with 512 in *. pose proof (Z.mod_pos_bound off 512 ltac:(lia)).
  apply list_eq_same_length with m; [by rewrite length_slice|rewrite length_take, length_drop; lia|].
  intros j x y Hj. rewrite lookup_take_lt, lookup_drop, slice_lookup by done.
  intros Hx [= <-]. unfold fbyte. destruct (off_split off (Z.of_nat j)) as [E1 E2]; [done|change BSIZE with 512; lia|].
  change BSIZE with 512 in E1, E2. change BSIZE with 512. rewrite E1, E2.
  symmetry. apply list_lookup_total_correct. rewrite <-Hx. f_equal. lia.
Qed.

Lemma length_fblock s V ip bn : file_ok s V ip → 0 ≤ bn < MAXFILE → length (fblock V ip bn) = 512%nat.
Proof.
  intros F Hb. unfold fblock. destruct (addr V ip bn =? 0) eqn:E; [by vm_compute|].
  apply Z.eqb_neq in E. by apply F.
Qed.

(** ** readi *)

(** The blocks of the file up to [size] exist. *)
Definition mapped (V : Z → block) (ip : inode) (size : Z) : Prop :=
  ∀ bn, 0 ≤ bn → bn * BSIZE < size → addr V ip bn ≠ 0.

Lemma bmap_mapped p i env s V bl bn (ip := get_inode s i) :
  file_state p s V bl i 1 → 0 ≤ bn < MAXFILE → addr V ip bn ≠ 0 →
  ∃ s', bmap i bn env s = Done (addr V ip bn) s' env ∧ log_inv p s' V bl ∅ ∧ tframe s s'.
Proof.
  intros [L M Fo Dv Ix Rm] Hb Ha. unfold bmap. rewrite bind_gets. fold ip.
  unfold addr in Ha |- *. destruct (bn <? NDIRECT) eqn:E.
  - rewrite (proj2 (Z.eqb_neq _ _)) by done. by exists s.
  - destruct (ind_addr ip =? 0) eqn:Ei; [done|]. apply Z.ltb_ge in E. 
    rewrite (proj2 (Z.ltb_lt _ NINDIRECT))
      by (change NINDIRECT with 128; change MAXFILE with 140 in Hb; change NDIRECT with 12; lia).
    change (i_addrs ip !!! Z.to_nat NDIRECT) with (ind_addr ip). rewrite Ei, bind_ret. apply Z.eqb_neq in Ei.
    pose proof (fo_ind Fo Ei) as Da. fold ip in Da, Dv. rewrite Dv.
    destruct (log_peek_spec L (ind_addr ip) env) as (j & s1 & s2 & E1 & D1 & I1 & F1 & E2 & I2 & F2);
      [destruct (db_home _ _ _ Da); lia|done|done|].
    rewrite (bind_done _ _ _ _ _ _ _ E1), bind_gets, D1, (proj2 (Z.eqb_neq _ _)), bind_ret by done.
    rewrite (bind_done _ _ _ _ _ _ _ E2). exists s2. split_and!; [done|done|by etransitivity].
Qed.

Lemma file_state_frame p s V bl i k s' :
  file_state p s V bl i k → log_inv p s' V bl ∅ → tframe s s' →
  file_state p s' V bl i k ∧ get_inode s' i = get_inode s i.
Proof.
  intros [L M Fo Dv Ix Rm] I F. pose proof (lframe_icache _ _ (tf_frame _ _ F)) as Ei.
  assert (Eg : get_inode s' i = get_inode s i) by (unfold get_inode; by rewrite Ei).
  pose proof (tframe_geom _ _ F) as G. split; [|done].
  split; rewrite ?Eg, ?Ei; [done|by apply (bitmap_ok_geom s)|by apply (file_ok_geom s)|done|done|].
  by eapply room_frame.
Qed.

Lemma readi_loop_spec p i env fuel s V bl off left (ip := get_inode s i) :
  file_state p s V bl i 1 → 0 ≤ off → 0 ≤ left → off + left ≤ MAXFILE * BSIZE →
  mapped V ip (off + left) → (Z.to_nat left ≤ fuel)%nat →
  ∃ s', readi_loop fuel i off left env s = Done (slice V ip off (Z.to_nat left)) s' env ∧
    log_inv p s' V bl ∅ ∧ tframe s s'.
Proof.
  subst ip. revert s off left. induction fuel as [|fuel IH]; intros s off left S Ho Hl Hmax Hm Hf.
  { exists s. replace (Z.to_nat left) with 0%nat by lia. split_and!; [done|apply S|done]. }
  cbn [readi_loop]. destruct (left <=? 0) eqn:E0.
  { apply Z.leb_le in E0. exists s. replace (Z.to_nat left) with 0%nat by lia.
    split_and!; [done|apply S|done]. }
  apply Z.leb_gt in E0. rewrite bind_gets. set (ip := get_inode s i) in *.
  pose proof (Z.mod_pos_bound off BSIZE ltac:(done)) as Hmod.
  pose proof (Z.div_mod off BSIZE ltac:(done)) as Hdiv.
  assert (Hbn : 0 ≤ off / BSIZE < MAXFILE).
  { split; [by apply Z.div_pos|]. apply Z.div_lt_upper_bound; [done|]. lia. }
  assert (Ha : addr V ip (off / BSIZE) ≠ 0) by (apply Hm; lia).
  destruct (bmap_mapped p i env s V bl (off / BSIZE) S Hbn Ha) as (s1 & E1 & I1 & F1).
  fold ip in E1. rewrite (bind_done _ _ _ _ _ _ _ E1). clear E1.
  destruct (file_state_frame _ _ _ _ _ _ _ S I1 F1) as [S1 Eg1].
  pose proof (fo_data (fs_file _ _ _ _ _ _ S) _ Hbn Ha) as Da. fold ip in Da.
  assert (Ed : i_dev ip = ROOTDEV) by apply (fs_dev _ _ _ _ _ _ S). rewrite Ed.
  destruct (log_peek_spec I1 (addr V ip (off / BSIZE)) env)
    as (j & s2 & s3 & E2 & D2 & I2 & F2 & E3 & I3 & F3).
  { rewrite (tframe_disksize _ _ F1). destruct (db_home _ _ _ Da). lia. } { done. } { apply S1. }
  rewrite (bind_done _ _ _ _ _ _ _ E2), bind_gets, D2, (bind_done _ _ _ _ _ _ _ E3). clear E2 E3.
  assert (F13 : tframe s1 s3) by (by etransitivity).
  destruct (file_state_frame _ _ _ _ _ _ _ S1 I3 F13) as [S3 Eg3].
  set (m := Z.min left (BSIZE - off `mod` BSIZE)). assert (Hmr : 1 ≤ m ≤ left) by (unfold m; lia).
  destruct (IH s3 (off + m) (left - m)) as (s4 & E4 & I4 & F4); [done|lia|lia|lia| |lia|].
  { rewrite Eg3, Eg1. by replace (off + m + (left - m)) with (off + left) by lia. }
  rewrite (bind_done _ _ _ _ _ _ _ E4). clear E4. exists s4.
  split_and!; [|done|by etransitivity; [exact F1|]; etransitivity; [exact F13|]].
  unfold ret. f_equal. rewrite Eg3, Eg1. fold ip.
  replace (V (addr V ip (off / BSIZE))) with (fblock V ip (off / BSIZE))
    by (unfold fblock; by rewrite (proj2 (Z.eqb_neq _ _))).
  rewrite slice_in_block; [|done|unfold m; lia|by eapply length_fblock; [apply S|]].
  replace (Z.to_nat left) with (Z.to_nat m + Z.to_nat (left - m))%nat by lia.
  rewrite slice_app, Z2Nat.id by lia. done.
Qed.

Section rw.
Context `{Devsw}.

(** [readi] of a file or directory whose blocks exist returns the bytes it
    has from [off] on, as many as are asked for and the file has, and
    changes nothing; a bad offset is refused. *)
Lemma readi_spec p i env s V bl off n (ip := get_inode s i) :
  file_state p s V bl i 1 → i_type ip ≠ T_DEV → 0 ≤ i_size ip ≤ MAXFILE * BSIZE →
  mapped V ip (i_size ip) → is_u32 off → is_u32 n →
  let n' := Z.min n (i_size ip - off) in
  if (i_size ip <? off) || (4294967296 <=? off + n) then readi i off n env s = Done (-1, []) s env
  else ∃ s', readi i off n env s = Done (n', slice V ip off (Z.to_nat n')) s' env ∧
    log_inv p s' V bl ∅ ∧ tframe s s'.
Proof.
  intros S Ht Hs Hm Ho Hn n'. unfold is_u32 in *. unfold readi. rewrite bind_gets. fold ip.
  rewrite (proj2 (Z.eqb_neq _ _)) by done. change (MAXFILE * BSIZE) with 71680 in Hs.
  destruct (i_size ip <? off) eqn:E1; [done|]. apply Z.ltb_ge in E1. simpl orb.
  destruct (4294967296 <=? off + n) eqn:E2.
  { apply Z.leb_le in E2. assert (u32 (off + n) = off + n - 4294967296) as ->.
    { unfold u32. rewrite <-(Z_mod_plus_full _ (-1)), Z.mod_small by lia. lia. }
    by rewrite (proj2 (Z.ltb_lt _ _)) by lia. }
  apply Z.leb_gt in E2. rewrite (u32_small (off + n)) by (unfold is_u32; lia).
  rewrite (proj2 (Z.ltb_ge (off + n) off)) by lia.
  assert (En : (if i_size ip <? off + n then i_size ip - off else n) = n').
  { unfold n'. destruct (i_size ip <? off + n) eqn:E; [apply Z.ltb_lt in E|apply Z.ltb_ge in E]; lia. }
  mred. rewrite En.
  destruct (readi_loop_spec p i env (Z.to_nat n') s V bl off n') as (s' & E & I & F);
    [done|lia|unfold n'; lia|change (MAXFILE * BSIZE) with 71680; unfold n'; lia| |done|].
  { intros bn Hb Hlt. apply Hm; [done|]. unfold n' in Hlt. fold ip in Hlt. lia. }
  exists s'. by rewrite (bind_done _ _ _ _ _ _ _ E).
Qed.
End rw.

(** ** writei *)
Lemma lookup_total_inserts o (k d : list Z) j :
  (o + length k ≤ length d)%nat →
  list_inserts o k d !!! j = if decide (o ≤ j < o + length k)%nat then k !!! (j - o)%nat else d !!! j.
Proof.
  intros HL. rewrite !list_lookup_total_alt. case_decide as E.
  - by rewrite list_lookup_inserts by lia.
  - destruct (decide (j < o)%nat); [by rewrite list_lookup_inserts_lt|].
    by rewrite list_lookup_inserts_ge by lia.
Qed.

(** Storing into a block of the file. *)
Section store.
Context (s : kstate) (V : Z → block) (ip : inode) (bn : Z) (d : block).
Context (F : file_ok s V ip) (M : bitmap_ok s V).
Context (Hb : 0 ≤ bn < MAXFILE) (Ha : addr V ip bn ≠ 0) (Hd : length d = 512%nat).
Let V' := <[addr V ip bn := d]> V.

Lemma store_data : data_block s V (addr V ip bn).
Proof. by apply F. Qed.

Lemma store_addr b : addr V' ip b = addr V ip b.
Proof.
  unfold addr at 1 2. destruct (b <? NDIRECT); [done|]. destruct (ind_addr ip =? 0) eqn:E; [done|].
  apply Z.eqb_neq in E. unfold V'. rewrite fn_lookup_insert_ne; [done|]. by apply F.
Qed.

Lemma store_fblock b : 0 ≤ b < MAXFILE → fblock V' ip b = if decide (b = bn) then d else fblock V ip b.
Proof.
  intros Hbb. unfold fblock. rewrite store_addr. destruct (decide (b = bn)) as [->|Hne].
  - rewrite (proj2 (Z.eqb_neq _ _)) by done. apply fn_lookup_insert.
  - destruct (addr V ip b =? 0) eqn:E; [done|]. apply Z.eqb_neq in E.
    unfold V'. rewrite fn_lookup_insert_ne; [done|]. intros E'. apply Hne.
    symmetry. by apply (fo_inj F).
Qed.

Lemma store_file_ok : file_ok s V' ip.
Proof.
  destruct (data_store s V _ d store_data Hd) as [Em Hds]. fold V' in Em, Hds.
  split; [apply F|..].
  - intros Hi. by apply Hds, F.
  - intros b Hbb. rewrite store_addr. intros. by apply Hds, F.
  - intros b b' Hb1 Hb2. rewrite !store_addr. by apply F.
  - intros b Hbb. rewrite store_addr. by apply F.
Qed.

Lemma store_bitmap : bitmap_ok s V'.
Proof. apply (bitmap_ok_ext s V); [|done]. apply data_store; [apply store_data|done]. Qed.

Lemma store_grows : grows s V ip V' ip.
Proof.
  split.
  - intros a D. split; [by apply data_store; [apply store_data| |]|].
    intros N. unfold V'. rewrite fn_lookup_insert_ne; [done|]. intros <-. apply N.
    split; [done|]. right. by exists bn.
  - intros a [H0 [->|(b & Hbb & ->)]]; left; (split; [done|]); [by left|right].
    exists b. split; [done|]. apply store_addr.
  - intros b _. by rewrite store_addr.
Qed.
End store.

(** Nothing changed is a change of the block addresses. *)
Lemma addrs_same s i :
  ∃ l, k_icache s = alter (λ ip, ip <| i_addrs := l |>) i (k_icache s).
Proof.
  exists (i_addrs (get_inode s i)). symmetry.
  rewrite (alter_ext_total _ id); [by apply list_alter_id|]. unfold get_inode. by destruct (_ !!! i).
Qed.

(** [bmap_post] without the statement about the contents. *)
Definition write_post (p i k : nat) (s : kstate) (V : Z → block) (s' : kstate) (V' : Z → block)
    (bl' : list Z) : Prop :=
  file_state p s' V' bl' i k ∧ iframe s s' ∧
  (∃ l, k_icache s' = alter (λ ip, ip <| i_addrs := l |>) i (k_icache s)) ∧
  grows s V (get_inode s i) V' (get_inode s' i).

Lemma write_post_trans p i k k1 s V s1 V1 bl1 s2 V2 bl2 :
  write_post p i k1 s V s1 V1 bl1 → write_post p i k s1 V1 s2 V2 bl2 → write_post p i k s V s2 V2 bl2.
Proof.
  intros (S1 & F1 & (l1 & L1) & G1) (S2 & F2 & (l2 & L2) & G2).
  split_and!; [done|by etransitivity|..].
  - exists l2. rewrite L2, L1, list_alter_alter_eq. by apply alter_ext_total.
  - eapply grows_trans; [done|]. eapply grows_geom; [|done].
    by apply same_geom_sym, iframe_geom.
Qed.

(** One round of the loop of [writei]: the bytes [c] at offset [o] of block
    [bn]. *)
Lemma write_block_spec p i k env s V bl bn o c (ip := get_inode s i) :
  file_state p s V bl i (7 + k) → 0 ≤ bn < MAXFILE → (o + length c ≤ 512)%nat →
  (addr <- bmap i bn ;; bp <- bread ROOTDEV addr ;;
   (upd_buf bp (λ q, q <| b_data ::= list_inserts o c |>) ;; log_write bp) ;; brelse bp) env s
    = Panic "balloc: out of blocks" ∧ (nfree V (k_sb s) < missing V ip [bn])%nat ∨
  ∃ s' V' bl',
    (addr <- bmap i bn ;; bp <- bread ROOTDEV addr ;;
     (upd_buf bp (λ q, q <| b_data ::= list_inserts o c |>) ;; log_write bp) ;; brelse bp) env s
      = Done tt s' env ∧
    write_post p i k s V s' V' bl' ∧ added V ip V' (get_inode s' i) bn ∧
    nfree V (k_sb s) = (nfree V' (k_sb s) + missing V ip [bn])%nat ∧
    ∀ b, 0 ≤ b < MAXFILE → fblock V' (get_inode s' i) b =
      if decide (b = bn) then list_inserts o c (fblock V ip bn) else fblock V ip b.
Proof.
  intros S Hb Hc. destruct (bmap_spec p i (1 + k) env s V bl bn S Hb) as
    [[P N]|(a & s1 & V1 & bl1 & E1 & (S1 & F1 & L1 & B1 & G1) & Ha & Ad & N1)]; [left; split; [by apply bind_panic|done]|right].
  rewrite (bind_done _ _ _ _ _ _ _ E1). clear E1. set (ip1 := get_inode s1 i) in *.
  assert (Ha0 : a ≠ 0) by (rewrite <-Ha; apply Ad).
  pose proof S1 as [I1 M1 Fo1 Dv1 Ix1 R1]. fold ip1 in Fo1, Dv1. rewrite <-Ha in *.
  pose proof (fo_data Fo1 bn Hb Ha0) as Da.
  destruct (log_bread_spec I1 (addr V1 ip1 bn) env) as (j & s2 & E2 & I2 & F2);
    [destruct (db_home _ _ _ Da); lia|done|right; destruct R1; lia|].
  rewrite (bind_done _ _ _ _ _ _ _ E2). clear E2.
  destruct (log_modify_spec _ j I2 (list_inserts o c) env k) as (s3 & E3 & I3 & F3 & R3);
    [done|apply (tframe_home _ _ _ F2), Da|pose proof (db_one _ _ _ Da); lia|by eapply room_frame|].
  assert (HL : length (list_inserts o c (V1 (addr V1 ip1 bn))) = 512%nat)
    by (rewrite length_inserts; apply Da).
  assert (F13 : tframe s1 s3) by (by etransitivity).
  pose proof (lframe_icache _ _ (tf_frame _ _ F13)) as Ei.
  assert (Eg : get_inode s3 i = ip1) by (unfold ip1, get_inode; by rewrite Ei).
  pose proof (tframe_geom _ _ F13) as G13.
  eexists s3, _, _. split; [exact E3|]. clear E3. split_and!.
  - eapply (write_post_trans _ _ _ (1 + k) _ _ s1 V1 bl1); [by split_and!|].
    unfold write_post. rewrite Eg. fold ip1. split_and!.
    + split; rewrite ?Eg; [exact I3| | |done|by rewrite Ei|exact R3].
      * by apply (bitmap_ok_geom s1), store_bitmap.
      * by apply (file_ok_geom s1), store_file_ok.
    + by apply tframe_iframe.
    + rewrite Ei. apply addrs_same.
    + by apply store_grows.
  - rewrite Eg. pose proof (store_addr s1 V1 ip1 bn (list_inserts o c (V1 (addr V1 ip1 bn))) Fo1 Hb) as Sa. destruct Ad as [A1 A2 A3].
    split; [by rewrite Sa|intros b Hbb Hne; rewrite Sa; by apply A2|done].
  - unfold ip. rewrite N1. f_equal. symmetry. apply nfree_ext. intros x Hx. rewrite <-(proj1 (iframe_geom _ _ F1)) in Hx |- *.
    apply (used_ext s1); [|done]. by apply data_store.
  - intros b Hbb. rewrite Eg, (store_fblock s1 V1 ip1 bn _ Fo1 Hb Ha0 b Hbb).
    case_decide; [|by apply B1]. unfold ip. rewrite <-(B1 bn Hb). unfold fblock at 1.
    fold ip1. by rewrite (proj2 (Z.eqb_neq _ _)).
Qed.

Lemma fbyte_write V ip V' ip' bn o c x :
  0 ≤ x < MAXFILE * BSIZE → length (fblock V ip bn) = 512%nat → (o + length c ≤ 512)%nat → 0 ≤ bn →
  (∀ b, 0 ≤ b < MAXFILE → fblock V' ip' b =
      if decide (b = bn) then list_inserts o c (fblock V ip bn) else fblock V ip b) →
  fbyte V' ip' x =
    if decide (bn * BSIZE + Z.of_nat o ≤ x < bn * BSIZE + Z.of_nat o + Z.of_nat (length c))
    then c !!! Z.to_nat (x - (bn * BSIZE + Z.of_nat o)) else fbyte V ip x.
Proof.
  intros Hx HL Hc Hbn HF. unfold fbyte. pose proof (Z.mod_pos_bound x BSIZE ltac:(done)).
  pose proof (Z.div_mod x BSIZE ltac:(done)) as Hd.
  assert (Hq : 0 ≤ x / BSIZE < MAXFILE).
  { split; [apply Z.div_pos; [lia|done]|apply Z.div_lt_upper_bound; [done|lia]]. }
  rewrite HF by done. change BSIZE with 512 in *. destruct (decide (x / 512 = bn)) as [E|E].
  - rewrite lookup_total_inserts by lia. rewrite E. repeat case_decide; try (f_equal; lia); lia.
  - rewrite decide_False; [done|]. intros Hr. apply E.
    symmetry. apply (Z.div_unique x 512 bn (x - 512 * bn)); lia.
Qed.

(** What [n] bytes written at [off] make of the contents of a file. *)
Definition overwritten (V : Z → block) (ip : inode) (V' : Z → block) (ip' : inode) (off : Z)
    (src : list Z) : Prop :=
  ∀ x, 0 ≤ x < MAXFILE * BSIZE → fbyte V' ip' x =
    if decide (off ≤ x < off + Z.of_nat (length src)) then src !!! Z.to_nat (x - off) else fbyte V ip x.

Lemma overwritten_app V ip V1 ip1 V2 ip2 off c src :
  overwritten V ip V1 ip1 off c → overwritten V1 ip1 V2 ip2 (off + Z.of_nat (length c)) src →
  overwritten V ip V2 ip2 off (c ++ src).
Proof.
  intros H1 H2 x Hx. rewrite H2, H1, length_app by done.
  repeat case_decide; try lia; rewrite ?lookup_total_app_l, ?lookup_total_app_r by lia; try (f_equal; lia); done.
Qed.

Lemma block_of off left :
  0 ≤ off → 0 < left → off + left ≤ MAXFILE * BSIZE → 0 ≤ off / BSIZE < MAXFILE.
Proof.
  intros. split; [by apply Z.div_pos|]. apply Z.div_lt_upper_bound; [done|]. lia.
Qed.

Lemma next_round off left r (m := Z.min left (BSIZE - off `mod` BSIZE)) :
  0 < left → off `mod` BSIZE + left ≤ Z.of_nat (S r) * BSIZE → 0 ≤ off →
  (off + m) `mod` BSIZE + (left - m) ≤ Z.of_nat r * BSIZE ∨ left - m = 0.
Proof.
  intros Hl Hr Ho. unfold m. pose proof (Z.mod_pos_bound off BSIZE ltac:(done)) as Hmod.
  destruct (Z.le_ge_cases left (BSIZE - off `mod` BSIZE)); [right; lia|left].
  rewrite Z.min_r by done. pose proof (Z.div_mod off BSIZE ltac:(done)) as Hdiv.
  assert ((off + (BSIZE - off `mod` BSIZE)) `mod` BSIZE = 0) as ->.
  { replace (off + (BSIZE - off `mod` BSIZE)) with ((off / BSIZE + 1) * BSIZE) by lia.
    by apply Z_mod_mult. }
  lia.
Qed.

(** The blocks that [left] bytes from [off] on are in. *)
Definition blocks (off left : Z) : list Z :=
  if left <=? 0 then [] else seqZ (off / BSIZE) ((off + left - 1) / BSIZE - off / BSIZE + 1).

Lemma blocks_cons off left (m := Z.min left (BSIZE - off `mod` BSIZE)) : 0 ≤ off → 0 < left →
  blocks off left = off / BSIZE :: blocks (off + m) (left - m) ∧ off / BSIZE ∉ blocks (off + m) (left - m).
Proof.
  intros Ho Hl. pose proof (Z.mod_pos_bound off BSIZE ltac:(done)) as Hmod. pose proof (Z.div_mod off BSIZE ltac:(done)) as Hd.
  change BSIZE with 512 in *. unfold blocks. change BSIZE with 512. rewrite (proj2 (Z.leb_gt left 0)) by done.
  destruct (Z.le_gt_cases left (512 - off `mod` 512)) as [Hs|Hs].
  - replace m with left by (unfold m; lia). rewrite Z.sub_diag. cbn [Z.leb Z.compare].
    replace ((off + left - 1) / 512) with (off / 512) by (Z.to_euclidean_division_equations; lia).
    rewrite Z.sub_diag. split; [done|apply not_elem_of_nil].
  - replace m with (512 - off `mod` 512) by (unfold m; lia). rewrite (proj2 (Z.leb_gt _ 0)) by lia.
    replace ((off + (512 - off `mod` 512)) / 512) with (off / 512 + 1) by (Z.to_euclidean_division_equations; lia).
    replace (off + (512 - off `mod` 512) + (left - (512 - off `mod` 512)) - 1) with (off + left - 1) by lia.
    split; [|rewrite elem_of_seqZ; lia].
    rewrite seqZ_cons by (Z.to_euclidean_division_equations; lia). unfold Z.succ, Z.pred. f_equal. f_equal. lia.
Qed.

Lemma blocks_range off left : 0 ≤ off → off + left ≤ MAXFILE * BSIZE → Forall (λ b, 0 ≤ b < MAXFILE) (blocks off left).
Proof.
  intros Ho Hm. unfold blocks. destruct (Z.leb_spec left 0); [constructor|]. apply Forall_forall. intros b Hb%elem_of_seqZ.
  change BSIZE with 512 in *. change MAXFILE with 140 in *. Z.to_euclidean_division_equations. lia.
Qed.

(** The loop of [writei], [r] the number of blocks it touches: each round
    may need the seven log slots of [write_block_spec]. *)
Lemma writei_loop_spec p i k env fuel r s V bl src off left (ip := get_inode s i) :
  file_state p s V bl i (7 * r + k) → 0 ≤ off → 0 ≤ left → off + left ≤ MAXFILE * BSIZE →
  off `mod` BSIZE + left ≤ Z.of_nat r * BSIZE ∨ left = 0 → length src = Z.to_nat left →
  (Z.to_nat left ≤ fuel)%nat →
  writei_loop fuel i src off left env s = Panic "balloc: out of blocks" ∧ (nfree V (k_sb s) < missing V ip (blocks off left))%nat ∨
  ∃ s' V' bl', writei_loop fuel i src off left env s = Done tt s' env ∧
    write_post p i k s V s' V' bl' ∧ overwritten V ip V' (get_inode s' i) off src ∧
    nfree V (k_sb s) = (nfree V' (k_sb s) + missing V ip (blocks off left))%nat ∧
    ∀ x, off ≤ x < off + left → addr V' (get_inode s' i) (x / BSIZE) ≠ 0.
Proof.
  subst ip. revert r s V bl src off left.
  assert (Hz : ∀ r s V bl src off left, file_state p s V bl i (7 * r + k) → left ≤ 0 →
    length src = Z.to_nat left → ∃ s' V' bl', @ret kstate _ tt env s = Done tt s' env ∧
    write_post p i k s V s' V' bl' ∧ overwritten V (get_inode s i) V' (get_inode s' i) off src ∧
    nfree V (k_sb s) = (nfree V' (k_sb s) + missing V (get_inode s i) (blocks off left))%nat ∧
    ∀ x, off ≤ x < off + left → addr V' (get_inode s' i) (x / BSIZE) ≠ 0).
  { intros r s V bl src off left S Hl HL. exists s, V, bl. split; [done|]. split_and!; [| |unfold blocks; rewrite (proj2 (Z.leb_le _ _)) by done; symmetry; apply Nat.add_0_r|lia].
    - split_and!; [by eapply file_state_le; [|exact S]; lia|done|apply addrs_same|apply grows_refl].
    - intros x Hx. by rewrite decide_False by lia. }
  induction fuel as [|fuel IH]; intros r s V bl src off left S Ho Hl Hmax Hr HL Hf.
  { right. apply (Hz r s V bl src off left); [done|lia|done]. }
  cbn [writei_loop]. destruct (left <=? 0) eqn:E0.
  { apply Z.leb_le in E0. right. by apply (Hz r s V bl src off left). }
  apply Z.leb_gt in E0. clear Hz. rewrite bind_gets. set (ip := get_inode s i) in *.
  pose proof (Z.mod_pos_bound off BSIZE ltac:(done)) as Hmod.
  pose proof (Z.div_mod off BSIZE ltac:(done)) as Hdiv.
  pose proof (block_of off left Ho E0 Hmax) as Hbn.
  assert (Ed : i_dev ip = ROOTDEV) by apply (fs_dev _ _ _ _ _ _ S). rewrite Ed. cbv zeta.
  set (m := Z.min left (BSIZE - off `mod` BSIZE)). assert (Hmr : 1 ≤ m ≤ left) by (unfold m; lia).
  destruct Hr as [Hr|]; [|lia]. destruct r as [|r]; [lia|].
  destruct (blocks_cons off left Ho E0 : _ = _ :: blocks (off + m) (left - m) ∧ _ ∉ blocks (off + m) (left - m)) as [Bc Bn].
  set (c := take (Z.to_nat m) src).
  assert (Hc : length c = Z.to_nat m) by (unfold c; rewrite length_take; lia).
  rewrite bind_round.
  destruct (write_block_spec p i (7 * r + k) env s V bl (off / BSIZE) (Z.to_nat (off `mod` BSIZE)) c)
    as [[P N]|(s1 & V1 & bl1 & E1 & W1 & A1 & N1 & B1)];
    [eapply file_state_le; [|exact S]; lia|done|change BSIZE with 512 in *; lia|
     left; split; [by apply bind_panic|]; fold ip in N; rewrite Bc; eapply Nat.lt_le_trans; [exact N|apply missing_head]|].
  rewrite (bind_done _ _ _ _ _ _ _ E1). clear E1. fold ip in A1, N1.
  assert (Mc : missing V ip (blocks off left) = Nat.add (missing V ip [off / BSIZE]) (missing V1 (get_inode s1 i) (blocks (off + m) (left - m)))).
  { rewrite Bc. apply missing_cons; [done|apply blocks_range; lia|done]. }
  assert (Esb : k_sb s1 = k_sb s) by apply (iframe_sb _ _ (proj1 (proj2 W1))).
  assert (O1 : overwritten V ip V1 (get_inode s1 i) off c).
  { intros x Hx. rewrite (fbyte_write V ip V1 _ (off / BSIZE) (Z.to_nat (off `mod` BSIZE)) c x);
      [|done|by eapply length_fblock; [apply S|]|change BSIZE with 512 in *; lia|lia|exact B1].
    rewrite Z2Nat.id by lia. by replace (off / BSIZE * BSIZE + off `mod` BSIZE) with off by lia. }
  destruct (IH r s1 V1 bl1 (drop (Z.to_nat m) src) (off + m) (left - m))
    as [[P N]|(s2 & V2 & bl2 & E2 & W2 & O2 & N2 & A2)];
    [apply W1|lia|lia|lia|by apply (next_round off left)|rewrite length_drop; lia|lia|left; split; [done|]; rewrite Esb in N; lia|right].
  exists s2, V2, bl2. split; [done|]. rewrite Esb in N2. split_and!; [by eapply write_post_trans| |lia|].
  - rewrite <-(take_drop (Z.to_nat m) src). fold c. eapply overwritten_app; [exact O1|].
    by rewrite Hc, Z2Nat.id by lia.
  - intros x Hx. destruct A1 as [A1 _ _]. destruct (Z.le_gt_cases (off + m) x); [apply A2; lia|].
    destruct W2 as (_ & _ & _ & G2). apply (gr_mono _ _ _ _ _ G2).
    + apply (block_of x (off + left - x)); lia.
    + destruct (off_split off (x - off)) as [E _]; [done|unfold m in *; lia|].
      rewrite Zplus_minus in E. by rewrite E.
Qed.

(** ** Stores to a block of somebody else *)
Section apart.
Context (s : kstate) (V : Z → block) (ip : inode) (a : Z) (d : block).
Context (F : file_ok s V ip) (D : data_block s V a) (N : ¬ owns V ip a) (Hd : length d = 512%nat).
Let V' := <[a := d]> V.

Lemma apart_addr b : addr V' ip b = addr V ip b.
Proof.
  unfold addr at 1 2. destruct (b <? NDIRECT); [done|]. destruct (ind_addr ip =? 0) eqn:E; [done|].
  apply Z.eqb_neq in E. unfold V'. rewrite fn_lookup_insert_ne; [done|].
  intros ->. apply N. split; [done|by left].
Qed.

Lemma apart_fblock b : 0 ≤ b < MAXFILE → fblock V' ip b = fblock V ip b.
Proof.
  intros Hb. unfold fblock. rewrite apart_addr. destruct (addr V ip b =? 0) eqn:E; [done|].
  apply Z.eqb_neq in E. unfold V'. rewrite fn_lookup_insert_ne; [done|].
  intros ->. apply N. split; [done|right; by exists b].
Qed.

Lemma apart_file_ok : file_ok s V' ip.
Proof.
  destruct (data_store s V _ d D Hd) as [Em Hds]. fold V' in Em, Hds. split; [apply F|..].
  - intros Hi. by apply Hds, F.
  - intros b Hbb. rewrite apart_addr. intros. by apply Hds, F.
  - intros b b' Hb1 Hb2. rewrite !apart_addr. by apply F.
  - intros b Hbb. rewrite apart_addr. by apply F.
Qed.
End apart.

(** An inode that differs from another in its size only has the same blocks. *)
Definition resized (ip : inode) (n : Z) : inode := ip <| i_size := n |>.

Lemma fblock_resized V ip n b : fblock V (resized ip n) b = fblock V ip b.
Proof. done. Qed.

Lemma overwritten_ext V ip V1 ip1 V2 ip2 off src :
  overwritten V ip V1 ip1 off src → (∀ b, 0 ≤ b < MAXFILE → fblock V2 ip2 b = fblock V1 ip1 b) →
  overwritten V ip V2 ip2 off src.
Proof.
  intros O E x Hx. rewrite <-O by done. unfold fbyte. rewrite E; [done|].
  apply (block_of x 1); lia.
Qed.

(** The inode of the file lives in a block of its own, marked in the bitmap. *)
Definition inode_apart (s : kstate) (V : Z → block) (ip : inode) : Prop :=
  0 ≤ i_inum ip ∧ data_block s V (IBLOCK (i_inum ip) (k_sb s)) ∧
  ¬ owns V ip (IBLOCK (i_inum ip) (k_sb s)).

(** [ip->size = off; iupdate(ip);] *)
Lemma resize_spec p i k env s V bl n (ip := get_inode s i) (a := IBLOCK (i_inum ip) (k_sb s)) :
  file_state p s V bl i (S k) → inode_apart s V ip →
  ∃ s' bl' (V' := <[a := put_dinode (dinode_of (resized ip n)) (dioff (i_inum ip)) (V a)]> V),
    (upd_inode i (λ ip, ip <| i_size := n |>) ;; iupdate i) env s = Done tt s' env ∧
    file_state p s' V' bl' i k ∧ iframe s s' ∧ get_inode s' i = resized ip n ∧
    k_icache s' = alter (λ ip, resized ip n) i (k_icache s) ∧
    (∀ b, 0 ≤ b < MAXFILE → fblock V' ip b = fblock V ip b) ∧ (∀ b, addr V' ip b = addr V ip b).
Proof.
  intros [L M Fo Dv Ix R] (H0 & Da & Na). fold ip a in Fo, Dv, Da, Na.
  unfold upd_inode. rewrite bind_modify.
  set (s1 := s <| k_icache ::= alter (λ ip, ip <| i_size := n |>) i |>).
  assert (E1 : get_inode s1 i = resized ip n) by (unfold s1; by rewrite get_inode_alter).
  assert (I1 : log_inv p s1 V bl ∅) by (by apply log_inv_icache).
  destruct (iupdate_spec I1 i env k) as (s' & E & I & F & R'); rewrite ?E1 in *.
  { done. } { destruct Da. split; [done|done|simpl; fold a; lia|done]. } { done. } { by destruct R; split. }
  change (i_inum (resized ip n)) with (i_inum ip) in *. change (k_sb s1) with (k_sb s) in *. fold a in I, R'.
  pose proof (lframe_icache _ _ (tf_frame _ _ F)) as Ei.
  assert (Eg : get_inode s' i = resized ip n) by (rewrite <-E1; unfold get_inode; by rewrite Ei).
  assert (Fr : iframe s s') by (etransitivity; [apply iframe_icache|by apply tframe_iframe]).
  assert (HL : length (put_dinode (dinode_of (resized ip n)) (dioff (i_inum ip)) (V a)) = 512%nat)
    by (rewrite length_put_dinode; apply Da).
  exists s', (add_block a bl). split; [exact E|]. split_and!.
  - split; rewrite ?Eg; [exact I| | |done|rewrite Ei; simpl; by rewrite length_alter|exact R'].
    + apply (bitmap_ok_geom s), (bitmap_ok_ext s V); [by apply iframe_geom|by apply data_store|done].
    + apply (file_ok_geom s); [by apply iframe_geom|].
      destruct (apart_file_ok s V ip a _ Fo Da Na HL) as [O1 O2 O3 O4 O5]. by split.
  - done.
  - done.
  - by rewrite Ei.
  - intros b Hb. by apply (apart_fblock s V ip a _ Da Na).
  - intros b. by apply (apart_addr s V ip a _ Da Na).
Qed.

Lemma inode_apart_geom s s' V ip : same_geom s s' → inode_apart s V ip → inode_apart s' V ip.
Proof.
  intros G (H0 & D & N). unfold inode_apart. pose proof G as (-> & _). split_and!; [done| |done].
  by apply (data_block_geom s).
Qed.

Lemma inode_apart_grows s V ip V' ip' :
  i_inum ip' = i_inum ip → grows s V ip V' ip' → inode_apart s V ip → inode_apart s V' ip'.
Proof.
  intros E [K O _] (H0 & D & N). unfold inode_apart. rewrite E. split_and!; [done|by apply K|].
  by intros [?|?]%O.
Qed.

Lemma write_post_inode p i k s V s' V' bl' :
  write_post p i k s V s' V' bl' → (i < length (k_icache s))%nat →
  ∃ l, get_inode s' i = (get_inode s i) <| i_addrs := l |>.
Proof.
  intros (_ & _ & (l & El) & _) Hi. exists l. unfold get_inode. rewrite El.
  destruct (lookup_lt_is_Some_2 _ _ Hi) as [x Hx].
  by rewrite !list_lookup_total_alt, list_lookup_alter_eq, Hx.
Qed.

Lemma mapped_write s V ip V' ip' off n size :
  grows s V ip V' ip' → mapped V ip size → 0 ≤ off ≤ size → 0 ≤ n → off + n ≤ MAXFILE * BSIZE →
  size ≤ MAXFILE * BSIZE → (∀ x, off ≤ x < off + n → addr V' ip' (x / BSIZE) ≠ 0) →
  mapped V' ip' (Z.max size (off + n)).
Proof.
  intros G Hm Ho Hn Hmax Hs Ha b Hb Hlt.
  assert (Hbm : b < MAXFILE) by (apply (Z.mul_lt_mono_pos_r BSIZE); [done|lia]).
  destruct (Z.lt_ge_cases (b * BSIZE) size) as [Hl|Hl]; [by apply (gr_mono _ _ _ _ _ G), Hm|].
  specialize (Ha (b * BSIZE)). rewrite Z.div_mul in Ha by done. apply Ha. lia.
Qed.

Section wr.
Context `{Devsw}.

(** What a successful [writei] leaves: the bytes at [off] on are those of
    [src], the others are as before, the size covers them, and if the file
    grew its inode is in the log. *)
Record written (p i k : nat) (s : kstate) (V : Z → block) (s' : kstate) (V' : Z → block)
    (bl' : list Z) (off : Z) (src : list Z) : Prop := {
  wn_state : file_state p s' V' bl' i k;
  wn_frame : iframe s s';
  wn_bytes : overwritten V (get_inode s i) V' (get_inode s' i) off src;
  wn_inode : ∃ l, get_inode s' i = (get_inode s i) <| i_addrs := l |>
    <| i_size := Z.max (i_size (get_inode s i)) (off + Z.of_nat (length src)) |>;
  wn_mapped : mapped V (get_inode s i) (i_size (get_inode s i)) →
    mapped V' (get_inode s' i) (i_size (get_inode s' i));
  wn_disk : i_size (get_inode s i) < off + Z.of_nat (length src) →
    ∃ d, length d = 512%nat ∧ V' (IBLOCK (i_inum (get_inode s i)) (k_sb s)) =
      put_dinode (dinode_of (get_inode s' i)) (dioff (i_inum (get_inode s i))) d;
  wn_count : nfree V (k_sb s) = (nfree V' (k_sb s) + missing V (get_inode s i) (blocks off (Z.of_nat (length src))))%nat }.

Lemma writei_spec p i k env r s V bl off src (ip := get_inode s i) (n := Z.of_nat (length src)) :
  file_state p s V bl i (S (7 * r + k)) → i_type ip ≠ T_DEV → 0 ≤ i_size ip ≤ MAXFILE * BSIZE →
  inode_apart s V ip → is_u32 off → is_u32 n → off `mod` BSIZE + n ≤ Z.of_nat r * BSIZE →
  if (i_size ip <? off) || (MAXFILE * BSIZE <? off + n)
  then writei i src off n env s = Done (-1) s env
  else writei i src off n env s = Panic "balloc: out of blocks" ∧ (nfree V (k_sb s) < missing V ip (blocks off n))%nat ∨
       ∃ s' V' bl', writei i src off n env s = Done n s' env ∧ written p i k s V s' V' bl' off src.
Proof.
  intros S Ht Hs Ia Ho Hn Hr. unfold is_u32 in *. unfold writei. rewrite bind_gets. fold ip.
  rewrite (proj2 (Z.eqb_neq _ _)) by done. change (MAXFILE * BSIZE) with 71680 in *.
  destruct (i_size ip <? off) eqn:E1; [done|]. apply Z.ltb_ge in E1. simpl orb.
  destruct (71680 <? off + n) eqn:E2.
  { apply Z.ltb_lt in E2. destruct (u32 (off + n) <? off) eqn:E3; [done|].
    replace (71680 <? u32 (off + n)) with true; [done|]. symmetry. apply Z.ltb_lt. apply Z.ltb_ge in E3.
    destruct (Z.lt_ge_cases (off + n) 4294967296); [by rewrite u32_small by (unfold is_u32; lia)|].
    exfalso. assert (u32 (off + n) = off + n - 4294967296); [|lia].
    unfold u32. rewrite <-(Z_mod_plus_full _ (-1)), Z.mod_small by lia. lia. }
  apply Z.ltb_ge in E2. rewrite (u32_small (off + n)) by (unfold is_u32; lia).
  rewrite (proj2 (Z.ltb_ge (off + n) off)) by lia. cbn [orb]. rewrite (proj2 (Z.ltb_ge 71680 (off + n))) by lia.
  destruct (writei_loop_spec p i (Datatypes.S k) env (Z.to_nat n) r s V bl src off n)
    as [[P N]|(s1 & V1 & bl1 & E & W & O & N & A)];
    [by eapply file_state_le; [|exact S]; lia|lia|lia|done|by left|unfold n; lia|done|
     left; split; [by apply bind_panic|exact N]|right].
  fold ip in O, N. rewrite (bind_done _ _ _ _ _ _ _ E), bind_gets. clear E.
  destruct (write_post_inode _ _ _ _ _ _ _ _ W (fs_idx _ _ _ _ _ _ S)) as [l El]. fold ip in El.
  pose proof W as (S1 & F1 & _ & G1). fold ip in G1.
  assert (Es : i_size (get_inode s1 i) = i_size ip) by (by rewrite El).
  assert (Ei : i_inum (get_inode s1 i) = i_inum ip) by (by rewrite El).
  assert (Hmp : mapped V ip (i_size ip) → mapped V1 (get_inode s1 i) (Z.max (i_size ip) (off + n))).
  { intros Hm. apply (mapped_write s V ip); (done || lia || (change (MAXFILE * BSIZE) with 71680; lia)). }
  rewrite Es. destruct (i_size ip <? off + n) eqn:E3; [apply Z.ltb_lt in E3|apply Z.ltb_ge in E3].
  - rewrite (proj2 (Z.ltb_lt 0 n)) by lia. cbn [andb when].
    assert (Ia1 : inode_apart s1 V1 (get_inode s1 i)).
    { apply (inode_apart_geom s); [by apply iframe_geom|]. by apply (inode_apart_grows s V ip). }
    destruct (resize_spec p i k env s1 V1 bl1 (off + n) S1 Ia1) as (s2 & bl2 & E & S2 & F2 & Eg2 & _ & B2 & A2).
    rewrite Ei, (iframe_sb _ _ F1) in S2, B2, A2.
    rewrite (bind_done _ _ _ _ _ _ _ E). eexists s2, _, bl2. split; [reflexivity|].
    split; [exact S2|by etransitivity|..]; fold ip n; rewrite ?Eg2.
    + eapply overwritten_ext; [exact O|]. exact B2.
    + exists l. rewrite El, Z.max_r by lia. done.
    + intros Hm%Hmp b Hb Hlt. unfold addr. simpl. specialize (Hm b Hb). rewrite Z.max_r in Hm by lia.
      rewrite <-A2 in Hm. by apply Hm.
    + intros _. exists (V1 (IBLOCK (i_inum ip) (k_sb s))). rewrite fn_lookup_insert. split; [|done].
      destruct Ia1 as (_ & D & _). rewrite Ei, (iframe_sb _ _ F1) in D. apply D.
    + rewrite N. f_equal. symmetry. apply nfree_ext. intros x Hx. rewrite <-(iframe_sb _ _ F1) in Hx |- *. apply (used_ext s1); [|done].
      destruct Ia1 as (_ & D & _). rewrite Ei in D. apply data_store; [done|]. rewrite length_put_dinode. apply D.
  - rewrite andb_false_r. cbn [when]. rewrite bind_ret. exists s1, V1, bl1. split; [done|].
    split; [by eapply file_state_le; [|exact S1]; lia|done|exact O|..]; fold ip n.
    + exists l. rewrite Z.max_l by lia. rewrite El. by destruct ip.
    + intros Hm%Hmp. by rewrite Es, Z.max_l in * by lia.
    + lia.
    + exact N.
Qed.
End wr.
