(* ===== verification/FileSystem.v ===== *)
(** * The file system: end-to-end statements

    The statements about fs.c that combine the lemmas of Blocks, Inodes and
    Files: the free map, the inode cache, the block map of a file, and
    reading and writing its contents.  Each comes with the example of a small
    disk on which its hypotheses hold. *)
From S2P Require Import Prelude State Sync Dll Bio Cache Log Crash CString Fs Blocks Inodes Files.

(** ** A concrete disk, for the examples

    The disk that [demo_sb] describes: blocks 0 to 58 hold the boot block,
    the super block, the log, the inodes and the map, and block 59 is the
    only data block in use; it is the first block of file 1. *)
Definition fs_bits : block := replicate 7 255 ++ [15] ++ replicate 504 0.
Definition fs_dinode : dinode := DInode 2 0 0 1 512 (59 :: replicate 12 0).
Definition fs_img (b : Z) : block :=
  if b =? 1 then demo_sb
  else if b =? 32 then put_dinode fs_dinode 64 (replicate 512 0)
  else if b =? 58 then fs_bits
  else if b =? 59 then replicate 512 7
  else replicate 512 0.
Definition fs_sb : superblock := SuperBlock 1000 941 200 30 2 32 58.
Definition fs_inode : inode := Inode ROOTDEV 1 1 sl_init true 2 0 0 1 512 (59 :: replicate 12 0).

Definition fs_start : kstate :=
  (demo_boot (Disk fs_img [])) <| k_sb := fs_sb |> <| k_icache := fs_inode :: replicate 49 inode_zero |>.

Lemma fs_bitmap s : k_sb s = fs_sb → k_disksize s = 1000 → l_start (k_log s) = 2 → l_size (k_log s) = 30 →
  ∀ V, V 58 = fs_bits → bitmap_ok s V.
Proof.
  intros Es Ed E1 E2 V E.
  assert (EB : ∀ b, 0 ≤ b < 1000 → BBLOCK b fs_sb = 58).
  { intros b Hb. unfold BBLOCK. rewrite Z.div_small by (unfold BPB, BSIZE; lia). done. }
  split; rewrite ?Es, ?Ed; cbn [sb_size fs_sb]; [lia|..]; intros b Hb; rewrite ?EB by done.
  - unfold is_home, home. rewrite Ed, E1, E2. lia.
  - by rewrite E.
  - unfold used. rewrite EB, E by done. unfold is_home, home. rewrite Ed, E1, E2.
    intros Hu. assert (Hlt : 60 ≤ b).
    { destruct (Z.le_gt_cases 60 b) as [|Hlt]; [done|exfalso].
      assert (Ha : forallb (λ b, bit_get fs_bits (b `mod` BPB)) (seqZ 0 60) = true) by (vm_compute; reflexivity).
      rewrite forallb_forall in Ha. specialize (Ha b). rewrite Ha in Hu; [done|].
      apply list_elem_of_In, elem_of_seqZ. lia. }
    split; [lia|]. split; [lia|]. intros c Hc. rewrite EB by done. lia.
Qed.

Lemma fs_used s V b : k_sb s = fs_sb → V 58 = fs_bits → 0 ≤ b < 60 → used V (k_sb s) b = true.
Proof.
  intros -> E Hb. unfold used, BBLOCK. rewrite Z.div_small by (unfold BPB, BSIZE; lia).
  change (0 + sb_bmapstart fs_sb) with 58. rewrite E.
  assert (Ha : forallb (λ b, bit_get fs_bits (b `mod` BPB)) (seqZ 0 60) = true) by (vm_compute; reflexivity).
  rewrite forallb_forall in Ha. apply Ha. apply list_elem_of_In, elem_of_seqZ. lia.
Qed.

Lemma fs_data s V b : k_sb s = fs_sb → k_disksize s = 1000 → l_start (k_log s) = 2 → l_size (k_log s) = 30 →
  V 58 = fs_bits → 32 ≤ b < 60 → b ≠ 58 → length (V b) = 512%nat → data_block s V b.
Proof.
  intros Es Ed E1 E2 E Hb H58 HL. split.
  - rewrite Es. simpl. lia.
  - apply fs_used; [done|done|lia].
  - unfold is_home, home. rewrite Ed, E1, E2. lia.
  - lia.
  - intros (c & Hc & ->). apply H58. rewrite Es in *. simpl in Hc. unfold BBLOCK.
    rewrite Z.div_small by (unfold BPB, BSIZE; lia). done.
  - done.
Qed.

Lemma fs_addr V bn : 0 ≤ bn < MAXFILE → addr V fs_inode bn = if bn =? 0 then 59 else 0.
Proof.
  intros Hb. unfold addr. destruct (bn <? NDIRECT) eqn:E.
  - apply Z.ltb_lt in E. change NDIRECT with 12 in E.
    assert (Ha : forallb (λ b, (i_addrs fs_inode !!! Z.to_nat b) =? (if b =? 0 then 59 else 0)) (seqZ 0 12) = true)
      by (vm_compute; reflexivity).
    rewrite forallb_forall in Ha. apply Z.eqb_eq, Ha. apply list_elem_of_In, elem_of_seqZ. lia.
  - apply Z.ltb_ge in E. change NDIRECT with 12 in E. change (ind_addr fs_inode) with 0. simpl.
    destruct (bn =? 0) eqn:E0; [apply Z.eqb_eq in E0; lia|done].
Qed.

Lemma fs_file_ok s V : data_block s V 59 → file_ok s V fs_inode.
Proof.
  intros D. split; [done|done|..].
  - intros bn Hb. rewrite fs_addr by done. by destruct (bn =? 0).
  - intros b b' Hb Hb'. rewrite !fs_addr by done.
    destruct (b =? 0) eqn:E1, (b' =? 0) eqn:E2; intros; try done. apply Z.eqb_eq in E1, E2. lia.
  - done.
Qed.

(** The example booted, in a transaction. *)
Lemma fs_ready :
  ∃ s V, file_state 0 s V [] 0 28 ∧ k_sb s = fs_sb ∧ k_locks s = [] ∧
    k_icache s = fs_inode :: replicate 49 inode_zero ∧ inode_apart s V (get_inode s 0) ∧
    mapped V (get_inode s 0) 512 ∧ V 59 = replicate 512 7 ∧ V 32 = fs_img 32 ∧ V 58 = fs_bits.
Proof.
  set (dk := Disk fs_img []).
  destruct (boot_inv 0 fs_start dk 1000 2 30 []) as (r & E & I & F & E1 & E2 & C).
  { split; [split; reflexivity|reflexivity..]. } { apply demo_area. }
  { apply empty_hdr_ok; [apply demo_area|vm_compute; reflexivity..]. }
  { split; vm_compute; reflexivity. } { vm_compute. intros H. inversion H. }
  clear E. pose proof (lframe_size _ _ F) as N. change (k_disksize fs_start) with 1000 in N.
  pose proof (lframe_sb _ _ F) as Es. pose proof (lframe_icache _ _ F) as Ei.
  assert (El : k_locks r = []) by (rewrite (proj1 F); reflexivity). clear F.
  assert (CV : ∀ c, 32 ≤ c < 60 → disk_get (k_disk r) c = fs_img c).
  { intros c Hc. rewrite C by (unfold home; lia). reflexivity. } clear C.
  pose proof (log_inv_count (λ l, l <| l_outstanding := 1 |> <| l_committing := false |>) 0 r _ _ _
    ltac:(intros; repeat split) I) as I1. clear I.
  revert I1 CV. generalize (disk_get (k_disk r)). intros V I1 CV.
  set (s := r <| k_log ::= _ |>) in I1. change (k_sb s = fs_sb) in Es. change (k_disksize s = 1000) in N.
  change (l_start (k_log s) = 2) in E1. change (l_size (k_log s) = 30) in E2. change (k_locks s = []) in El.
  change (k_icache s = fs_inode :: replicate 49 inode_zero) in Ei.
  assert (Ho : l_outstanding (k_log s) = 1) by reflexivity. clearbody s.
  assert (Eg : get_inode s 0 = fs_inode) by (unfold get_inode; rewrite Ei; reflexivity).
  assert (V58 : V 58 = fs_bits) by (apply CV; lia). assert (V59 : V 59 = replicate 512 7) by (apply CV; lia).
  assert (V32 : V 32 = fs_img 32) by (apply CV; lia).
  assert (D : ∀ b, 32 ≤ b < 60 → b ≠ 58 → data_block s V b).
  { intros b Hb Hne. apply fs_data; try assumption. rewrite CV by done. unfold fs_img.
    repeat case_match; vm_compute; reflexivity. }
  exists s, V. rewrite Eg. split_and!; [|assumption..| | |exact V59|exact V32|exact V58].
  - split; rewrite ?Eg; [exact I1|by apply fs_bitmap|apply fs_file_ok, D; lia|reflexivity|rewrite Ei; simpl; lia|].
    split; [rewrite E2; simpl; lia|vm_compute; lia|lia].
  - unfold inode_apart. rewrite Es. split_and!; [by vm_compute|apply D; vm_compute; intuition congruence|].
    intros [_ [H|(bn & Hb & H)]]; [vm_compute in H; discriminate H|].
    rewrite fs_addr in H by exact Hb. change (IBLOCK (i_inum fs_inode) fs_sb) with 32 in H. by destruct (bn =? 0).
  - intros bn Hb Hlt. change BSIZE with 512 in Hlt. rewrite fs_addr by (change MAXFILE with 140; lia).
    by replace bn with 0 by lia.
Qed.

(** ** The free map *)

(** [balloc] returns the first block that is free in the map: the block is
    zeroed, its bit and no other is set, every other block keeps its contents,
    and everything is in the log; it stops with "balloc: out of blocks"
    exactly when no block is free. *)
Theorem balloc_first_free p s V bl env k :
  log_inv p s V bl ∅ → bitmap_ok s V → room s bl ∅ (S (S k)) →
  (∃ b s' V' bl', balloc ROOTDEV env s = Done b s' env ∧ 0 ≤ b < sb_size (k_sb s) ∧
     used V (k_sb s) b = false ∧ (∀ c, 0 ≤ c < b → used V (k_sb s) c = true) ∧
     V' b = zero_block ∧
     (∀ c, 0 ≤ c < sb_size (k_sb s) → used V' (k_sb s) c = (c =? b) || used V (k_sb s) c) ∧
     (∀ c, c ≠ b → c ≠ BBLOCK b (k_sb s) → V' c = V c) ∧
     log_inv p s' V' bl' ∅ ∧ bitmap_ok s' V' ∧ room s' bl' ∅ k) ∨
  (balloc ROOTDEV env s = Panic "balloc: out of blocks" ∧
   ∀ c, 0 ≤ c < sb_size (k_sb s) → used V (k_sb s) c = true).
Proof.
  intros I G R. destruct (balloc_spec env k s I G (clear_empty s V) R)
    as [(b & s' & Hb & Hu & Hlt & E & I' & F & R')|[Hall E]]; [left|by right].
  eexists b, s', (take_block (k_sb s) b V), _. split; [exact E|].
  split_and!; [lia|lia|done|done|by unfold take_block; rewrite fn_lookup_insert| | |exact I'| |exact R'].
  - intros c Hc. rewrite used_take by done. case_decide; [subst; by rewrite Z.eqb_refl|].
    by rewrite (proj2 (Z.eqb_neq _ _)).
  - intros c H1 H2. unfold take_block. by rewrite !fn_lookup_insert_ne.
  - apply (bitmap_ok_geom s); [by apply tframe_geom|]. by apply bitmap_ok_take.
Qed.

Lemma balloc_first_free_witness :
  ∃ s V, used V (k_sb s) 60 = false ∧ ∃ b s', balloc ROOTDEV [] s = Done b s' [] ∧ b = 60.
Proof.
  destruct fs_ready as (s & V & S & Es & _ & _ & _ & _ & _ & _ & E58). exists s, V.
  assert (U : used V (k_sb s) 60 = false) by (rewrite Es; unfold used; change (BBLOCK 60 fs_sb) with 58; by rewrite E58).
  split; [exact U|].
  destruct (balloc_first_free 0 s V [] [] 26 (fs_log _ _ _ _ _ _ S) (fs_map _ _ _ _ _ _ S) (fs_room _ _ _ _ _ _ S))
    as [(b & s' & _ & _ & E & Hb & Hu & Hlt & _)|[_ Hall]].
  - exists b, s'. split; [exact E|]. destruct (Z.lt_trichotomy b 60) as [H|[H|H]]; [|exact H|].
    + rewrite (fs_used s V b Es E58) in Hu by lia. discriminate Hu.
    + rewrite Hlt in U by lia. discriminate U.
  - rewrite Hall in U by (rewrite Es; simpl; lia). discriminate U.
Defined.

(** [bfree] of a block in use clears its bit and changes nothing else; a
    block that is free already stops the kernel with "freeing free block". *)
Theorem bfree_frees p s V bl env k b :
  log_inv p s V bl ∅ → bitmap_ok s V → room s bl ∅ (S k) → 0 ≤ b < sb_size (k_sb s) →
  if used V (k_sb s) b then
    ∃ s' V' bl', bfree ROOTDEV b env s = Done tt s' env ∧
      (∀ c, 0 ≤ c < sb_size (k_sb s) → used V' (k_sb s) c = negb (c =? b) && used V (k_sb s) c) ∧
      (∀ c, c ≠ BBLOCK b (k_sb s) → V' c = V c) ∧ log_inv p s' V' bl' ∅ ∧ room s' bl' ∅ k
  else bfree ROOTDEV b env s = Panic "freeing free block".
Proof.
  intros I G R Hb. pose proof (bfree_spec I b env k G (lookup_empty _) R Hb) as H.
  destruct (used V (k_sb s) b); [|exact H]. destruct H as (s' & E & I' & F & R').
  eexists s', (drop_block (k_sb s) b V), _. split; [exact E|]. split_and!; [| |exact I'|exact R'].
  - intros c Hc. rewrite used_drop by done. case_decide; [subst; by rewrite Z.eqb_refl|].
    by rewrite (proj2 (Z.eqb_neq _ _)).
  - intros c Hc. unfold drop_block. by rewrite fn_lookup_insert_ne.
Qed.

Lemma bfree_frees_witness : ∃ s s', bfree ROOTDEV 59 [] s = Done tt s' [].
Proof.
  destruct fs_ready as (s & V & S & Es & _ & _ & _ & _ & _ & _ & E58). exists s.
  pose proof (bfree_frees 0 s V [] [] 27 59 (fs_log _ _ _ _ _ _ S) (fs_map _ _ _ _ _ _ S)
    (fs_room _ _ _ _ _ _ S) ltac:(rewrite Es; simpl; lia)) as H.
  rewrite (fs_used s V 59 Es E58) in H by lia. destruct H as (s' & _ & _ & E & _). exists s'. exact E.
Defined.

(** ** Inodes *)

(** [iupdate] puts the inode on disk without touching any other inode,
    and [ilock] gets it back: an entry of the cache that [iget] has just set
    up for the same inode number is filled with exactly the attributes and
    block addresses that [iupdate] wrote. *)
Theorem iupdate_ilock p s V bl env k i (ip := get_inode s i) :
  log_inv p s V bl ∅ → inode_block s V (i_inum ip) → i_dev ip = ROOTDEV → dinode_ok (dinode_of ip) →
  i_type ip ≠ 0 → room s bl ∅ (S (S k)) →
  ∃ s' V' bl', iupdate i env s = Done tt s' env ∧ log_inv p s' V' bl' ∅ ∧
    (∀ n, 0 ≤ n → disk_inode V' (k_sb s) n =
       if n =? i_inum ip then dinode_of ip else disk_inode V (k_sb s) n) ∧
    (∀ c, c ≠ IBLOCK (i_inum ip) (k_sb s) → V' c = V c) ∧
    ∀ j e env', (j < length (k_icache s))%nat → i_dev e = ROOTDEV → i_inum e = i_inum ip →
      i_ref e = 1 → i_lock e = sl_init → i_valid e = false →
      ∃ s2, ilock (Some j) env' (s' <| k_icache ::= alter (λ _, e) j |>) = Done tt s2 env' ∧
        dinode_of (get_inode s2 j) = dinode_of ip ∧ i_valid (get_inode s2 j) = true.
Proof.
  intros I B Hd Ok Ht R. destruct (iupdate_spec I i env (S k)) as (s' & E & I' & F & R'); [done..|].
  fold ip in I', R', B, Hd. eexists s', _, _. split; [exact E|]. split; [exact I'|]. destruct B as [B0 B1 B2 B3].
  assert (Hs : ∀ n, 0 ≤ n → disk_inode (store_inode (k_sb s) (i_inum ip) (dinode_of ip) V) (k_sb s) n =
    if n =? i_inum ip then dinode_of ip else disk_inode V (k_sb s) n).
  { intros n Hn. rewrite disk_inode_store by done. case_decide as En; [subst; by rewrite Z.eqb_refl|].
    by rewrite (proj2 (Z.eqb_neq _ _)). }
  split_and!; [exact Hs|intros c Hc; unfold store_inode; by rewrite fn_lookup_insert_ne|].
  intros j e env' Hj Ed En Er El Ev.
  pose proof (lframe_icache _ _ (tf_frame _ _ F)) as Ei. rewrite <-Ei in Hj.
  set (s1 := s' <| k_icache ::= alter (λ _, e) j |>).
  assert (Eg : get_inode s1 j = e) by (unfold s1; by rewrite get_inode_alter).
  assert (Esb : k_sb s1 = k_sb s) by apply (tframe_sb _ _ F).
  pose proof (ilock_load (log_inv_icache (alter (λ _, e) j) _ _ _ _ _ I') j env') as L.
  fold s1 in L. cbv zeta in L. rewrite Eg, Esb, En, Hs, Z.eqb_refl in L by done.
  change (d_type (dinode_of ip)) with (i_type ip) in L. rewrite (proj2 (Z.eqb_neq _ _)) in L by done.
  destruct L as (s2 & E2 & _ & _ & Ic); [unfold s1; simpl; by rewrite length_alter|done|lia|done|done| |done| |].
  - change (k_disksize s1) with (k_disksize s'). rewrite (tframe_disksize _ _ F). apply B1.
  - destruct R' as [R1 R2 R3]. split; [simpl in *; lia|lia|done].
  - exists s2. split; [exact E2|].
    assert (Eg2 : get_inode s2 j = loaded (pid_of s1 p) (dinode_of ip) e).
    { unfold get_inode. rewrite Ic, alter_total, decide_True by (unfold s1; simpl; by rewrite ?length_alter).
      by rewrite <-Eg. }
    by rewrite Eg2.
Qed.

Lemma iupdate_ilock_witness :
  ∃ s s', iupdate 0 [] s = Done tt s' [] ∧
    ∃ s2, ilock (Some 7%nat) [] (s' <| k_icache ::= alter (λ _, fs_inode <| i_valid := false |> <| i_size := 0 |>) 7%nat |>)
      = Done tt s2 [] ∧ dinode_of (get_inode s2 7) = dinode_of fs_inode.
Proof.
  destruct fs_ready as (s & V & S & Es & El & Ei & (H0 & D & _) & _). exists s.
  assert (Eg : get_inode s 0 = fs_inode) by (unfold get_inode; rewrite Ei; reflexivity). rewrite Eg in *.
  destruct (iupdate_ilock 0 s V [] [] 26 0 (fs_log _ _ _ _ _ _ S)) as (s' & V' & bl' & E & _ & _ & _ & Hl).
  - rewrite Eg. split; [exact H0|apply D|pose proof (db_one _ _ _ D); lia|apply D].
  - rewrite Eg. reflexivity.
  - rewrite Eg. split; [vm_compute; intuition discriminate..|vm_compute; reflexivity|].
    repeat constructor; vm_compute; intuition discriminate.
  - rewrite Eg. vm_compute. discriminate.
  - apply (fs_room _ _ _ _ _ _ S).
  - exists s'. split; [exact E|].
    destruct (Hl 7%nat (fs_inode <| i_valid := false |> <| i_size := 0 |>) []) as (s2 & E2 & H2 & _);
      [rewrite Ei; simpl; lia|reflexivity|rewrite Eg; reflexivity|reflexivity..|].
    exists s2. split; [exact E2|]. rewrite H2, Eg. reflexivity.
Defined.

(** [iget] keeps the inode cache free of duplicates: from a table in which
    no inode is cached twice it returns an entry for the inode asked for, one
    reference more than before, in a table that again caches no inode twice;
    the other entries are untouched, and it stops only when all the entries
    are in use and none is for the inode asked for. *)
Theorem iget_unique dev inum env s :
  k_locks s = [] → icache_ok (k_icache s) →
  (∃ i s', iget dev inum env s = Done i s' env ∧ icache_ok (k_icache s') ∧
     i_dev (get_inode s' i) = dev ∧ i_inum (get_inode s' i) = inum ∧
     (i_ref (get_inode s' i) = i_ref (get_inode s i) + 1) ∧
     (∀ j, j ≠ i → get_inode s' j = get_inode s j) ∧ k_locks s' = []) ∨
  (iget dev inum env s = Panic "iget: no inodes" ∧
   ∀ j, (j < length (k_icache s))%nat → 0 < i_ref (get_inode s j) ∧ caches_inode dev inum (get_inode s j) = false).
Proof.
  intros Hl Ok. destruct (iget_spec dev inum env s Hl) as [(i & E & Hi & Hc)|[E Hall]]; [left|right].
  - exists i. eexists. split; [exact E|]. rewrite get_inode_alter by done.
    assert (Eo : ∀ j, j ≠ i → get_inode (s <| k_icache ::= alter (grab_inode dev inum) i |>) j = get_inode s j).
    { intros j Hj. unfold get_inode. simpl. rewrite alter_total by done. by rewrite decide_False. }
    assert (Ok' : icache_ok (alter (grab_inode dev inum) i (k_icache s))).
    { apply icache_ok_grab; [done|done|]. destruct Hc as [Hc|[Hc _]]; [by left|by right]. }
    split; [exact Ok'|]. unfold grab_inode. destruct (caches_inode dev inum (get_inode s i)) eqn:Ec.
    + apply caches_inode_true in Ec as (? & ? & ?). by split_and!.
    + destruct Hc as [Hc|[_ Hc]]; [congruence|]. by rewrite Hc.
  - split; [done|]. intros j Hj. pose proof (ic_ref _ Ok j Hj). destruct (Hall j Hj) as [Hr Hc].
    split; [|done]. unfold get_inode in *. lia.
Qed.

Lemma iget_unique_witness :
  ∃ i s', iget ROOTDEV 1 [] fs_start = Done i s' [] ∧ i_inum (get_inode s' i) = 1.
Proof.
  assert (Ok : icache_ok (k_icache fs_start)).
  { assert (Hr : ∀ i, (0 < i)%nat → i_ref (k_icache fs_start !!! i) = 0).
    { intros [|i] Hi; [lia|]. change (i_ref ((replicate 49 inode_zero) !!! i) = 0).
      destruct (decide (i < 49)%nat); [by rewrite lookup_total_replicate_2|].
      rewrite list_lookup_total_alt, lookup_ge_None_2; [reflexivity|]. rewrite length_replicate. lia. }
    split.
    - intros [|i] _; [vm_compute; discriminate|rewrite Hr by lia; lia].
    - intros [|i] [|j] _ _ H1 H2 _ _; [reflexivity|rewrite Hr in H2 by lia; lia|rewrite Hr in H1 by lia; lia..]. }
  destruct (iget_unique ROOTDEV 1 [] fs_start eq_refl Ok) as [(i & s' & E & _ & _ & H & _)|[_ H]].
  - exists i, s'. split; [exact E|exact H].
  - exfalso. specialize (H 1%nat). revert H. vm_compute. intros H. destruct (H ltac:(lia)) as [H' _]. discriminate H'.
Defined.

(** ** File contents *)

(** C22. [bmap] finds the block of a file that holds block number [bn],
    allocating it (and the indirect block) when it is missing, and never
    disturbs what is there: the contents of the file stay the same, the
    blocks of the file stay distinct, the map stays correct, and every data
    block that belongs to somebody else keeps its contents.  The blocks that
    are free afterwards are fewer by exactly the number that was missing, and
    the only failure is a disk with fewer free blocks than that. *)
Theorem bmap_preserves_contents p i k env s V bl bn :
  file_state p s V bl i (6 + k) → 0 ≤ bn < MAXFILE →
  bmap i bn env s = Panic "balloc: out of blocks" ∧ (nfree V (k_sb s) < missing V (get_inode s i) [bn])%nat ∨
  ∃ a s' V' bl', bmap i bn env s = Done a s' env ∧ file_state p s' V' bl' i k ∧
    addr V' (get_inode s' i) bn = a ∧ a ≠ 0 ∧
    (∀ b, 0 ≤ b < MAXFILE → b ≠ bn → addr V' (get_inode s' i) b = addr V (get_inode s i) b) ∧
    nfree V (k_sb s) = (nfree V' (k_sb s) + missing V (get_inode s i) [bn])%nat ∧
    (∀ b, 0 ≤ b < MAXFILE → fblock V' (get_inode s' i) b = fblock V (get_inode s i) b) ∧
    ∀ c, data_block s V c → ¬ owns V (get_inode s i) c → V' c = V c.
Proof.
  intros S Hb. destruct (bmap_spec p i k env s V bl bn S Hb) as
    [P|(a & s1 & V1 & bl1 & E1 & (S1 & F1 & L1 & B1 & G1) & Ha & [A1 A2 A3] & N)]; [by left|right].
  rewrite Ha in A1. exists a, s1, V1, bl1. split_and!; try assumption.
  intros c Dc Nc. by apply (gr_keep _ _ _ _ _ G1).
Qed.

(** The example's disk has 940 free blocks. *)
Lemma fs_nfree V : V 58 = fs_bits → nfree V fs_sb = 940%nat.
Proof.
  intros E. unfold nfree. rewrite (filter_length_ext _ (λ c, bit_get fs_bits c = false)); [by vm_compute|].
  intros c Hc%elem_of_seqZ. change (sb_size fs_sb) with 1000 in Hc. unfold used.
  replace (BBLOCK c fs_sb) with 58; [by rewrite E, Z.mod_small by (change BPB with 4096; lia)|].
  unfold BBLOCK. change BPB with 4096. rewrite Z.div_small by lia. done.
Qed.

Lemma bmap_preserves_contents_witness :
  ∃ s V a s' V', file_state 0 s V [] 0 28 ∧ bmap 0 20 [] s = Done a s' [] ∧ a ≠ 0 ∧
    nfree V (k_sb s) = 940%nat ∧ nfree V' (k_sb s) = 938%nat.
Proof.
  destruct fs_ready as (s & V & S & Es & _ & Ei & _ & _ & _ & _ & E58). exists s, V.
  assert (Eg : get_inode s 0 = fs_inode) by (unfold get_inode; rewrite Ei; reflexivity).
  assert (N : nfree V (k_sb s) = 940%nat) by (rewrite Es; exact (fs_nfree V E58)).
  assert (M : missing V (get_inode s 0) [20] = 2%nat) by (rewrite Eg; reflexivity).
  destruct (bmap_preserves_contents 0 0 22 [] s V [] 20 S) as [[_ H]|(a & s' & V' & _ & E & _ & _ & H & _ & H' & _)].
  - unfold MAXFILE, NDIRECT, NINDIRECT. vm_compute. intuition discriminate.
  - rewrite N, M in H. lia.
  - exists a, s', V'. split_and!; [exact S|exact E|exact H|exact N|]. rewrite N, M in H'. lia.
Defined.

(** Without device files. *)
Definition no_devices : Devsw := {| devsw_read := λ _, None; devsw_write := λ _, None |}.

(** C39. [readi] of a file returns the bytes of the file from [off] on, as many
    as are asked for and the file has, and changes neither the disk nor the
    file; an offset past the end, or one that overflows, is an error. *)
Theorem readi_reads {D : Devsw} p i env s V bl off n (ip := get_inode s i) :
  file_state p s V bl i 1 → i_type ip ≠ T_DEV → 0 ≤ i_size ip ≤ MAXFILE * BSIZE →
  mapped V ip (i_size ip) → is_u32 off → is_u32 n →
  if (i_size ip <? off) || (4294967296 <=? off + n) then readi i off n env s = Done (-1, []) s env
  else ∃ s' d, readi i off n env s = Done (Z.of_nat (length d), d) s' env ∧
    Z.of_nat (length d) = Z.min n (i_size ip - off) ∧
    (∀ j, (j < length d)%nat → d !!! j = fbyte V ip (off + Z.of_nat j)) ∧
    log_inv p s' V bl ∅ ∧ tframe s s'.
Proof.
  intros S Ht Hs Hm Ho Hn. pose proof (readi_spec p i env s V bl off n S Ht Hs Hm Ho Hn) as H.
  fold ip in H. cbv zeta in H. destruct (i_size ip <? off) eqn:E1; [exact H|]. apply Z.ltb_ge in E1.
  simpl in H |- *. destruct (4294967296 <=? off + n); [exact H|].
  destruct H as (s' & E & I & F). exists s', (slice V ip off (Z.to_nat (Z.min n (i_size ip - off)))).
  destruct Hn as [Hn _]. rewrite length_slice, Z2Nat.id by lia. split_and!; [exact E|done| |exact I|exact F].
  intros j Hj. apply list_lookup_total_correct, slice_lookup. exact Hj.
Qed.

Lemma fs_type : i_type fs_inode ≠ T_DEV ∧ 0 ≤ i_size fs_inode ≤ MAXFILE * BSIZE.
Proof. vm_compute. intuition discriminate. Qed.

Lemma readi_reads_witness :
  ∃ s s' d, @readi no_devices memide 0 500 100 [] s = Done (12, d) s' [] ∧ d !!! 0%nat = 7.
Proof.
  destruct fs_ready as (s & V & S & Es & El & Ei & _ & Hm & V59 & _). exists s.
  assert (Eg : get_inode s 0 = fs_inode) by (unfold get_inode; rewrite Ei; reflexivity).
  pose proof (@readi_reads no_devices 0 0 [] s V [] 500 100) as H. rewrite Eg in H, Hm.
  destruct H as (s' & d & E & HL & Hb & _).
  - eapply file_state_le; [|exact S]. lia.
  - apply fs_type.
  - apply fs_type.
  - exact Hm.
  - split; lia.
  - split; lia.
  - change (Z.of_nat (length d) = 12) in HL. rewrite HL in E. exists s', d. split; [exact E|].
    rewrite Hb by lia. unfold fbyte, fblock. rewrite fs_addr by (vm_compute; intuition discriminate).
    change ((500 + Z.of_nat 0) / BSIZE =? 0) with true. cbv iota. change (59 =? 0) with false. cbv iota.
    rewrite V59. reflexivity.
Defined.

(** C6. [writei] of [src] at offset [off] refuses offsets past the end and
    files that would grow too long, leaving everything as it was; otherwise it
    returns the number of bytes, and the file then has the bytes of [src] at
    [off] and its old bytes everywhere else, the size covers them, a file that
    grew has its inode written, and the map of blocks is still correct.  It
    takes from the free blocks exactly as many as the file lacks in the range
    and can only fail when there are fewer.  [r] bounds the number of blocks
    the range touches, each of which may need seven slots of the log. *)
Theorem writei_writes {D : Devsw} p i k env r s V bl off src
    (ip := get_inode s i) (n := Z.of_nat (length src)) :
  file_state p s V bl i (S (7 * r + k)) → i_type ip ≠ T_DEV → 0 ≤ i_size ip ≤ MAXFILE * BSIZE →
  inode_apart s V ip → is_u32 off → is_u32 n → off `mod` BSIZE + n ≤ Z.of_nat r * BSIZE →
  if (i_size ip <? off) || (MAXFILE * BSIZE <? off + n)
  then writei i src off n env s = Done (-1) s env
  else writei i src off n env s = Panic "balloc: out of blocks" ∧ (nfree V (k_sb s) < missing V ip (blocks off n))%nat ∨
    ∃ s' V' bl', writei i src off n env s = Done n s' env ∧ file_state p s' V' bl' i k ∧
      (∀ x, 0 ≤ x < MAXFILE * BSIZE → fbyte V' (get_inode s' i) x =
         if decide (off ≤ x < off + n) then src !!! Z.to_nat (x - off) else fbyte V ip x) ∧
      i_size (get_inode s' i) = Z.max (i_size ip) (off + n) ∧
      nfree V (k_sb s) = (nfree V' (k_sb s) + missing V ip (blocks off n))%nat ∧
      (i_size ip < off + n → ∃ d, length d = 512%nat ∧
         V' (IBLOCK (i_inum ip) (k_sb s)) = put_dinode (dinode_of (get_inode s' i)) (dioff (i_inum ip)) d).
Proof.
  intros S Ht Hs Ia Ho Hn Hr. pose proof (writei_spec p i k env r s V bl off src S Ht Hs Ia Ho Hn Hr) as H.
  fold ip n in H. destruct (_ || _); [exact H|]. destruct H as [H|(s' & V' & bl' & E & W)]; [by left|right].
  exists s', V', bl'. destruct W as [W1 W2 W3 (l & W4) W5 W6 W7]. fold ip n in W3, W4, W5, W6, W7.
  split_and!; [exact E|exact W1|exact W3|by rewrite W4|exact W7|exact W6].
Qed.

Lemma fs_missing V : missing V fs_inode (blocks 511 3) = 1%nat.
Proof. reflexivity. Qed.

Lemma writei_writes_witness :
  ∃ s V s' V', file_state 0 s V [] 0 28 ∧ @writei no_devices memide 0 [1; 2; 3] 511 3 [] s = Done 3 s' [] ∧
    i_size (get_inode s' 0) = 514 ∧ nfree V' (k_sb s) = 939%nat.
Proof.
  destruct fs_ready as (s & V & S & Es & El & Ei & Ia & _ & _ & _ & E58). exists s, V.
  assert (Eg : get_inode s 0 = fs_inode) by (unfold get_inode; rewrite Ei; reflexivity).
  assert (N : nfree V (k_sb s) = 940%nat) by (rewrite Es; exact (fs_nfree V E58)).
  pose proof (@writei_writes no_devices 0 0 1 [] 2 s V [] 511 [1; 2; 3]) as H. rewrite Eg in H, Ia.
  destruct H as [[_ H]|(s' & V' & bl' & E & _ & _ & Hs & Hn & _)].
  - eapply file_state_le; [|exact S]. lia.
  - apply fs_type.
  - apply fs_type.
  - exact Ia.
  - split; lia.
  - split; simpl; lia.
  - vm_compute. discriminate.
  - change (Z.of_nat (length [1; 2; 3])) with 3 in H. rewrite N, fs_missing in H. lia.
  - exists s', V'. split_and!; [exact S|exact E|rewrite Hs; reflexivity|].
    change (Z.of_nat (length [1; 2; 3])) with 3 in Hn. rewrite N, fs_missing in Hn. lia.
Defined.

(** C21. What [writei] writes is what [readi] returns: reading the range just
    written gives back [src], whatever the file held before; the write fails
    only on a disk with fewer free blocks than the file lacks in the range. *)
Theorem writei_readi {D : Devsw} p i env env' r s V bl off src
    (ip := get_inode s i) (n := Z.of_nat (length src)) :
  file_state p s V bl i (S (7 * r + 1)) → i_type ip ≠ T_DEV → 0 ≤ i_size ip ≤ MAXFILE * BSIZE →
  mapped V ip (i_size ip) → inode_apart s V ip → 0 ≤ off ≤ i_size ip → off + n ≤ MAXFILE * BSIZE →
  off `mod` BSIZE + n ≤ Z.of_nat r * BSIZE →
  writei i src off n env s = Panic "balloc: out of blocks" ∧ (nfree V (k_sb s) < missing V ip (blocks off n))%nat ∨
  ∃ s' s2, writei i src off n env s = Done n s' env ∧ readi i off n env' s' = Done (n, src) s2 env'.
Proof.
  intros S Ht Hs Hm Ia Ho Hmax Hr. change (MAXFILE * BSIZE) with 71680 in *.
  pose proof (writei_spec p i 1 env r s V bl off src S Ht Hs Ia) as H. fold ip n in H.
  assert (Hu : ∀ x, 0 ≤ x ≤ 71680 → is_u32 x) by (unfold is_u32; lia).
  specialize (H ltac:(apply Hu; lia) ltac:(apply Hu; lia) Hr).
  rewrite (proj2 (Z.ltb_ge _ _)) in H by lia. change (MAXFILE * BSIZE) with 71680 in H.
  rewrite (proj2 (Z.ltb_ge 71680 (off + n))) in H by lia. simpl in H.
  destruct H as [H|(s' & V' & bl' & E & W)]; [by left|right].
  destruct W as [W1 W2 W3 (l & W4) W5 _ _]. fold ip n in W3, W4, W5.
  set (ip' := get_inode s' i) in *.
  assert (Es : i_size ip' = Z.max (i_size ip) (off + n)) by (by rewrite W4).
  assert (Et : i_type ip' = i_type ip) by (by rewrite W4).
  pose proof (readi_spec p i env' s' V' bl' off n W1) as H. fold ip' in H. cbv zeta in H.
  rewrite (proj2 (Z.ltb_ge (i_size ip') off)), (proj2 (Z.leb_gt 4294967296 (off + n))) in H by lia.
  destruct H as (s2 & E2 & _); [congruence|change (MAXFILE * BSIZE) with 71680; lia|by apply W5|apply Hu; lia|apply Hu; lia|].
  rewrite Z.min_l in E2 by lia. exists s', s2. split; [exact E|]. rewrite E2. do 2 f_equal.
  apply list_eq_same_length with (length src); [done|by rewrite length_slice; unfold n; rewrite Nat2Z.id|].
  intros j x y Hj. rewrite slice_lookup by (unfold n; lia). intros [= <-] Hx.
  rewrite W3 by (change (MAXFILE * BSIZE) with 71680; lia). rewrite decide_True by (fold n; lia).
  replace (Z.to_nat (off + Z.of_nat j - off)) with j by lia. by rewrite (list_lookup_total_correct _ _ _ Hx).
Qed.

Lemma writei_readi_witness :
  ∃ s V s' s2, file_state 0 s V [] 0 28 ∧ @writei no_devices memide 0 [1; 2; 3] 511 3 [] s = Done 3 s' [] ∧
    @readi no_devices memide 0 511 3 [] s' = Done (3, [1; 2; 3]) s2 [].
Proof.
  destruct fs_ready as (s & V & S & Es & El & Ei & Ia & Hm & _ & _ & E58). exists s, V.
  assert (Eg : get_inode s 0 = fs_inode) by (unfold get_inode; rewrite Ei; reflexivity).
  assert (N : nfree V (k_sb s) = 940%nat) by (rewrite Es; exact (fs_nfree V E58)).
  pose proof (@writei_readi no_devices 0 0 [] [] 2 s V [] 511 [1; 2; 3]) as H. rewrite Eg in H, Ia, Hm.
  destruct H as [[_ H]|(s' & s2 & E1 & E2)].
  - eapply file_state_le; [|exact S]. lia.
  - apply fs_type.
  - apply fs_type.
  - exact Hm.
  - exact Ia.
  - vm_compute. intuition discriminate.
  - vm_compute. discriminate.
  - vm_compute. discriminate.
  - change (Z.of_nat (length [1; 2; 3])) with 3 in H. rewrite N, fs_missing in H. lia.
  - exists s', s2. split_and!; [exact S|exact E1|exact E2].
Defined.
