(* ===== verification/Dir.v ===== *)
(** * Directories (fs.c: dirlookup, dirlink)

    A directory is a file of 16-byte entries, an inode number and a name of
    at most 14 bytes; an entry with inode number 0 is free.  What a directory
    says is a partial map from names to inode numbers ([dirmap]).

    The results: [dirlookup] finds the inode that the map gives, and
    [dirlink] of a new name adds that name to the map and nothing else. *)
From S2P Require Import Prelude State Sync CString Dll Bio Cache Log Fs Blocks Inodes Files FileSystem.

(** ** What a directory says *)
Definition DE : Z := 16.    (* sizeof(struct dirent) *)
(** Names are compared up to [DIRSIZ] bytes. *)
Definition fname (l : list Z) : list Z := cstr (rd l) DIRSIZ.

Definition dent (V : Z → block) (ip : inode) (k : Z) : list Z := slice V ip (DE * k) 16.
Definition in_use (V : Z → block) (ip : inode) (k : Z) : bool := negb (de_inum (dent V ip k) =? 0).
Definition is_entry (V : Z → block) (ip : inode) (name : list Z) (k : Z) : bool :=
  in_use V ip k && bool_decide (fname (de_name (dent V ip k)) = fname name).

(** The first of the [n] entries from [k] on that has a property. *)
Fixpoint first_of (P : Z → bool) (k : Z) (n : nat) : option Z :=
  match n with
  | O => None
  | S n => if P k then Some k else first_of P (k + 1) n
  end.
Definition entries (ip : inode) : nat := Z.to_nat (i_size ip / DE).
Definition find_entry (V : Z → block) (ip : inode) (name : list Z) : option Z := first_of (is_entry V ip name) 0 (entries ip).
Definition dirmap (V : Z → block) (ip : inode) (name : list Z) : option Z :=
  (λ k, de_inum (dent V ip k)) <$> find_entry V ip name.

Lemma first_of_spec P k n r : first_of P k n = r ↔
  match r with
  | Some j => k ≤ j < k + Z.of_nat n ∧ P j = true ∧ ∀ i, k ≤ i < j → P i = false
  | None => ∀ i, k ≤ i < k + Z.of_nat n → P i = false
  end.
Proof.
  revert k. induction n as [|n IH]; intros k; cbn [first_of].
  - split; [intros <-; lia|]. destruct r as [j|]; [lia|done].
  - destruct (P k) eqn:Pk.
    + split; [intros <-; split; [lia|]; split; [done|lia]|]. destruct r as [j|].
      * intros (Hj & Pj & Hb). f_equal. destruct (decide (k = j)) as [->|Hne]; [done|]. rewrite Hb in Pk by lia. done.
      * intros Hb. rewrite Hb in Pk by lia. done.
    + rewrite IH. destruct r as [j|].
      * split; intros (Hj & Pj & Hb).
        { split; [lia|]. split; [done|]. intros i Hi. destruct (decide (i = k)) as [->|]; [done|]. apply Hb. lia. }
        { assert (j ≠ k) by congruence. split; [lia|]. split; [done|]. intros i Hi. apply Hb. lia. }
      * split; intros Hb i Hi; [|apply Hb; lia]. destruct (decide (i = k)) as [->|]; [done|]. apply Hb. lia.
Qed.

Lemma namecmp_fname s t : namecmp s t = 0 ↔ fname s = fname t.
Proof. apply strncmp_eq. Qed.

(** The entry that [dirlink] writes has the given number and name. *)
Lemma cstr_pad n : ∀ r, cstr (pad (cstr r n)) n = cstr r n.
Proof.
  induction n as [|n IH]; intros r; cbn [cstr]; [done|]. destruct (r 0%nat =? 0) eqn:E; [done|].
  rewrite pad_cons_0, E. f_equal. apply IH.
Qed.

Lemma length_mk_dirent name inum : length (mk_dirent name inum) = 16%nat.
Proof. done. Qed.

Lemma mk_dirent_name name inum : fname (de_name (mk_dirent name inum)) = fname name.
Proof.
  unfold fname at 2. rewrite <-cstr_pad. apply cstr_ext. intros i Hi. unfold de_name, mk_dirent.
  rewrite drop_app_length' by done. unfold rd. rewrite list_lookup_fmap, lookup_seq_lt by done. done.
Qed.

Lemma mk_dirent_inum name inum : 0 ≤ inum < 65536 → de_inum (mk_dirent name inum) = inum.
Proof.
  intros H. unfold de_inum, ldn, mk_dirent. rewrite drop_0, take_app_length' by done.
  rewrite le_val_bytes. by apply Z.mod_small.
Qed.

(** *** One entry more *)

(** [V'], [ip'] is the directory with entry [k] replaced, where [k] was free
    or the end. *)
Record entry_added (V : Z → block) (ip : inode) (V' : Z → block) (ip' : inode) (k : Z) (de : list Z) : Prop := {
  ea_here : dent V' ip' k = de;
  ea_else j : 0 ≤ j < Z.of_nat (entries ip) → j ≠ k → dent V' ip' j = dent V ip j;
  ea_slot : 0 ≤ k ≤ Z.of_nat (entries ip);
  ea_free : k < Z.of_nat (entries ip) → in_use V ip k = false;
  ea_size : Z.of_nat (entries ip') = Z.max (Z.of_nat (entries ip)) (k + 1) }.

Lemma dirmap_none V ip name : dirmap V ip name = None → ∀ k, 0 ≤ k < Z.of_nat (entries ip) → is_entry V ip name k = false.
Proof.
  unfold dirmap, find_entry. intros H k Hk. destruct (first_of _ _ _) eqn:E; [done|]. apply first_of_spec in E. by apply E.
Qed.

Lemma dirmap_added V ip V' ip' k name inum nm : entry_added V ip V' ip' k (mk_dirent name inum) →
  0 < inum < 65536 → dirmap V ip name = None →
  dirmap V' ip' nm = if decide (fname nm = fname name) then Some inum else dirmap V ip nm.
Proof.
  intros [Eh Ee Es Ef Ez] Hi Hn.
  assert (Pk : is_entry V' ip' nm k = bool_decide (fname name = fname nm)).
  { unfold is_entry, in_use. rewrite Eh, mk_dirent_inum, mk_dirent_name by lia. by rewrite (proj2 (Z.eqb_neq inum 0)) by lia. }
  assert (Po : ∀ j, 0 ≤ j < Z.of_nat (entries ip) → j ≠ k → is_entry V' ip' nm j = is_entry V ip nm j).
  { intros j Hj Hne. unfold is_entry, in_use. by rewrite Ee. }
  unfold dirmap at 1. destruct (decide (fname nm = fname name)) as [En|En].
  - assert (find_entry V' ip' nm = Some k) as ->; [|simpl; by rewrite Eh, mk_dirent_inum by lia].
    apply first_of_spec. split; [lia|]. split; [rewrite Pk; by apply bool_decide_true|].
    intros j Hj. rewrite Po by lia. pose proof (dirmap_none _ _ _ Hn j ltac:(lia)) as H. revert H. unfold is_entry. by rewrite En.
  - rewrite bool_decide_false in Pk by done.
    assert (Pk0 : k < Z.of_nat (entries ip) → is_entry V ip nm k = false) by (intros H; unfold is_entry; by rewrite Ef).
    unfold dirmap. destruct (find_entry V ip nm) as [j|] eqn:Ej; apply first_of_spec in Ej.
    + destruct Ej as (Hj & Pj & Hb). assert (j ≠ k) by (intros ->; rewrite Pk0 in Pj by lia; done).
      assert (find_entry V' ip' nm = Some j) as ->; [|simpl; by rewrite Ee by lia].
      apply first_of_spec. split; [lia|]. split; [by rewrite Po by lia|].
      intros l Hl. destruct (decide (l = k)) as [->|]; [done|]. rewrite Po by lia. apply Hb. lia.
    + assert (find_entry V' ip' nm = None) as ->; [|done]. apply first_of_spec.
      intros l Hl. destruct (decide (l = k)) as [->|]; [done|]. rewrite Po by lia. apply Ej. lia.
Qed.

Section dir.
Context {D : Devsw}.

(** A directory in memory, in a transaction with room for [k] blocks. *)
Record dir_state (p : nat) (s : kstate) (V : Z → block) (bl : list Z) (i k : nat) : Prop := {
  dr_file : file_state p s V bl i k;
  dr_type : i_type (get_inode s i) = T_DIR;
  dr_size : 0 ≤ i_size (get_inode s i) ≤ MAXFILE * BSIZE;
  dr_whole : i_size (get_inode s i) `mod` DE = 0;
  dr_mapped : mapped V (get_inode s i) (i_size (get_inode s i)) }.

Lemma dir_state_frame p s V bl i k s' : dir_state p s V bl i k → log_inv p s' V bl ∅ → tframe s s' →
  dir_state p s' V bl i k ∧ get_inode s' i = get_inode s i.
Proof.
  intros [F T Z W M] L Fr. destruct (file_state_frame _ _ _ _ _ _ _ F L Fr) as [F' E]. split; [|done]. by split; rewrite ?E.
Qed.

(** Reading an entry. *)
Lemma read_entry p s V bl i k0 env k (ip := get_inode s i) : dir_state p s V bl i (S k0) → 0 ≤ k → DE * k < i_size ip →
  ∃ s', readi i (DE * k) 16 env s = Done (16, dent V ip k) s' env ∧ log_inv p s' V bl ∅ ∧ tframe s s'.
Proof.
  intros [F T Z W M] Hk Hlt. assert (Hd : DE = 16) by done. fold ip in T, Z, W, M.
  pose proof (readi_spec p i env s V bl (DE * k) 16) as H. fold ip in H. cbv zeta in H.
  assert (Hin : DE * k + 16 ≤ i_size ip).
  { clear -Hd Hlt W. rewrite Hd in *. Z.to_euclidean_division_equations. lia. }
  change (MAXFILE * BSIZE) with 71680 in *.
  rewrite (proj2 (Z.ltb_ge _ _)), (proj2 (Z.leb_gt 4294967296 _)) in H by lia. cbn [orb] in H.
  rewrite Z.min_l in H by lia. apply H; [by eapply file_state_le; [|exact F]; lia|by rewrite T|done|done|unfold is_u32; lia|done].
Qed.

Lemma entries_left ip k : 0 ≤ k → i_size ip `mod` DE = 0 → (DE * k <? i_size ip) = (k <? Z.of_nat (entries ip)) ∨ i_size ip < 0.
Proof.
  intros Hk Hw. destruct (decide (i_size ip < 0)) as [|Hs]; [by right|left]. unfold entries. change DE with 16 in *.
  rewrite Z2Nat.id by (apply Z.div_pos; lia). apply eq_true_iff_eq. rewrite !Z.ltb_lt. Z.to_euclidean_division_equations. lia.
Qed.

(** The scan of [dirlookup]. *)
Lemma dirlookup_from_ok p V bl i k0 name env n : ∀ k s (ip := get_inode s i), dir_state p s V bl i (S k0) → 0 ≤ k →
  (entries ip < n + Z.to_nat k)%nat →
  ∃ s', dirlookup_from n i name (DE * k) env s =
      Done ((λ j, (de_inum (dent V ip j), DE * j)) <$> first_of (is_entry V ip name) k (entries ip - Z.to_nat k)) s' env ∧
    log_inv p s' V bl ∅ ∧ tframe s s'.
Proof.
  assert (Hd : DE = 16) by done. induction n as [|n IH]; intros k s ip S Hk Hn.
  - exists s. replace (entries ip - Z.to_nat k)%nat with 0%nat by lia. split; [done|]. split; [apply S|done].
  - cbn [dirlookup_from]. rewrite bind_gets. fold ip. pose proof (dr_size _ _ _ _ _ _ S) as Hsz. fold ip in Hsz.
    destruct (entries_left ip k Hk (dr_whole _ _ _ _ _ _ S)) as [->|]; [|lia].
    destruct (Z.ltb_spec k (Z.of_nat (entries ip))) as [Hlt|Hge].
    + replace (entries ip - Z.to_nat k)%nat with (Datatypes.S (entries ip - Z.to_nat (k + 1))) by lia. cbn [first_of].
      assert (Hl : DE * k < i_size ip).
      { destruct (entries_left ip k Hk (dr_whole _ _ _ _ _ _ S)) as [E|]; [|lia]. apply Z.ltb_lt. rewrite E. by apply Z.ltb_lt. }
      destruct (read_entry p s V bl i k0 env k S Hk Hl) as (s1 & E1 & L1 & F1). fold ip in E1.
      rewrite (bind_done _ _ _ _ _ _ _ E1). cbn [fst snd]. change (negb (16 =? 16)) with false. cbv iota.
      destruct (dir_state_frame _ _ _ _ _ _ _ S L1 F1) as [S1 Eg]. fold ip in Eg.
      destruct (IH (k + 1) s1 S1) as (s2 & E2 & L2 & F2); [lia|rewrite Eg; lia|]. rewrite Eg in E2.
      replace (DE * (k + 1)) with (DE * k + 16) in E2 by lia.
      assert (Next : ∃ s', dirlookup_from n i name (DE * k + 16) env s1 =
        Done ((λ j, (de_inum (dent V ip j), DE * j)) <$> first_of (is_entry V ip name) (k + 1) (entries ip - Z.to_nat (k + 1))) s' env ∧
        log_inv p s' V bl ∅ ∧ tframe s s') by (exists s2; split; [done|]; split; [done|by etrans]).
      unfold is_entry at 1, in_use at 1. destruct (de_inum (dent V ip k) =? 0); cbn [negb andb]; [exact Next|].
      destruct (Z.eqb_spec (namecmp name (de_name (dent V ip k))) 0) as [En|En]; rewrite namecmp_fname in En.
      * rewrite bool_decide_true by done. exists s1. split; [done|]. by split.
      * rewrite bool_decide_false by done. exact Next.
    + replace (entries ip - Z.to_nat k)%nat with 0%nat by lia. exists s. split; [done|]. split; [apply S|done].
Qed.

(** The search for a free entry. *)
Definition free_slot (V : Z → block) (ip : inode) : Z :=
  default (Z.of_nat (entries ip)) (first_of (λ k, negb (in_use V ip k)) 0 (entries ip)).

Lemma dirlink_slot_ok p V bl i k0 env n : ∀ k s (ip := get_inode s i), dir_state p s V bl i (S k0) → 0 ≤ k ≤ Z.of_nat (entries ip) →
  (entries ip < n + Z.to_nat k)%nat →
  ∃ s', dirlink_slot n i (DE * k) env s =
      Done (DE * default (Z.of_nat (entries ip)) (first_of (λ k, negb (in_use V ip k)) k (entries ip - Z.to_nat k))) s' env ∧
    log_inv p s' V bl ∅ ∧ tframe s s'.
Proof.
  assert (Hd : DE = 16) by done. induction n as [|n IH]; intros k s ip S Hk Hn; [lia|].
  cbn [dirlink_slot]. rewrite bind_gets. fold ip. pose proof (dr_size _ _ _ _ _ _ S) as Hsz. fold ip in Hsz.
  destruct (entries_left ip k ltac:(lia) (dr_whole _ _ _ _ _ _ S)) as [El|]; [|lia]. rewrite El.
  destruct (Z.ltb_spec k (Z.of_nat (entries ip))) as [Hlt|Hge].
  - replace (entries ip - Z.to_nat k)%nat with (Datatypes.S (entries ip - Z.to_nat (k + 1))) by lia. cbn [first_of].
    apply Z.ltb_lt in El. destruct (read_entry p s V bl i k0 env k S ltac:(lia) El) as (s1 & E1 & L1 & F1). fold ip in E1.
    rewrite (bind_done _ _ _ _ _ _ _ E1). cbn [fst snd]. change (negb (16 =? 16)) with false. cbv iota.
    destruct (dir_state_frame _ _ _ _ _ _ _ S L1 F1) as [S1 Eg]. fold ip in Eg.
    unfold in_use at 1. rewrite negb_involutive. destruct (de_inum (dent V ip k) =? 0); [by exists s1|].
    destruct (IH (k + 1) s1 S1) as (s2 & E2 & L2 & F2); [rewrite Eg; lia|rewrite Eg; lia|]. rewrite Eg in E2.
    replace (DE * k + 16) with (DE * (k + 1)) by lia. exists s2. split; [done|]. split; [done|by etrans].
  - replace (entries ip - Z.to_nat k)%nat with 0%nat by lia. exists s. cbn [first_of default]. split; [|split; [apply S|done]].
    assert (k = Z.of_nat (entries ip)) as -> by lia. done.
Qed.

Lemma free_slot_spec V ip (k := free_slot V ip) :
  0 ≤ k ≤ Z.of_nat (entries ip) ∧ (k < Z.of_nat (entries ip) → in_use V ip k = false).
Proof.
  unfold k, free_slot. destruct (first_of _ _ _) as [j|] eqn:E; apply first_of_spec in E; simpl; [|split; lia].
  destruct E as (Hj & Pj & _). split; [lia|]. intros _. by apply negb_true_iff in Pj.
Qed.

(** [writei] of one entry at a whole offset. *)
Lemma overwritten_dent V ip V' ip' k de j : overwritten V ip V' ip' (DE * k) de → length de = 16%nat →
  0 ≤ j → DE * j + 16 ≤ MAXFILE * BSIZE → dent V' ip' j = if decide (j = k) then de else dent V ip j.
Proof.
  intros O Hl Hj Hb. change DE with 16 in *.
  assert (L : length (if decide (j = k) then de else dent V ip j) = 16%nat)
    by (destruct (decide (j = k)); [done|apply length_slice]).
  apply (list_eq_same_length _ _ 16); [done|apply length_slice|].
  intros x a b Hx. unfold dent at 1. change DE with 16. rewrite slice_lookup, O by lia. rewrite Hl. intros [= <-].
  destruct (decide (j = k)) as [->|Hne].
  - rewrite decide_True by lia. intros Hb'. replace (Z.to_nat _) with x by lia. by apply list_lookup_total_correct.
  - rewrite decide_False by lia. unfold dent. change DE with 16. rewrite slice_lookup by lia. congruence.
Qed.

(** ** The operations *)

Lemma iget_at dev inum env s : k_locks s = [] →
  iget dev inum env s = Panic "iget: no inodes" ∧
    (∀ j, (j < length (k_icache s))%nat → i_ref (get_inode s j) ≠ 0 ∧ caches_inode dev inum (get_inode s j) = false) ∨
  ∃ j s', iget dev inum env s = Done j s' env ∧ s' = s <| k_icache := k_icache s' |> ∧ i_dev (get_inode s' j) = dev ∧
    i_inum (get_inode s' j) = inum ∧ 0 < i_ref (get_inode s' j) ∧
    (∀ j', j' ≠ j → get_inode s' j' = get_inode s j').
Proof.
  intros El. destruct (iget_spec dev inum env s El) as [(j & E & Hj & Hc)|E]; [right|by left].
  eexists j, _. split; [exact E|]. split; [by destruct s|].
  assert (T : ∀ j', get_inode (s <| k_icache ::= alter (grab_inode dev inum) j |>) j' =
    if decide (j = j') then grab_inode dev inum (get_inode s j) else get_inode s j').
  { intros j'. unfold get_inode. simpl. by apply alter_total. }
  rewrite T, decide_True by done. unfold grab_inode. destruct (caches_inode _ _ _) eqn:C.
  - apply caches_inode_true in C as (C1 & C2 & C3). split; [done|]. split; [done|]. split; [simpl; lia|].
    intros j' Hne. by rewrite T, decide_False by done.
  - split; [done|]. split; [done|]. split; [simpl; lia|]. intros j' Hne. by rewrite T, decide_False by done.
Qed.

Lemma entries_le ip : 0 ≤ i_size ip → (entries ip ≤ Z.to_nat (i_size ip))%nat.
Proof. intros H. unfold entries. change DE with 16. Z.to_euclidean_division_equations. lia. Qed.

(** [dirlookup] is the scan, then [iget] of what it found. *)
Lemma dirlookup_run p s V bl i k0 name env (ip := get_inode s i) : dir_state p s V bl i (S k0) →
  ∃ s1, dirlookup i name env s =
      match find_entry V ip name with
      | None => Done None s1 env
      | Some k => bind (iget ROOTDEV (de_inum (dent V ip k))) (λ j, ret (Some (j, DE * k))) env s1
      end ∧ log_inv p s1 V bl ∅ ∧ tframe s s1.
Proof.
  intros S. pose proof (dr_size _ _ _ _ _ _ S) as Hsz. fold ip in Hsz.
  destruct (dirlookup_from_ok p V bl i k0 name env (Datatypes.S (Z.to_nat (i_size ip))) 0 s S) as (s1 & E & R); [done| |].
  { fold ip. pose proof (entries_le ip). lia. }
  exists s1. split; [|exact R]. fold ip in E. rewrite Nat.sub_0_r in E.
  unfold dirlookup. rewrite bind_gets. fold ip. rewrite (dr_type _ _ _ _ _ _ S : i_type ip = T_DIR).
  change (negb (T_DIR =? T_DIR)) with false. cbv iota. change 0 with (DE * 0) at 1. rewrite (bind_done _ _ _ _ _ _ _ E).
  rewrite (fs_dev _ _ _ _ _ _ (dr_file _ _ _ _ _ _ S) : i_dev ip = ROOTDEV).
  fold (find_entry V ip name). by destruct (find_entry V ip name).
Qed.

Lemma dirlink_slot_run p s V bl i k0 env (ip := get_inode s i) : dir_state p s V bl i (S k0) →
  ∃ s1, dirlink_slot (S (Z.to_nat (i_size ip))) i 0 env s = Done (DE * free_slot V ip) s1 env ∧ log_inv p s1 V bl ∅ ∧ tframe s s1.
Proof.
  intros S. pose proof (dr_size _ _ _ _ _ _ S) as Hsz. fold ip in Hsz.
  destruct (dirlink_slot_ok p V bl i k0 env (Datatypes.S (Z.to_nat (i_size ip))) 0 s S) as (s1 & E & R).
  { fold ip. lia. } { fold ip. pose proof (entries_le ip). lia. }
  exists s1. split; [|exact R]. fold ip in E. rewrite Nat.sub_0_r in E. exact E.
Qed.

(** The directory after the write of one entry. *)
Lemma written_dir p i k s V s' V' bl' de (ip := get_inode s i) (j := free_slot V ip) :
  written p i k s V s' V' bl' (DE * j) de → length de = 16%nat → i_type ip = T_DIR →
  0 ≤ i_size ip ≤ MAXFILE * BSIZE → i_size ip `mod` DE = 0 → mapped V ip (i_size ip) → DE * j + 16 ≤ MAXFILE * BSIZE →
  dir_state p s' V' bl' i k ∧ entry_added V ip V' (get_inode s' i) j de.
Proof.
  intros [W1 W2 W3 (l & W4) W5 _ _] Hl Ht Hs Hw Hm Hj. fold ip in W3, W4, W5. rewrite Hl in W4.
  destruct (free_slot_spec V ip) as [Hf Hu]. fold j in Hf, Hu.
  assert (Es : i_size (get_inode s' i) = Z.max (i_size ip) (DE * j + 16)) by (by rewrite W4).
  assert (Ee : Z.of_nat (entries ip) = i_size ip / 16) by (unfold entries; change DE with 16; apply Z2Nat.id, Z.div_pos; lia).
  assert (Eq : i_size ip = 16 * Z.of_nat (entries ip)).
  { rewrite Ee. change DE with 16 in Hw. clear -Hw. Z.to_euclidean_division_equations. lia. }
  change DE with 16 in *. change (MAXFILE * BSIZE) with 71680 in *. split.
  - split; [done|by rewrite W4|rewrite Es; change (MAXFILE * BSIZE) with 71680; lia| |by apply W5].
    rewrite Es, Eq. change DE with 16. clear. destruct (Z.max_spec (16 * Z.of_nat (entries ip)) (16 * j + 16)) as [[_ ->]|[_ ->]].
    + replace (16 * j + 16) with ((j + 1) * 16) by lia. apply Z_mod_mult.
    + rewrite Z.mul_comm. apply Z_mod_mult.
  - assert (Od := λ x, overwritten_dent V ip V' (get_inode s' i) j de x W3 Hl). change DE with 16 in Od.
    change (MAXFILE * BSIZE) with 71680 in Od. split; [rewrite Od by lia; by rewrite decide_True| |done|done|].
    + intros x Hx Hne. rewrite Od by lia. by rewrite decide_False.
    + unfold entries at 1. rewrite Es, Eq. change DE with 16. clear -Hf. Z.to_euclidean_division_equations. lia.
Qed.
End dir.

(** ** An example: 32 entries, all with the number 1799 and the name of 14 bytes 7 *)
Definition fs_dir : inode := fs_inode <| i_type := T_DIR |>.

Lemma dir_ready :
  ∃ s V, dir_state 0 s V [] 0 28 ∧ k_locks s = [] ∧ get_inode s 0 = fs_dir ∧ inode_apart s V fs_dir ∧ V 59 = replicate 512 7 ∧
    nfree V (k_sb s) = 940%nat ∧ k_icache s = fs_dir :: replicate 49 inode_zero.
Proof.
  destruct fs_ready as (s & V & S & Es & El & Ei & Ia & Hm & E59 & _ & E58).
  assert (Eg : get_inode s 0 = fs_inode) by (unfold get_inode; by rewrite Ei).
  set (s' := s <| k_icache ::= alter (λ ip, ip <| i_type := T_DIR |>) 0%nat |>).
  assert (Eg' : get_inode s' 0 = fs_dir) by (unfold get_inode, s'; simpl; by rewrite Ei).
  destruct S as [L M F Dv Ix R]. rewrite Eg in F, Dv, Ia, Hm. exists s', V. split; [split|].
  - assert (G : same_geom s s') by done. split; rewrite ?Eg'.
    + by apply log_inv_icache.
    + by apply (bitmap_ok_geom s).
    + apply (file_ok_geom s); [done|]. destruct F as [F1 F2 F3 F4 F5]. split; [exact F1|exact F2|exact F3|exact F4|exact F5].
    + done.
    + unfold s'. simpl. by rewrite length_alter.
    + destruct R; by split.
  - by rewrite Eg'.
  - rewrite Eg'. by vm_compute.
  - by rewrite Eg'.
  - rewrite Eg'. exact Hm.
  - split_and!; [exact El|exact Eg'|by apply (inode_apart_geom s)|exact E59| |unfold s'; simpl; by rewrite Ei].
    change (k_sb s') with (k_sb s). rewrite Es. by apply fs_nfree.
Qed.

Lemma fs_dir_entry V k : V 59 = replicate 512 7 → 0 ≤ k < 32 → dent V fs_dir k = replicate 16 7.
Proof.
  intros E Hk. apply list_eq_same_length with 16%nat; [done|apply length_slice|].
  intros j x y Hj. unfold dent. change DE with 16. rewrite slice_lookup by lia. rewrite lookup_replicate_2 by lia.
  intros [= <-] [= <-]. unfold fbyte. change BSIZE with 512. rewrite (Z.div_small (16 * k + Z.of_nat j)), Z.mod_small by lia.
  unfold fblock. change (addr V fs_dir 0) with 59. cbn [Z.eqb Pos.eqb]. rewrite E. apply lookup_total_replicate_2. lia.
Qed.

Lemma fs_dir_is V name k : V 59 = replicate 512 7 → 0 ≤ k < 32 →
  is_entry V fs_dir name k = bool_decide (replicate 14 7 = fname name).
Proof. intros E Hk. unfold is_entry, in_use. by rewrite (fs_dir_entry V k E Hk). Qed.

(** ** Theorems *)

(** C23. [dirlookup] does what the directory says: a name that is not in it
    gives 0, and a name that is gives a cached inode with the number of its
    entry and the offset of that entry; no other cached inode changes, and
    neither does the directory.  The only failure is a name that is in the
    directory when the inode cache is full: all its entries are in use and
    none of them is for that inode. *)
Theorem dirlookup_finds {D : Devsw} p s V bl i k0 name env (ip := get_inode s i) :
  dir_state p s V bl i (S k0) → k_locks s = [] →
  match dirmap V ip name with
  | None => ∃ s', dirlookup i name env s = Done None s' env ∧ dir_state p s' V bl i (S k0) ∧ k_icache s' = k_icache s
  | Some inum =>
      dirlookup i name env s = Panic "iget: no inodes" ∧
        (∀ j, (j < length (k_icache s))%nat → i_ref (get_inode s j) ≠ 0 ∧ caches_inode ROOTDEV inum (get_inode s j) = false) ∨
      ∃ j off s', dirlookup i name env s = Done (Some (j, off)) s' env ∧
        i_dev (get_inode s' j) = ROOTDEV ∧ i_inum (get_inode s' j) = inum ∧ 0 < i_ref (get_inode s' j) ∧
        (∀ j', j' ≠ j → get_inode s' j' = get_inode s j') ∧ log_inv p s' V bl ∅ ∧
        0 ≤ off < i_size ip ∧ de_inum (slice V ip off 16) = inum ∧ fname (de_name (slice V ip off 16)) = fname name
  end.
Proof.
  intros S El. destruct (dirlookup_run p s V bl i k0 name env S) as (s1 & E1 & L1 & F1). fold ip in E1. rewrite E1.
  destruct (dir_state_frame _ _ _ _ _ _ _ S L1 F1) as [S1 Eg1]. pose proof (lframe_icache _ _ (tf_frame _ _ F1)) as Ei1.
  unfold dirmap. destruct (find_entry V ip name) as [k|] eqn:Ef; cbn [fmap option_fmap option_map].
  - apply first_of_spec in Ef as (Hk & Pk & _).
    assert (El1 : k_locks s1 = []) by (by rewrite (proj1 (tf_frame _ _ F1))).
    destruct (iget_at ROOTDEV (de_inum (dent V ip k)) env s1 El1) as [[E Hall]|(j & s' & E & Es & H1 & H2 & H3 & H4)]; [left|right].
    + split; [by rewrite (bind_panic _ _ _ _ _ E)|]. unfold get_inode in *. by rewrite Ei1 in Hall.
    + rewrite (bind_done _ _ _ _ _ _ _ E). exists j, (DE * k), s'. apply andb_true_iff in Pk as [_ Pk].
      apply bool_decide_eq_true in Pk. split_and!; try done.
      * intros j' Hne. rewrite H4 by done. unfold get_inode. by rewrite Ei1.
      * rewrite Es. apply (log_inv_icache (λ _, k_icache s')), L1.
      * change DE with 16. lia.
      * destruct (entries_left ip k ltac:(lia) (dr_whole _ _ _ _ _ _ S)) as [Hl|Hl].
        { apply Z.ltb_lt. rewrite Hl. apply Z.ltb_lt. lia. } { pose proof (dr_size _ _ _ _ _ _ S) as Hs. fold ip in Hs. lia. }
  - exists s1. by split.
Qed.

(** C14. [dirlink] of a name that the directory does not have adds exactly
    that name: afterwards the directory gives the new inode number for it and
    what it gave before for every other name.  The entry goes to the first
    free slot, or to the end; a directory of the largest size without a free
    slot stops the kernel, and so does a disk with fewer free blocks than the
    directory lacks for that slot. *)
Theorem dirlink_adds {D : Devsw} p s V bl i k name inum env (ip := get_inode s i) :
  dir_state p s V bl i (S (7 * 1 + k)) → inode_apart s V ip → dirmap V ip name = None → 0 < inum < 65536 →
  if decide (DE * free_slot V ip + 16 ≤ MAXFILE * BSIZE) then
    dirlink i name inum env s = Panic "balloc: out of blocks" ∧
      (nfree V (k_sb s) < missing V ip (blocks (DE * free_slot V ip) 16))%nat ∨
    ∃ s' V' bl', dirlink i name inum env s = Done 0 s' env ∧ dir_state p s' V' bl' i k ∧
      ∀ nm, dirmap V' (get_inode s' i) nm = if decide (fname nm = fname name) then Some inum else dirmap V ip nm
  else dirlink i name inum env s = Panic "dirlink".
Proof.
  intros S Ia Hn Hi. destruct (dirlookup_run p s V bl i _ name env S) as (s1 & E1 & L1 & F1). fold ip in E1.
  destruct (dir_state_frame _ _ _ _ _ _ _ S L1 F1) as [S1 Eg1]. fold ip in Eg1.
  destruct (dirlink_slot_run p s1 V bl i _ env S1) as (s2 & E2 & L2 & F2). rewrite Eg1 in E2.
  destruct (dir_state_frame _ _ _ _ _ _ _ S1 L2 F2) as [S2 Eg2]. rewrite Eg1 in Eg2.
  assert (Ia2 : inode_apart s2 V ip) by (apply (inode_apart_geom s); [by apply tframe_geom; etrans|done]).
  unfold dirmap in Hn. destruct (find_entry V ip name) eqn:Ef; [done|].
  unfold dirlink. rewrite (bind_done _ _ _ _ _ _ _ E1), bind_gets, Eg1, (bind_done _ _ _ _ _ _ _ E2).
  destruct (free_slot_spec V ip) as [Hf _]. destruct S2 as [S2 T2 Z2 W2 M2]. rewrite Eg2 in T2, Z2, W2, M2.
  assert (Hle : DE * free_slot V ip ≤ i_size ip).
  { change DE with 16. unfold entries in Hf. change DE with 16 in Hf. rewrite Z2Nat.id in Hf by (apply Z.div_pos; lia).
    clear -Hf. Z.to_euclidean_division_equations. lia. }
  pose proof (writei_spec p i k env 1 s2 V bl (DE * free_slot V ip) (mk_dirent name inum) S2) as H. rewrite Eg2 in H.
  rewrite length_mk_dirent in H. change (Z.of_nat 16) with 16 in H.
  rewrite (proj2 (Z.ltb_ge _ _) Hle) in H. change (MAXFILE * BSIZE) with 71680 in *. cbn [orb] in H.
  specialize (H ltac:(by rewrite T2) Z2 Ia2 ltac:(unfold is_u32; change DE with 16; change DE with 16 in Hle; lia) ltac:(done)).
  specialize (H ltac:(change DE with 16; change BSIZE with 512; clear; Z.to_euclidean_division_equations; lia)).
  destruct (decide _) as [Hb|Hb].
  - rewrite (proj2 (Z.ltb_ge _ _)) in H by done. destruct H as [[H Hn']|(s' & V' & bl' & E & W)]; [left|right].
    + split; [by rewrite (bind_panic _ _ _ _ _ H)|]. by rewrite (tframe_sb _ _ F2), (tframe_sb _ _ F1) in Hn'.
    + rewrite <-Eg2 in W. destruct (written_dir _ _ _ _ _ _ _ _ _ W) as [S' A]; rewrite ?Eg2; try done.
      rewrite Eg2 in A. exists s', V', bl'. split; [by rewrite (bind_done _ _ _ _ _ _ _ E)|]. split; [done|].
      intros nm. apply (dirmap_added _ _ _ _ _ _ _ _ A Hi). unfold dirmap. by rewrite Ef.
  - rewrite (proj2 (Z.ltb_lt _ _)) in H by lia. by rewrite (bind_done _ _ _ _ _ _ _ H).
Qed.

Lemma dirlookup_finds_witness :
  ∃ s j off s', @dirlookup no_devices memide 0 (replicate 14 7) [] s = Done (Some (j, off)) s' [] ∧ i_inum (get_inode s' j) = 1799.
Proof.
  destruct dir_ready as (s & V & S & El & Eg & Ia & E59 & _ & Ei). exists s.
  pose proof (@dirlookup_finds no_devices 0 s V [] 0 27 (replicate 14 7) [] S El) as H. rewrite Eg in H.
  assert (E : dirmap V fs_dir (replicate 14 7) = Some 1799).
  { unfold dirmap. assert (find_entry V fs_dir (replicate 14 7) = Some 0) as ->.
    { apply first_of_spec. split; [vm_compute; intuition discriminate|]. split; [by rewrite fs_dir_is|lia]. }
    simpl. by rewrite (fs_dir_entry V 0 E59). }
  rewrite E in H. destruct H as [[_ H]|(j & off & s' & H & _ & Hi & _)].
  - destruct (H 1%nat) as [H' _]; unfold get_inode in *; rewrite Ei in *; [simpl; lia|]. by destruct H'.
  - exists j, off, s'. split; [exact H|exact Hi].
Defined.

Lemma dirlink_adds_witness :
  ∃ s s' V', @dirlink no_devices memide 0 [97; 98] 5 [] s = Done 0 s' [] ∧ dirmap V' (get_inode s' 0) [97; 98] = Some 5.
Proof.
  destruct dir_ready as (s & V & S & El & Eg & Ia & E59 & En & _). exists s.
  pose proof (@dirlink_adds no_devices 0 s V [] 0 20 [97; 98] 5 [] S) as H. rewrite Eg in H.
  assert (N : first_of (λ k, negb (in_use V fs_dir k)) 0 (entries fs_dir) = None).
  { apply first_of_spec. intros k Hk. unfold in_use. rewrite (fs_dir_entry V k E59) by exact Hk. reflexivity. }
  assert (E : dirmap V fs_dir [97; 98] = None).
  { unfold dirmap. assert (find_entry V fs_dir [97; 98] = None) as ->; [|reflexivity].
    apply first_of_spec. intros k Hk. rewrite (fs_dir_is V _ k E59) by exact Hk. reflexivity. }
  specialize (H Ia E ltac:(lia)). unfold free_slot in H. rewrite N in H. rewrite decide_True in H by (vm_compute; discriminate).
  destruct H as [[_ H]|(s' & V' & bl' & H & _ & Hm)].
  - rewrite En in H. vm_compute in H. lia.
  - exists s', V'. split; [exact H|]. rewrite Hm. reflexivity.
Defined.
