(* ===== verification/Mkfs.v ===== *)
(** * The image builder (mkfs.c)

    The host program that writes the first disk image: the super block, the
    inode blocks, the free map, and one file per argument with the root
    directory that names them.  The state is the image file, as the list of
    its blocks, and the two counters [freeinode] and [freeblock]; a failed
    assertion and [exit(1)] are the failing outcomes.  What the host gives
    for an argument is its name and the result of each [read] of the file.

    The result: the image is a file system in the sense of the kernel.  Its
    free map and the block maps of its inodes are as [Blocks] and [Files]
    require them, the root directory gives each name its inode, and each
    inode has the contents of its file. *)
From S2P Require Import Prelude State Sync CString Dll Bio Cache Log Crash Fs Blocks Inodes Files FileSystem Dir.

(** ** The program *)
Definition NINODES : Z := 200.
Definition nbitmap : Z := FSSIZE / (BSIZE * 8) + 1.
Definition ninodeblocks : Z := NINODES / IPB + 1.
Definition nlog : Z := LOGSIZE.
(** As [main] sets them. *)
Definition nmeta : Z := 2 + nlog + ninodeblocks + nbitmap.
Definition nblocks : Z := FSSIZE - nmeta.

(** Little-endian byte order; the host has it too. *)
Definition xshort (x : Z) : Z := le_val (le_bytes 2 x).
Definition xint (x : Z) : Z := le_val (le_bytes 4 x).

Definition sb : superblock :=
  SuperBlock (xint FSSIZE) (xint nblocks) (xint NINODES) (xint nlog) (xint 2) (xint (2 + nlog)) (xint (2 + nlog + ninodeblocks)).
Definition sb_bytes : list Z :=
  flat_map (le_bytes 4) [sb_size sb; sb_nblocks sb; sb_ninodes sb; sb_nlog sb; sb_logstart sb; sb_inodestart sb; sb_bmapstart sb].

Record mkfs := MkFs { m_img : list block; freeinode : Z; freeblock : Z }.
#[global] Instance eta_mkfs : Eta mkfs := λ r, MkFs (m_img r) (freeinode r) (freeblock r).
Notation MK A := (M mkfs A).

(** The block of the file at offset [sec * BSIZE]. *)
Definition sect (sec : Z) : nat := Z.to_nat (u32 (sec * BSIZE) / BSIZE).

(** A write past the end leaves a hole of zeros before it. *)
Definition put_block (n : nat) (d : block) (img : list block) : list block :=
  if (n <? length img)%nat then <[n := d]> img
  else img ++ replicate (n - length img) zero_block ++ [d].
Definition wsect (sec : Z) (buf : block) : MK unit := modify (λ s, s <| m_img ::= put_block (sect sec) buf |>).
Definition rsect (sec : Z) : MK block :=
  r <- gets (λ s, m_img s !! sect sec) ;;
  match r with
  | Some d => ret d
  | None => panic "read"
  end.

Definition winode (inum : Z) (ip : dinode) : MK unit :=
  let bn := IBLOCK inum sb in
  buf <- rsect bn ;;
  wsect bn (put_dinode ip (dioff inum) buf).
Definition rinode (inum : Z) : MK dinode :=
  buf <- rsect (IBLOCK inum sb) ;;
  ret (get_dinode buf (dioff inum)).

Definition ialloc (type : Z) : MK Z :=
  inum <- gets freeinode ;;
  modify (λ s, s <| freeinode ::= λ n, u32 (n + 1) |>) ;;
  winode inum (DInode (xshort type) 0 0 (xshort 1) (xint 0) (replicate 13 0)) ;;
  ret inum.

Definition balloc (used : Z) : MK unit :=
  if negb (used <? BSIZE * 8) then panic "assert: used < BSIZE*8" else
  wsect (sb_bmapstart sb) (foldl (λ buf i, bit_set i buf) zero_block (seqZ 0 used)).

(** [freeblock++] *)
Definition newblock : MK Z :=
  b <- gets freeblock ;;
  modify (λ s, s <| freeblock ::= λ n, u32 (n + 1) |>) ;;
  ret b.

Definition set_addr (i : nat) (b : Z) (din : dinode) : dinode :=
  DInode (d_type din) (d_major din) (d_minor din) (d_nlink din) (d_size din) (<[i := b]> (d_addrs din)).
Definition set_size (n : Z) (din : dinode) : dinode :=
  DInode (d_type din) (d_major din) (d_minor din) (d_nlink din) n (d_addrs din).

(** The block [x] for block [fbn] of the file, allocated if it is missing:
    first through the indirect block, then in general. *)
Definition iappend_slot (din : dinode) (fbn : Z) : MK (dinode * Z) :=
  indirect <- rsect (xint (d_addrs din !!! 12%nat)) ;;
  let o := Z.to_nat (4 * (fbn - NDIRECT)) in
  indirect <- (if ldn 4 indirect o =? 0 then
                 b <- newblock ;;
                 wsect (xint (d_addrs din !!! 12%nat)) (stn 4 indirect o (xint b)) ;;
                 ret (stn 4 indirect o (xint b))
               else ret indirect) ;;
  ret (din, xint (ldn 4 indirect o)).

Definition iappend_block (din : dinode) (fbn : Z) : MK (dinode * Z) :=
  if fbn <? NDIRECT then
    din <- (if xint (d_addrs din !!! Z.to_nat fbn) =? 0
            then b <- newblock ;; ret (set_addr (Z.to_nat fbn) (xint b) din) else ret din) ;;
    ret (din, xint (d_addrs din !!! Z.to_nat fbn))
  else
    din <- (if xint (d_addrs din !!! 12%nat) =? 0
            then b <- newblock ;; ret (set_addr 12 (xint b) din) else ret din) ;;
    iappend_slot din fbn.

(** The loop of [iappend]; every round takes at least one byte of [p]. *)
Fixpoint iappend_from (fuel : nat) (din : dinode) (off : Z) (p : list Z) : MK (dinode * Z) :=
  match fuel with
  | O => ret (din, off)
  | S fuel =>
      if negb (0 <? Z.of_nat (length p)) then ret (din, off) else
      let fbn := off / BSIZE in
      if negb (fbn <? MAXFILE) then panic "assert: fbn < MAXFILE" else
      dx <- iappend_block din fbn ;;
      let '(din, x) := dx in
      let n1 := Z.to_nat (Z.min (Z.of_nat (length p)) ((fbn + 1) * BSIZE - off)) in
      buf <- rsect x ;;
      wsect x (list_inserts (Z.to_nat (off - fbn * BSIZE)) (take n1 p) buf) ;;
      iappend_from fuel din (off + Z.of_nat n1) (drop n1 p)
  end.

Definition iappend (inum : Z) (p : list Z) : MK unit :=
  din <- rinode inum ;;
  r <- iappend_from (S (length p)) din (xint (d_size din)) p ;;
  let '(din, off) := r in
  winode inum (set_size (xint off) din).

(** An argument: its name, and what [open] and each [read] until the end of
    the file give. *)
Record hostfile := HostFile { h_name : list Z; h_reads : option (list (list Z)) }.

(** [if(argv[i][0] == '_') ++argv[i];] *)
Definition skip_underscore (name : list Z) : list Z :=
  match name with
  | c :: l => if c =? 95 then l else name
  | [] => []
  end.

Definition add_file (rootino : Z) (f : hostfile) : MK unit :=
  if bool_decide (47 ∈ h_name f) then panic "assert: index(argv[i], '/') == 0" else
  match h_reads f with
  | None => panic "open"
  | Some reads =>
      inum <- ialloc T_FILE ;;
      iappend rootino (mk_dirent (skip_underscore (h_name f)) (xshort inum)) ;;
      foreach (iappend inum) reads
  end.

(** [image] is the first argument, and whether it can be opened. *)
Definition main (image : option bool) (files : list hostfile) : MK unit :=
  match image with
  | None => panic "Usage: mkfs fs.img files..."
  | Some false => panic "open"
  | Some true =>
      modify (λ s, s <| m_img := [] |>) ;;
      modify (λ s, s <| freeblock := nmeta |>) ;;
      foreach (λ i, wsect i zero_block) (seqZ 0 FSSIZE) ;;
      wsect 1 (sb_bytes ++ replicate (512 - length sb_bytes) 0) ;;
      rootino <- ialloc T_DIR ;;
      if negb (rootino =? ROOTINO) then panic "assert: rootino == ROOTINO" else
      iappend rootino (mk_dirent [46] (xshort rootino)) ;;
      iappend rootino (mk_dirent [46; 46] (xshort rootino)) ;;
      foreach (add_file rootino) files ;;
      din <- rinode rootino ;;
      let off := xint (d_size din) in
      let off := u32 ((off / BSIZE + 1) * BSIZE) in
      winode rootino (set_size (xint off) din) ;;
      n <- gets freeblock ;;
      balloc n
  end.

(** The program when it starts. *)
Definition start : mkfs := MkFs [] 1 0.

(** ** What an inode of the image stores *)

(** The inode in memory that [ilock] makes of inode [n]. *)
Definition cached (n : Z) (D : dinode) : inode :=
  load_dinode D (inode_zero <| i_dev := ROOTDEV |> <| i_inum := n |> <| i_ref := 1 |> <| i_valid := true |>).

(** The first [nb] blocks of the file exist, and the indirect block when [hi];
    all are below [fb] and used once; the contents are [c] and zeros. *)
Record layout (V : Z → block) (fb : Z) (ip : inode) (nb : Z) (hi : bool) (c : list Z) : Prop := {
  ly_len : length (i_addrs ip) = 13%nat;
  ly_nb : 0 ≤ nb ≤ MAXFILE ∧ (hi = false → nb ≤ NDIRECT);
  ly_map bn : 0 ≤ bn < MAXFILE → if bn <? nb then nmeta ≤ addr V ip bn < fb else addr V ip bn = 0;
  ly_ind : if hi then nmeta ≤ ind_addr ip < fb else ind_addr ip = 0;
  ly_inj bn bn' : 0 ≤ bn < nb → 0 ≤ bn' < nb → addr V ip bn = addr V ip bn' → bn = bn';
  ly_ne bn : 0 ≤ bn < nb → hi = true → addr V ip bn ≠ ind_addr ip;
  ly_bytes x : 0 ≤ x < MAXFILE * BSIZE → fbyte V ip x = pad c (Z.to_nat x) }.

Lemma layout_addr V fb ip nb hi c bn : layout V fb ip nb hi c → 0 ≤ bn < nb → nmeta ≤ addr V ip bn < fb.
Proof.
  intros L Hb. pose proof (ly_map _ _ _ _ _ _ L bn) as H. destruct (ly_nb _ _ _ _ _ _ L).
  rewrite (proj2 (Z.ltb_lt _ _)) in H by lia. apply H. lia.
Qed.
Lemma layout_none V fb ip nb hi c bn : layout V fb ip nb hi c → nb ≤ bn < MAXFILE → addr V ip bn = 0.
Proof.
  intros L Hb. pose proof (ly_map _ _ _ _ _ _ L bn) as H. destruct (ly_nb _ _ _ _ _ _ L).
  rewrite (proj2 (Z.ltb_ge _ _)) in H by lia. apply H. lia.
Qed.

Lemma layout_owns V fb ip nb hi c a : layout V fb ip nb hi c → owns V ip a → nmeta ≤ a < fb.
Proof.
  intros L [H0 [->|(bn & Hb & ->)]].
  - pose proof (ly_ind _ _ _ _ _ _ L) as H. by destruct hi.
  - pose proof (ly_map _ _ _ _ _ _ L bn Hb) as H. by destruct (bn <? nb).
Qed.

Lemma layout_owned V fb ip nb hi c bn : layout V fb ip nb hi c → 0 ≤ bn < nb → owns V ip (addr V ip bn).
Proof.
  intros L Hb. pose proof (layout_addr _ _ _ _ _ _ _ L Hb) as H. destruct (ly_nb _ _ _ _ _ _ L) as [? _].
  split; [change nmeta with 59 in H; lia|]. right. exists bn. split; [lia|done].
Qed.
Lemma layout_owned_ind V fb ip nb c : layout V fb ip nb true c → owns V ip (ind_addr ip).
Proof. intros L. pose proof (ly_ind _ _ _ _ _ _ L) as H. simpl in H. change nmeta with 59 in H. split; [lia|by left]. Qed.

(** Blocks of other files may change, and more blocks be taken. *)
Lemma addr_frame V V' ip bn : (∀ a, owns V ip a → V' a = V a) → addr V' ip bn = addr V ip bn.
Proof.
  intros E. unfold addr. destruct (bn <? NDIRECT); [done|]. destruct (Z.eqb_spec (ind_addr ip) 0) as [|Hn]; [done|].
  rewrite E; [done|]. split; [done|by left].
Qed.
Lemma owns_frame V V' ip a : (∀ a, owns V ip a → V' a = V a) → owns V' ip a ↔ owns V ip a.
Proof. intros E. unfold owns. by setoid_rewrite (addr_frame V V' ip _ E). Qed.
Lemma fbyte_frame V V' ip x : (∀ a, owns V ip a → V' a = V a) → 0 ≤ x < MAXFILE * BSIZE → fbyte V' ip x = fbyte V ip x.
Proof.
  intros E Hx. unfold fbyte, fblock. rewrite (addr_frame V V' ip _ E).
  destruct (Z.eqb_spec (addr V ip (x / BSIZE)) 0) as [|Hn]; [done|]. rewrite E; [done|]. split; [done|]. right.
  exists (x / BSIZE). split; [|done]. change BSIZE with 512 in *. change MAXFILE with 140 in *. Z.to_euclidean_division_equations. lia.
Qed.
Lemma layout_frame V fb ip nb hi c V' fb' : layout V fb ip nb hi c → (∀ a, owns V ip a → V' a = V a) → fb ≤ fb' →
  layout V' fb' ip nb hi c.
Proof.
  intros [L1 L2 L3 L4 L5 L6 L7] E Hf. assert (A := λ bn, addr_frame V V' ip bn E). split; try done.
  - intros bn Hb. rewrite A. specialize (L3 bn Hb). destruct (bn <? nb); lia.
  - destruct hi; lia.
  - intros bn bn'. rewrite !A. apply L5.
  - intros bn. rewrite A. apply L6.
  - intros x Hx. rewrite (fbyte_frame V V') by done. by apply L7.
Qed.

(** One block more at the end of the file. *)
Lemma layout_add V fb ip nb hi c V' ip' :
  layout V fb ip nb hi c → nb < MAXFILE → (hi = false → nb < NDIRECT) → nmeta ≤ fb →
  length (i_addrs ip') = 13%nat → ind_addr ip' = ind_addr ip →
  (∀ bn, 0 ≤ bn < MAXFILE → addr V' ip' bn = if decide (bn = nb) then fb else addr V ip bn) →
  (∀ bn, 0 ≤ bn < nb → V' (addr V ip bn) = V (addr V ip bn)) → V' fb = zero_block →
  layout V' (fb + 1) ip' (nb + 1) hi c.
Proof.
  intros L Hm Hh Hf Hl Hi A K Z. pose proof (ly_nb _ _ _ _ _ _ L) as [Hn Hd].
  assert (R : ∀ bn, 0 ≤ bn < nb → nmeta ≤ addr V ip bn < fb) by (intros; by eapply layout_addr).
  assert (A1 : ∀ bn, 0 ≤ bn < nb → addr V' ip' bn = addr V ip bn) by (intros bn Hb; by rewrite A, decide_False by lia).
  assert (A2 : addr V' ip' nb = fb) by (by rewrite A, decide_True by lia). split.
  - done.
  - split; [lia|]. intros E. specialize (Hh E). change NDIRECT with 12 in *. lia.
  - intros bn Hb. destruct (Z.ltb_spec bn (nb + 1)) as [Hlt|Hge].
    + destruct (decide (bn = nb)) as [->|]; [rewrite A2; lia|]. rewrite A1 by lia. specialize (R bn). lia.
    + rewrite A, decide_False by lia. apply (layout_none _ _ _ _ _ _ bn L). lia.
  - rewrite Hi. pose proof (ly_ind _ _ _ _ _ _ L). destruct hi; lia.
  - intros bn bn' Hb Hb'. destruct (decide (bn = nb)) as [->|], (decide (bn' = nb)) as [->|]; rewrite ?A2, ?A1 by lia.
    + done.
    + intros E. specialize (R bn'). lia.
    + intros E. specialize (R bn). lia.
    + apply (ly_inj _ _ _ _ _ _ L); lia.
  - intros bn Hb Ht. rewrite Hi. destruct (decide (bn = nb)) as [->|]; rewrite ?A2, ?A1 by lia.
    + pose proof (ly_ind _ _ _ _ _ _ L) as H. rewrite Ht in H. lia.
    + apply (ly_ne _ _ _ _ _ _ L); [lia|done].
  - intros x Hx. rewrite <-(ly_bytes _ _ _ _ _ _ L x Hx). unfold fbyte. f_equal. unfold fblock.
    assert (Hb : 0 ≤ x / BSIZE < MAXFILE).
    { change BSIZE with 512 in *. change MAXFILE with 140 in *. clear -Hx. Z.to_euclidean_division_equations. lia. }
    rewrite A by done. destruct (decide (x / BSIZE = nb)) as [->|Hne].
    + rewrite (layout_none _ _ _ _ _ _ nb L) by lia. change nmeta with 59 in Hf.
      rewrite (proj2 (Z.eqb_neq fb 0)) by lia. by rewrite Z, Z.eqb_refl.
    + destruct (Z.eqb_spec (addr V ip (x / BSIZE)) 0) as [|Hz]; [done|]. apply K.
      destruct (Z.lt_ge_cases (x / BSIZE) nb); [lia|]. by rewrite (layout_none _ _ _ _ _ _ (x / BSIZE) L) in Hz by lia.
Qed.

(** A direct block. *)
Lemma ind_direct ip (i : nat) b : (i < 12)%nat → ind_addr (ip <| i_addrs ::= <[i := b]> |>) = ind_addr ip.
Proof. intros Hi. unfold ind_addr. simpl. by rewrite list_lookup_total_insert_ne by lia. Qed.

Lemma addr_set_direct V ip nb b bn : length (i_addrs ip) = 13%nat → 0 ≤ nb < NDIRECT → 0 ≤ bn →
  addr V (ip <| i_addrs ::= <[Z.to_nat nb := b]> |>) bn = if decide (bn = nb) then b else addr V ip bn.
Proof.
  intros Hl Hn Hb. change NDIRECT with 12 in Hn. unfold addr. rewrite ind_direct by lia. change NDIRECT with 12. simpl.
  destruct (Z.ltb_spec bn 12); [|by rewrite decide_False by lia].
  destruct (decide (bn = nb)) as [->|]; [by rewrite list_lookup_total_insert_eq by lia|by rewrite list_lookup_total_insert_ne by lia].
Qed.

Lemma layout_direct V fb ip nb hi c : layout V fb ip nb hi c → nb < NDIRECT → nmeta ≤ fb → V fb = zero_block →
  layout V (fb + 1) (ip <| i_addrs ::= <[Z.to_nat nb := fb]> |>) (nb + 1) hi c.
Proof.
  intros L Hn Hf Z. pose proof (ly_len _ _ _ _ _ _ L) as Hl. pose proof (ly_nb _ _ _ _ _ _ L) as [Hn0 _].
  apply (layout_add V fb ip nb hi c); try done.
  - change NDIRECT with 12 in Hn. change MAXFILE with 140. lia.
  - simpl. by rewrite length_insert.
  - apply ind_direct. change NDIRECT with 12 in Hn. lia.
  - intros bn Hb. apply addr_set_direct; [done|lia..].
Qed.

(** The indirect block. *)
Lemma ind_indirect ip b : length (i_addrs ip) = 13%nat → ind_addr (ip <| i_addrs ::= <[12%nat := b]> |>) = b.
Proof. intros Hl. unfold ind_addr. simpl. apply list_lookup_total_insert_eq. lia. Qed.

Lemma addr_set_indirect V ip b bn : length (i_addrs ip) = 13%nat → ind_addr ip = 0 → b ≠ 0 → V b = zero_block → 0 ≤ bn < MAXFILE →
  addr V (ip <| i_addrs ::= <[12%nat := b]> |>) bn = addr V ip bn.
Proof.
  intros Hl Hi Hb Z Hn. unfold addr. rewrite ind_indirect, Hi by done. change NDIRECT with 12. destruct (Z.ltb_spec bn 12).
  - simpl. by rewrite list_lookup_total_insert_ne by lia.
  - rewrite (proj2 (Z.eqb_neq b 0)) by done. rewrite Z. apply ldn_zero_block. change MAXFILE with 140 in Hn. lia.
Qed.

Lemma layout_indirect V fb ip nb c : layout V fb ip nb false c → nmeta ≤ fb → V fb = zero_block →
  layout V (fb + 1) (ip <| i_addrs ::= <[12%nat := fb]> |>) nb true c.
Proof.
  intros [L1 [L2 L2'] L3 L4 L5 L6 L7] Hf Z. specialize (L2' eq_refl). change NDIRECT with 12 in L2'.
  assert (A : ∀ bn, 0 ≤ bn < MAXFILE → addr V (ip <| i_addrs ::= <[12%nat := fb]> |>) bn = addr V ip bn).
  { intros bn Hb. apply addr_set_indirect; [done..| |done|done]. change nmeta with 59 in Hf. lia. }
  split.
  - simpl. by rewrite length_insert.
  - done.
  - intros bn Hb. rewrite A by done. specialize (L3 bn Hb). destruct (bn <? nb); lia.
  - rewrite ind_indirect by done. lia.
  - intros bn bn' Hb Hb'. rewrite !A by lia. by apply L5.
  - intros bn Hb _. rewrite A, ind_indirect by (done || lia).
    specialize (L3 bn ltac:(lia)). rewrite (proj2 (Z.ltb_lt _ _)) in L3 by lia. lia.
  - intros x Hx. rewrite <-L7 by done. unfold fbyte, fblock. rewrite A; [done|].
    change BSIZE with 512 in *. change MAXFILE with 140 in *. clear -Hx. Z.to_euclidean_division_equations. lia.
Qed.

(** A block through the indirect block. *)
Lemma addr_slot V ip nb b bn (a := ind_addr ip) : a ≠ 0 → NDIRECT ≤ nb < MAXFILE → is_u32 b → length (V a) = 512%nat → 0 ≤ bn →
  addr (<[a := stn 4 (V a) (Z.to_nat (4 * (nb - NDIRECT))) b]> V) ip bn = if decide (bn = nb) then b else addr V ip bn.
Proof.
  intros Ha Hn Hb Hl H0. change NDIRECT with 12 in *. change MAXFILE with 140 in *. unfold addr. fold a. change NDIRECT with 12.
  destruct (Z.ltb_spec bn 12); [by rewrite decide_False by lia|].
  rewrite (proj2 (Z.eqb_neq a 0)), fn_lookup_insert by done. destruct (decide (bn = nb)) as [->|].
  - rewrite ldn_stn by lia. by apply u32_mod.
  - apply ldn_stn_ne. lia.
Qed.

Lemma layout_slot V fb ip nb c (a := ind_addr ip) :
  layout V fb ip nb true c → NDIRECT ≤ nb < MAXFILE → nmeta ≤ fb < 1000 → V fb = zero_block → length (V a) = 512%nat →
  layout (<[a := stn 4 (V a) (Z.to_nat (4 * (nb - NDIRECT))) fb]> V) (fb + 1) ip (nb + 1) true c.
Proof.
  intros L Hn Hf Z Hl. pose proof (ly_ind _ _ _ _ _ _ L) as Hi. simpl in Hi. fold a in Hi. change nmeta with 59 in *.
  apply (layout_add V fb ip nb true c); try done; try (change nmeta with 59; lia).
  - apply L.
  - intros bn Hb. apply addr_slot; [fold a; lia|done|unfold is_u32; lia|done|lia].
  - intros bn Hb. apply fn_lookup_insert_ne. intros E. by apply (ly_ne _ _ _ _ _ _ L bn Hb).
  - rewrite fn_lookup_insert_ne by lia. done.
Qed.

(** Bytes at the end of the file, within its last block. *)
Lemma pad_app c k x : pad (c ++ k) x = if decide (length c ≤ x < length c + length k)%nat then pad k (x - length c) else pad c x.
Proof.
  unfold pad. case_decide as H.
  - by rewrite lookup_app_r by lia.
  - destruct (decide (x < length c)%nat) as [Hx|Hx]; [by rewrite lookup_app_l by done|].
    rewrite !lookup_ge_None_2; [done|lia|rewrite length_app; lia].
Qed.

Lemma inserts_total (i j : nat) (k d : list Z) : (i + length k ≤ length d)%nat →
  list_inserts i k d !!! j = if decide (i ≤ j < i + length k)%nat then pad k (j - i) else d !!! j.
Proof.
  intros H. rewrite !list_lookup_total_alt. case_decide as Hj.
  - rewrite list_lookup_inserts by lia. unfold pad.
    destruct (lookup_lt_is_Some_2 k (j - i)) as [y ->]; [lia|done].
  - destruct (decide (j < i)%nat); [by rewrite list_lookup_inserts_lt by lia|by rewrite list_lookup_inserts_ge by lia].
Qed.

Lemma addr_data V fb ip nb hi c bn b d : layout V fb ip nb hi c → 0 ≤ b < nb → addr (<[addr V ip b := d]> V) ip bn = addr V ip bn.
Proof.
  intros L Hb. unfold addr at 1 3. destruct (bn <? NDIRECT); [done|]. destruct (Z.eqb_spec (ind_addr ip) 0) as [|Hne]; [done|].
  rewrite fn_lookup_insert_ne; [done|]. intros E. destruct hi.
  - by apply (ly_ne _ _ _ _ _ _ L b).
  - by pose proof (ly_ind _ _ _ _ _ _ L).
Qed.

Lemma layout_write V fb ip nb hi c k (off := Z.of_nat (length c)) (x := addr V ip (off / BSIZE)) :
  layout V fb ip nb hi c → off / BSIZE < nb → length (V x) = 512%nat → off `mod` BSIZE + Z.of_nat (length k) ≤ BSIZE →
  layout (<[x := list_inserts (Z.to_nat (off - off / BSIZE * BSIZE)) k (V x)]> V) fb ip nb hi (c ++ k).
Proof.
  intros L Hn Hl Hk. pose proof (ly_nb _ _ _ _ _ _ L) as [Hnb _]. set (V' := <[x := _]> V).
  assert (Ho : 0 ≤ off / BSIZE) by (change BSIZE with 512; apply Z.div_pos; lia).
  assert (Hx : nmeta ≤ x < fb) by (apply (layout_addr _ _ _ _ _ _ _ L); lia). change nmeta with 59 in Hx.
  assert (A : ∀ bn, addr V' ip bn = addr V ip bn) by (intros bn; apply (addr_data _ _ _ _ _ _ _ _ _ L); lia).
  split; try apply L.
  - intros bn. rewrite A. apply L.
  - intros bn bn'. rewrite !A. apply L.
  - intros bn. rewrite A. apply L.
  - intros y Hy. rewrite pad_app. pose proof (ly_bytes _ _ _ _ _ _ L y Hy) as B. unfold fbyte, fblock in *. rewrite A.
    assert (Hb : 0 ≤ y / BSIZE < MAXFILE).
    { change BSIZE with 512 in *. change MAXFILE with 140 in *. clear -Hy. Z.to_euclidean_division_equations. lia. }
    destruct (decide (y / BSIZE = off / BSIZE)) as [E|E].
    + rewrite E in *. fold x in B |- *. rewrite (proj2 (Z.eqb_neq x 0)) in * by lia. unfold V'. rewrite fn_lookup_insert.
      change BSIZE with 512 in *. assert (Hm : off - off / 512 * 512 = off `mod` 512) by (clear; Z.to_euclidean_division_equations; lia).
      assert (0 ≤ off `mod` 512) by (clear; Z.to_euclidean_division_equations; lia).
      assert (Hd : y - off = y `mod` 512 - off `mod` 512 ∧ 0 ≤ y `mod` 512) by (clear -E; Z.to_euclidean_division_equations; lia).
      rewrite Hm, inserts_total by lia. destruct (decide _) as [Hc|Hc].
      * rewrite decide_True by lia. f_equal. lia.
      * rewrite decide_False by lia. exact B.
    + rewrite decide_False; [|change BSIZE with 512 in *; clear -E Hk Hy; Z.to_euclidean_division_equations; lia].
      rewrite <-B. destruct (Z.eqb_spec (addr V ip (y / BSIZE)) 0) as [|Hz]; [done|]. unfold V'.
      rewrite fn_lookup_insert_ne; [done|]. intros Ex. apply E.
      destruct (Z.lt_ge_cases (y / BSIZE) nb); [|by rewrite (layout_none _ _ _ _ _ _ (y / BSIZE) L) in Hz by lia].
      symmetry. apply (ly_inj _ _ _ _ _ _ L); [lia..|done].
Qed.

(** ** The image file *)
Record disk_ok (s : mkfs) (V : Z → block) : Prop := {
  dk_len : length (m_img s) = Z.to_nat FSSIZE;
  dk_shows b : 0 ≤ b < FSSIZE → m_img s !! Z.to_nat b = Some (V b);
  dk_512 b : 0 ≤ b < FSSIZE → length (V b) = 512%nat;
  dk_zero b : freeblock s ≤ b < FSSIZE → V b = zero_block;
  dk_free : nmeta ≤ freeblock s }.

Lemma xint_small x : is_u32 x → xint x = x.
Proof. intros H. unfold xint. rewrite le_val_bytes. by apply u32_mod. Qed.

Lemma sect_small b : 0 ≤ b < FSSIZE → sect b = Z.to_nat b.
Proof.
  intros Hb. unfold sect. change BSIZE with 512. change FSSIZE with 1000 in Hb. rewrite u32_small by (unfold is_u32; lia).
  by rewrite Z.div_mul by done.
Qed.

Lemma rsect_ok s V env b : disk_ok s V → 0 ≤ b < FSSIZE → rsect b env s = Done (V b) s env.
Proof. intros D Hb. unfold rsect. rewrite bind_gets, sect_small, (dk_shows _ _ D) by done. done. Qed.

Lemma wsect_ok s V env b d : disk_ok s V → 0 ≤ b < freeblock s → b < FSSIZE → length d = 512%nat →
  ∃ s', wsect b d env s = Done tt s' env ∧ disk_ok s' (<[b := d]> V) ∧ freeblock s' = freeblock s ∧ freeinode s' = freeinode s.
Proof.
  intros [D1 D2 D3 D4 D5] Hb Hs Hd. exists (s <| m_img := put_block (sect b) d (m_img s) |>). split; [done|]. split; [|done].
  unfold put_block. rewrite sect_small, (proj2 (Nat.ltb_lt _ _)) by (rewrite ?D1; change FSSIZE with 1000 in *; lia). split; simpl.
  - by rewrite length_insert.
  - intros c Hc. destruct (decide (c = b)) as [->|Hne].
    + rewrite fn_lookup_insert, list_lookup_insert_eq; [done|]. rewrite D1. lia.
    + rewrite fn_lookup_insert_ne, list_lookup_insert_ne by lia. by apply D2.
  - intros c Hc. rewrite fn_insert_dec. case_decide; [done|by apply D3].
  - intros c Hc. rewrite fn_lookup_insert_ne by lia. by apply D4.
  - done.
Qed.

Lemma newblock_ok s V env : disk_ok s V → freeblock s < FSSIZE →
  ∃ s', newblock env s = Done (freeblock s) s' env ∧ disk_ok s' V ∧ freeblock s' = freeblock s + 1 ∧ freeinode s' = freeinode s.
Proof.
  intros [D1 D2 D3 D4 D5] Hf. eexists. split; [done|]. simpl. change FSSIZE with 1000 in Hf. change nmeta with 59 in D5.
  rewrite u32_small by (unfold is_u32; lia). split; [|done].
  split; simpl; try done; rewrite u32_small by (unfold is_u32; lia); [|change nmeta with 59; lia]. intros b Hb. apply D4. lia.
Qed.

(** ** Appending to a file *)

(** The blocks of a file with its indirect block. *)
Definition cost (nb : Z) : Z := if NDIRECT <? nb then nb + 1 else nb.

(** What an operation on one inode leaves alone. *)
Record extends (V : Z → block) (fb : Z) (din : dinode) (V' : Z → block) (fb' : Z) (din' : dinode) : Prop := {
  ex_fb : fb ≤ fb';
  ex_keep a : a < fb → ¬ owns V (cached 0 din) a → V' a = V a;
  ex_owns a : owns V' (cached 0 din') a → owns V (cached 0 din) a ∨ fb ≤ a;
  ex_din : ∃ l, din' = DInode (d_type din) (d_major din) (d_minor din) (d_nlink din) (d_size din) l;
  ex_u32 : Forall is_u32 (d_addrs din) → Forall is_u32 (d_addrs din') }.

Lemma extends_refl V fb din : extends V fb din V fb din.
Proof. split; auto; [lia|]. destruct din. by eexists. Qed.

Lemma extends_trans V fb din V1 fb1 din1 V2 fb2 din2 :
  extends V fb din V1 fb1 din1 → extends V1 fb1 din1 V2 fb2 din2 → extends V fb din V2 fb2 din2.
Proof.
  intros [A1 A2 A3 [l ->] A5] [B1 B2 B3 [l' ->] B5]. split.
  - lia.
  - intros a Ha Hn. rewrite B2; [by apply A2|lia|]. intros [|]%A3; [done|lia].
  - intros a [[|]%A3|]%B3; [by left|by right|right; lia].
  - by exists l'.
  - auto.
Qed.

Lemma addrs_u32 (l : list Z) (i : nat) : Forall is_u32 l → (i < length l)%nat → is_u32 (l !!! i).
Proof. intros F Hi. rewrite Forall_lookup in F. apply (F i). by apply list_lookup_lookup_total_lt. Qed.

Section append.
Context (env : list (mkfs → mkfs)).

(** One block more through the indirect block. *)
Lemma iappend_slot_new s V din nb c (ip := cached 0 din) :
  disk_ok s V → layout V (freeblock s) ip nb true c → Forall is_u32 (d_addrs din) → NDIRECT ≤ nb < MAXFILE → freeblock s < FSSIZE →
  ∃ s' V', iappend_slot din nb env s = Done (din, addr V' ip nb) s' env ∧ disk_ok s' V' ∧
    layout V' (freeblock s') ip (nb + 1) true c ∧ extends V (freeblock s) din V' (freeblock s') din ∧
    freeblock s' = freeblock s + 1 ∧ freeinode s' = freeinode s.
Proof.
  intros D L F Hn Hf. pose proof (ly_ind _ _ _ _ _ _ L) as Hi. simpl in Hi. change nmeta with 59 in Hi. change FSSIZE with 1000 in Hf.
  pose proof (ly_len _ _ _ _ _ _ L) as Hl. pose proof (dk_free _ _ D) as Hm. change nmeta with 59 in Hm.
  assert (Ea : d_addrs din !!! 12%nat = ind_addr ip) by done. set (a := ind_addr ip) in *.
  assert (La : length (V a) = 512%nat) by (apply (dk_512 _ _ D); change FSSIZE with 1000; lia).
  assert (N : ldn 4 (V a) (Z.to_nat (4 * (nb - NDIRECT))) = 0).
  { pose proof (layout_none _ _ _ _ _ _ nb L ltac:(lia)) as H. unfold addr in H. fold a in H.
    rewrite (proj2 (Z.ltb_ge _ _)), (proj2 (Z.eqb_neq _ _)) in H by lia. exact H. }
  destruct (newblock_ok s V env D) as (s1 & E1 & D1 & F1 & I1); [change FSSIZE with 1000; lia|].
  destruct (wsect_ok s1 V env a (stn 4 (V a) (Z.to_nat (4 * (nb - NDIRECT))) (freeblock s)) D1)
    as (s2 & E2 & D2 & F2 & I2); [lia|change FSSIZE with 1000; lia|by rewrite length_stn|].
  unfold iappend_slot. rewrite Ea, xint_small by (unfold is_u32; lia).
  rewrite (bind_done _ _ _ _ _ _ _ (rsect_ok s V env a D ltac:(change FSSIZE with 1000; lia))). cbv zeta.
  rewrite N. cbn [Z.eqb]. rewrite bind_assoc, (bind_done _ _ _ _ _ _ _ E1), bind_assoc, xint_small by (unfold is_u32; lia).
  rewrite (bind_done _ _ _ _ _ _ _ E2), bind_ret.
  set (V' := <[a := _]> V) in D2.
  assert (Ad : ∀ bn, 0 ≤ bn → addr V' ip bn = if decide (bn = nb) then freeblock s else addr V ip bn).
  { intros bn Hb. apply addr_slot; [fold a; lia|done|unfold is_u32; lia|done|done]. }
  exists s2, V'. split_and!; [|done| | |lia|congruence].
  - unfold ret. do 2 f_equal. rewrite Ad, decide_True by (done || change NDIRECT with 12 in Hn; lia).
    rewrite ldn_stn by (rewrite La; change NDIRECT with 12 in *; change MAXFILE with 140 in *; lia).
    rewrite u32_mod by (unfold is_u32; lia). apply xint_small. unfold is_u32. lia.
  - rewrite F2, F1. apply layout_slot; [done|done|change nmeta with 59; lia|apply (dk_zero _ _ D); change FSSIZE with 1000; lia|done].
  - split; [lia| | |destruct din; by eexists|done].
    + intros x Hx Hn'. unfold V'. rewrite fn_lookup_insert_ne; [done|]. intros <-. apply Hn', (layout_owned_ind _ _ _ _ _ L).
    + intros x [H0 [->|(bn & Hb & ->)]]; [left; by split; [|left]|]. rewrite Ad in * by lia.
      destruct (decide (bn = nb)); [right; lia|left]. split; [done|right; by exists bn].
Qed.

(** A block that exists. *)
Lemma iappend_block_old s V din nb c fbn (ip := cached 0 din) :
  disk_ok s V → freeblock s ≤ FSSIZE → layout V (freeblock s) ip nb (NDIRECT <? nb) c → 0 ≤ fbn < nb →
  iappend_block din fbn env s = Done (din, addr V ip fbn) s env.
Proof.
  intros D Hf L Hb. pose proof (layout_addr _ _ _ _ _ _ fbn L Hb) as R. pose proof (ly_nb _ _ _ _ _ _ L) as [Hn _].
  change nmeta with 59 in R. change FSSIZE with 1000 in Hf. unfold iappend_block. destruct (Z.ltb_spec fbn NDIRECT) as [Hd|Hd].
  - assert (E : d_addrs din !!! Z.to_nat fbn = addr V ip fbn) by (unfold addr; by rewrite (proj2 (Z.ltb_lt _ _) Hd)).
    rewrite E, xint_small, (proj2 (Z.eqb_neq _ 0)), bind_ret by (unfold is_u32; lia). rewrite E, xint_small by (unfold is_u32; lia). done.
  - pose proof (ly_ind _ _ _ _ _ _ L) as Hi. rewrite (proj2 (Z.ltb_lt _ _)) in Hi by lia. change nmeta with 59 in Hi.
    assert (E : d_addrs din !!! 12%nat = ind_addr ip) by done.
    rewrite E, xint_small, (proj2 (Z.eqb_neq _ 0)), bind_ret by (unfold is_u32; lia).
    assert (Ea : addr V ip fbn = ldn 4 (V (ind_addr ip)) (Z.to_nat (4 * (fbn - NDIRECT)))).
    { unfold addr. by rewrite (proj2 (Z.ltb_ge _ _) Hd), (proj2 (Z.eqb_neq (ind_addr ip) 0)) by lia. }
    unfold iappend_slot. rewrite E, xint_small by (unfold is_u32; lia).
    rewrite (bind_done _ _ _ _ _ _ _ (rsect_ok s V env (ind_addr ip) D ltac:(change FSSIZE with 1000; lia))). cbv zeta.
    rewrite <-Ea, (proj2 (Z.eqb_neq _ 0)), bind_ret by lia. rewrite <-Ea, xint_small by (unfold is_u32; lia). done.
Qed.

(** The next block of the file. *)
Lemma iappend_block_new s V din nb c (ip := cached 0 din) :
  disk_ok s V → layout V (freeblock s) ip nb (NDIRECT <? nb) c → Forall is_u32 (d_addrs din) → nb < MAXFILE →
  freeblock s + cost (nb + 1) - cost nb ≤ FSSIZE →
  ∃ din' s' V', iappend_block din nb env s = Done (din', addr V' (cached 0 din') nb) s' env ∧ disk_ok s' V' ∧
    layout V' (freeblock s') (cached 0 din') (nb + 1) (NDIRECT <? nb + 1) c ∧
    extends V (freeblock s) din V' (freeblock s') din' ∧
    freeblock s' = freeblock s + cost (nb + 1) - cost nb ∧ freeinode s' = freeinode s.
Proof.
  intros D L F Hn Hf. pose proof (ly_nb _ _ _ _ _ _ L) as [H0 _]. pose proof (ly_len _ _ _ _ _ _ L) as Hl.
  pose proof (dk_free _ _ D) as Hm. change nmeta with 59 in Hm. unfold iappend_block.
  destruct (Z.ltb_spec nb NDIRECT) as [Hd|Hd].
  - change NDIRECT with 12 in Hd. rewrite (proj2 (Z.ltb_ge NDIRECT nb)) in L by (change NDIRECT with 12; lia).
    assert (Ec : cost (nb + 1) - cost nb = 1).
    { unfold cost. change NDIRECT with 12. rewrite !(proj2 (Z.ltb_ge 12 _)) by lia. lia. }
    change FSSIZE with 1000 in Hf. destruct (newblock_ok s V env D) as (s1 & E1 & D1 & F1 & I1); [change FSSIZE with 1000; lia|].
    assert (E : d_addrs din !!! Z.to_nat nb = addr V ip nb) by (unfold addr; by rewrite (proj2 (Z.ltb_lt _ _)) by (change NDIRECT with 12; lia)).
    rewrite E, (layout_none _ _ _ _ _ _ nb L) by lia. change (xint 0) with 0. cbn [Z.eqb].
    rewrite bind_assoc, (bind_done _ _ _ _ _ _ _ E1), bind_ret, (xint_small (freeblock s)) by (unfold is_u32; lia).
    set (din' := set_addr _ _ din). assert (A : ∀ bn, 0 ≤ bn → addr V (cached 0 din') bn = if decide (bn = nb) then freeblock s else addr V ip bn).
    { intros bn Hb. apply (addr_set_direct V ip); [done|change NDIRECT with 12; lia|done]. }
    exists din', s1, V. split_and!; [|done| | |lia|done].
    + unfold ret. do 2 f_equal. rewrite A, decide_True by (done || lia). change (d_addrs din') with (<[Z.to_nat nb := freeblock s]> (d_addrs din)).
      rewrite list_lookup_total_insert_eq by (change (d_addrs din) with (i_addrs ip); rewrite Hl; lia). apply xint_small. unfold is_u32. lia.
    + rewrite F1, (proj2 (Z.ltb_ge NDIRECT (nb + 1))) by (change NDIRECT with 12; lia).
      apply (layout_direct V (freeblock s) ip); [done|change NDIRECT with 12; lia|change nmeta with 59; lia|].
      apply (dk_zero _ _ D). change FSSIZE with 1000. lia.
    + split; [lia|done| |by eexists|].
      * intros x [Hx [->|(bn & Hb & ->)]]; [left; split; [done|left; apply (ind_direct ip); lia]|]. rewrite A in * by lia.
        destruct (decide (bn = nb)); [right; lia|left]. split; [done|right; by exists bn].
      * intros _. apply Forall_insert; [done|]. unfold is_u32. lia.
  - rewrite (proj2 (Z.ltb_lt NDIRECT (nb + 1))) by lia. change (d_addrs din !!! 12%nat) with (ind_addr ip).
    destruct (Z.ltb_spec NDIRECT nb) as [Hlt|Hge].
    + assert (Ec : cost (nb + 1) - cost nb = 1).
      { unfold cost. rewrite !(proj2 (Z.ltb_lt _ _)) by lia. lia. }
      pose proof (ly_ind _ _ _ _ _ _ L) as Hi. simpl in Hi. change nmeta with 59 in Hi. change FSSIZE with 1000 in Hf.
      rewrite xint_small, (proj2 (Z.eqb_neq (ind_addr ip) 0)), bind_ret by (unfold is_u32; lia).
      destruct (iappend_slot_new s V din nb c D L F) as (s' & V' & R1 & R2 & R3 & R4 & R5 & R6); [done|change FSSIZE with 1000; lia|].
      exists din, s', V'. split_and!; [done..|lia|done].
    + assert (nb = NDIRECT) as -> by lia. change (cost (NDIRECT + 1)) with 14 in *. change (cost NDIRECT) with 12 in *. change FSSIZE with 1000 in Hf.
      pose proof (ly_ind _ _ _ _ _ _ L) as Hi. simpl in Hi. rewrite Hi. change (xint 0) with 0. cbn [Z.eqb].
      destruct (newblock_ok s V env D) as (s1 & E1 & D1 & F1 & I1); [change FSSIZE with 1000; lia|].
      rewrite bind_assoc, (bind_done _ _ _ _ _ _ _ E1), bind_ret, xint_small by (unfold is_u32; lia).
      assert (Zf : V (freeblock s) = zero_block) by (apply (dk_zero _ _ D); change FSSIZE with 1000; lia).
      set (din' := set_addr 12 _ din).
      assert (L1 : layout V (freeblock s1) (cached 0 din') NDIRECT true c).
      { rewrite F1. apply (layout_indirect V (freeblock s) ip); [done|change nmeta with 59; lia|done]. }
      assert (F' : Forall is_u32 (d_addrs din')) by (apply Forall_insert; [done|unfold is_u32; lia]).
      destruct (iappend_slot_new s1 V din' NDIRECT c D1 L1 F') as (s' & V' & R1 & R2 & R3 & R4 & R5 & R6); [done|change FSSIZE with 1000; lia|].
      exists din', s', V'. split_and!; [done..| |lia|congruence].
      eapply extends_trans; [|exact R4]. split; [lia|done| |by eexists|done].
      intros x [Hx [->|(bn & Hb & ->)]].
      * right. change (freeblock s ≤ ind_addr (ip <| i_addrs ::= <[12%nat := freeblock s]> |>)). rewrite ind_indirect by done. lia.
      * left. split; [done|]. right. exists bn. split; [done|]. apply (addr_set_indirect V ip); [done..| |done|done]. lia.
Qed.
End append.

(** The contents [c] stored in an inode, with the blocks they need and no more. *)
Definition blocks_of (n : nat) : Z := (Z.of_nat n + 511) / 512.
Definition stored (V : Z → block) (fb : Z) (din : dinode) (c : list Z) : Prop :=
  layout V fb (cached 0 din) (blocks_of (length c)) (NDIRECT <? blocks_of (length c)) c ∧ Forall is_u32 (d_addrs din).
Definition need (n m : nat) : Z := cost (blocks_of (n + m)) - cost (blocks_of n).

Lemma blocks_of_pos n : 0 ≤ blocks_of n.
Proof. unfold blocks_of. apply Z.div_pos; lia. Qed.
Lemma cost_mono a b : a ≤ b → cost a ≤ cost b.
Proof. unfold cost. change NDIRECT with 12. intros H. destruct (Z.ltb_spec 12 a), (Z.ltb_spec 12 b); lia. Qed.
Lemma blocks_of_mono n m : (n ≤ m)%nat → blocks_of n ≤ blocks_of m.
Proof. intros H. unfold blocks_of. apply Z.div_le_mono; lia. Qed.
Lemma need_pos n m : 0 ≤ need n m.
Proof. unfold need. assert (cost (blocks_of n) ≤ cost (blocks_of (n + m))); [|lia]. apply cost_mono, blocks_of_mono. lia. Qed.
Lemma need_split n m k : need n (m + k) = need n m + need (n + m) k.
Proof. unfold need. rewrite Nat.add_assoc. lia. Qed.

Lemma blocks_of_chunk (n k : nat) : (0 < k)%nat → Z.of_nat n `mod` 512 + Z.of_nat k ≤ 512 →
  Z.max (blocks_of n) (Z.of_nat n / 512 + 1) = blocks_of (n + k) ∧ (blocks_of n = Z.of_nat n / 512 ∨ Z.of_nat n / 512 < blocks_of n).
Proof. intros Hk Hm. unfold blocks_of. rewrite Nat2Z.inj_add. Z.to_euclidean_division_equations. lia. Qed.

(** One round of the loop. *)
Lemma iappend_round env s V din c k (off := Z.of_nat (length c)) (fbn := off / BSIZE) :
  disk_ok s V → stored V (freeblock s) din c → (0 < length k)%nat → off `mod` BSIZE + Z.of_nat (length k) ≤ BSIZE →
  (length c + length k ≤ Z.to_nat (MAXFILE * BSIZE))%nat → freeblock s + need (length c) (length k) ≤ FSSIZE →
  ∃ din' x s1 buf s' V', iappend_block din fbn env s = Done (din', x) s1 env ∧ rsect x env s1 = Done buf s1 env ∧
    wsect x (list_inserts (Z.to_nat (off - fbn * BSIZE)) k buf) env s1 = Done tt s' env ∧
    disk_ok s' V' ∧ stored V' (freeblock s') din' (c ++ k) ∧ extends V (freeblock s) din V' (freeblock s') din' ∧
    freeblock s' = freeblock s + need (length c) (length k) ∧ freeinode s' = freeinode s.
Proof.
  intros D [L F] Hk Hm Hmax Hf. change BSIZE with 512 in *. change FSSIZE with 1000 in *. change (Z.to_nat (MAXFILE * 512)) with (Z.to_nat 71680) in Hmax.
  destruct (blocks_of_chunk (length c) (length k) Hk Hm) as [Eb Hcase]. fold off in Eb, Hcase. change (off / 512) with fbn in Eb, Hcase.
  assert (H0 : 0 ≤ fbn < MAXFILE).
  { unfold fbn, off. change MAXFILE with 140. clear -Hmax Hk. Z.to_euclidean_division_equations. lia. }
  pose proof (need_pos (length c) (length k)) as Hp.
  assert (St : ∃ din1 s1 V1, iappend_block din fbn env s = Done (din1, addr V1 (cached 0 din1) fbn) s1 env ∧ disk_ok s1 V1 ∧
    layout V1 (freeblock s1) (cached 0 din1) (blocks_of (length c + length k)) (NDIRECT <? blocks_of (length c + length k)) c ∧
    extends V (freeblock s) din V1 (freeblock s1) din1 ∧ freeblock s1 = freeblock s + need (length c) (length k) ∧ freeinode s1 = freeinode s).
  { rewrite <-Eb. unfold need in *. rewrite <-Eb in *. destruct Hcase as [Hc|Hc].
    - rewrite Z.max_r in * by lia. rewrite <-Hc in *. rewrite Z.add_sub_assoc in *. apply (iappend_block_new env s V din _ c D L F); [lia|change FSSIZE with 1000; lia].
    - rewrite Z.max_l in * by lia. exists din, s, V. split_and!; [|done|done|apply extends_refl|lia|done].
      apply (iappend_block_old env s V din (blocks_of (length c)) c fbn D); [change FSSIZE with 1000; lia|done|lia]. }
  destruct St as (din1 & s1 & V1 & E1 & D1 & L1 & X1 & F1 & I1).
  assert (Hb : fbn < blocks_of (length c + length k)) by lia.
  pose proof (layout_addr _ _ _ _ _ _ fbn L1 ltac:(lia)) as R. change nmeta with 59 in R. set (x := addr V1 (cached 0 din1) fbn) in *.
  assert (Lx : length (V1 x) = 512%nat) by (apply (dk_512 _ _ D1); change FSSIZE with 1000; lia).
  destruct (wsect_ok s1 V1 env x (list_inserts (Z.to_nat (off - fbn * 512)) k (V1 x)) D1) as (s2 & E2 & D2 & F2 & I2);
    [lia|change FSSIZE with 1000; lia|by rewrite length_inserts|].
  exists din1, x, s1, (V1 x), s2, (<[x := list_inserts (Z.to_nat (off - fbn * 512)) k (V1 x)]> V1).
  split_and!; [done|apply rsect_ok; [done|change FSSIZE with 1000; lia]|done|done| | |lia|congruence].
  - split; [|by apply X1]. rewrite length_app, F2. apply (layout_write V1 (freeblock s1) (cached 0 din1)); done.
  - eapply extends_trans; [exact X1|]. split; [lia| | |destruct din1; by eexists|done].
    + intros a Ha Hn. apply fn_lookup_insert_ne. intros <-. apply Hn. apply (layout_owned _ _ _ _ _ _ fbn L1). lia.
    + intros a. unfold owns. assert (A := λ bn, addr_data _ _ _ _ _ _ bn fbn (list_inserts (Z.to_nat (off - fbn * 512)) k (V1 x)) L1 ltac:(lia)).
      fold x in A. setoid_rewrite A. by left.
Qed.

Lemma iappend_from_ok env fuel : ∀ p s V din c, (length p < fuel)%nat →
  disk_ok s V → stored V (freeblock s) din c → (length c + length p ≤ Z.to_nat (MAXFILE * BSIZE))%nat →
  freeblock s + need (length c) (length p) ≤ FSSIZE →
  ∃ din' s' V', iappend_from fuel din (Z.of_nat (length c)) p env s = Done (din', Z.of_nat (length c + length p)) s' env ∧
    disk_ok s' V' ∧ stored V' (freeblock s') din' (c ++ p) ∧ extends V (freeblock s) din V' (freeblock s') din' ∧
    freeblock s' = freeblock s + need (length c) (length p) ∧ freeinode s' = freeinode s.
Proof.
  induction fuel as [|fuel IH]; intros p s V din c Hfu D S Hmax Hf; [lia|]. cbn [iappend_from].
  destruct (Z.ltb_spec 0 (Z.of_nat (length p))) as [Hp|Hp]; cbn [negb].
  2: { destruct p; [|simpl in Hp; lia]. exists din, s, V. rewrite app_nil_r. simpl. rewrite Nat.add_0_r.
       split_and!; [done..|apply extends_refl|unfold need; rewrite Nat.add_0_r; lia|done]. }
  change BSIZE with 512 in *. change (MAXFILE * 512) with 71680 in *. set (off := Z.of_nat (length c)) in *.
  rewrite (proj2 (Z.ltb_lt (off / 512) MAXFILE)) by (unfold off; change MAXFILE with 140; clear -Hmax Hp; Z.to_euclidean_division_equations; lia).
  cbn [negb]. set (n1 := Z.to_nat (Z.min _ _)).
  assert (Hn : (0 < n1 ≤ length p)%nat ∧ off `mod` 512 + Z.of_nat n1 ≤ 512).
  { unfold n1, off. clear -Hp. Z.to_euclidean_division_equations. lia. }
  clearbody n1. destruct Hn as [Hn Hm]. assert (Lk : length (take n1 p) = n1) by (rewrite length_take; lia).
  assert (Ep : need (length c) (length p) = need (length c) n1 + need (length c + n1) (length p - n1)).
  { rewrite <-need_split. f_equal. lia. }
  pose proof (need_pos (length c + n1) (length p - n1)) as Hq.
  destruct (iappend_round env s V din c (take n1 p) D S) as (din1 & x & s1 & buf & s2 & V2 & E1 & E2 & E3 & D2 & S2 & X2 & F2 & I2);
    [lia|rewrite Lk; exact Hm|rewrite Lk; change (MAXFILE * BSIZE) with 71680; lia|rewrite Lk; lia|].
  rewrite Lk in F2. rewrite (bind_done _ _ _ _ _ _ _ E1). cbv beta iota zeta.
  rewrite (bind_done _ _ _ _ _ _ _ E2), (bind_done _ _ _ _ _ _ _ E3).
  assert (Lc : length (c ++ take n1 p) = (length c + n1)%nat) by (by rewrite length_app, Lk).
  destruct (IH (drop n1 p) s2 V2 din1 (c ++ take n1 p)) as (din3 & s3 & V3 & E4 & D3 & S3 & X3 & F3 & I3).
  - rewrite length_drop. lia.
  - done.
  - done.
  - rewrite Lc, length_drop. lia.
  - rewrite Lc, length_drop. lia.
  - rewrite Lc, length_drop in F3. rewrite Lc in E4. rewrite length_drop in E4.
    replace (length c + n1 + (length p - n1))%nat with (length c + length p)%nat in E4 by lia.
    rewrite Nat2Z.inj_add in E4. rewrite <-app_assoc, take_drop in S3.
    exists din3, s3, V3. split_and!; [exact E4|done|done|by eapply extends_trans|lia|congruence].
Qed.

(** ** The inodes of the image *)

(** The files so far, as type and contents; inode [1 + n] is number [n]. *)
Notation fspec := (Z * list Z)%type.
Definition total (F : list fspec) : Z := foldr (λ f z, cost (blocks_of (length f.2)) + z) 0 F.

Definition dino (V : Z → block) (n : nat) : dinode := disk_inode V sb (1 + Z.of_nat n).

Record holds (V : Z → block) (fb : Z) (n : nat) (f : fspec) : Prop := {
  ho_head : ∃ l, dino V n = DInode f.1 0 0 1 (Z.of_nat (length f.2)) l;
  ho_type : 0 < f.1 < 32768;
  ho_size : (length f.2 ≤ Z.to_nat (MAXFILE * BSIZE))%nat;
  ho_stored : stored V fb (dino V n) f.2 }.

Record image (s : mkfs) (V : Z → block) (F : list fspec) : Prop := {
  im_disk : disk_ok s V;
  im_few : (length F < 200)%nat;
  im_next : freeinode s = 1 + Z.of_nat (length F);
  im_fb : freeblock s = nmeta + total F;
  im_head b : 0 ≤ b < 32 → V b = if b =? 1 then demo_sb else zero_block;
  im_file n f : F !! n = Some f → holds V (freeblock s) n f;
  im_apart n n' f f' a : F !! n = Some f → F !! n' = Some f' → n ≠ n' → owns V (cached 0 (dino V n)) a → ¬ owns V (cached 0 (dino V n')) a }.

Lemma inode_block n : (n < 200)%nat → 32 ≤ IBLOCK (1 + Z.of_nat n) sb < 58.
Proof. intros H. unfold IBLOCK. change (sb_inodestart sb) with 32. change IPB with 8. Z.to_euclidean_division_equations. lia. Qed.

Lemma total_insert F n f f' : F !! n = Some f →
  total (<[n := f']> F) = total F + cost (blocks_of (length f'.2)) - cost (blocks_of (length f.2)).
Proof.
  revert n. induction F as [|g F IH]; intros [|n]; try done; intros E.
  - injection E as ->. change (total (<[0%nat := f']> (f :: F))) with (cost (blocks_of (length f'.2)) + total F).
    change (total (f :: F)) with (cost (blocks_of (length f.2)) + total F). lia.
  - change (total (<[S n := f']> (g :: F))) with (cost (blocks_of (length g.2)) + total (<[n := f']> F)).
    change (total (g :: F)) with (cost (blocks_of (length g.2)) + total F). rewrite (IH n E). lia.
Qed.
Lemma total_cons f F : total (f :: F) = cost (blocks_of (length f.2)) + total F.
Proof. done. Qed.
Lemma total_app F G : total (F ++ G) = total F + total G.
Proof. induction F as [|g F IH]; [done|]. unfold total in *. simpl. rewrite IH. lia. Qed.

(** [winode] *)
Definition put_inode (n : nat) (D : dinode) (V : Z → block) : Z → block :=
  let b := IBLOCK (1 + Z.of_nat n) sb in <[b := put_dinode D (dioff (1 + Z.of_nat n)) (V b)]> V.

Lemma winode_ok env s V n D : disk_ok s V → (n < 200)%nat →
  ∃ s', winode (1 + Z.of_nat n) D env s = Done tt s' env ∧ disk_ok s' (put_inode n D V) ∧
    freeblock s' = freeblock s ∧ freeinode s' = freeinode s.
Proof.
  intros Dk Hn. pose proof (inode_block n Hn) as Hb. pose proof (dk_free _ _ Dk) as Hm. change nmeta with 59 in Hm.
  unfold winode. cbv zeta. rewrite (bind_done _ _ _ _ _ _ _ (rsect_ok s V env (IBLOCK (1 + Z.of_nat n) sb) Dk ltac:(change FSSIZE with 1000; lia))).
  apply wsect_ok; [done|lia|change FSSIZE with 1000; lia|]. rewrite length_put_dinode. apply (dk_512 _ _ Dk). change FSSIZE with 1000. lia.
Qed.

Lemma rinode_ok env s V n : disk_ok s V → (n < 200)%nat → rinode (1 + Z.of_nat n) env s = Done (dino V n) s env.
Proof.
  intros Dk Hn. pose proof (inode_block n Hn) as Hb. unfold rinode.
  by rewrite (bind_done _ _ _ _ _ _ _ (rsect_ok s V env (IBLOCK (1 + Z.of_nat n) sb) Dk ltac:(change FSSIZE with 1000; lia))).
Qed.

Lemma put_inode_other n D V b : (n < 200)%nat → ¬ 32 ≤ b < 58 → put_inode n D V b = V b.
Proof. intros Hn Hb. unfold put_inode. pose proof (inode_block n Hn). apply fn_lookup_insert_ne. lia. Qed.

Lemma dino_put n D V : (n < 200)%nat → dinode_ok D → length (V (IBLOCK (1 + Z.of_nat n) sb)) = 512%nat → dino (put_inode n D V) n = D.
Proof.
  intros Hn HD Hl. unfold dino, disk_inode, put_inode. rewrite fn_lookup_insert. apply get_put_dinode; [done|].
  rewrite Hl. apply dioff_bound.
Qed.

Lemma dino_put_ne n m D V : n ≠ m → dino (put_inode n D V) m = dino V m.
Proof.
  intros Hne. unfold dino, disk_inode, put_inode. rewrite fn_insert_dec. case_decide as E; [|done]. rewrite E.
  apply get_put_dinode_ne. apply (dioff_disjoint _ _ sb); lia.
Qed.

Lemma dino_same V V' n : (n < 200)%nat → (∀ b, b < 59 → V' b = V b) → dino V' n = dino V n.
Proof. intros Hn E. unfold dino, disk_inode. pose proof (inode_block n Hn). by rewrite E by lia. Qed.

(** Owned blocks do not depend on the inode blocks. *)
Lemma stored_frame V fb din c V' fb' : stored V fb din c → (∀ a, owns V (cached 0 din) a → V' a = V a) → fb ≤ fb' → stored V' fb' din c.
Proof. intros [L F] E Hf. split; [|done]. by apply (layout_frame V fb). Qed.
Lemma stored_owns V fb din c a : stored V fb din c → owns V (cached 0 din) a → 59 ≤ a < fb.
Proof. intros [L _] O. exact (layout_owns _ _ _ _ _ _ _ L O). Qed.

Lemma stored_empty V fb ty nl sz : stored V fb (DInode ty 0 0 nl sz (replicate 13 0)) [].
Proof.
  split; [|repeat constructor; unfold is_u32; lia]. change (blocks_of (length [])) with 0. change (NDIRECT <? 0) with false.
  assert (A : ∀ bn, 0 ≤ bn → addr V (cached 0 (DInode ty 0 0 nl sz (replicate 13 0))) bn = 0).
  { intros bn Hb. unfold addr. change NDIRECT with 12. destruct (Z.ltb_spec bn 12); [|done].
    change (replicate 13 0 !!! Z.to_nat bn = 0). apply lookup_total_replicate_2. lia. }
  split; try done; try lia.
  - intros bn Hb. rewrite (proj2 (Z.ltb_ge _ _)) by lia. apply A. lia.
  - intros x Hx. unfold fbyte, fblock. change BSIZE with 512 in *. rewrite A by (apply Z.div_pos; lia). simpl.
    apply lookup_total_replicate_2. change (Z.to_nat BSIZE) with 512%nat. clear. Z.to_euclidean_division_equations. lia.
Qed.

(** Only the addresses of an inode matter for what it stores. *)
Lemma owns_ext V ip ip' a : i_addrs ip = i_addrs ip' → owns V ip a ↔ owns V ip' a.
Proof. intros E. unfold owns, addr, ind_addr. by rewrite E. Qed.
Lemma layout_ext V fb ip ip' nb hi c : i_addrs ip = i_addrs ip' → layout V fb ip nb hi c → layout V fb ip' nb hi c.
Proof.
  intros E [L1 L2 L3 L4 L5 L6 L7]. split; unfold fbyte, fblock, addr, ind_addr in *; rewrite <-?E; done.
Qed.

(** Writing the inode of one file, whose blocks are up to date. *)
Lemma image_put env s V F s1 V1 n f din F' :
  image s V F → disk_ok s1 V1 → (n < 200)%nat → (∀ b, b < 59 → V1 b = V b) →
  (∀ m g a, m ≠ n → F !! m = Some g → owns V (cached 0 (dino V m)) a → V1 a = V a ∧ ¬ owns V1 (cached 0 din) a) →
  freeblock s ≤ freeblock s1 → dinode_ok din → (∃ l, din = DInode f.1 0 0 1 (Z.of_nat (length f.2)) l) → 0 < f.1 < 32768 →
  (length f.2 ≤ Z.to_nat (MAXFILE * BSIZE))%nat → stored V1 (freeblock s1) din f.2 →
  (∀ m, F' !! m = if decide (m = n) then Some f else F !! m) → (length F' < 200)%nat →
  freeblock s1 = nmeta + total F' → freeinode s1 = 1 + Z.of_nat (length F') →
  ∃ s' V', winode (1 + Z.of_nat n) din env s1 = Done tt s' env ∧ image s' V' F'.
Proof.
  intros I D1 Hn Hlow Hother Hfb Hdo Hdin Hty Hsz Hst Hlk Hlen Ef En.
  destruct (winode_ok env s1 V1 n din D1 Hn) as (s' & E & D' & F'' & I''). exists s', (put_inode n din V1). split; [done|].
  pose proof (inode_block n Hn) as Hib.
  assert (Dn : dino (put_inode n din V1) n = din) by (apply dino_put; [done|done|apply (dk_512 _ _ D1); change FSSIZE with 1000; lia]).
  assert (Dm : ∀ m g, m ≠ n → F !! m = Some g → dino (put_inode n din V1) m = dino V m).
  { intros m g Hne Hg. rewrite dino_put_ne by done. apply dino_same; [|done]. apply lookup_lt_Some in Hg. pose proof (im_few _ _ _ I). lia. }
  assert (Up : ∀ a, 58 ≤ a → put_inode n din V1 a = V1 a) by (intros a Ha; apply put_inode_other; [done|lia]).
  assert (On : ∀ a, owns (put_inode n din V1) (cached 0 din) a ↔ owns V1 (cached 0 din) a).
  { intros a. apply owns_frame. intros b Hb. apply Up. apply (stored_owns _ _ _ _ _ Hst) in Hb. lia. }
  assert (Fm : ∀ m g, m ≠ n → F !! m = Some g → ∀ a, owns V (cached 0 (dino V m)) a → put_inode n din V1 a = V a).
  { intros m g Hne Hg a Ha. pose proof (stored_owns _ _ _ _ _ (ho_stored _ _ _ _ (im_file _ _ _ I m g Hg)) Ha).
    rewrite Up by lia. by apply (Hother m g). }
  assert (Om : ∀ m g, m ≠ n → F !! m = Some g → ∀ a, owns (put_inode n din V1) (cached 0 (dino V m)) a ↔ owns V (cached 0 (dino V m)) a).
  { intros m g Hne Hg a. apply owns_frame. by apply (Fm m g). }
  split.
  - done.
  - done.
  - congruence.
  - congruence.
  - intros b Hb. rewrite put_inode_other by lia. rewrite Hlow by lia. by apply (im_head _ _ _ I).
  - intros m g. rewrite Hlk. destruct (decide (m = n)) as [->|Hne].
    + intros [= <-]. split; [by rewrite Dn|done|done|]. rewrite Dn. apply (stored_frame V1 (freeblock s1)); [done| |lia].
      intros a Ha. apply Up. apply (stored_owns _ _ _ _ _ Hst) in Ha. lia.
    + intros Hg. destruct (im_file _ _ _ I m g Hg) as [H1 H2 H3 H4]. split; rewrite ?(Dm m g Hne Hg); [done..|].
      apply (stored_frame V (freeblock s)); [done|by apply (Fm m g)|lia].
  - intros m m' g g' a. rewrite !Hlk. destruct (decide (m = n)) as [->|Hne], (decide (m' = n)) as [->|Hne']; [done|..].
    + intros _ Hg' _. rewrite Dn, (Dm m' g' Hne' Hg'), On, (Om m' g' Hne' Hg'). intros O1 O2. by apply (Hother m' g' a).
    + intros Hg _ _. rewrite Dn, (Dm m g Hne Hg), On, (Om m g Hne Hg). intros O1 O2. by apply (Hother m g a).
    + intros Hg Hg' Hmm. rewrite (Dm m g Hne Hg), (Dm m' g' Hne' Hg'), (Om m g Hne Hg), (Om m' g' Hne' Hg').
      by apply (im_apart _ _ _ I m m' g g').
Qed.

Lemma lookup_snoc_dec {A} (l : list A) x m : (l ++ [x]) !! m = if decide (m = length l) then Some x else l !! m.
Proof.
  destruct (decide (m = length l)) as [->|Hne]; [by rewrite lookup_app_r, Nat.sub_diag by done|].
  destruct (decide (m < length l)%nat); [by rewrite lookup_app_l|].
  rewrite !lookup_ge_None_2; [done|lia|rewrite length_app; simpl; lia].
Qed.

Lemma ialloc_ok env s V F ty : image s V F → (length F < 199)%nat → 0 < ty < 32768 →
  ∃ s' V', ialloc ty env s = Done (1 + Z.of_nat (length F)) s' env ∧ image s' V' (F ++ [(ty, [])]).
Proof.
  intros I Hl Ht. unfold ialloc. rewrite bind_gets, bind_modify, (im_next _ _ _ I).
  assert (Ex : xshort ty = ty) by (unfold xshort; rewrite le_val_bytes; apply Z.mod_small; change (256 ^ Z.of_nat 2) with 65536; lia).
  rewrite Ex. change (xshort 1) with 1. change (xint 0) with 0. set (s1 := s <| freeinode ::= _ |>). set (din := DInode ty 0 0 1 0 _).
  destruct (image_put env s V F s1 V (length F) (ty, []) din (F ++ [(ty, [])]) I) as (s' & V' & E & I'); try done.
  - destruct (im_disk _ _ _ I). by split.
  - lia.
  - intros m g a Hne Hg Ha. split; [done|]. intros O. apply (stored_owns V 0 din []) in O; [lia|apply stored_empty].
  - split; simpl; try lia; repeat constructor; unfold is_u32; lia.
  - by exists (replicate 13 0).
  - simpl. lia.
  - apply stored_empty.
  - intros m. apply lookup_snoc_dec.
  - rewrite length_app. simpl. lia.
  - rewrite total_app. change (total [(ty, [])]) with 0. change (freeblock s1) with (freeblock s). rewrite (im_fb _ _ _ I). lia.
  - unfold s1. simpl. rewrite (im_next _ _ _ I), length_app. simpl. rewrite u32_small by (unfold is_u32; lia). lia.
  - exists s', V'. by rewrite (bind_done _ _ _ _ _ _ _ E).
Qed.

Lemma iappend_ok env s V F n f p : image s V F → F !! n = Some f → (length f.2 + length p ≤ Z.to_nat (MAXFILE * BSIZE))%nat →
  nmeta + total F + need (length f.2) (length p) ≤ FSSIZE →
  ∃ s' V', iappend (1 + Z.of_nat n) p env s = Done tt s' env ∧ image s' V' (<[n := (f.1, f.2 ++ p)]> F).
Proof.
  intros I Hf Hmax Hfit. pose proof (lookup_lt_Some _ _ _ Hf) as Hlt. pose proof (im_few _ _ _ I) as Hfew.
  destruct (im_file _ _ _ I n f Hf) as [(l & Hh) Hty Hsz Hst]. change (MAXFILE * BSIZE) with 71680 in *.
  unfold iappend. rewrite (bind_done _ _ _ _ _ _ _ (rinode_ok env s V n (im_disk _ _ _ I) ltac:(lia))).
  replace (xint (d_size (dino V n))) with (Z.of_nat (length f.2)) by (rewrite Hh; simpl; rewrite xint_small; [done|unfold is_u32; lia]).
  destruct (iappend_from_ok env (S (length p)) p s V (dino V n) f.2) as (din' & s1 & V1 & E1 & D1 & S1 & X1 & F1 & I1);
    [lia|apply I|done|done|rewrite (im_fb _ _ _ I); lia|].
  rewrite (bind_done _ _ _ _ _ _ _ E1). cbv beta iota. destruct X1 as [X1 X2 X3 (l' & X4) X5]. rewrite Hh in X4. simpl in X4.
  rewrite xint_small by (unfold is_u32; lia).
  assert (Low : ∀ a, a < 59 → V1 a = V a).
  { intros a Ha. apply X2.
    - pose proof (dk_free _ _ (im_disk _ _ _ I)) as H. change nmeta with 59 in H. lia.
    - intros O. apply (stored_owns _ _ _ _ _ Hst) in O. lia. }
  destruct S1 as [L1 U1].
  eapply (image_put env s V F s1 V1 n (f.1, f.2 ++ p) _ (<[n := (f.1, f.2 ++ p)]> F) I D1); try done; try lia.
  - intros m g a Hne Hg Ha. pose proof (stored_owns _ _ _ _ _ (ho_stored _ _ _ _ (im_file _ _ _ I m g Hg)) Ha) as Hr.
    pose proof (im_apart _ _ _ I m n g f a Hg Hf Hne Ha) as Hn'. split; [apply X2; [lia|done]|].
    intros O. rewrite (owns_ext V1 _ (cached 0 din')) in O by done. apply X3 in O as [O|O]; [done|lia].
  - subst din'. simpl in U1 |- *. split; simpl; try lia; [unfold is_u32; lia|apply L1|done].
  - exists l'. subst din'. unfold set_size. simpl. rewrite length_app. done.
  - simpl. rewrite length_app. change (MAXFILE * BSIZE) with 71680. lia.
  - split; [|by subst din']. eapply layout_ext; [|exact L1]. done.
  - intros m. destruct (decide (m = n)) as [->|Hne]; [by apply list_lookup_insert_eq|by apply list_lookup_insert_ne].
  - by rewrite length_insert.
  - rewrite F1, (im_fb _ _ _ I), (total_insert F n f) by done. simpl. rewrite length_app. unfold need. lia.
  - rewrite length_insert, I1. apply I.
Qed.

(** [while((cc = read(fd, buf, sizeof(buf))) > 0) iappend(inum, buf, cc);] *)
Lemma reads_ok env n reads : ∀ s V F f, image s V F → F !! n = Some f →
  (length f.2 + length (concat reads) ≤ Z.to_nat (MAXFILE * BSIZE))%nat →
  nmeta + total F + need (length f.2) (length (concat reads)) ≤ FSSIZE →
  ∃ s' V', foreach (iappend (1 + Z.of_nat n)) reads env s = Done tt s' env ∧ image s' V' (<[n := (f.1, f.2 ++ concat reads)]> F).
Proof.
  induction reads as [|p reads IH]; intros s V F f I Hf Hmax Hfit; cbn [foreach concat] in *.
  - exists s, V. split; [done|]. rewrite app_nil_r. destruct f. by rewrite list_insert_id.
  - rewrite length_app in Hmax, Hfit. rewrite need_split in Hfit.
    pose proof (need_pos (length f.2 + length p) (length (concat reads))) as Hp.
    destruct (iappend_ok env s V F n f p I Hf) as (s1 & V1 & E1 & I1); [lia..|].
    rewrite (bind_done _ _ _ _ _ _ _ E1).
    destruct (IH s1 V1 _ (f.1, f.2 ++ p) I1) as (s2 & V2 & E2 & I2).
    + apply list_lookup_insert_eq. by eapply lookup_lt_Some.
    + simpl. rewrite length_app. lia.
    + rewrite (total_insert F n f) by done. simpl. rewrite length_app. unfold need in *. lia.
    + exists s2, V2. split; [exact E2|]. simpl in I2. by rewrite list_insert_insert_eq, <-app_assoc in I2.
Qed.

(** ** What the arguments describe *)
Definition content (f : hostfile) : list Z := concat (default [] (h_reads f)).
Definition entry_of (e : list Z * Z) : list Z := mk_dirent e.1 e.2.
(** The names in the root directory with their inode numbers. *)
Definition names (fs : list hostfile) : list (list Z * Z) :=
  ([46], 1) :: ([46; 46], 1) :: imap (λ i f, (skip_underscore (h_name f), 2 + Z.of_nat i)) fs.
Definition dir_bytes (fs : list hostfile) : list Z := concat (entry_of <$> names fs).
Definition spec (fs : list hostfile) : list fspec := (T_DIR, dir_bytes fs) :: ((λ f, (T_FILE, content f)) <$> fs).

Record valid (f : hostfile) : Prop := {
  va_name : 47 ∉ h_name f;
  va_open : h_reads f ≠ None;
  va_size : (length (content f) ≤ Z.to_nat (MAXFILE * BSIZE))%nat }.

Lemma names_snoc fs f : names (fs ++ [f]) = names fs ++ [(skip_underscore (h_name f), 2 + Z.of_nat (length fs))].
Proof. unfold names. rewrite imap_app. simpl. by rewrite Nat.add_0_r. Qed.
Lemma length_names fs : length (names fs) = (2 + length fs)%nat.
Proof. unfold names. simpl. by rewrite length_imap. Qed.
Lemma length_entries (l : list (list Z * Z)) : length (concat (entry_of <$> l)) = (16 * length l)%nat.
Proof. induction l as [|e l IH]; [done|]. cbn [fmap list_fmap concat length]. rewrite length_app, IH. unfold entry_of. rewrite length_mk_dirent. lia. Qed.
Lemma length_dir_bytes fs : length (dir_bytes fs) = (16 * (2 + length fs))%nat.
Proof. unfold dir_bytes. by rewrite length_entries, length_names. Qed.
Lemma dir_bytes_snoc fs f : dir_bytes (fs ++ [f]) = dir_bytes fs ++ mk_dirent (skip_underscore (h_name f)) (2 + Z.of_nat (length fs)).
Proof. unfold dir_bytes. rewrite names_snoc, fmap_app, concat_app. cbn [fmap list_fmap concat]. by rewrite app_nil_r. Qed.

Lemma total_spec_snoc fs f : total (spec (fs ++ [f])) = total (spec fs) + need (16 * (2 + length fs)) 16 + need 0 (length (content f)).
Proof.
  unfold spec. rewrite fmap_app, !total_cons, total_app. change (total (_ <$> [f])) with (cost (blocks_of (length (content f))) + 0). cbn [snd].
  rewrite !length_dir_bytes, length_app. unfold need. change (cost (blocks_of 0)) with 0. rewrite Nat.add_0_l.
  replace (16 * (2 + (length fs + length [f])))%nat with (16 * (2 + length fs) + 16)%nat by (simpl; lia). lia.
Qed.

Lemma total_le fs gs : total (spec fs) ≤ total (spec (fs ++ gs)).
Proof.
  induction gs as [|g gs IH] using rev_ind; [by rewrite app_nil_r|]. rewrite app_assoc, total_spec_snoc.
  pose proof (need_pos (16 * (2 + length (fs ++ gs))) 16). pose proof (need_pos 0 (length (content g))). lia.
Qed.

Lemma add_file_ok env s V fs f : image s V (spec fs) → valid f → (length fs < 198)%nat →
  nmeta + total (spec (fs ++ [f])) ≤ FSSIZE →
  ∃ s' V', add_file 1 f env s = Done tt s' env ∧ image s' V' (spec (fs ++ [f])).
Proof.
  intros I [Vn Vo Vs] Hl Hfit. rewrite total_spec_snoc in Hfit.
  pose proof (need_pos (16 * (2 + length fs)) 16) as N1. pose proof (need_pos 0 (length (content f))) as N2.
  assert (Ls : length (spec fs) = (1 + length fs)%nat) by (unfold spec; simpl; by rewrite length_fmap).
  unfold add_file. rewrite bool_decide_false by done. unfold content in *. destruct (h_reads f) as [reads|] eqn:Er; [|done]. simpl default in *.
  destruct (ialloc_ok env s V (spec fs) T_FILE I) as (s1 & V1 & E1 & I1); [rewrite Ls; lia|done|].
  rewrite Ls in E1. rewrite (bind_done _ _ _ _ _ _ _ E1). replace (1 + Z.of_nat (1 + length fs)) with (2 + Z.of_nat (length fs)) in * by lia.
  assert (Ex : xshort (2 + Z.of_nat (length fs)) = 2 + Z.of_nat (length fs)).
  { unfold xshort. rewrite le_val_bytes. apply Z.mod_small. change (256 ^ Z.of_nat 2) with 65536. lia. }
  rewrite Ex. assert (T1 : total (spec fs ++ [(T_FILE, [])]) = total (spec fs)).
  { rewrite total_app. change (total [(T_FILE, [])]) with 0. lia. }
  destruct (iappend_ok env s1 V1 _ 0 (T_DIR, dir_bytes fs) (mk_dirent (skip_underscore (h_name f)) (2 + Z.of_nat (length fs))) I1)
    as (s2 & V2 & E2 & I2); [done|cbn [snd]; rewrite length_dir_bytes, length_mk_dirent; change (MAXFILE * BSIZE) with 71680; lia| |].
  { cbn [snd]. rewrite length_dir_bytes, length_mk_dirent, T1. lia. }
  change (1 + Z.of_nat 0) with 1 in E2. rewrite (bind_done _ _ _ _ _ _ _ E2). cbn [fst snd] in I2. rewrite <-dir_bytes_snoc in I2.
  assert (T2 : total (<[0%nat := (T_DIR, dir_bytes (fs ++ [f]))]> (spec fs ++ [(T_FILE, [])])) = total (spec fs) + need (16 * (2 + length fs)) 16).
  { rewrite (total_insert _ 0 (T_DIR, dir_bytes fs)) by done. rewrite T1. cbn [snd]. rewrite !length_dir_bytes, length_app. unfold need.
    replace (16 * (2 + (length fs + length [f])))%nat with (16 * (2 + length fs) + 16)%nat by (simpl; lia). lia. }
  destruct (reads_ok env (1 + length fs) reads s2 V2 _ (T_FILE, []) I2) as (s3 & V3 & E3 & I3).
  - unfold spec. simpl. rewrite lookup_app_r, length_fmap, Nat.sub_diag by (by rewrite length_fmap). done.
  - exact Vs.
  - rewrite T2. cbn [snd length]. lia.
  - exists s3, V3. split; [replace (2 + Z.of_nat (length fs)) with (1 + Z.of_nat (1 + length fs)) by lia; exact E3|].
    unfold spec in I3 |- *. rewrite fmap_app. simpl in I3 |- *.
    rewrite insert_app_r_alt, length_fmap, Nat.sub_diag in I3 by (by rewrite length_fmap). simpl in I3.
    unfold content at 2. rewrite Er. exact I3.
Qed.
