(* ===== verification/MkfsImage.v ===== *)
(** * The file system that mkfs.c makes

    [main] of mkfs.c as a whole: the blank image, the files of the arguments,
    the size of the root directory and the free map.  The finished image is
    then read with the definitions of the kernel: its free map satisfies
    [bitmap_ok], its inodes [file_ok], the root directory is the map from
    names to inodes, and each inode has the contents of its file. *)
From S2P Require Import Prelude State Sync CString Dll Bio Cache Log Crash Fs Blocks Inodes Files FileSystem Dir Mkfs.

(** ** [main] *)
Definition first_blocks (b : Z) : block := if b =? 1 then demo_sb else zero_block.

Lemma wipe_ok env n : ∀ s a, m_img s = replicate a zero_block → (a + n ≤ Z.to_nat FSSIZE)%nat →
  foreach (λ i, wsect i zero_block) (seqZ (Z.of_nat a) (Z.of_nat n)) env s = Done tt (s <| m_img := replicate (a + n) zero_block |>) env.
Proof.
  induction n as [|n IH]; intros s a E Hn.
  - rewrite Nat.add_0_r, <-E. by destruct s.
  - rewrite seqZ_cons by lia. cbn [foreach].
    replace (Z.succ (Z.of_nat a)) with (Z.of_nat (S a)) by lia. replace (Z.pred (Z.of_nat (S n))) with (Z.of_nat n) by lia.
    unfold wsect at 1. rewrite bind_modify, IH; [|simpl|change FSSIZE with 1000 in *; lia].
    + f_equal. destruct s. simpl. by replace (a + S n)%nat with (S a + n)%nat by lia.
    + rewrite E. unfold put_block. change FSSIZE with 1000 in Hn. rewrite sect_small by (change FSSIZE with 1000; lia).
      rewrite Nat2Z.id, length_replicate, Nat.ltb_irrefl, Nat.sub_diag. symmetry. apply replicate_S_end.
Qed.

Lemma blank_image env s : m_img s = replicate (Z.to_nat FSSIZE) zero_block → freeblock s = nmeta → freeinode s = 1 →
  ∃ s', wsect 1 (sb_bytes ++ replicate (512 - length sb_bytes) 0) env s = Done tt s' env ∧ image s' first_blocks [].
Proof.
  intros E Ef Ei. assert (D : disk_ok s (λ _, zero_block)).
  { split; [by rewrite E, length_replicate| |done|done|rewrite Ef; done]. intros b Hb. rewrite E. apply lookup_replicate_2. lia. }
  destruct (wsect_ok s _ env 1 (sb_bytes ++ replicate (512 - length sb_bytes) 0) D) as (s' & E' & D' & F' & I');
    [rewrite Ef; done|done|done|].
  exists s'. split; [exact E'|]. split; try done.
  - destruct D' as [A1 A2 A3 A4 A5]. assert (Ev : ∀ b, <[1 := sb_bytes ++ replicate (512 - length sb_bytes) 0]> (λ _, zero_block) b = first_blocks b).
    { intros b. unfold first_blocks. rewrite fn_insert_dec. destruct (Z.eqb_spec b 1) as [->|Hne]; [by rewrite decide_True|by rewrite decide_False]. }
    split; try done; intros b Hb; rewrite <-Ev; auto.
  - simpl. lia.
  - by rewrite I', Ei.
  - by rewrite F', Ef.
Qed.

Lemma files_ok env fs : ∀ done s V, image s V (spec done) → Forall valid fs → (length (done ++ fs) ≤ 198)%nat →
  nmeta + total (spec (done ++ fs)) ≤ FSSIZE →
  ∃ s' V', foreach (add_file 1) fs env s = Done tt s' env ∧ image s' V' (spec (done ++ fs)).
Proof.
  induction fs as [|f fs IH]; intros done s V I Hv Hl Hfit.
  - exists s, V. by rewrite app_nil_r.
  - apply Forall_cons in Hv as [Hf Hv]. replace (done ++ f :: fs) with ((done ++ [f]) ++ fs) in * by (by rewrite <-app_assoc).
    assert (Hle : total (spec (done ++ [f])) ≤ total (spec ((done ++ [f]) ++ fs))) by apply total_le.
    cbn [foreach]. destruct (add_file_ok env s V done f I Hf) as (s1 & V1 & E1 & I1); [rewrite !length_app in Hl; simpl in Hl; lia|lia|].
    rewrite (bind_done _ _ _ _ _ _ _ E1). by apply (IH (done ++ [f]) s1 V1).
Qed.

(** The free map that [balloc] writes. *)
Definition marks (n : Z) : block := foldl (λ buf i, bit_set i buf) zero_block (seqZ 0 n).

Lemma marks_spec (n : nat) : (n ≤ Z.to_nat BPB)%nat → length (marks (Z.of_nat n)) = 512%nat ∧
  ∀ b, 0 ≤ b < BPB → bit_get (marks (Z.of_nat n)) b = (b <? Z.of_nat n).
Proof.
  unfold marks. induction n as [|n IH]; intros Hn.
  - split; [done|]. intros b Hb. change BPB with 4096 in Hb. rewrite (proj2 (Z.ltb_ge _ _)) by lia. change (seqZ 0 (Z.of_nat 0)) with (@nil Z). simpl.
    rewrite bit_get_testbit by lia. unfold zero_block. rewrite lookup_total_replicate_2; [apply Z.testbit_0_l|].
    change (Z.to_nat BSIZE) with (Z.to_nat 512). clear -Hb. Z.to_euclidean_division_equations. lia.
  - destruct IH as [IL IH]; [lia|]. rewrite seqZ_S, foldl_app. cbn [foldl]. split; [by rewrite length_bit_set|].
    intros b Hb. rewrite bit_get_set; [|done|change BPB with 4096 in *; lia|done]. rewrite IH by done.
    destruct (decide _) as [->|Hne]; [symmetry; apply Z.ltb_lt; lia|]. destruct (Z.ltb_spec b (Z.of_nat n)), (Z.ltb_spec b (Z.of_nat (S n))); lia.
Qed.

(** The size that [main] gives the root directory. *)
Definition root_size (n : nat) : Z := (Z.of_nat n / BSIZE + 1) * BSIZE.

(** The finished image. *)
Record finished (V : Z → block) (fb : Z) (F : list fspec) : Prop := {
  fi_512 b : 0 ≤ b < FSSIZE → length (V b) = 512%nat;
  fi_few : (length F < 200)%nat;
  fi_fb : nmeta ≤ fb ≤ FSSIZE;
  fi_head b : 0 ≤ b < 32 → V b = first_blocks b;
  fi_map : V 58 = marks fb;
  fi_file n f : F !! n = Some f → ∃ l, dino V n = DInode f.1 0 0 1 (if (n =? 0)%nat then root_size (length f.2) else Z.of_nat (length f.2)) l;
  fi_stored n f : F !! n = Some f → stored V fb (dino V n) f.2 ∧ (length f.2 ≤ Z.to_nat (MAXFILE * BSIZE))%nat;
  fi_apart n n' f f' a : F !! n = Some f → F !! n' = Some f' → n ≠ n' → owns V (cached 0 (dino V n)) a → ¬ owns V (cached 0 (dino V n')) a }.

(** The two last writes: the inode of the root, and the free map. *)
Definition closed (V : Z → block) (fb sz : Z) : Z → block := <[58 := marks fb]> (put_inode 0 (set_size sz (dino V 0)) V).

Lemma closed_data V fb sz a : 59 ≤ a → closed V fb sz a = V a.
Proof. intros Ha. unfold closed. rewrite fn_lookup_insert_ne by lia. apply put_inode_other; lia. Qed.

Lemma closed_inode V fb sz m : (m < 200)%nat → dinode_ok (set_size sz (dino V 0)) → length (V (IBLOCK 1 sb)) = 512%nat →
  dino (closed V fb sz) m = if (m =? 0)%nat then set_size sz (dino V 0) else dino V m.
Proof.
  intros Hm HD Hl. unfold dino at 1, disk_inode, closed. pose proof (inode_block m Hm). rewrite fn_lookup_insert_ne by lia.
  fold (disk_inode (put_inode 0 (set_size sz (dino V 0)) V) sb (1 + Z.of_nat m)).
  fold (dino (put_inode 0 (set_size sz (dino V 0)) V) m). destruct (Nat.eqb_spec m 0) as [->|Hne].
  - apply dino_put; [lia|done|exact Hl].
  - apply dino_put_ne. lia.
Qed.

Lemma closed_finished s V F f fb (sz := root_size (length f.2)) : image s V F → F !! 0%nat = Some f → freeblock s = fb → fb ≤ FSSIZE →
  is_u32 sz → finished (closed V fb sz) fb F.
Proof.
  intros I Hf Efb Hfit Hsz0. pose proof (im_few _ _ _ I) as Hfew. pose proof (im_disk _ _ _ I) as D. pose proof (dk_free _ _ D) as Hm.
  destruct (im_file _ _ _ I 0%nat f Hf) as [(l & Hh) Hty Hsz Hst].
  assert (HD : dinode_ok (set_size sz (dino V 0))).
  { destruct Hst as [L U]. rewrite Hh in U |- *. split; simpl; try lia; [done| |exact U].
    pose proof (ly_len _ _ _ _ _ _ L) as Hlen. rewrite Hh in Hlen. exact Hlen. }
  assert (Di : ∀ m g, F !! m = Some g → dino (closed V fb sz) m = if (m =? 0)%nat then set_size sz (dino V 0) else dino V m).
  { intros m g Hg%lookup_lt_Some. apply closed_inode; [lia|done|apply (dk_512 _ _ D); done]. }
  assert (Ad : ∀ m g, F !! m = Some g → i_addrs (cached 0 (dino (closed V fb sz) m)) = i_addrs (cached 0 (dino V m))).
  { intros m g Hg. rewrite (Di m g Hg). by destruct (Nat.eqb_spec m 0) as [->|]. }
  assert (Sm : ∀ m g a, F !! m = Some g → owns V (cached 0 (dino V m)) a → closed V fb sz a = V a).
  { intros m g a Hg O. apply closed_data. apply (stored_owns _ _ _ _ _ (ho_stored _ _ _ _ (im_file _ _ _ I m g Hg))) in O. lia. }
  assert (Om : ∀ m g a, F !! m = Some g → owns (closed V fb sz) (cached 0 (dino (closed V fb sz) m)) a ↔ owns V (cached 0 (dino V m)) a).
  { intros m g a Hg. rewrite (owns_ext _ _ _ _ (Ad m g Hg)). apply owns_frame. intros b. by apply (Sm m g). }
  destruct (marks_spec (Z.to_nat fb)) as [Ml _]; [change BPB with 4096; change FSSIZE with 1000 in *; lia|].
  rewrite Z2Nat.id in Ml by (change nmeta with 59 in *; lia). split.
  - intros b Hb. unfold closed, put_inode. rewrite !fn_insert_dec. repeat case_decide; [done|rewrite length_put_dinode|]; apply (dk_512 _ _ D); [done..|exact Hb].
  - done.
  - lia.
  - intros b Hb. unfold closed. rewrite fn_lookup_insert_ne, put_inode_other by lia. by apply (im_head _ _ _ I).
  - apply fn_lookup_insert.
  - intros m g Hg. rewrite (Di m g Hg). destruct (Nat.eqb_spec m 0) as [->|Hne]; [|by apply (im_file _ _ _ I)].
    rewrite Hf in Hg. injection Hg as <-. exists l. by rewrite Hh.
  - intros m g Hg. destruct (im_file _ _ _ I m g Hg) as [_ _ H3 [L U]]. split; [|done]. split.
    + eapply layout_ext; [symmetry; by apply (Ad m g)|]. apply (layout_frame V (freeblock s)); [done|intros a; by apply (Sm m g)|lia].
    + pose proof (Ad m g Hg) as Ea. change (i_addrs (cached 0 ?d)) with (d_addrs d) in Ea. by rewrite Ea.
  - intros m m' g g' a Hg Hg' Hne. rewrite (Om m g), (Om m' g') by done. by apply (im_apart _ _ _ I m m' g g').
Qed.

(** The last statements of [main]. *)
Lemma finish_ok env s V F f : image s V F → F !! 0%nat = Some f → nmeta + total F ≤ FSSIZE → (length f.2 < Z.to_nat (MAXFILE * BSIZE))%nat →
  ∃ s' V', (din <- rinode 1 ;;
     let off := xint (d_size din) in
     let off := u32 ((off / BSIZE + 1) * BSIZE) in
     winode 1 (set_size (xint off) din) ;;
     n <- gets freeblock ;;
     balloc n) env s = Done tt s' env ∧ disk_ok s' V' ∧ finished V' (freeblock s') F.
Proof.
  intros I Hf Hfit Hmax. destruct (im_file _ _ _ I 0%nat f Hf) as [(l & Hh) Hty Hsz Hst]. pose proof (im_few _ _ _ I) as Hfew.
  pose proof (im_fb _ _ _ I) as Efb. pose proof (dk_free _ _ (im_disk _ _ _ I)) as Hm.
  assert (Hr : is_u32 (root_size (length f.2))).
  { change (MAXFILE * BSIZE) with 71680 in Hmax. unfold is_u32, root_size. change BSIZE with 512. clear -Hmax. Z.to_euclidean_division_equations. lia. }
  pose proof (rinode_ok env s V 0 (im_disk _ _ _ I) ltac:(lia)) as E0. change (1 + Z.of_nat 0) with 1 in E0.
  rewrite (bind_done _ _ _ _ _ _ _ E0). cbv zeta.
  replace (xint (d_size (dino V 0))) with (Z.of_nat (length f.2))
    by (rewrite Hh; simpl; rewrite xint_small; [done|change (MAXFILE * BSIZE) with 71680 in Hmax; unfold is_u32; lia]).
  change ((Z.of_nat (length f.2) / BSIZE + 1) * BSIZE) with (root_size (length f.2)). rewrite u32_small, xint_small by done.
  destruct (winode_ok env s V 0 (set_size (root_size (length f.2)) (dino V 0)) (im_disk _ _ _ I) ltac:(lia)) as (s1 & E1 & D1 & F1 & I1).
  change (1 + Z.of_nat 0) with 1 in E1. rewrite (bind_done _ _ _ _ _ _ _ E1), bind_gets. unfold balloc.
  change nmeta with 59 in *. change FSSIZE with 1000 in *. change (BSIZE * 8) with 4096.
  rewrite (proj2 (Z.ltb_lt _ _)) by lia. cbn [negb]. change (sb_bmapstart sb) with 58.
  destruct (marks_spec (Z.to_nat (freeblock s1))) as [Ml _]; [change BPB with 4096; lia|]. rewrite Z2Nat.id in Ml by lia.
  destruct (wsect_ok s1 _ env 58 (marks (freeblock s1)) D1) as (s2 & E2 & D2 & F2 & I2); [lia|done|done|].
  exists s2, (closed V (freeblock s1) (root_size (length f.2))). split; [exact E2|]. split; [done|].
  rewrite F2. apply (closed_finished s V F f (freeblock s1) I Hf); [done|change FSSIZE with 1000; lia|done].
Qed.

Lemma spec_nil : spec [] = [(T_DIR, dir_bytes [])].
Proof. done. Qed.

Lemma main_ok files env : Forall valid files → (length files ≤ 198)%nat → nmeta + total (spec files) ≤ FSSIZE →
  ∃ s' V, main (Some true) files env start = Done tt s' env ∧ disk_ok s' V ∧ finished V (freeblock s') (spec files).
Proof.
  intros Hv Hl Hfit. unfold main. rewrite !bind_modify. set (s0 := start <| m_img := [] |> <| freeblock := nmeta |>).
  pose proof (wipe_ok env (Z.to_nat FSSIZE) s0 0 eq_refl ltac:(lia)) as E0. rewrite Z2Nat.id in E0 by done. change (Z.of_nat 0) with 0 in E0.
  rewrite (bind_done _ _ _ _ _ _ _ E0).
  destruct (blank_image env (s0 <| m_img := replicate (0 + Z.to_nat FSSIZE) zero_block |>)) as (s1 & E1 & I1); [done..|].
  rewrite (bind_done _ _ _ _ _ _ _ E1). clear E0 E1 s0.
  destruct (ialloc_ok env s1 _ [] T_DIR I1) as (s2 & V2 & E2 & I2); [simpl; lia|done|].
  rewrite (bind_done _ _ _ _ _ _ _ E2). change (1 + Z.of_nat (length [])) with 1. change (negb (1 =? ROOTINO)) with false. cbv iota.
  change (xshort 1) with 1. pose proof (total_le [] files) as Ht. rewrite spec_nil in Ht. simpl app in Ht.
  change (total [(T_DIR, dir_bytes [])]) with 1 in Ht.
  destruct (iappend_ok env s2 V2 _ 0 (T_DIR, []) (mk_dirent [46] 1) I2) as (s3 & V3 & E3 & I3); [done|cbn [snd]; rewrite ?length_mk_dirent; change (MAXFILE * BSIZE) with 71680; cbn [length]; lia|vm_compute; discriminate|].
  change (1 + Z.of_nat 0) with 1 in E3. rewrite (bind_done _ _ _ _ _ _ _ E3).
  destruct (iappend_ok env s3 V3 _ 0 (T_DIR, mk_dirent [46] 1) (mk_dirent [46; 46] 1) I3) as (s4 & V4 & E4 & I4); [done|cbn [snd]; rewrite ?length_mk_dirent; change (MAXFILE * BSIZE) with 71680; cbn [length]; lia|vm_compute; discriminate|].
  change (1 + Z.of_nat 0) with 1 in E4. rewrite (bind_done _ _ _ _ _ _ _ E4).
  destruct (files_ok env files [] s4 V4) as (s5 & V5 & E5 & I5); [exact I4|done|done|done|].
  rewrite (bind_done _ _ _ _ _ _ _ E5). simpl app in I5.
  apply (finish_ok env s5 V5 (spec files) (T_DIR, dir_bytes files) I5); [done|done|].
  cbn [snd]. rewrite length_dir_bytes. change (MAXFILE * BSIZE) with 71680. lia.
Qed.

(** ** The image as the kernel sees it *)

(** A kernel that has read the super block of the image. *)
Record geometry (s : kstate) : Prop := {
  ge_sb : k_sb s = sb;
  ge_size : k_disksize s = FSSIZE;
  ge_start : l_start (k_log s) = sb_logstart sb;
  ge_nlog : l_size (k_log s) = sb_nlog sb }.

Section kernel.
Context (s : kstate) (G : geometry s) (V : Z → block) (fb : Z) (F : list fspec) (Fi : finished V fb F).

Lemma map_block b : 0 ≤ b < FSSIZE → BBLOCK b sb = 58.
Proof. intros Hb. change FSSIZE with 1000 in Hb. unfold BBLOCK. change BPB with 4096. by rewrite Z.div_small by lia. Qed.

Lemma image_home b : is_home s b ↔ 0 ≤ b < FSSIZE ∧ (b < 2 ∨ 32 ≤ b).
Proof. unfold is_home, home. rewrite (ge_size _ G), (ge_start _ G), (ge_nlog _ G). done. Qed.

Lemma image_used b : 0 ≤ b < FSSIZE → used V (k_sb s) b = (b <? fb).
Proof.
  intros Hb. pose proof (fi_fb _ _ _ Fi) as Hf. change nmeta with 59 in Hf. rewrite (ge_sb _ G). unfold used. rewrite map_block, (fi_map _ _ _ Fi) by done.
  change FSSIZE with 1000 in *. destruct (marks_spec (Z.to_nat fb)) as [_ H]; [change BPB with 4096; lia|]. rewrite Z2Nat.id in H by lia.
  change BPB with 4096 in *. rewrite Z.mod_small by lia. apply H. lia.
Qed.

Lemma image_bitmap : bitmap_ok s V.
Proof.
  pose proof (fi_fb _ _ _ Fi) as Hf. change nmeta with 59 in Hf.
  split; rewrite ?(ge_sb _ G); change (sb_size sb) with FSSIZE.
  - by rewrite (ge_size _ G).
  - intros b Hb. rewrite map_block, image_home by done. change FSSIZE with 1000. lia.
  - intros b Hb. rewrite map_block by done. apply (fi_512 _ _ _ Fi). done.
  - intros b Hb. rewrite <-(ge_sb _ G), image_used, (ge_sb _ G), image_home by done. intros Hu%Z.ltb_ge.
    split; [split; [done|lia]|]. split; [lia|]. intros c Hc. rewrite map_block by done. lia.
Qed.

Lemma image_data a : 32 ≤ a < fb → a ≠ 58 → data_block s V a.
Proof.
  intros Ha Hne. pose proof (fi_fb _ _ _ Fi) as Hf. split.
  - rewrite (ge_sb _ G). change (sb_size sb) with FSSIZE. lia.
  - rewrite image_used by lia. apply Z.ltb_lt. lia.
  - apply image_home. lia.
  - lia.
  - intros (c & Hc & ->). rewrite (ge_sb _ G) in *. apply Hne. by apply map_block.
  - apply (fi_512 _ _ _ Fi). lia.
Qed.

Context (n : nat) (f : fspec) (Hf : F !! n = Some f).
Let ip : inode := cached (1 + Z.of_nat n) (disk_inode V (k_sb s) (1 + Z.of_nat n)).

Lemma image_layout : layout V fb ip (blocks_of (length f.2)) (NDIRECT <? blocks_of (length f.2)) f.2.
Proof.
  destruct (fi_stored _ _ _ Fi n f Hf) as [[L _] _]. eapply layout_ext; [|exact L]. unfold ip. by rewrite (ge_sb _ G).
Qed.

Lemma image_inode : ip = Inode ROOTDEV (1 + Z.of_nat n) 1 sl_init true f.1 0 0 1
  (if (n =? 0)%nat then root_size (length f.2) else Z.of_nat (length f.2)) (i_addrs ip).
Proof.
  unfold ip. rewrite (ge_sb _ G). fold (dino V n). destruct (fi_file _ _ _ Fi n f Hf) as [l ->]. done.
Qed.

Lemma image_file : file_ok s V ip.
Proof.
  pose proof image_layout as L. destruct (ly_nb _ _ _ _ _ _ L) as [Hn _].
  assert (Da : ∀ a, nmeta ≤ a < fb → data_block s V a) by (change nmeta with 59; intros a Ha; apply image_data; lia). split.
  - apply L.
  - intros Hi. apply Da. pose proof (ly_ind _ _ _ _ _ _ L) as H. by destruct (NDIRECT <? _).
  - intros bn Hb Ha. apply Da. pose proof (ly_map _ _ _ _ _ _ L bn Hb) as H. by destruct (bn <? _).
  - intros bn bn' Hb Hb' Ha E. pose proof (ly_map _ _ _ _ _ _ L bn Hb) as H. pose proof (ly_map _ _ _ _ _ _ L bn' Hb') as H'.
    destruct (Z.ltb_spec bn (blocks_of (length f.2))); [|done]. destruct (Z.ltb_spec bn' (blocks_of (length f.2))); [|congruence].
    apply (ly_inj _ _ _ _ _ _ L); [lia..|done].
  - intros bn Hb Hi E. pose proof (ly_map _ _ _ _ _ _ L bn Hb) as H. pose proof (ly_ind _ _ _ _ _ _ L) as H'.
    destruct (Z.ltb_spec bn (blocks_of (length f.2))); [|congruence].
    destruct (NDIRECT <? _) eqn:Eh; [|done]. apply (ly_ne _ _ _ _ _ _ L bn); [lia|done..].
Qed.

Lemma image_apart : inode_apart s V ip.
Proof.
  pose proof (lookup_lt_Some _ _ _ Hf) as Hlt. pose proof (fi_few _ _ _ Fi) as Hfew. pose proof (inode_block n ltac:(lia)) as Hb.
  pose proof (fi_fb _ _ _ Fi) as Hfb. change nmeta with 59 in Hfb.
  unfold inode_apart. rewrite (ge_sb _ G). change (i_inum ip) with (1 + Z.of_nat n). split; [lia|]. split; [apply image_data; lia|].
  intros O. apply (layout_owns _ _ _ _ _ _ _ image_layout) in O. change nmeta with 59 in O. lia.
Qed.

Lemma image_mapped : mapped V ip (Z.of_nat (length f.2)).
Proof.
  intros bn Hb Hlt. destruct (fi_stored _ _ _ Fi n f Hf) as [_ Hs]. change (MAXFILE * BSIZE) with 71680 in Hs. change BSIZE with 512 in Hlt.
  pose proof (layout_addr _ _ _ _ _ _ bn image_layout) as H. change nmeta with 59 in H.
  assert (bn < blocks_of (length f.2)); [|lia]. unfold blocks_of. clear -Hlt. Z.to_euclidean_division_equations. lia.
Qed.

Lemma image_byte x : 0 ≤ x < MAXFILE * BSIZE → fbyte V ip x = pad f.2 (Z.to_nat x).
Proof. apply image_layout. Qed.

Lemma image_contents : slice V ip 0 (length f.2) = f.2.
Proof.
  destruct (fi_stored _ _ _ Fi n f Hf) as [_ Hs]. change (MAXFILE * BSIZE) with 71680 in Hs.
  apply list_eq_same_length with (length f.2); [done|apply length_slice|].
  intros j x y Hj. rewrite slice_lookup by done. rewrite image_byte by (change (MAXFILE * BSIZE) with 71680; lia).
  intros [= <-] Hy. unfold pad. replace (Z.to_nat (0 + Z.of_nat j)) with j by lia. by rewrite Hy.
Qed.
End kernel.

(** ** The root directory *)

(** The number that a list of entries gives a name. *)
Fixpoint assoc (nm : list Z) (l : list (list Z * Z)) : option Z :=
  match l with
  | [] => None
  | (n, i) :: l => if bool_decide (fname n = fname nm) then Some i else assoc nm l
  end.

Lemma first_assoc (P : Z → bool) (g : Z → Z) nm l : ∀ k n, (length l ≤ n)%nat →
  (∀ i : nat, (i < n)%nat → P (k + Z.of_nat i) = match l !! i with Some e => bool_decide (fname e.1 = fname nm) | None => false end) →
  (∀ (i : nat) e, l !! i = Some e → g (k + Z.of_nat i) = e.2) →
  g <$> first_of P k n = assoc nm l.
Proof.
  induction l as [|[a i] l IH]; intros k n Hn HP Hg.
  - assert (first_of P k n = None) as ->; [|done]. apply first_of_spec. intros j Hj.
    specialize (HP (Z.to_nat (j - k)) ltac:(lia)). by replace (k + Z.of_nat (Z.to_nat (j - k))) with j in HP by lia.
  - destruct n as [|n]; [simpl in Hn; lia|]. cbn [first_of assoc].
    pose proof (HP 0%nat ltac:(lia)) as H0. pose proof (Hg 0%nat (a, i) eq_refl) as G0. rewrite Z.add_0_r in H0, G0. simpl in H0, G0. rewrite H0.
    destruct (bool_decide _); [simpl; by rewrite G0|]. apply IH; [simpl in Hn; lia|..].
    + intros j Hj. replace (k + 1 + Z.of_nat j) with (k + Z.of_nat (S j)) by lia. apply HP. lia.
    + intros j e He. replace (k + 1 + Z.of_nat j) with (k + Z.of_nat (S j)) by lia. by apply Hg.
Qed.

(** Entry [i] of a list of entries of 16 bytes. *)
Lemma pad_entries (l : list (list Z * Z)) (i j : nat) : (j < 16)%nat →
  pad (concat (entry_of <$> l)) (16 * i + j) = match l !! i with Some e => pad (entry_of e) j | None => 0 end.
Proof.
  intros Hj. revert i. induction l as [|e l IH]; intros i; [done|].
  assert (He : length (entry_of e) = 16%nat) by apply length_mk_dirent. cbn [fmap list_fmap concat]. destruct i as [|i].
  - rewrite Nat.mul_0_r, Nat.add_0_l. unfold pad. by rewrite lookup_app_l by lia.
  - cbn [lookup list_lookup]. rewrite <-IH. unfold pad. rewrite lookup_app_r by lia. do 2 f_equal. lia.
Qed.

Section root.
Context (s : kstate) (G : geometry s) (V : Z → block) (fb : Z) (files : list hostfile) (Fi : finished V fb (spec files)).
Context (Hl : (length files ≤ 198)%nat).
Let root : inode := cached 1 (disk_inode V (k_sb s) 1).

Lemma root_entry (k : nat) : (16 * k + 16 ≤ Z.to_nat (MAXFILE * BSIZE))%nat →
  dent V root (Z.of_nat k) = match names files !! k with Some e => entry_of e | None => replicate 16 0 end.
Proof.
  intros Hk. change (MAXFILE * BSIZE) with 71680 in Hk.
  assert (L : length (match names files !! k with Some e => entry_of e | None => replicate 16 0 end) = 16%nat).
  { destruct (names files !! k); [apply length_mk_dirent|done]. }
  apply list_eq_same_length with 16%nat; [done|apply length_slice|]. intros j x y Hj.
  unfold dent. change DE with 16. rewrite slice_lookup by lia.
  rewrite (image_byte s G V fb (spec files) Fi 0 (T_DIR, dir_bytes files) eq_refl) by (change (MAXFILE * BSIZE) with 71680; lia).
  cbn [snd]. unfold dir_bytes. replace (Z.to_nat (16 * Z.of_nat k + Z.of_nat j)) with (16 * k + j)%nat by lia. rewrite pad_entries by done.
  intros [= <-] Hy. destruct (names files !! k) as [e|].
  - unfold pad. by rewrite Hy.
  - by apply lookup_replicate in Hy as [-> _].
Qed.

Lemma names_number k e : names files !! k = Some e → 0 < e.2 < 65536.
Proof.
  unfold names. destruct k as [|[|k]]; [by intros [= <-]..|]. simpl. rewrite list_lookup_imap.
  destruct (files !! k) as [f|] eqn:E; [|done]. apply lookup_lt_Some in E. intros [= <-]. simpl. lia.
Qed.

Lemma root_size_ok : root_size (16 * (2 + length files)) `mod` DE = 0 ∧ 0 ≤ root_size (16 * (2 + length files)) ≤ MAXFILE * BSIZE ∧
  16 * (2 + Z.of_nat (length files)) ≤ root_size (16 * (2 + length files)).
Proof.
  unfold root_size. change (MAXFILE * BSIZE) with 71680. change BSIZE with 512. change DE with 16. split_and!.
  - replace 512 with (32 * 16) at 2 by done. rewrite Z.mul_assoc. apply Z_mod_mult.
  - apply Z.mul_nonneg_nonneg; [|done]. pose proof (Z.div_pos (Z.of_nat (16 * (2 + length files))) 512). lia.
  - Z.to_euclidean_division_equations. lia.
  - Z.to_euclidean_division_equations. lia.
Qed.

Lemma root_isize : i_size root = root_size (16 * (2 + length files)).
Proof.
  pose proof (image_inode s G V fb (spec files) Fi 0 (T_DIR, dir_bytes files) eq_refl) as E.
  change (cached (1 + Z.of_nat 0) (disk_inode V (k_sb s) (1 + Z.of_nat 0))) with root in E. rewrite E. cbn [i_size Nat.eqb snd].
  by rewrite length_dir_bytes.
Qed.

Lemma root_dirmap nm : dirmap V root nm = assoc nm (names files).
Proof.
  destruct root_size_ok as (_ & Hs & Hn). change (MAXFILE * BSIZE) with 71680 in Hs. unfold dirmap, find_entry, entries. rewrite root_isize.
  assert (E : ∀ k : nat, (k < Z.to_nat (root_size (16 * (2 + length files)) / DE))%nat → dent V root (Z.of_nat k) =
    match names files !! k with Some e => entry_of e | None => replicate 16 0 end).
  { intros k Hk. apply root_entry. change (MAXFILE * BSIZE) with 71680. change DE with 16 in Hk. clear -Hk Hs. Z.to_euclidean_division_equations. lia. }
  assert (Hle : (length (names files) ≤ Z.to_nat (root_size (16 * (2 + length files)) / DE))%nat).
  { rewrite length_names. change DE with 16. clear -Hn. Z.to_euclidean_division_equations. lia. }
  apply (first_assoc _ _ nm (names files) 0); [done|..].
  - intros i Hi. rewrite Z.add_0_l. unfold is_entry, in_use. rewrite E by done. destruct (names files !! i) as [e|] eqn:Ee; [|done].
    apply names_number in Ee. unfold entry_of. rewrite mk_dirent_inum, mk_dirent_name by lia. by rewrite (proj2 (Z.eqb_neq _ 0)) by lia.
  - intros i e Hi. rewrite Z.add_0_l, E, Hi by (apply lookup_lt_Some in Hi; lia). apply names_number in Hi. apply mk_dirent_inum. lia.
Qed.

(** The blocks of the root cover its size unless its entries fill a block. *)
Lemma root_mapped : mapped V root (i_size root) ↔ (2 + Z.of_nat (length files)) `mod` 32 ≠ 0.
Proof.
  rewrite root_isize. pose proof (image_layout s G V fb (spec files) Fi 0 (T_DIR, dir_bytes files) eq_refl) as L.
  change (cached (1 + Z.of_nat 0) (disk_inode V (k_sb s) (1 + Z.of_nat 0))) with root in L. cbn [snd] in L. rewrite length_dir_bytes in L.
  set (m := (16 * (2 + length files))%nat) in *. assert (Hm : Z.of_nat m = 16 * (2 + Z.of_nat (length files))) by lia.
  unfold root_size, mapped. change BSIZE with 512. split.
  - intros H E. apply (H (Z.of_nat m / 512)); [apply Z.div_pos; lia|lia|].
    apply (layout_none _ _ _ _ _ _ _ L). unfold blocks_of. change MAXFILE with 140. clearbody m. clear -Hm E Hl. Z.to_euclidean_division_equations. lia.
  - intros Hne bn Hb Hlt. pose proof (layout_addr _ _ _ _ _ _ bn L) as H. change nmeta with 59 in H.
    assert (bn < blocks_of m); [|lia]. unfold blocks_of. clearbody m. clear -Hm Hne Hlt. Z.to_euclidean_division_equations. lia.
Qed.
End root.

(** ** The statement *)

(** Inode [inum] is a file with contents [c], as [readi] needs it. *)
Record file_in (s : kstate) (V : Z → block) (inum : Z) (c : list Z) (ip := cached inum (disk_inode V (k_sb s) inum)) : Prop := {
  in_type : i_type ip = T_FILE;
  in_nlink : i_nlink ip = 1;
  in_size : i_size ip = Z.of_nat (length c);
  in_max : i_size ip ≤ MAXFILE * BSIZE;
  in_bytes : slice V ip 0 (length c) = c;
  in_map : file_ok s V ip;
  in_mapped : mapped V ip (i_size ip);
  in_apart : inode_apart s V ip }.

(** Inode 1 is the directory of the files, as [dirlookup] needs it. *)
Record root_in (s : kstate) (V : Z → block) (files : list hostfile) (ip := cached ROOTINO (disk_inode V (k_sb s) ROOTINO)) : Prop := {
  rt_type : i_type ip = T_DIR;
  rt_size : 0 ≤ i_size ip ≤ MAXFILE * BSIZE;
  rt_whole : i_size ip `mod` DE = 0;
  rt_names nm : dirmap V ip nm = assoc nm (names files);
  rt_map : file_ok s V ip;
  rt_mapped : mapped V ip (i_size ip) ↔ (2 + Z.of_nat (length files)) `mod` 32 ≠ 0;
  rt_apart : inode_apart s V ip }.

Lemma finished_root s V fb files : geometry s → finished V fb (spec files) → (length files ≤ 198)%nat → root_in s V files.
Proof.
  intros G Fi Hl. pose proof (image_inode s G V fb (spec files) Fi 0 (T_DIR, dir_bytes files) eq_refl) as E.
  pose proof (root_isize s G V fb files Fi) as Es. destruct (root_size_ok files Hl) as (H1 & H2 & _).
  split; unfold ROOTINO; rewrite ?Es; try done.
  - change 1 with (1 + Z.of_nat 0). by rewrite E.
  - intros nm. by apply (root_dirmap s G V fb).
  - by apply (image_file s G V fb (spec files) Fi 0 (T_DIR, dir_bytes files)).
  - rewrite <-Es. by apply (root_mapped s G V fb).
  - by apply (image_apart s G V fb (spec files) Fi 0 (T_DIR, dir_bytes files)).
Qed.

Lemma finished_file s V fb files n f : geometry s → finished V fb (spec files) → files !! n = Some f →
  file_in s V (2 + Z.of_nat n) (content f).
Proof.
  intros G Fi Hf. assert (Hs : spec files !! S n = Some (T_FILE, content f)) by (unfold spec; simpl; by rewrite list_lookup_fmap, Hf).
  pose proof (image_inode s G V fb (spec files) Fi (S n) _ Hs) as E. destruct (fi_stored _ _ _ Fi (S n) _ Hs) as [_ Hm]. cbn [snd Nat.eqb fst] in E, Hm.
  replace (2 + Z.of_nat n) with (1 + Z.of_nat (S n)) by lia. change (MAXFILE * BSIZE) with 71680 in Hm.
  assert (Es : i_size (cached (1 + Z.of_nat (S n)) (disk_inode V (k_sb s) (1 + Z.of_nat (S n)))) = Z.of_nat (length (content f))) by (by rewrite E).
  split; rewrite ?Es; try done.
  - by rewrite E.
  - by rewrite E.
  - change (MAXFILE * BSIZE) with 71680. lia.
  - by apply (image_contents s G V fb (spec files) Fi (S n) (T_FILE, content f)).
  - by apply (image_file s G V fb (spec files) Fi (S n) (T_FILE, content f)).
  - by apply (image_mapped s G V fb (spec files) Fi (S n) (T_FILE, content f)).
  - by apply (image_apart s G V fb (spec files) Fi (S n) (T_FILE, content f)).
Qed.

(** C1. The image that mkfs makes is a file system of the kernel.  For files
    that can be opened, have names without a slash, and fit on the disk,
    [main] ends with an image of [FSSIZE] blocks whose super block describes
    it and whose log is empty.  A kernel that has read that super block finds
    the free map consistent; the root directory gives each name its inode and
    no other name; each inode has the contents of its file, in blocks that
    are marked in use and that no other inode has.  The blocks of the root
    directory cover its size except when its entries end at a block
    boundary, where the size is one block too large. *)
Theorem mkfs_image files env :
  Forall valid files → (length files ≤ 198)%nat → nmeta + total (spec files) ≤ FSSIZE →
  ∃ st V, main (Some true) files env start = Done tt st env ∧ length (m_img st) = Z.to_nat FSSIZE ∧
    (∀ b, 0 ≤ b < FSSIZE → m_img st !! Z.to_nat b = Some (V b)) ∧
    get_sb (V 1) = sb ∧ hd_n (V (sb_logstart sb)) = 0 ∧
    ∀ s, geometry s → bitmap_ok s V ∧ root_in s V files ∧
      (∀ n f, files !! n = Some f → file_in s V (2 + Z.of_nat n) (content f)) ∧
      (∀ n m a (ip := λ n : nat, cached 0 (disk_inode V sb (1 + Z.of_nat n))), (n ≤ length files)%nat → (m ≤ length files)%nat → n ≠ m →
         owns V (ip n) a → ¬ owns V (ip m) a).
Proof.
  intros Hv Hl Hfit. destruct (main_ok files env Hv Hl Hfit) as (st & V & E & D & Fi). exists st, V.
  assert (Hs : ∀ n, (n ≤ length files)%nat → ∃ f, spec files !! n = Some f).
  { intros n Hn. apply lookup_lt_is_Some_2. unfold spec. simpl. rewrite length_fmap. lia. }
  pose proof (fi_head _ _ _ Fi 1 ltac:(lia)) as E1. pose proof (fi_head _ _ _ Fi 2 ltac:(lia)) as E2.
  change (sb_logstart sb) with 2. rewrite E1, E2.
  split; [exact E|]. split; [apply D|]. split; [apply D|]. split; [vm_compute; reflexivity|]. split; [vm_compute; reflexivity|].
  intros s G. split; [|split; [|split]].
  - by apply (image_bitmap s G V _ _ Fi).
  - by apply (finished_root s V _ files G Fi).
  - intros n f. by apply (finished_file s V _ files n f G Fi).
  - intros n m a ip Hn Hm Hne. destruct (Hs n Hn) as [f Hf]. destruct (Hs m Hm) as [g Hg].
    apply (fi_apart _ _ _ Fi n m f g a Hf Hg Hne).
Qed.

(** One file, [_ls], read in two pieces. *)
Lemma mkfs_image_witness :
  let files := [HostFile [95; 108; 115] (Some [[1; 2; 3]; [4]])] in
  ∃ st V, main (Some true) files [] start = Done tt st [] ∧
    ∀ s, geometry s → dirmap V (cached ROOTINO (disk_inode V (k_sb s) ROOTINO)) [108; 115] = Some 2 ∧
      slice V (cached 2 (disk_inode V (k_sb s) 2)) 0 4 = [1; 2; 3; 4].
Proof.
  intros files. destruct (mkfs_image files []) as (st & V & E & _ & _ & _ & _ & K).
  - constructor; [|constructor]. split; [apply (bool_decide_eq_false_1 (47 ∈ [95; 108; 115])); reflexivity|discriminate|].
    change (MAXFILE * BSIZE) with 71680. simpl. lia.
  - simpl. lia.
  - vm_compute. discriminate.
  - exists st, V. split; [exact E|]. intros s G. destruct (K s G) as (_ & R & F & _). split.
    + rewrite (rt_names _ _ _ R). reflexivity.
    + exact (in_bytes _ _ _ _ (F 0%nat _ eq_refl)).
Defined.
