(* ===== verification/Vm.v ===== *)
(** * Virtual memory (vm.c, mmu.h)

    Page directories and page tables are pages of physical memory ([k_mem])
    that hold 32-bit entries, as on the machine; a pointer to an entry is its
    address.  [kend] and [kdata] are the linker's symbols [end] and [data].
    A loop that would run for ever does not return ([diverge]). *)
From S2P Require Import Prelude State Sync CString Print Kalloc Dll Bio Cache Log Fs.

(** ** mmu.h *)
Definition PDX (va : Z) : Z := Z.land (Z.shiftr va 22) 1023.
Definition PTX (va : Z) : Z := Z.land (Z.shiftr va 12) 1023.
Definition PGADDR (d t o : Z) : Z := u32 (Z.lor (Z.lor (Z.shiftl d 22) (Z.shiftl t 12)) o).
Definition NPDENTRIES : nat := 1024.
Definition PTE_P : Z := 1.
Definition PTE_W : Z := 2.
Definition PTE_U : Z := 4.
Definition PTE_ADDR (pte : Z) : Z := Z.land pte (Z.lnot 4095).
Definition PTE_FLAGS (pte : Z) : Z := Z.land pte 4095.
Definition KSTACKSIZE : Z := 4096.

(** [pte & flag], as a condition. *)
Definition has (pte flag : Z) : bool := negb (Z.land pte flag =? 0).

Definition diverge {A} : KM A := λ _ s, Asleep s.
Definition load4 (a : Z) : KM Z := gets (λ s, ld4 (k_mem s) a).
Definition save4 (a v : Z) : KM unit := upd_mem (λ m, KString.store4 m a v).

(** ** The machine's page table *)

(** The page-table entry for [va], 0 when there is none. *)
Definition upte (s : kstate) (va : Z) : Z :=
  let pde := ld4 (k_mem s) (P2V (k_cr3 s) + 4 * PDX va) in
  if has pde PTE_P then ld4 (k_mem s) (P2V (PTE_ADDR pde) + 4 * PTX va) else 0.
Definition utrans (s : kstate) (va : Z) : Z := P2V (PTE_ADDR (upte s va)) + va `mod` PGSIZE.
(** A 32-bit load through it. *)
Definition vload4 (va : Z) : KM Z :=
  e <- gets (λ s, upte s va) ;;
  if has e PTE_P then gets (λ s, ld4 (k_mem s) (utrans s va)) else panic "trap".

(** Bytes stored from address [a] on. *)
Fixpoint store_bytes (m : mem) (a : Z) (l : list Z) : mem :=
  match l with
  | [] => m
  | b :: l => store_bytes (<[a := b]> m) (a + 1) l
  end.
Fixpoint load_bytes (m : mem) (a : Z) (n : nat) : list Z :=
  match n with
  | O => []
  | S n => m a :: load_bytes m (a + 1) n
  end.

Section vm.
Context (kend kdata : Z).

(** The address of the entry for [va], or 0. *)
Definition walkpgdir (pgdir va : Z) (alloc : bool) : KM Z :=
  let pde := pgdir + 4 * PDX va in
  e <- load4 pde ;;
  if has e PTE_P then ret (P2V (PTE_ADDR e) + 4 * PTX va)
  else if negb alloc then ret 0
  else
    pgtab <- kalloc ;;
    if pgtab =? 0 then ret 0
    else
      upd_mem (λ m, KString.memset m pgtab 0 PGSIZE) ;;
      save4 pde (Z.lor (Z.lor (Z.lor (V2P pgtab) PTE_P) PTE_W) PTE_U) ;;
      ret (pgtab + 4 * PTX va).

(** [n] counts the rounds left; the last one is the one with [a == last]. *)
Fixpoint mappages_from (n : nat) (pgdir a last pa perm : Z) : KM Z :=
  match n with
  | O => diverge
  | S n =>
      pte <- walkpgdir pgdir a true ;;
      if pte =? 0 then ret (-1) else
      e <- load4 pte ;;
      if has e PTE_P then panic "remap" else
      save4 pte (Z.lor (Z.lor pa perm) PTE_P) ;;
      if a =? last then ret 0
      else mappages_from n pgdir (u32 (a + PGSIZE)) last (u32 (pa + PGSIZE)) perm
  end.
Definition mappages (pgdir va size pa perm : Z) : KM Z :=
  let a := PGROUNDDOWN va in
  let last := PGROUNDDOWN (u32 (va + size - 1)) in
  mappages_from (S (Z.to_nat (u32 (last - a) / PGSIZE))) pgdir a last pa perm.

(** ** User memory *)

(** Frees the pages of [a .. oldsz); returns when it is done. *)
Fixpoint dealloc_from (n : nat) (pgdir a oldsz : Z) : KM unit :=
  if a <? oldsz then
    match n with
    | O => diverge
    | S n =>
        pte <- walkpgdir pgdir a false ;;
        if pte =? 0 then
          let a := u32 (PGADDR (PDX a + 1) 0 0 - PGSIZE) in
          dealloc_from n pgdir (u32 (a + PGSIZE)) oldsz
        else
          e <- load4 pte ;;
          when (has e PTE_P)
            (let pa := PTE_ADDR e in
             (if pa =? 0 then panic "kfree" else kfree kend (P2V pa)) ;;
             save4 pte 0) ;;
          dealloc_from n pgdir (u32 (a + PGSIZE)) oldsz
    end
  else ret tt.

Definition deallocuvm (pgdir oldsz newsz : Z) : KM Z :=
  if oldsz <=? newsz then ret oldsz else
  let a := PGROUNDUP newsz in
  dealloc_from (S (Z.to_nat ((oldsz - a) / PGSIZE))) pgdir a oldsz ;;
  ret newsz.

Definition freevm (pgdir : Z) : KM unit :=
  if pgdir =? 0 then panic "freevm: no pgdir" else
  deallocuvm pgdir KERNBASE 0 ;;
  foreach (λ i, e <- load4 (pgdir + 4 * Z.of_nat i) ;;
                when (has e PTE_P) (kfree kend (P2V (PTE_ADDR e)))) (seq 0 NPDENTRIES) ;;
  kfree kend pgdir.

Fixpoint alloc_from (n : nat) (pgdir a oldsz newsz : Z) : KM Z :=
  if a <? newsz then
    match n with
    | O => diverge
    | S n =>
        mem <- kalloc ;;
        if mem =? 0 then
          Cons.cprintf (String.append "allocuvm out of memory" nl) [] ;;
          deallocuvm pgdir newsz oldsz ;;
          ret 0
        else
          upd_mem (λ m, KString.memset m mem 0 PGSIZE) ;;
          r <- mappages pgdir a PGSIZE (V2P mem) (Z.lor PTE_W PTE_U) ;;
          if r <? 0 then
            Cons.cprintf (String.append "allocuvm out of memory (2)" nl) [] ;;
            deallocuvm pgdir newsz oldsz ;;
            kfree kend mem ;;
            ret 0
          else alloc_from n pgdir (u32 (a + PGSIZE)) oldsz newsz
    end
  else ret newsz.

Definition allocuvm (pgdir oldsz newsz : Z) : KM Z :=
  if KERNBASE <=? newsz then ret 0 else
  if newsz <? oldsz then ret oldsz else
  let a := PGROUNDUP oldsz in
  alloc_from (S (Z.to_nat ((newsz - a) / PGSIZE))) pgdir a oldsz newsz.

(** ** The kernel's mappings *)
Record kmap := KMap { km_virt : Z; km_start : Z; km_end : Z; km_perm : Z }.
Definition kmaps : list kmap :=
  [ KMap KERNBASE 0 EXTMEM PTE_W;
    KMap KERNLINK (V2P KERNLINK) (V2P kdata) 0;
    KMap kdata (V2P kdata) PHYSTOP PTE_W;
    KMap DEVSPACE DEVSPACE 0 PTE_W ].

Fixpoint setup_maps (pgdir : Z) (l : list kmap) : KM Z :=
  match l with
  | [] => ret pgdir
  | k :: l =>
      r <- mappages pgdir (km_virt k) (u32 (km_end k - km_start k)) (km_start k) (km_perm k) ;;
      if r <? 0 then freevm pgdir ;; ret 0 else setup_maps pgdir l
  end.

Definition setupkvm : KM Z :=
  pgdir <- kalloc ;;
  if pgdir =? 0 then ret 0 else
  upd_mem (λ m, KString.memset m pgdir 0 PGSIZE) ;;
  if DEVSPACE <? P2V PHYSTOP then panic "PHYSTOP too high" else
  setup_maps pgdir kmaps.

Definition switchkvm : KM unit := modify (λ s, s <| k_cr3 := V2P (k_kpgdir s) |>).

Definition kvmalloc : KM unit :=
  pgdir <- setupkvm ;;
  modify (λ s, s <| k_kpgdir := pgdir |>) ;;
  switchkvm.

Definition switchuvm (p : option nat) : KM unit :=
  match p with
  | None => panic "switchuvm: no process"
  | Some i =>
      p <- gets (λ s, get_proc s i) ;;
      if p_kstack p =? 0 then panic "switchuvm: no kstack" else
      if p_pgdir p =? 0 then panic "switchuvm: no pgdir" else
      modify (λ s, s <| k_esp0 := u32 (p_kstack p + KSTACKSIZE) |>) ;;
      modify (λ s, s <| k_cr3 := V2P (p_pgdir p) |>)
  end.

(** ** Building and copying address spaces *)
Definition inituvm (pgdir : Z) (init : list Z) (sz : Z) : KM unit :=
  if PGSIZE <=? sz then panic "inituvm: more than a page" else
  mem <- kalloc ;;
  upd_mem (λ m, KString.memset m mem 0 PGSIZE) ;;
  mappages pgdir 0 PGSIZE (V2P mem) (Z.lor PTE_W PTE_U) ;;
  upd_mem (λ m, store_bytes m mem (take (Z.to_nat sz) init)).

Fixpoint load_from `{Driver} `{Devsw} (n : nat) (pgdir addr : Z) (ip : nat) (offset sz i : Z) : KM Z :=
  if i <? sz then
    match n with
    | O => diverge
    | S n' =>
        pte <- walkpgdir pgdir (u32 (addr + i)) false ;;
        if pte =? 0 then panic "loaduvm: address should exist" else
        e <- load4 pte ;;
        let pa := PTE_ADDR e in
        let n := if sz - i <? PGSIZE then sz - i else PGSIZE in
        r <- readi ip (u32 (offset + i)) n ;;
        upd_mem (λ m, store_bytes m (P2V pa) r.2) ;;
        if negb (r.1 =? n) then ret (-1)
        else load_from n' pgdir addr ip offset sz (u32 (i + PGSIZE))
    end
  else ret 0.
Definition loaduvm `{Driver} `{Devsw} (pgdir addr : Z) (ip : nat) (offset sz : Z) : KM Z :=
  if negb (addr `mod` PGSIZE =? 0) then panic "loaduvm: addr must be page aligned" else
  load_from (S (Z.to_nat (sz / PGSIZE))) pgdir addr ip offset sz 0.

Definition clearpteu (pgdir uva : Z) : KM unit :=
  pte <- walkpgdir pgdir uva false ;;
  if pte =? 0 then panic "clearpteu" else
  e <- load4 pte ;;
  save4 pte (Z.land e (Z.lnot PTE_U)).

Fixpoint copy_from (n : nat) (d pgdir sz i : Z) : KM Z :=
  if i <? sz then
    match n with
    | O => diverge
    | S n =>
        pte <- walkpgdir pgdir i false ;;
        if pte =? 0 then panic "copyuvm: pte should exist" else
        e <- load4 pte ;;
        if negb (has e PTE_P) then panic "copyuvm: page not present" else
        let pa := PTE_ADDR e in
        let flags := PTE_FLAGS e in
        mem <- kalloc ;;
        if mem =? 0 then freevm d ;; ret 0 else
        upd_mem (λ m, KString.memmove m mem (P2V pa) PGSIZE) ;;
        r <- mappages d i PGSIZE (V2P mem) flags ;;
        if r <? 0 then kfree kend mem ;; freevm d ;; ret 0
        else copy_from n d pgdir sz (u32 (i + PGSIZE))
    end
  else ret d.
Definition copyuvm (pgdir sz : Z) : KM Z :=
  d <- setupkvm ;;
  if d =? 0 then ret 0 else
  copy_from (S (Z.to_nat (sz / PGSIZE))) d pgdir sz 0.

(** The entry is read without testing the pointer: when there is no page
    table, [*pte] is what the running process has at address 0. *)
Definition uva2ka (pgdir uva : Z) : KM Z :=
  pte <- walkpgdir pgdir uva false ;;
  e <- (if pte =? 0 then vload4 0 else load4 pte) ;;
  if negb (has e PTE_P) then ret 0 else
  if negb (has e PTE_U) then ret 0 else
  ret (P2V (PTE_ADDR e)).

(** Each round but the first starts at a page boundary. *)
Fixpoint copyout_from (n : nat) (pgdir va : Z) (buf : list Z) (len : Z) : KM Z :=
  if 0 <? len then
    match n with
    | O => diverge
    | S n' =>
        let va0 := PGROUNDDOWN va in
        pa0 <- uva2ka pgdir va0 ;;
        if pa0 =? 0 then ret (-1) else
        let n := PGSIZE - (va - va0) in
        let n := if len <? n then len else n in
        upd_mem (λ m, store_bytes m (pa0 + (va - va0)) (take (Z.to_nat n) buf)) ;;
        copyout_from n' pgdir (u32 (va0 + PGSIZE)) (drop (Z.to_nat n) buf) (len - n)
    end
  else ret 0.
Definition copyout (pgdir va : Z) (buf : list Z) (len : Z) : KM Z :=
  copyout_from (S (S (Z.to_nat (len / PGSIZE)))) pgdir va buf len.
End vm.
