(* ===== verification/Paging.v ===== *)
(** * Address spaces (vm.c)

    What the machine does with the page tables that vm.c builds: [entry] is
    the page-table entry the hardware finds for an address, [ubyte] the byte
    a user program reads there.  [tables_ok] says that a page directory and
    its page tables are distinct pages that are not free; [aspace_ok] that an
    address space of a given size has its user pages apart from those.

    The results: [mappages] enters exactly the mappings it is asked for, and
    [allocuvm] (the kernel's part of [sbrk]) extends an address space with
    zeroed memory and leaves what was there. *)
From S2P Require Import Prelude State Sync CString Print Kalloc Dll Bio Cache Log Fs Vm.

(** ** Bits of entries *)
Lemma land_disjoint p f : p `mod` PGSIZE = 0 → 0 ≤ f < PGSIZE → Z.land p f = 0.
Proof.
  intros Hp Hf. pose proof (Z.div_mod p PGSIZE ltac:(done)) as Ep. rewrite Hp in Ep. change PGSIZE with (2 ^ 12) in *.
  apply Z.bits_inj'. intros n Hn. rewrite Z.land_spec, Z.bits_0. destruct (decide (n < 12)) as [Hlt|Hge].
  - rewrite Ep, Z.add_0_r, Z.mul_comm, Z.mul_pow2_bits_low by lia. done.
  - rewrite <-(Z.mod_small f (2 ^ 12)) by lia. rewrite Z.mod_pow2_bits_high by lia. apply andb_false_r.
Qed.
Lemma lor_page p f : p `mod` PGSIZE = 0 → 0 ≤ f < PGSIZE → Z.lor p f = p + f.
Proof. intros Hp Hf. pose proof (Z.add_lor_land p f). rewrite (land_disjoint p f Hp Hf) in *. lia. Qed.
Lemma mod_page p f : p `mod` PGSIZE = 0 → 0 ≤ f < PGSIZE → (p + f) `mod` PGSIZE = f.
Proof. intros Hp Hf. rewrite Zplus_mod, Hp, Z.add_0_l, Zmod_mod. by apply Z.mod_small. Qed.
Lemma PTE_ADDR_page p f : p `mod` PGSIZE = 0 → 0 ≤ f < PGSIZE → PTE_ADDR (p + f) = p.
Proof. intros Hp Hf. unfold PTE_ADDR. change 4095 with (PGSIZE - 1). rewrite page_mask, mod_page by done. lia. Qed.
Lemma land_page p f k : p `mod` PGSIZE = 0 → 0 ≤ f < PGSIZE → 0 ≤ k < PGSIZE → Z.land (p + f) k = Z.land f k.
Proof.
  intros Hp Hf Hk. rewrite <-lor_page by done. rewrite Z.land_lor_distr_l, (land_disjoint p k) by done. done.
Qed.
Lemma has_page p f k : p `mod` PGSIZE = 0 → 0 ≤ f < PGSIZE → 0 ≤ k < PGSIZE → has (p + f) k = has f k.
Proof. intros. unfold has. by rewrite land_page. Qed.

Lemma PDX_eq va : is_u32 va → PDX va = va / 4194304 ∧ 0 ≤ PDX va < 1024.
Proof.
  intros Hva. unfold PDX. change 1023 with (Z.ones 10). rewrite Z.land_ones, Z.shiftr_div_pow2 by lia.
  change (2 ^ 22) with 4194304. change (2 ^ 10) with 1024. unfold is_u32 in Hva.
  assert (0 ≤ va / 4194304 < 1024) by (split; [apply Z.div_pos; lia|apply Z.div_lt_upper_bound; lia]).
  rewrite Z.mod_small by done. done.
Qed.
Lemma PTX_eq va : is_u32 va → PTX va = (va / 4096) `mod` 1024 ∧ 0 ≤ PTX va < 1024.
Proof.
  intros Hva. unfold PTX. change 1023 with (Z.ones 10). rewrite Z.land_ones, Z.shiftr_div_pow2 by lia.
  change (2 ^ 12) with 4096. change (2 ^ 10) with 1024. split; [done|]. apply Z.mod_pos_bound. lia.
Qed.
(** The two indices determine the page. *)
Lemma page_index va : is_u32 va → va / 4096 = 1024 * PDX va + PTX va.
Proof.
  intros Hva. rewrite (proj1 (PDX_eq va Hva)), (proj1 (PTX_eq va Hva)).
  pose proof (Z.div_mod (va / 4096) 1024 ltac:(lia)) as E. rewrite Z.div_div in E by lia. exact E.
Qed.
Lemma same_page va va' : is_u32 va → is_u32 va' → PDX va = PDX va' → PTX va = PTX va' → va / 4096 = va' / 4096.
Proof. intros H H' E1 E2. rewrite !page_index by done. congruence. Qed.

(** A page, as [kalloc] hands it out, and its physical address. *)
Lemma V2P_page kend v : page_ok kend v → V2P v = v - KERNBASE ∧ V2P v `mod` PGSIZE = 0 ∧ 0 ≤ V2P v < PHYSTOP ∧ P2V (V2P v) = v.
Proof.
  intros [Ha _ Ht]. unfold V2P, P2V. rewrite (u32_small (v - KERNBASE)) by (unfold is_u32, KERNBASE, PHYSTOP in *; lia).
  replace (v - KERNBASE + KERNBASE) with v by lia. rewrite u32_small by (unfold is_u32, KERNBASE, PHYSTOP in *; lia).
  split; [done|]. split; [|split; [lia|done]].
  change KERNBASE with (524288 * PGSIZE). rewrite Zminus_mod, Ha, Z_mod_mult. done.
Qed.

(** ** What the machine finds *)
Definition pde (m : mem) (pgdir i : Z) : Z := ld4 m (pgdir + 4 * i).
Definition present (m : mem) (pgdir i : Z) : bool := has (pde m pgdir i) PTE_P.
Definition table (m : mem) (pgdir i : Z) : Z := P2V (PTE_ADDR (pde m pgdir i)).
(** The entry for [va], 0 when there is no page table. *)
Definition entry (m : mem) (pgdir va : Z) : Z :=
  if present m pgdir (PDX va) then ld4 m (table m pgdir (PDX va) + 4 * PTX va) else 0.
Definition frame (e : Z) : Z := P2V (PTE_ADDR e).
(** What a user program reads at [va]; [None] is a page fault. *)
Definition ubyte (m : mem) (pgdir va : Z) : option Z :=
  let e := entry m pgdir va in
  if has e PTE_P && has e PTE_U then Some (m (frame e + va `mod` PGSIZE)) else None.

Section paging.
Context (kend : Z).
Notation page_ok := (page_ok kend).
Implicit Types (m : mem) (l : list Z).

Record tables_ok m (pgdir : Z) l : Prop := {
  tb_dir : page_ok pgdir;
  tb_dir_used : pgdir ∉ l;
  tb_table i : 0 ≤ i < 1024 → present m pgdir i = true →
    page_ok (table m pgdir i) ∧ table m pgdir i ∉ l ∧ table m pgdir i ≠ pgdir;
  tb_inj i j : 0 ≤ i < 1024 → 0 ≤ j < 1024 → present m pgdir i = true → present m pgdir j = true →
    table m pgdir i = table m pgdir j → i = j }.

(** A page that is neither free nor part of the page table. *)
Record plain m (pgdir : Z) l (v : Z) : Prop := {
  pl_page : page_ok v;
  pl_used : v ∉ l;
  pl_dir : v ≠ pgdir;
  pl_table i : 0 ≤ i < 1024 → present m pgdir i = true → table m pgdir i ≠ v }.

(** ** Memory that stays *)
Definition unchanged m m' (v : Z) : Prop := ∀ x, v ≤ x < v + PGSIZE → m' x = m x.

Lemma unchanged_refl m v : unchanged m m v.
Proof. done. Qed.
Lemma unchanged_trans m1 m2 m3 v : unchanged m1 m2 v → unchanged m2 m3 v → unchanged m1 m3 v.
Proof. intros H1 H2 x Hx. rewrite H2, H1 by done. done. Qed.
Lemma unchanged_ld4 m m' v k : unchanged m m' v → 0 ≤ k < 1024 → ld4 m' (v + 4 * k) = ld4 m (v + 4 * k).
Proof. intros H Hk. apply ld4_ext. intros x Hx. apply H. change PGSIZE with 4096. lia. Qed.
Lemma unchanged_memset m v c w : page_ok v → page_ok w → v ≠ w → unchanged m (KString.memset m v c PGSIZE) w.
Proof.
  intros Hv Hw Hne x Hx. rewrite memset_spec by done. area; [|done].
  destruct (pages_apart v w); [apply Hv|apply Hw|done|lia|lia].
Qed.
Lemma unchanged_store m v k e w : page_ok v → page_ok w → v ≠ w → 0 ≤ k < 1024 →
  unchanged m (KString.store4 m (v + 4 * k) e) w.
Proof.
  intros Hv Hw Hne Hk x Hx. apply store4_other.
  destruct (pages_apart v w); [apply Hv|apply Hw|done|change PGSIZE with 4096 in *; lia|change PGSIZE with 4096 in *; lia].
Qed.
Lemma ld4_store_ne m v k j e : k ≠ j → ld4 (KString.store4 m (v + 4 * k) e) (v + 4 * j) = ld4 m (v + 4 * j).
Proof. intros H. apply ld4_ext. intros x Hx. apply store4_other. lia. Qed.

Lemma free_list_mem s l m' fl : free_list kend s l → (∀ v, v ∈ l → unchanged (k_mem s) m' v) → fl = k_freelist s →
  free_list kend (s <| k_mem := m' |> <| k_freelist := fl |>) l.
Proof.
  intros [Fc Fn Fp] H ->. split; [|done|done]. cbn. eapply chain_ext; [|exact Fc].
  intros x y Hx Hy. symmetry. apply (H x Hx). change PGSIZE with 4096. lia.
Qed.

(** Same tables, same entries. *)
Lemma same_pdes m m' pgdir i : pde m' pgdir i = pde m pgdir i →
  present m' pgdir i = present m pgdir i ∧ table m' pgdir i = table m pgdir i.
Proof. intros E. unfold present, table. by rewrite E. Qed.
Lemma tables_frame m m' pgdir l : tables_ok m pgdir l → unchanged m m' pgdir →
  tables_ok m' pgdir l ∧ (∀ v, plain m pgdir l v → plain m' pgdir l v).
Proof.
  intros [T1 T2 T3 T4] H.
  assert (E : ∀ i, 0 ≤ i < 1024 → present m' pgdir i = present m pgdir i ∧ table m' pgdir i = table m pgdir i).
  { intros i Hi. by apply same_pdes, unchanged_ld4. }
  split.
  - split; [done|done|..].
    + intros i Hi. destruct (E i Hi) as [-> ->]. by apply T3.
    + intros i j Hi Hj. destruct (E i Hi) as [-> ->], (E j Hj) as [-> ->]. by apply T4.
  - intros v [P1 P2 P3 P4]. split; [done..|]. intros i Hi. destruct (E i Hi) as [-> ->]. by apply P4.
Qed.
Lemma entry_frame m m' pgdir va : is_u32 va → unchanged m m' pgdir →
  (present m pgdir (PDX va) = true → unchanged m m' (table m pgdir (PDX va))) → entry m' pgdir va = entry m pgdir va.
Proof.
  intros Hva H Ht. destruct (PDX_eq va Hva) as [_ Hd], (PTX_eq va Hva) as [_ Hx]. unfold entry.
  destruct (same_pdes m m' pgdir (PDX va)) as [-> ->]; [by apply unchanged_ld4|].
  destruct (present m pgdir (PDX va)); [|done]. apply unchanged_ld4; [by apply Ht|done].
Qed.

(** ** A new page table *)
Definition new_table m (pgdir i v : Z) : mem :=
  KString.store4 (KString.memset m v 0 PGSIZE) (pgdir + 4 * i) (Z.lor (Z.lor (Z.lor (V2P v) PTE_P) PTE_W) PTE_U).

Lemma new_pde_value v : page_ok v → Z.lor (Z.lor (Z.lor (V2P v) PTE_P) PTE_W) PTE_U = V2P v + 7 ∧
  is_u32 (V2P v + 7) ∧ has (V2P v + 7) PTE_P = true ∧ P2V (PTE_ADDR (V2P v + 7)) = v.
Proof.
  intros Hv. destruct (V2P_page kend v Hv) as (_ & Ha & Hr & E). rewrite <-!Z.lor_assoc.
  change (Z.lor PTE_P (Z.lor PTE_W PTE_U)) with 7. rewrite lor_page by (done || (change PGSIZE with 4096; lia)).
  split; [done|]. split; [unfold is_u32, PHYSTOP in *; lia|].
  rewrite has_page, PTE_ADDR_page by (done || (change PGSIZE with 4096; unfold PTE_P; lia)). done.
Qed.

Section new_table.
Context m pgdir i v l (Hi : 0 ≤ i < 1024) (Hv : page_ok v) (Hn : v ∉ l) (Hp : present m pgdir i = false).
Context (T : tables_ok m pgdir (v :: l)).
Notation m' := (new_table m pgdir i v).

Lemma new_table_dir_ne : v ≠ pgdir.
Proof. pose proof (tb_dir_used _ _ _ T) as H. apply not_elem_of_cons in H as [H _]. done. Qed.

Lemma new_table_pde j : 0 ≤ j < 1024 → pde m' pgdir j = if decide (j = i) then V2P v + 7 else pde m pgdir j.
Proof.
  intros Hj. destruct (new_pde_value v Hv) as (E & Hu & _). unfold pde, new_table. rewrite E.
  case_decide as H; [subst; by apply ld4_store4|]. rewrite ld4_store_ne by done.
  apply unchanged_ld4; [|done]. apply unchanged_memset; [done|apply T|apply new_table_dir_ne].
Qed.
Lemma new_table_here : present m' pgdir i = true ∧ table m' pgdir i = v.
Proof.
  destruct (new_pde_value v Hv) as (_ & _ & H1 & H2). unfold present, table. rewrite new_table_pde by done.
  by rewrite decide_True by done.
Qed.
Lemma new_table_there j : 0 ≤ j < 1024 → j ≠ i →
  present m' pgdir j = present m pgdir j ∧ table m' pgdir j = table m pgdir j.
Proof. intros Hj Hne. apply same_pdes. rewrite new_table_pde by done. by rewrite decide_False by done. Qed.

Lemma new_table_unchanged w : page_ok w → w ≠ v → w ≠ pgdir → unchanged m m' w.
Proof.
  intros Hw H1 H2. eapply unchanged_trans; [by apply (unchanged_memset m v 0)|].
  apply unchanged_store; [apply T|done|done|done].
Qed.

Lemma new_table_entry va : is_u32 va → entry m' pgdir va = entry m pgdir va.
Proof.
  intros Hva. destruct (PDX_eq va Hva) as [_ Hd], (PTX_eq va Hva) as [_ Hx].
  destruct (decide (PDX va = i)) as [E|E]; unfold entry.
  - rewrite E, Hp. destruct new_table_here as [-> ->]. unfold ld4, new_table.
    rewrite !store4_other, !memset_spec; try done; cycle -4.
    1-4: destruct (pages_apart v pgdir); [apply Hv|apply T|apply new_table_dir_ne|..];
        change PGSIZE with 4096 in *; lia.
    area; try done; change PGSIZE with 4096 in *; lia.
  - destruct (new_table_there (PDX va) Hd E) as [-> ->]. destruct (present m pgdir (PDX va)) eqn:P; [|done].
    destruct (tb_table _ _ _ T _ Hd P) as (Q1 & Q2 & Q3). apply not_elem_of_cons in Q2 as [Q2 _].
    apply unchanged_ld4; [|done]. by apply new_table_unchanged.
Qed.

Lemma new_table_ok : tables_ok m' pgdir l.
Proof.
  destruct new_table_here as [N1 N2]. pose proof new_table_dir_ne as Nd. destruct T as [T1 T2 T3 T4].
  apply not_elem_of_cons in T2 as [_ T2].
  assert (E : ∀ j, 0 ≤ j < 1024 → j ≠ i → present m' pgdir j = true → table m' pgdir j = table m pgdir j ∧
    present m pgdir j = true ∧ page_ok (table m pgdir j) ∧ table m pgdir j ∉ v :: l ∧ table m pgdir j ≠ pgdir).
  { intros j Hj Hne. destruct (new_table_there j Hj Hne) as [-> ->]. intros P. split; [done|]. split; [done|]. by apply T3. }
  split; [done|done|..].
  - intros j Hj P. destruct (decide (j = i)) as [->|Hne]; [by rewrite N2|].
    destruct (E j Hj Hne P) as (-> & _ & Q1 & Q2 & Q3). apply not_elem_of_cons in Q2 as [_ Q2]. done.
  - intros j k Hj Hk Pj Pk. destruct (decide (j = i)) as [->|Nj], (decide (k = i)) as [->|Nk]; [done|..].
    + destruct (E k Hk Nk Pk) as (-> & _ & _ & Q & _). rewrite N2. intros ->. apply not_elem_of_cons in Q as [Q _]. done.
    + destruct (E j Hj Nj Pj) as (-> & _ & _ & Q & _). rewrite N2. intros <-. apply not_elem_of_cons in Q as [Q _]. done.
    + destruct (E j Hj Nj Pj) as (-> & Oj & _), (E k Hk Nk Pk) as (-> & Ok & _). by apply T4.
Qed.

Lemma new_table_plain w : plain m pgdir (v :: l) w → plain m' pgdir l w ∧ unchanged m m' w.
Proof.
  intros [P1 P2 P3 P4]. apply not_elem_of_cons in P2 as [P2 P2']. split; [|by apply new_table_unchanged].
  split; [done..|]. intros j Hj. destruct (decide (j = i)) as [->|Hne].
  - intros _. destruct new_table_here as [_ ->]. congruence.
  - destruct (new_table_there j Hj Hne) as [-> ->]. by apply P4.
Qed.
End new_table.

(** ** Steps that use up free pages *)

(** From [s] with free pages [l] to [s'] with [l']: at most [n] pages are
    taken, and pages outside of the page table keep their contents. *)
Record uses (pgdir : Z) (n : nat) (s : kstate) l (s' : kstate) l' : Prop := {
  us_state : s' = s <| k_mem := k_mem s' |> <| k_freelist := k_freelist s' |>;
  us_free : free_list kend s' l';
  us_taken : ∃ t, l = t ++ l' ∧ (length t ≤ n)%nat;
  us_tables : tables_ok (k_mem s') pgdir l';
  us_plain v : plain (k_mem s) pgdir l v → plain (k_mem s') pgdir l' v ∧ unchanged (k_mem s) (k_mem s') v }.

Lemma uses_refl pgdir n s l : free_list kend s l → tables_ok (k_mem s) pgdir l → uses pgdir n s l s l.
Proof. intros F T. split; [by destruct s|done|by exists []; split; [|simpl; lia]|done|done]. Qed.
Lemma uses_trans pgdir n n' s l s' l' s'' l'' : uses pgdir n s l s' l' → uses pgdir n' s' l' s'' l'' →
  uses pgdir (n + n') s l s'' l''.
Proof.
  intros [A1 A2 (t & -> & A3) A4 A5] [B1 B2 (t' & -> & B3) B4 B5]. split; [|done| |done|].
  - rewrite B1, A1. done.
  - exists (t ++ t'). rewrite <-app_assoc, length_app. split; [done|lia].
  - intros v Hv. destruct (A5 v Hv) as [P U]. destruct (B5 v P) as [P' U']. split; [done|]. by eapply unchanged_trans.
Qed.
Lemma uses_weaken pgdir n n' s l s' l' : uses pgdir n s l s' l' → (n ≤ n')%nat → uses pgdir n' s l s' l'.
Proof. intros [A1 A2 (t & A3 & A3') A4 A5] H. split; [done|done| |done|done]. exists t. split; [done|lia]. Qed.
Lemma uses_locks pgdir n s l s' l' : uses pgdir n s l s' l' → k_locks s' = k_locks s.
Proof. intros [-> _ _ _ _]. done. Qed.
Lemma uses_length pgdir n s l s' l' : uses pgdir n s l s' l' → (length l ≤ n + length l')%nat.
Proof. intros [_ _ (t & -> & H) _ _]. rewrite length_app. lia. Qed.

(** ** walkpgdir *)
Lemma load4_run a env s : load4 a env s = Done (ld4 (k_mem s) a) s env.
Proof. done. Qed.

(** The pages it takes to have page table [i]. *)
Definition cost m (pgdir i : Z) : nat := if present m pgdir i then 0 else 1.
Lemma cost_le m pgdir i : (cost m pgdir i ≤ 1)%nat.
Proof. unfold cost. destruct (present m pgdir i); lia. Qed.

Lemma walkpgdir_alloc pgdir va env s l :
  is_u32 va → LkKmem ∉ k_locks s → free_list kend s l → tables_ok (k_mem s) pgdir l →
  (cost (k_mem s) pgdir (PDX va) ≤ length l)%nat →
  ∃ s' l', walkpgdir pgdir va true env s = Done (table (k_mem s') pgdir (PDX va) + 4 * PTX va) s' env ∧
    uses pgdir (cost (k_mem s) pgdir (PDX va)) s l s' l' ∧ present (k_mem s') pgdir (PDX va) = true ∧
    ∀ va', is_u32 va' → entry (k_mem s') pgdir va' = entry (k_mem s) pgdir va'.
Proof.
  unfold cost. intros Hva Hl F T Hne. destruct (PDX_eq va Hva) as [_ Hd]. unfold walkpgdir.
  erewrite bind_done by apply load4_run. fold (pde (k_mem s) pgdir (PDX va)).
  fold (present (k_mem s) pgdir (PDX va)). destruct (present (k_mem s) pgdir (PDX va)) eqn:P.
  - exists s, l. split; [done|]. split; [by apply uses_refl|]. done.
  - cbn [negb]. destruct l as [|v l]; [simpl in Hne; lia|]. destruct (kalloc_spec kend env s (v :: l) Hl F) as (s1 & E1 & Es & F1).
    erewrite bind_done by exact E1. clear E1. destruct F as [_ Fn Fp]. apply NoDup_cons in Fn as [Fn _].
    apply Forall_cons in Fp as [Hv _]. rewrite (proj2 (Z.eqb_neq _ _)) by apply (page_nonzero kend v Hv).
    unfold save4, upd_mem. rewrite !bind_modify. unfold ret.
    assert (Em : k_mem s1 = k_mem s) by (by rewrite Es). pose proof Hv as [Hal _ _].
    exists (s <| k_mem := new_table (k_mem s) pgdir (PDX va) v |> <| k_freelist := k_freelist s1 |>), l.
    change (k_mem (_ <| k_freelist := _ |>)) with (new_table (k_mem s) pgdir (PDX va) v).
    destruct (new_table_here (k_mem s) pgdir (PDX va) v l) as [N1 N2]; [done..|]. rewrite N2.
    split; [f_equal; rewrite Es; kext|].
    split; [|split].
    + split.
      * done.
      * replace (s <| k_mem := _ |> <| k_freelist := _ |>)
          with (s1 <| k_mem := new_table (k_mem s) pgdir (PDX va) v |> <| k_freelist := k_freelist s1 |>)
          by (rewrite Es; kext).
        apply free_list_mem; [done| |done]. intros w Hw. rewrite Em. apply (new_table_unchanged (k_mem s) pgdir (PDX va) v l); try done.
        -- destruct F1 as [_ _ Fp]. rewrite Forall_forall in Fp. by apply Fp.
        -- by intros ->.
        -- intros ->. apply (tb_dir_used _ _ _ T). by right.
      * by exists [v].
      * by apply new_table_ok.
      * intros w. by apply new_table_plain.
    + exact N1.
    + intros va' Hva'. by apply (new_table_entry (k_mem s) pgdir (PDX va) v l).
Qed.

(** ** mappages *)
Definition set_entry m (pgdir va e : Z) : mem := KString.store4 m (table m pgdir (PDX va) + 4 * PTX va) e.

Lemma set_entry_uses pgdir va e s l (m' := set_entry (k_mem s) pgdir va e) :
  is_u32 va → free_list kend s l → tables_ok (k_mem s) pgdir l → present (k_mem s) pgdir (PDX va) = true →
  uses pgdir 0 s l (s <| k_mem := m' |>) l.
Proof.
  intros Hva F T P. destruct (PDX_eq va Hva) as [_ Hd], (PTX_eq va Hva) as [_ Hx].
  destruct (tb_table _ _ _ T _ Hd P) as (Q1 & Q2 & Q3).
  assert (U : ∀ w, page_ok w → table (k_mem s) pgdir (PDX va) ≠ w → unchanged (k_mem s) m' w).
  { intros w Hw Hne. by apply unchanged_store. }
  destruct (tables_frame (k_mem s) m' pgdir l T) as [T' Pl]; [apply U; [apply T|done]|].
  split; [kext| |by exists []|done|].
  - replace (s <| k_mem := m' |>) with (s <| k_mem := m' |> <| k_freelist := k_freelist s |>) by kext.
    apply free_list_mem; [done| |done]. intros w Hw. apply U; [|intros E; apply Q2; by rewrite E].
    destruct F as [_ _ Fp]. rewrite Forall_forall in Fp. by apply Fp.
  - intros w Hw. split; [by apply Pl|]. apply U; [apply Hw|]. by apply (pl_table _ _ _ _ Hw).
Qed.

Lemma set_entry_entry m pgdir va e l va' : is_u32 va → is_u32 va' → is_u32 e → tables_ok m pgdir l →
  present m pgdir (PDX va) = true →
  entry (set_entry m pgdir va e) pgdir va' = if decide (va' / PGSIZE = va / PGSIZE) then e else entry m pgdir va'.
Proof.
  intros Hva Hva' He T P. destruct (PDX_eq va Hva) as [_ Hd], (PTX_eq va Hva) as [_ Hx].
  destruct (PDX_eq va' Hva') as [_ Hd'], (PTX_eq va' Hva') as [_ Hx'].
  destruct (tb_table _ _ _ T _ Hd P) as (Q1 & Q2 & Q3).
  assert (U : unchanged m (set_entry m pgdir va e) pgdir) by (apply unchanged_store; [done|apply T|done|done]).
  destruct (same_pdes m (set_entry m pgdir va e) pgdir (PDX va')) as [Ep Et]; [by apply unchanged_ld4|].
  pose proof (page_index va Hva) as I. pose proof (page_index va' Hva') as I'.
  change PGSIZE with 4096. unfold entry. rewrite Ep, Et. case_decide as E.
  - assert (PDX va' = PDX va ∧ PTX va' = PTX va) as [-> ->] by lia. rewrite P. unfold set_entry. by apply ld4_store4.
  - destruct (present m pgdir (PDX va')) eqn:P'; [|done]. unfold set_entry.
    destruct (decide (PDX va' = PDX va)) as [Ed|Nd].
    + rewrite Ed. apply ld4_store_ne. intros Ex. apply E. by rewrite I, I', Ed, Ex.
    + apply unchanged_ld4; [|done]. destruct (tb_table _ _ _ T _ Hd' P') as (R1 & _ & _).
      apply unchanged_store; [done|done| |done]. intros Eq. apply Nd. by apply (tb_inj _ _ _ T).
Qed.

(** The entries after [n] pages from [a] on have been mapped to [pa]. *)
Definition maps m m' (pgdir a : Z) (n : nat) (pa f : Z) : Prop :=
  ∀ va, is_u32 va → entry m' pgdir va =
    if in_area a (PGSIZE * Z.of_nat n) va then pa + (va - va `mod` PGSIZE - a) + f else entry m pgdir va.

Section mapping.
Context (pgdir perm f : Z) (Hf : Z.lor perm PTE_P = f) (Hfr : 0 ≤ f < PGSIZE).

(** One round. *)
Lemma map_page a pa k last env s l :
  a `mod` PGSIZE = 0 → 0 ≤ a → a + PGSIZE ≤ 4294967296 →
  pa `mod` PGSIZE = 0 → 0 ≤ pa → pa + PGSIZE ≤ 4294967296 →
  LkKmem ∉ k_locks s → free_list kend s l → tables_ok (k_mem s) pgdir l →
  (cost (k_mem s) pgdir (PDX a) ≤ length l)%nat → has (entry (k_mem s) pgdir a) PTE_P = false →
  ∃ s' l', mappages_from (S k) pgdir a last pa perm env s =
      (if a =? last then ret 0 else mappages_from k pgdir (u32 (a + PGSIZE)) last (u32 (pa + PGSIZE)) perm) env s' ∧
    uses pgdir (cost (k_mem s) pgdir (PDX a)) s l s' l' ∧ present (k_mem s') pgdir (PDX a) = true ∧
    maps (k_mem s) (k_mem s') pgdir a 1 pa f.
Proof.
  intros Ha H0 H1 Hp Hp0 Hp1 Hl F T Hne Hno. assert (Hva : is_u32 a) by (unfold is_u32; change PGSIZE with 4096 in *; lia).
  destruct (walkpgdir_alloc pgdir a env s l) as (s1 & l1 & E1 & U1 & P1 & N1); [done..|].
  destruct (PDX_eq a Hva) as [_ Hd], (PTX_eq a Hva) as [_ Hx]. pose proof (us_tables _ _ _ _ _ _ U1) as T1.
  destruct (tb_table _ _ _ T1 _ Hd P1) as (Q1 & _ & _).
  cbn [mappages_from]. erewrite bind_done by exact E1.
  rewrite (proj2 (Z.eqb_neq _ _)) by (destruct Q1; unfold KERNBASE in *; lia).
  erewrite bind_done by apply load4_run.
  assert (E2 : ld4 (k_mem s1) (table (k_mem s1) pgdir (PDX a) + 4 * PTX a) = entry (k_mem s1) pgdir a).
  { unfold entry. by rewrite P1. }
  rewrite E2, N1, Hno by done. unfold save4, upd_mem. rewrite bind_modify.
  rewrite <-Z.lor_assoc, Hf, lor_page by done. set (s2 := s1 <| k_mem ::= _ |>).
  assert (Es2 : s2 = s1 <| k_mem := set_entry (k_mem s1) pgdir a (pa + f) |>) by kext.
  exists s2, l1. split; [done|]. split; [|split].
  - rewrite Es2. apply (uses_weaken _ (cost (k_mem s) pgdir (PDX a) + 0)); [|lia]. apply (uses_trans pgdir _ 0 _ _ s1 l1); [done|].
    apply set_entry_uses; [done|apply U1|done|done].
  - rewrite Es2, <-P1. apply same_pdes, unchanged_ld4; [|done].
    apply unchanged_store; [done|apply T1|by apply (tb_table _ _ _ T1)|done].
  - intros va Hv. rewrite Es2. change (k_mem (_ <| k_mem := ?x |>)) with x.
    rewrite (set_entry_entry _ _ _ _ l1); [|done|done|unfold is_u32; lia|done|done].
    pose proof (Z.div_mod va PGSIZE ltac:(done)) as D1. pose proof (Z.div_mod a PGSIZE ltac:(done)) as D2.
    pose proof (Z.mod_pos_bound va PGSIZE ltac:(done)). rewrite Ha in D2.
    change PGSIZE with 4096 in *. case_decide as E; area; [lia| |lia|by apply N1].
    exfalso. lia.
Qed.

(** The pages needed at most for the page tables of a range. *)
Definition tables_for m (a last : Z) : nat := cost m pgdir (PDX a) + Z.to_nat (PDX last - PDX a).

Lemma tables_for_one m a : (tables_for m a a ≤ 1)%nat.
Proof. unfold tables_for. pose proof (cost_le m pgdir (PDX a)). lia. Qed.
Lemma tables_for_next m m' a last : is_u32 (a + PGSIZE) → is_u32 last → 0 ≤ a → a + PGSIZE ≤ last → present m' pgdir (PDX a) = true →
  (cost m pgdir (PDX a) + tables_for m' (a + PGSIZE) last ≤ tables_for m a last)%nat.
Proof.
  intros H1 H2 H0 Hl Hp. unfold tables_for. change PGSIZE with 4096 in *. unfold is_u32 in *.
  assert (PDX a ≤ PDX (a + 4096) ≤ PDX a + 1 ∧ PDX (a + 4096) ≤ PDX last) as [Hd Hd'].
  { rewrite (proj1 (PDX_eq a ltac:(unfold is_u32; lia))), (proj1 (PDX_eq (a + 4096) H1)), (proj1 (PDX_eq last H2)).
    Z.to_euclidean_division_equations. lia. }
  destruct (decide (PDX (a + 4096) = PDX a)) as [E|E].
  - assert (cost m' pgdir (PDX (a + 4096)) = 0%nat) by (unfold cost; by rewrite E, Hp). lia.
  - pose proof (cost_le m' pgdir (PDX (a + 4096))). lia.
Qed.

Lemma mappages_from_ok n : ∀ a pa env s l,
  a `mod` PGSIZE = 0 → 0 ≤ a → a + PGSIZE * Z.of_nat (S n) ≤ 4294967296 →
  pa `mod` PGSIZE = 0 → 0 ≤ pa → pa + PGSIZE * Z.of_nat (S n) ≤ 4294967296 →
  LkKmem ∉ k_locks s → free_list kend s l → tables_ok (k_mem s) pgdir l →
  (tables_for (k_mem s) a (a + PGSIZE * Z.of_nat n) ≤ length l)%nat →
  (∀ va, a ≤ va < a + PGSIZE * Z.of_nat (S n) → has (entry (k_mem s) pgdir va) PTE_P = false) →
  ∃ s' l', mappages_from (S n) pgdir a (a + PGSIZE * Z.of_nat n) pa perm env s = Done 0 s' env ∧
    uses pgdir (tables_for (k_mem s) a (a + PGSIZE * Z.of_nat n)) s l s' l' ∧ maps (k_mem s) (k_mem s') pgdir a (S n) pa f.
Proof.
  induction n as [|n IH]; intros a pa env s l Ha H0 H1 Hp Hp0 Hp1 Hl F T Hlen Hno.
  all: assert (P4 : PGSIZE = 4096) by done.
  - destruct (map_page a pa 0 (a + PGSIZE * Z.of_nat 0) env s l) as (s' & l' & E & U & _ & M);
      [try done; lia..|unfold tables_for in Hlen; lia|apply Hno; lia|].
    exists s', l'. rewrite E. rewrite (proj2 (Z.eqb_eq _ _)) by lia. split; [done|]. split; [|done].
    eapply uses_weaken; [done|]. unfold tables_for. lia.
  - pose proof (tables_for_next (k_mem s)) as Hnext. unfold is_u32 in Hnext.
    destruct (map_page a pa (S n) (a + PGSIZE * Z.of_nat (S n)) env s l) as (s1 & l1 & E & U & P1 & M);
      [try done; lia..|unfold tables_for in Hlen; lia|apply Hno; lia|].
    rewrite E, (proj2 (Z.eqb_neq _ _)) by lia. rewrite !u32_small by (unfold is_u32; lia). clear E.
    replace (a + PGSIZE * Z.of_nat (S n)) with (a + PGSIZE + PGSIZE * Z.of_nat n) in * by lia.
    specialize (Hnext (k_mem s1) a (a + PGSIZE + PGSIZE * Z.of_nat n) ltac:(lia) ltac:(lia) H0 ltac:(lia) P1).
    pose proof (uses_length _ _ _ _ _ _ U).
    destruct (IH (a + PGSIZE) (pa + PGSIZE) env s1 l1) as (s' & l' & E & U' & M'); try lia.
    + by rewrite Zplus_mod, Ha.
    + by rewrite Zplus_mod, Hp.
    + by rewrite (uses_locks _ _ _ _ _ _ U).
    + apply U.
    + apply U.
    + intros va Hva. rewrite M by (unfold is_u32; lia). area; [lia|]. apply Hno. lia.
    + exists s', l'. split; [done|]. split; [eapply uses_weaken; [by eapply uses_trans|lia]|].
      intros va Hva. rewrite M', M by done. area; try done; lia.
Qed.

Lemma mappages_ok va size pa env s l (a := PGROUNDDOWN va)
    (n := S (Z.to_nat ((PGROUNDDOWN (va + size - 1) - a) / PGSIZE))) :
  0 ≤ va → 0 < size → va + size ≤ 4294967296 →
  pa `mod` PGSIZE = 0 → 0 ≤ pa → pa + PGSIZE * Z.of_nat n ≤ 4294967296 →
  LkKmem ∉ k_locks s → free_list kend s l → tables_ok (k_mem s) pgdir l →
  (tables_for (k_mem s) a (PGROUNDDOWN (va + size - 1)) ≤ length l)%nat →
  (∀ x, a ≤ x < a + PGSIZE * Z.of_nat n → has (entry (k_mem s) pgdir x) PTE_P = false) →
  ∃ s' l', mappages pgdir va size pa perm env s = Done 0 s' env ∧
    uses pgdir (tables_for (k_mem s) a (PGROUNDDOWN (va + size - 1))) s l s' l' ∧ maps (k_mem s) (k_mem s') pgdir a n pa f.
Proof.
  intros H0 Hs H1 Hp Hp0 Hp1 Hl F T Hlen Hno. unfold mappages. fold a.
  rewrite (u32_small (va + size - 1)) by (unfold is_u32; lia). set (last := PGROUNDDOWN (va + size - 1)) in *.
  pose proof (PGROUNDDOWN_eq va) as Ea. fold a in Ea. pose proof (PGROUNDDOWN_eq (va + size - 1)) as El. fold last in El.
  assert (P4 : PGSIZE = 4096) by done.
  assert (last = a + PGSIZE * ((last - a) / PGSIZE) ∧ 0 ≤ last - a < 4294967296 ∧ a `mod` PGSIZE = 0 ∧ 0 ≤ a ∧
    last + PGSIZE ≤ 4294967296) as (E & Hr & Ha & Ha0 & Hl1).
  { clearbody a last. subst a last. clear -H0 Hs H1. change PGSIZE with 4096.
    Z.to_euclidean_division_equations. lia. }
  rewrite (u32_small (last - a)) by exact Hr.
  assert (Hn : Z.of_nat n = (last - a) / PGSIZE + 1).
  { unfold n. rewrite Nat2Z.inj_succ, Z2Nat.id; [done|]. apply Z.div_pos; lia. }
  destruct (mappages_from_ok (Z.to_nat ((last - a) / PGSIZE)) a pa env s l) as (s' & l' & R & U & M); try done.
  - fold n. lia.
  - rewrite Z2Nat.id, <-E by (apply Z.div_pos; lia). done.
  - rewrite Z2Nat.id, <-E in R, U by (apply Z.div_pos; lia). by exists s', l'.
Qed.
End mapping.

(** ** User memory *)

(** An address space: the page table, and user pages below [top], each with
    a page of its own. *)
Record aspace (s : kstate) (pgdir : Z) l (top : Z) : Prop := {
  as_locks : LkKmem ∉ k_locks s;
  as_free : free_list kend s l;
  as_tables : tables_ok (k_mem s) pgdir l;
  as_user va : 0 ≤ va < KERNBASE → has (entry (k_mem s) pgdir va) PTE_P = true →
    plain (k_mem s) pgdir l (frame (entry (k_mem s) pgdir va));
  as_inj va va' : 0 ≤ va < KERNBASE → 0 ≤ va' < KERNBASE →
    has (entry (k_mem s) pgdir va) PTE_P = true → has (entry (k_mem s) pgdir va') PTE_P = true →
    frame (entry (k_mem s) pgdir va) = frame (entry (k_mem s) pgdir va') → va / PGSIZE = va' / PGSIZE;
  as_top va : top ≤ va < KERNBASE → has (entry (k_mem s) pgdir va) PTE_P = false }.

(** What user and kernel see: the bytes of user memory and the kernel's part
    of the page table. *)
Definition extended m m' (pgdir a b : Z) : Prop :=
  (∀ va, 0 ≤ va < KERNBASE → ubyte m' pgdir va = if in_area a (b - a) va then Some 0 else ubyte m pgdir va) ∧
  (∀ va, KERNBASE ≤ va < 4294967296 → entry m' pgdir va = entry m pgdir va).
Lemma extended_refl m pgdir a : extended m m pgdir a a.
Proof. split; [|done]. intros va _. area; [lia|done]. Qed.
Lemma extended_trans m m' m'' pgdir a b c : a ≤ b → b ≤ c →
  extended m m' pgdir a b → extended m' m'' pgdir b c → extended m m'' pgdir a c.
Proof.
  intros Hab Hbc [A1 A2] [B1 B2]. split; [|by intros; rewrite B2, A2 by done].
  intros va Hva. rewrite B1, A1 by done. area; try done; lia.
Qed.

Lemma tables_sub m pgdir v l : tables_ok m pgdir (v :: l) → tables_ok m pgdir l.
Proof.
  intros [T1 T2 T3 T4]. apply not_elem_of_cons in T2 as [_ T2]. split; [done|done| |done].
  intros i Hi P. destruct (T3 i Hi P) as (Q1 & Q2 & Q3). by apply not_elem_of_cons in Q2 as [_ Q2].
Qed.
Lemma plain_sub m pgdir v l w : plain m pgdir (v :: l) w → plain m pgdir l w ∧ w ≠ v.
Proof. intros [P1 P2 P3 P4]. apply not_elem_of_cons in P2 as [P2 P2']. by split. Qed.

(** A page of the free list, filled. *)
Lemma filled_page env s pgdir v l (fill : mem → mem) : free_list kend s (v :: l) → LkKmem ∉ k_locks s →
  tables_ok (k_mem s) pgdir (v :: l) → (∀ w, page_ok w → w ≠ v → unchanged (k_mem s) (fill (k_mem s)) w) →
  ∃ s1, kalloc env s = Done v s1 env ∧
    let s' := s1 <| k_mem ::= fill |> in
    uses pgdir 1 s (v :: l) s' l ∧ plain (k_mem s') pgdir l v ∧ k_mem s' = fill (k_mem s) ∧
    ∀ va, is_u32 va → entry (k_mem s') pgdir va = entry (k_mem s) pgdir va.
Proof.
  intros F Hl T U. destruct (kalloc_spec kend env s (v :: l) Hl F) as (s1 & E1 & Es & F1). exists s1. split; [done|].
  intros s'. assert (Em : k_mem s' = fill (k_mem s)) by (unfold s'; by rewrite Es).
  assert (Es' : s' = s <| k_mem := k_mem s' |> <| k_freelist := k_freelist s' |>) by (unfold s'; rewrite Es; kext).
  assert (Es1 : s' = s1 <| k_mem := k_mem s' |> <| k_freelist := k_freelist s1 |>) by kext.
  clearbody s'. rewrite <-Em in U.
  destruct F as [_ Fn Fp]. apply NoDup_cons in Fn as [Fn _]. apply Forall_cons in Fp as [Hv Fp].
  rewrite Forall_forall in Fp. pose proof (tb_dir_used _ _ _ T) as Hd. apply not_elem_of_cons in Hd as [Hd Hd'].
  assert (Ht : ∀ i, 0 ≤ i < 1024 → present (k_mem s) pgdir i = true → table (k_mem s) pgdir i ≠ v ∧ page_ok (table (k_mem s) pgdir i)).
  { intros i Hi P. destruct (tb_table _ _ _ T i Hi P) as (Q1 & Q2 & _). by apply not_elem_of_cons in Q2 as [Q2 _]. }
  assert (Ud : unchanged (k_mem s) (k_mem s') pgdir) by (apply U; [apply T|done]).
  destruct (tables_frame _ _ _ _ (tables_sub _ _ _ _ T) Ud) as [T' Pl].
  split; [split|split; [|split; [done|]]].
  - done.
  - rewrite Es1. apply free_list_mem; [done| |done]. intros w Hw. replace (k_mem s1) with (k_mem s) by (by rewrite Es).
    apply U; [by apply Fp|]. by intros ->.
  - by exists [v].
  - done.
  - intros w Hw. apply plain_sub in Hw as [Hw Hne]. split; [by apply Pl|]. apply U; [apply Hw|done].
  - apply Pl. split; [done..|congruence|]. intros i Hi P. by apply Ht.
  - intros va Hva. apply entry_frame; [done|done|]. intros P.
    destruct (Ht _ (proj2 (PDX_eq va Hva)) P) as [Q1 Q2]. by apply U.
Qed.

Lemma one_page a : a `mod` PGSIZE = 0 → PGROUNDDOWN a = a ∧ PGROUNDDOWN (a + PGSIZE - 1) = a.
Proof.
  intros Ha. rewrite !PGROUNDDOWN_eq. replace (a + PGSIZE - 1) with (a + (PGSIZE - 1)) by lia.
  rewrite mod_page by done. lia.
Qed.
Lemma page_of a va : a `mod` PGSIZE = 0 → a ≤ va < a + PGSIZE → va - va `mod` PGSIZE = a ∧ va / PGSIZE = a / PGSIZE.
Proof. intros Ha Hva. change PGSIZE with 4096 in *. Z.to_euclidean_division_equations. lia. Qed.

(** The page at [a] added to an address space that ends there. *)
Lemma aspace_add s pgdir l a s' l' v n f :
  aspace s pgdir l a → a `mod` PGSIZE = 0 → 0 ≤ a → a + PGSIZE ≤ KERNBASE → v ∈ l → uses pgdir n s l s' l' →
  plain (k_mem s') pgdir l' v → 0 ≤ f < PGSIZE → has f PTE_P = true → maps (k_mem s) (k_mem s') pgdir a 1 (V2P v) f →
  aspace s' pgdir l' (a + PGSIZE) ∧ frame (V2P v + f) = v ∧ ∀ va, is_u32 va →
    entry (k_mem s') pgdir va = if in_area a PGSIZE va then V2P v + f else entry (k_mem s) pgdir va.
Proof.
  intros [A1 A2 A3 A4 A5 A6] Ha H0 H1 Hin U Pv Hf Hpr M. assert (P4 : PGSIZE = 4096) by done. assert (K4 : KERNBASE = 2147483648) by done.
  destruct (V2P_page kend v (pl_page _ _ _ _ Pv)) as (_ & Va & _ & Vv).
  assert (Hfr : frame (V2P v + f) = v) by (unfold frame; by rewrite PTE_ADDR_page).
  assert (Hp' : has (V2P v + f) PTE_P = true) by (by rewrite has_page).
  assert (M1 : ∀ va, 0 ≤ va < 4294967296 → a ≤ va < a + PGSIZE → entry (k_mem s') pgdir va = V2P v + f).
  { intros va Hva Hr. rewrite M by done. area; [|lia]. destruct (page_of a va Ha Hr). lia. }
  assert (M2 : ∀ va, 0 ≤ va < 4294967296 → ¬ a ≤ va < a + PGSIZE → entry (k_mem s') pgdir va = entry (k_mem s) pgdir va).
  { intros va Hva Hr. rewrite M by done. area; [lia|done]. }
  clear M. split; [split|split; [done|]].
  - by rewrite (uses_locks _ _ _ _ _ _ U).
  - apply U.
  - apply U.
  - intros va Hva. destruct (decide (a ≤ va < a + PGSIZE)) as [Hr|Hr].
    + rewrite M1 by lia. intros _. by rewrite Hfr.
    + rewrite M2 by lia. intros Hp. by apply U, A4.
  - intros va va' Hva Hva'. destruct (decide (a ≤ va < a + PGSIZE)) as [Hr|Hr], (decide (a ≤ va' < a + PGSIZE)) as [Hr'|Hr'].
    + intros _ _ _. destruct (page_of a va Ha Hr), (page_of a va' Ha Hr'). congruence.
    + rewrite M1, M2 by lia. intros _ Hp. rewrite Hfr. intros E.
      exfalso. destruct (A4 va' Hva' Hp) as [_ Q _ _]. by rewrite <-E in Q.
    + rewrite M2, M1 by lia. intros Hp _. rewrite Hfr. intros E.
      exfalso. destruct (A4 va Hva Hp) as [_ Q _ _]. by rewrite E in Q.
    + rewrite !M2 by lia. by apply A5.
  - intros va Hva. rewrite M2 by lia. apply A6. lia.
  - intros va Hva. unfold is_u32 in Hva. area; [by apply M1|by apply M2].
Qed.

(** What is already mapped stays as it is. *)
Lemma ubyte_kept s pgdir l top n s' l' va : aspace s pgdir l top → uses pgdir n s l s' l' → 0 ≤ va < KERNBASE →
  entry (k_mem s') pgdir va = entry (k_mem s) pgdir va → ubyte (k_mem s') pgdir va = ubyte (k_mem s) pgdir va.
Proof.
  intros A U Hva E. unfold ubyte. rewrite E. destruct (has (entry (k_mem s) pgdir va) PTE_P) eqn:Hp; [|done].
  destruct (has _ PTE_U); [|done]. cbn [andb]. f_equal. apply (us_plain _ _ _ _ _ _ U _ (as_user _ _ _ _ A va Hva Hp)).
  pose proof (Z.mod_pos_bound va PGSIZE ltac:(done)). lia.
Qed.

(** A zeroed page added. *)
Lemma aspace_extended s pgdir l a s' l' v n : aspace s pgdir l a → a + PGSIZE ≤ KERNBASE → uses pgdir n s l s' l' → page_ok v →
  (∀ x, v ≤ x < v + PGSIZE → k_mem s' x = 0) → frame (V2P v + 7) = v →
  (∀ va, is_u32 va → entry (k_mem s') pgdir va = if in_area a PGSIZE va then V2P v + 7 else entry (k_mem s) pgdir va) →
  extended (k_mem s) (k_mem s') pgdir a (a + PGSIZE).
Proof.
  intros A H1 U Hv Hz Hfr M. assert (P4 : PGSIZE = 4096) by done. assert (K4 : KERNBASE = 2147483648) by done.
  destruct (V2P_page kend v Hv) as (_ & Va & _ & _). split.
  - intros va Hva. replace (a + PGSIZE - a) with PGSIZE by lia. pose proof (M va ltac:(unfold is_u32; lia)) as E.
    destruct (in_area a PGSIZE va) eqn:I; [|by eapply ubyte_kept]. unfold ubyte. rewrite E, !has_page by (done || (unfold PTE_P, PTE_U; lia)).
    change (has 7 PTE_P && has 7 PTE_U) with true. cbv iota. f_equal. rewrite Hfr. apply Hz.
    pose proof (Z.mod_pos_bound va PGSIZE ltac:(done)). lia.
  - intros va Hva. rewrite M by (unfold is_u32; lia). area; [lia|done].
Qed.

(** One round of [allocuvm]. *)
Lemma grow_page n pgdir a oldsz newsz env s l :
  aspace s pgdir l a → a `mod` PGSIZE = 0 → 0 ≤ a → a + PGSIZE ≤ KERNBASE → a < newsz → (2 ≤ length l)%nat →
  ∃ s' l', alloc_from kend (S n) pgdir a oldsz newsz env s = alloc_from kend n pgdir (a + PGSIZE) oldsz newsz env s' ∧
    aspace s' pgdir l' (a + PGSIZE) ∧ uses pgdir 2 s l s' l' ∧ extended (k_mem s) (k_mem s') pgdir a (a + PGSIZE).
Proof.
  intros A Ha H0 H1 Hlt Hlen. pose proof A as [A1 A2 A3 A4 A5 A6]. assert (P4 : PGSIZE = 4096) by done. assert (K4 : KERNBASE = 2147483648) by done.
  destruct l as [|v l]; [simpl in Hlen; lia|].
  destruct (filled_page env s pgdir v l (λ m, KString.memset m v 0 PGSIZE) A2 A1 A3) as (s1 & E1 & U1 & Pv & Em & N1).
  { intros w Hw Hne. apply unchanged_memset; [|done|done]. destruct A2 as [_ _ Fp]. by apply Forall_cons in Fp as [Fp _]. }
  set (s2 := s1 <| k_mem ::= _ |>) in *.
  cbn [alloc_from]. rewrite (proj2 (Z.ltb_lt _ _)) by done. erewrite bind_done by exact E1.
  rewrite (proj2 (Z.eqb_neq _ _)) by (destruct (pl_page _ _ _ _ Pv); lia).
  unfold upd_mem. rewrite bind_modify. fold s2. clearbody s2. destruct (V2P_page kend v (pl_page _ _ _ _ Pv)) as (_ & Va & Vr & Vv).
  destruct (one_page a Ha) as [R1 R2].
  destruct (mappages_ok pgdir (Z.lor PTE_W PTE_U) 7 eq_refl ltac:(done) a PGSIZE (V2P v) env s2 l) as (s3 & l3 & E3 & U3 & M);
    rewrite ?R1, ?R2, ?Z.sub_diag in *; change (Z.to_nat (0 / PGSIZE)) with 0%nat in *; cbn [Z.of_nat Pos.of_succ_nat] in *.
  1-6: done || lia || (unfold PHYSTOP in *; lia).
  - rewrite (uses_locks _ _ _ _ _ _ U1). done.
  - apply U1.
  - apply U1.
  - pose proof (tables_for_one pgdir (k_mem s2) a). simpl in Hlen. lia.
  - intros x Hx. rewrite N1 by (unfold is_u32; lia). apply A6. lia.
  - erewrite bind_done by exact E3. change (0 <? 0) with false. cbv iota.
    rewrite u32_small by (unfold is_u32; lia). exists s3, l3. split; [done|].
    assert (U : uses pgdir 2 s (v :: l) s3 l3).
    { eapply uses_weaken; [by eapply uses_trans|]. pose proof (tables_for_one pgdir (k_mem s2) a). lia. }
    destruct (us_plain _ _ _ _ _ _ U3 v Pv) as [Pv3 Uv].
    destruct (aspace_add s pgdir (v :: l) a s3 l3 v 2 7) as (A' & Hfr & En); try done.
    + by left.
    + intros va Hva. rewrite M by done. by rewrite N1.
    + split; [done|]. split; [done|]. eapply aspace_extended; [done..|apply Pv| |done|done].
      intros x Hx. rewrite Uv, Em, memset_spec by done. area; [done|lia].
Qed.

Lemma alloc_from_ok k : ∀ n pgdir a oldsz newsz env s l,
  aspace s pgdir l a → a `mod` PGSIZE = 0 → 0 ≤ a → a + PGSIZE * Z.of_nat k ≤ KERNBASE →
  newsz ≤ a + PGSIZE * Z.of_nat k → (k = 0%nat ∨ a + PGSIZE * Z.of_nat k < newsz + PGSIZE) →
  (k ≤ n)%nat → (2 * k ≤ length l)%nat →
  ∃ s' l', alloc_from kend n pgdir a oldsz newsz env s = Done newsz s' env ∧
    aspace s' pgdir l' (a + PGSIZE * Z.of_nat k) ∧ uses pgdir (2 * k) s l s' l' ∧
    extended (k_mem s) (k_mem s') pgdir a (a + PGSIZE * Z.of_nat k).
Proof.
  assert (P4 : PGSIZE = 4096) by done. induction k as [|k IH]; intros n pgdir a oldsz newsz env s l A Ha H0 H1 H2 H3 Hn Hlen.
  - exists s, l. replace (a + PGSIZE * Z.of_nat 0) with a in * by lia. split.
    + destruct n; cbn [alloc_from]; rewrite (proj2 (Z.ltb_ge _ _)) by lia; done.
    + split; [done|]. split; [apply uses_refl; apply A|apply extended_refl].
  - destruct n as [|n]; [lia|].
    destruct (grow_page n pgdir a oldsz newsz env s l) as (s1 & l1 & -> & A1 & U1 & X1); [done|done|done|lia|lia|lia|].
    pose proof (uses_length _ _ _ _ _ _ U1).
    destruct (IH n pgdir (a + PGSIZE) oldsz newsz env s1 l1) as (s2 & l2 & E & A2 & U2 & X2); [done| |lia..|].
    { by rewrite Zplus_mod, Ha. }
    exists s2, l2. replace (a + PGSIZE * Z.of_nat (S k)) with (a + PGSIZE + PGSIZE * Z.of_nat k) by lia.
    split; [done|]. split; [done|]. split.
    + replace (2 * S k)%nat with (2 + 2 * k)%nat by lia. by apply (uses_trans _ _ _ _ _ s1 l1).
    + by apply (extended_trans _ (k_mem s1) _ _ _ (a + PGSIZE)); [lia|lia|..].
Qed.

(** C12. [allocuvm] extends an address space whenever the free pages suffice
    (at most two are used for each new page): it returns the new size, every
    new user address reads as 0, every byte the program had and the kernel's
    part of the page table are unchanged, no two user pages share a page of
    memory, and the pages that belong to nobody in this address space (other
    processes' memory and page tables) keep their contents. *)
Theorem allocuvm_extends pgdir oldsz newsz env s l (a := PGROUNDUP oldsz) (b := PGROUNDUP newsz) :
  0 ≤ oldsz ≤ newsz → newsz < KERNBASE → aspace s pgdir l a → 2 * (b - a) ≤ PGSIZE * Z.of_nat (length l) →
  ∃ s' l', allocuvm kend pgdir oldsz newsz env s = Done newsz s' env ∧
    s' = s <| k_mem := k_mem s' |> <| k_freelist := k_freelist s' |> ∧
    aspace s' pgdir l' b ∧
    extended (k_mem s) (k_mem s') pgdir a b ∧
    (∀ w, plain (k_mem s) pgdir l w → unchanged (k_mem s) (k_mem s') w).
Proof.
  intros Ho Hk A Hlen. assert (P4 : PGSIZE = 4096) by done. assert (K4 : KERNBASE = 2147483648) by done.
  destruct (PGROUNDUP_spec oldsz) as [Ra Ra']; [lia|lia|]. destruct (PGROUNDUP_spec newsz) as [Rb Rb']; [lia|lia|].
  fold a in Ra, Ra'. fold b in Rb, Rb'. set (k := Z.to_nat ((b - a) / PGSIZE)).
  assert (a ≤ b ∧ b = a + PGSIZE * Z.of_nat k ∧ (k ≤ S (Z.to_nat ((newsz - a) / PGSIZE)))%nat ∧ b ≤ KERNBASE) as (Hab & Eb & Hf & Hbk).
  { unfold k. clearbody a b. clear -Ho Hk Ra Ra' Rb Rb' P4 K4. rewrite P4, K4 in *. Z.to_euclidean_division_equations. lia. }
  unfold allocuvm. rewrite (proj2 (Z.leb_gt _ _)), (proj2 (Z.ltb_ge newsz _)) by lia. fold a.
  destruct (alloc_from_ok k (S (Z.to_nat ((newsz - a) / PGSIZE))) pgdir a oldsz newsz env s l)
    as (s' & l' & E & A' & U & X); [done|done|lia..|].
  rewrite <-Eb in *. exists s', l'. split; [done|]. split; [apply U|]. split; [done|]. split; [done|].
  intros w Hw. by apply (us_plain _ _ _ _ _ _ U).
Qed.
End paging.

(** ** An empty address space, with [n] free pages after its directory *)
Fixpoint linked (n : nat) (p : Z) : mem :=
  match n with
  | O => λ _, 0
  | S n => KString.store4 (linked n (p + PGSIZE)) p (match n with O => 0 | S _ => p + PGSIZE end)
  end.
Definition blank_dir : Z := KERNBASE + 4096.
Definition blank_page : Z := KERNBASE + 8192.
Definition blank (n : nat) : kstate :=
  mem_boot <| k_mem := linked n blank_page |> <| k_freelist := match n with O => 0 | S _ => blank_page end |>.

Lemma linked_below n p x : x < p → linked n p x = 0.
Proof.
  revert p. induction n as [|n IH]; intros p Hx; [done|]. cbn [linked]. rewrite store4_other by lia.
  apply IH. change PGSIZE with 4096. lia.
Qed.
Lemma linked_chain n p : 0 < p → p + PGSIZE * Z.of_nat n < 4294967296 →
  chain (linked n p) (match n with O => 0 | S _ => p end) (pages p n).
Proof.
  assert (P4 : PGSIZE = 4096) by done. revert p. induction n as [|n IH]; intros p Hp Hn; [done|]. rewrite pages_S. cbn [chain linked].
  split; [done|]. split; [lia|]. rewrite ld4_store4 by (unfold is_u32; destruct n; lia).
  eapply chain_ext; [|apply IH; lia]. intros x y Hx Hy. apply elem_of_pages in Hx. symmetry. apply store4_other. lia.
Qed.
Lemma pages_ok kend n p : p `mod` PGSIZE = 0 → kend ≤ p → KERNBASE ≤ p → p + PGSIZE * Z.of_nat n ≤ KERNBASE + PHYSTOP →
  NoDup (pages p n) ∧ Forall (page_ok kend) (pages p n).
Proof.
  assert (P4 : PGSIZE = 4096) by done. revert p. induction n as [|n IH]; intros p Ha He Hk Hn.
  - split; constructor.
  - rewrite pages_S. destruct (IH (p + PGSIZE)) as [N F]; [by rewrite Zplus_mod, Ha|lia..|]. split; constructor; try done.
    + intros H. apply elem_of_pages in H. lia.
    + split; [done|lia|lia].
Qed.

Lemma blank_entry n va : is_u32 va → entry (k_mem (blank n)) blank_dir va = 0.
Proof.
  intros Hva. destruct (PDX_eq va Hva) as [_ Hd]. unfold entry, present, pde, ld4.
  change (k_mem (blank n)) with (linked n blank_page). rewrite !linked_below by (unfold blank_dir, blank_page; lia). done.
Qed.
Lemma blank_ok n : Z.of_nat n ≤ 1000 → aspace KERNBASE (blank n) blank_dir (pages blank_page n) 0.
Proof.
  assert (P4 : PGSIZE = 4096) by done. intros Hn.
  assert (E : ∀ va, 0 ≤ va < KERNBASE → has (entry (k_mem (blank n)) blank_dir va) PTE_P = false).
  { intros va Hva. by rewrite blank_entry by (unfold is_u32, KERNBASE in *; lia). }
  assert (D : ∀ i, 0 ≤ i < 1024 → present (k_mem (blank n)) blank_dir i = false).
  { intros i Hi. unfold present, pde, ld4. change (k_mem (blank n)) with (linked n blank_page).
    rewrite !linked_below by (unfold blank_dir, blank_page; lia). done. }
  destruct (pages_ok KERNBASE n blank_page) as [N F]; [done|done|done|unfold blank_page, KERNBASE, PHYSTOP; lia|].
  split.
  - apply not_elem_of_nil.
  - split; [|done|done]. apply linked_chain; [done|unfold blank_page, KERNBASE; lia].
  - split; [by split| |..].
    + intros H. apply elem_of_pages in H. unfold blank_page, blank_dir in H. lia.
    + intros i Hi H. by rewrite D in H.
    + intros i j Hi _ H. by rewrite D in H.
  - intros va Hva H. by rewrite E in H.
  - intros va va' Hva _ H. by rewrite E in H.
  - intros va Hva. by apply E.
Qed.

Lemma allocuvm_extends_witness :
  ∃ s', allocuvm KERNBASE blank_dir 0 100 [] (blank 2) = Done 100 s' [] ∧
    ubyte (k_mem s') blank_dir 99 = Some 0.
Proof.
  destruct (allocuvm_extends KERNBASE blank_dir 0 100 [] (blank 2) (pages blank_page 2))
    as (s' & l' & E & _ & _ & [X _] & _).
  - lia.
  - reflexivity.
  - apply blank_ok. lia.
  - vm_compute. discriminate.
  - exists s'. split; [exact E|]. apply (X 99). unfold KERNBASE. lia.
Defined.
