(* ===== verification/CopyVm.v ===== *)
(** * Copying an address space (vm.c: setupkvm, copyuvm)

    [fork] gives the child a page table of its own, with the kernel's
    mappings, and a copy of every user page.  The proof follows [Paging]: the
    pages of the parent are outside of the child's page table, so nothing
    [copyuvm] does to the child changes them.

    The result: the child reads what the parent reads at every user address,
    from pages that the parent does not have. *)
From S2P Require Import Prelude State Sync CString Print Kalloc Dll Bio Cache Log Fs Vm Paging.

Section copy.
Context (kend kdata : Z).
Context (Hdata : kdata `mod` PGSIZE = 0) (Hlink : KERNLINK < kdata < KERNBASE + PHYSTOP).
Implicit Types (m : mem) (l : list Z).
Notation page_ok := (page_ok kend).
Notation uses := (uses kend).
Notation plain := (plain kend).
Notation tables_ok := (tables_ok kend).

(** ** The kernel's mappings *)

(** The entries of a range, mapped to [pa]. *)
Definition maps_range m m' (pgdir a b pa f : Z) : Prop :=
  ∀ va, is_u32 va → entry m' pgdir va =
    if in_area a (b - a) va then pa + (va - va `mod` PGSIZE - a) + f else entry m pgdir va.

Lemma mappages_range pgdir perm f a size pa env s l : Z.lor perm PTE_P = f → 0 ≤ f < PGSIZE →
  a `mod` PGSIZE = 0 → size `mod` PGSIZE = 0 → 0 ≤ a → 0 < size → a + size ≤ 4294967296 →
  pa `mod` PGSIZE = 0 → 0 ≤ pa → pa + size ≤ 4294967296 →
  LkKmem ∉ k_locks s → free_list kend s l → tables_ok (k_mem s) pgdir l →
  (tables_for pgdir (k_mem s) a (a + size - PGSIZE) ≤ length l)%nat →
  (∀ x, a ≤ x < a + size → has (entry (k_mem s) pgdir x) PTE_P = false) →
  ∃ s' l', mappages pgdir a size pa perm env s = Done 0 s' env ∧
    uses pgdir (tables_for pgdir (k_mem s) a (a + size - PGSIZE)) s l s' l' ∧
    maps_range (k_mem s) (k_mem s') pgdir a (a + size) pa f.
Proof.
  intros Hf Hfr Ha Hz H0 Hs H1 Hp Hp0 Hp1 Hl F T Hlen Hno. assert (P4 : PGSIZE = 4096) by done.
  assert (Ea : PGROUNDDOWN a = a) by (rewrite PGROUNDDOWN_eq, Ha; lia).
  assert (El : PGROUNDDOWN (a + size - 1) = a + size - PGSIZE).
  { rewrite PGROUNDDOWN_eq. clear -Ha Hz P4. rewrite P4 in *. Z.to_euclidean_division_equations. lia. }
  assert (En : PGSIZE * Z.of_nat (S (Z.to_nat ((a + size - PGSIZE - a) / PGSIZE))) = size).
  { clear -Hz Hs P4. rewrite P4 in *. Z.to_euclidean_division_equations. lia. }
  destruct (mappages_ok kend pgdir perm f Hf Hfr a size pa env s l) as (s' & l' & E & U & M);
    rewrite ?Ea, ?El, ?En in *; try done.
  exists s', l'. split; [done|]. split; [done|]. intros va Hva. rewrite M, En by done.
  by replace (a + size - a) with size by lia.
Qed.

(** What every page table has above [KERNBASE]. *)
Definition kernel_entry (va : Z) : Z :=
  let p := va - va `mod` PGSIZE in
  if in_area KERNBASE EXTMEM va then p - KERNBASE + 3
  else if in_area KERNLINK (kdata - KERNLINK) va then p - KERNBASE + 1
  else if in_area kdata (KERNBASE + PHYSTOP - kdata) va then p - KERNBASE + 3
  else if in_area DEVSPACE (4294967296 - DEVSPACE) va then p + 3
  else 0.

(** A zeroed page as a page directory: nothing is mapped. *)
Lemma fresh_directory env s d l : LkKmem ∉ k_locks s → free_list kend s (d :: l) →
  ∃ s1, kalloc env s = Done d s1 env ∧
    let s' := s1 <| k_mem ::= λ m, KString.memset m d 0 PGSIZE |> in
    s' = s <| k_mem := k_mem s' |> <| k_freelist := k_freelist s' |> ∧
    free_list kend s' l ∧ tables_ok (k_mem s') d l ∧
    (∀ va, is_u32 va → entry (k_mem s') d va = 0) ∧ (∀ i, 0 ≤ i < 1024 → present (k_mem s') d i = false) ∧
    (∀ w, page_ok w → w ∉ d :: l → plain (k_mem s') d l w ∧ unchanged (k_mem s) (k_mem s') w).
Proof.
  intros Hl F. destruct (kalloc_spec kend env s (d :: l) Hl F) as (s1 & E1 & Es & F1). exists s1. split; [done|].
  intros s'. assert (Em : k_mem s' = KString.memset (k_mem s) d 0 PGSIZE) by (unfold s'; by rewrite Es).
  assert (Es' : s' = s <| k_mem := k_mem s' |> <| k_freelist := k_freelist s' |>) by (unfold s'; rewrite Es; kext).
  assert (Es1 : s' = s1 <| k_mem := k_mem s' |> <| k_freelist := k_freelist s1 |>) by kext.
  assert (Em1 : k_mem s1 = k_mem s) by (by rewrite Es). clearbody s'.
  destruct F as [_ Fn Fp]. apply NoDup_cons in Fn as [Fn _]. apply Forall_cons in Fp as [Hd Fp]. rewrite Forall_forall in Fp.
  assert (U : ∀ w, page_ok w → w ≠ d → unchanged (k_mem s) (k_mem s') w).
  { intros w Hw Hne. rewrite Em. by apply (unchanged_memset kend). }
  assert (P : ∀ i, 0 ≤ i < 1024 → present (k_mem s') d i = false).
  { intros i Hi. unfold present, pde, ld4. rewrite Em, !memset_spec by done. change PGSIZE with 4096.
    area; try lia. done. }
  split; [done|]. split; [|split; [|split; [|split; [done|]]]].
  - rewrite Es1. apply free_list_mem; [done| |done]. intros w Hw. rewrite Em1. apply U; [by apply Fp|]. by intros ->.
  - split; [done|done|..].
    + intros i Hi Hp. by rewrite P in Hp.
    + intros i j Hi _ Hp. by rewrite P in Hp.
  - intros va Hva. unfold entry. by rewrite P by apply PDX_eq, Hva.
  - intros w Hw Hn. apply not_elem_of_cons in Hn as [Hn Hn']. split; [|by apply U].
    split; [done..|]. intros i Hi Hp. by rewrite P in Hp.
Qed.

Lemma entry_present m pgdir va : entry m pgdir va ≠ 0 → cost m pgdir (PDX va) = 0%nat.
Proof. unfold entry, cost. by destruct (present m pgdir (PDX va)). Qed.

Lemma PDX_mono a b : 0 ≤ a ≤ b → b < 4294967296 → PDX a ≤ PDX b.
Proof.
  intros H1 H2. rewrite (proj1 (PDX_eq a ltac:(unfold is_u32; lia))), (proj1 (PDX_eq b ltac:(unfold is_u32; lia))).
  apply Z.div_le_mono; lia.
Qed.

(** The kernel's mappings below [b] are there, and nothing else. *)
Definition mapped_to m (d b : Z) : Prop := ∀ va, is_u32 va → entry m d va = if va <? b then kernel_entry va else 0.

Definition staged (d b : Z) (n : nat) (s0 : kstate) l0 (s : kstate) l : Prop :=
  LkKmem ∉ k_locks s0 ∧ uses d n s0 l0 s l ∧ mapped_to (k_mem s) d b.

Lemma setup_stage d k f env s0 l0 s l size b n c : staged d b n s0 l0 s l →
  size = u32 (km_end k - km_start k) → Z.lor (km_perm k) PTE_P = f → 0 ≤ f < PGSIZE →
  km_virt k `mod` PGSIZE = 0 → size `mod` PGSIZE = 0 → 0 ≤ b ≤ km_virt k → 0 < size → km_virt k + size ≤ 4294967296 →
  km_start k `mod` PGSIZE = 0 → 0 ≤ km_start k → km_start k + size ≤ 4294967296 →
  (∀ va, b ≤ va < km_virt k → kernel_entry va = 0) →
  (∀ va, km_virt k ≤ va < km_virt k + size → kernel_entry va = km_start k + (va - va `mod` PGSIZE - km_virt k) + f) →
  (tables_for d (k_mem s) (km_virt k) (km_virt k + size - PGSIZE) ≤ c)%nat → (n + c ≤ length l0)%nat →
  ∃ s' l', (∀ ks, setup_maps kend d (k :: ks) env s = setup_maps kend d ks env s') ∧
    staged d (km_virt k + size) (n + c) s0 l0 s' l'.
Proof.
  intros (Hl & U0 & Hb) Hz Hf Hfr H1 H2 H3 H4 H5 H6 H7 H8 Hk0 Hk Hc Hc'. pose proof (uses_length _ _ _ _ _ _ _ U0).
  destruct (mappages_range d (km_perm k) f (km_virt k) (u32 (km_end k - km_start k)) (km_start k) env s l)
    as (s' & l' & E & U & M); rewrite <-?Hz in *; try done; try lia.
  { by rewrite (uses_locks _ _ _ _ _ _ _ U0). }
  { apply U0. }
  { apply U0. }
  { intros x Hx. rewrite Hb by (unfold is_u32; lia). by rewrite (proj2 (Z.ltb_ge _ _)) by lia. }
  exists s', l'. split; [|split; [done|split; [eapply uses_weaken; [exact (uses_trans _ _ _ _ _ _ _ _ _ _ U0 U)|lia]|]]].
  { intros ks. cbn [setup_maps]. rewrite <-Hz. run E. done. }
  intros va Hva. rewrite M, Hb by done.
  area; destruct (Z.ltb_spec va (km_virt k + size)), (Z.ltb_spec va b); try lia; try done.
  - symmetry. apply Hk. lia.
  - symmetry. apply Hk0. lia.
Qed.

Ltac consts := unfold KERNLINK, KERNBASE, EXTMEM, PHYSTOP, DEVSPACE in *.
Lemma kernel_entry_range va : kernel_entry va =
  let p := va - va `mod` PGSIZE in
  if va <? KERNBASE then 0 else if va <? KERNLINK then p - KERNBASE + 3 else if va <? kdata then p - KERNBASE + 1
  else if va <? KERNBASE + PHYSTOP then p - KERNBASE + 3 else if va <? DEVSPACE then 0
  else if va <? 4294967296 then p + 3 else 0.
Proof.
  unfold kernel_entry. cbv zeta. clear Hdata. consts.
  repeat match goal with |- context [?x <? ?y] => destruct (Z.ltb_spec x y) end; area; try lia.
Qed.

Ltac kent := let va := fresh "va" in let H := fresh "H" in intros va H; rewrite kernel_entry_range; cbv zeta; consts;
  repeat match goal with |- context [?x <? ?y] => destruct (Z.ltb_spec x y) end; lia.
Ltac aligned := consts; change PGSIZE with 4096 in *; Z.to_euclidean_division_equations; lia.
Ltac stage := cbn [km_virt km_start km_end km_perm] in *; first
  [ done | lia | kent | rewrite u32_small by (unfold is_u32; consts; lia); consts; lia | consts; lia | aligned ].

Lemma tables_le d m a last (c : nat) i j : PDX a = i → PDX last = j → Z.of_nat (cost m d i) + Z.max 0 (j - i) ≤ Z.of_nat c →
  (tables_for d m a last ≤ c)%nat.
Proof. intros <- <- H. unfold tables_for. lia. Qed.

Definition setup_cost : nat := 65.
Lemma setup_maps_ok d env s l : LkKmem ∉ k_locks s → free_list kend s l → tables_ok (k_mem s) d l →
  (∀ va, is_u32 va → entry (k_mem s) d va = 0) → (setup_cost ≤ length l)%nat →
  ∃ s' l', setup_maps kend d (kmaps kdata) env s = Done d s' env ∧ uses d setup_cost s l s' l' ∧
    ∀ va, is_u32 va → entry (k_mem s') d va = kernel_entry va.
Proof.
  intros Hl F T H0 Hlen. unfold kmaps, setup_cost in *. assert (P4 : PGSIZE = 4096) by done.
  assert (V2 : V2P kdata = kdata - KERNBASE) by (unfold V2P; apply u32_small; unfold is_u32; consts; lia).
  change (V2P KERNLINK) with EXTMEM. rewrite V2.
  assert (Hd4 : KERNLINK + 4096 ≤ kdata ≤ KERNBASE + PHYSTOP - 4096).
  { clear -Hdata Hlink P4. rewrite P4 in *. consts. Z.to_euclidean_division_equations. lia. }
  assert (Hpd : 512 ≤ PDX kdata ≤ 567).
  { pose proof (PDX_mono KERNLINK kdata ltac:(consts; lia) ltac:(consts; lia)) as H1.
    pose proof (PDX_mono kdata (KERNBASE + PHYSTOP - 4096) ltac:(consts; lia) ltac:(consts; lia)) as H2.
    change (PDX (KERNBASE + PHYSTOP - 4096)) with 567 in H2. change (PDX KERNLINK) with 512 in H1. lia. }
  assert (M0 : mapped_to (k_mem s) d 0).
  { intros va Hva. rewrite H0 by done. by rewrite (proj2 (Z.ltb_ge _ _)) by (unfold is_u32 in Hva; lia). }
  assert (S0 : staged d 0 0 s l s l) by (split; [done|split; [by apply uses_refl|done]]).
  destruct (setup_stage d (KMap KERNBASE 0 EXTMEM PTE_W) 3 env s l s l EXTMEM 0 0 1 S0) as (s1 & l1 & -> & S1); try by stage.
  { pose proof (cost_le (k_mem s) d 512). apply (tables_le _ _ _ _ _ 512 512); [done|done|lia]. }
  destruct (setup_stage d (KMap KERNLINK EXTMEM (kdata - KERNBASE) 0) 1 env s l s1 l1 (kdata - KERNLINK) KERNLINK 1 (Z.to_nat (PDX kdata - 512)) S1)
    as (s2 & l2 & -> & S2); try by stage.
  { assert (cost (k_mem s1) d 512 = 0%nat).
    { apply (entry_present _ _ KERNBASE). destruct S1 as (_ & _ & M1). rewrite M1 by done.
      change (KERNBASE <? _) with true. cbv iota. rewrite kernel_entry_range. done. }
    pose proof (PDX_mono (kdata - 4096) kdata ltac:(consts; lia) ltac:(consts; lia)).
    apply (tables_le _ _ _ _ _ 512 (PDX (kdata - 4096))); [done|cbn [km_virt]; f_equal; lia|lia]. }
  replace (km_virt _ + _) with kdata in S2 by (cbn [km_virt]; lia).
  destruct (setup_stage d (KMap kdata (kdata - KERNBASE) PHYSTOP PTE_W) 3 env s l s2 l2 (KERNBASE + PHYSTOP - kdata) kdata _ (Z.to_nat (568 - PDX kdata)) S2)
    as (s3 & l3 & -> & S3); try by stage.
  { pose proof (cost_le (k_mem s2) d (PDX kdata)).
    apply (tables_le _ _ _ _ _ (PDX kdata) (PDX (KERNBASE + PHYSTOP - 4096))); [done|cbn [km_virt]; f_equal; lia|].
    change (PDX (KERNBASE + PHYSTOP - 4096)) with 567. lia. }
  replace (km_virt _ + _) with (KERNBASE + PHYSTOP) in S3 by (cbn [km_virt]; lia).
  destruct (setup_stage d (KMap DEVSPACE DEVSPACE 0 PTE_W) 3 env s l s3 l3 (4294967296 - DEVSPACE) (KERNBASE + PHYSTOP) _ 8 S3)
    as (s4 & l4 & -> & S4); try by stage.
  { pose proof (cost_le (k_mem s3) d 1016). apply (tables_le _ _ _ _ _ 1016 1023); [done|done|lia]. }
  destruct S4 as (_ & U & M). exists s4, l4. split; [done|]. split; [eapply uses_weaken; [exact U|lia]|].
  intros va Hva. rewrite M by done. by rewrite (proj2 (Z.ltb_lt _ _)) by (unfold is_u32 in Hva; cbn; lia).
Qed.

(** ** The child's page table *)

(** A page table [d] built since [s0], from [n] of the pages that were free
    then; everything else is as it was. *)
Record child (d : Z) (n : nat) (s0 : kstate) l0 (s : kstate) l : Prop := {
  ch_state : s = s0 <| k_mem := k_mem s |> <| k_freelist := k_freelist s |>;
  ch_free : free_list kend s l;
  ch_taken : ∃ t, l0 = t ++ l ∧ (length t ≤ n)%nat;
  ch_tables : tables_ok (k_mem s) d l;
  ch_kept w : page_ok w → w ∉ l0 → plain (k_mem s) d l w ∧ unchanged (k_mem s0) (k_mem s) w }.

(** What holds of the rest of memory while pages that were free are used. *)
Record since (s0 : kstate) l0 (s : kstate) l : Prop := {
  sn_state : s = s0 <| k_mem := k_mem s |> <| k_freelist := k_freelist s |>;
  sn_free : free_list kend s l;
  sn_taken : ∃ t, l0 = t ++ l;
  sn_kept w : page_ok w → w ∉ l0 → unchanged (k_mem s0) (k_mem s) w }.

Lemma child_since d n s0 l0 s l : child d n s0 l0 s l → since s0 l0 s l.
Proof. intros [C1 C2 (t & C3 & _) _ C5]. split; [done|done|by exists t|]. intros w Hw Hn. by apply C5. Qed.

Lemma child_uses d n k s0 l0 s l s' l' : child d n s0 l0 s l → uses d k s l s' l' → child d (n + k) s0 l0 s' l'.
Proof.
  intros [C1 C2 (t & -> & C3) C4 C5] [A1 A2 (t' & -> & A3) A4 A5]. split; [|done| |done|].
  - rewrite A1, C1. done.
  - exists (t ++ t'). rewrite <-app_assoc, length_app. split; [done|lia].
  - intros w Hw Hn. destruct (C5 w Hw Hn) as [P U]. destruct (A5 w P) as [P' U']. split; [done|]. by eapply unchanged_trans.
Qed.
Lemma child_locks d n s0 l0 s l : child d n s0 l0 s l → k_locks s = k_locks s0.
Proof. intros [-> _ _ _ _]. done. Qed.

Lemma setupkvm_ok env s d l : LkKmem ∉ k_locks s → free_list kend s (d :: l) → (setup_cost ≤ length l)%nat →
  ∃ s' l', setupkvm kend kdata env s = Done d s' env ∧ child d (1 + setup_cost) s (d :: l) s' l' ∧
    ∀ va, is_u32 va → entry (k_mem s') d va = kernel_entry va.
Proof.
  intros Hl F Hlen. destruct (fresh_directory env s d l Hl F) as (s1 & E1 & Es & F' & T & En & _ & Pl).
  set (s2 := s1 <| k_mem ::= _ |>) in *. unfold setupkvm. erewrite bind_done by exact E1.
  rewrite (proj2 (Z.eqb_neq d 0)) by (destruct (tb_dir _ _ _ _ T); consts; lia).
  unfold upd_mem. rewrite bind_modify. fold s2. clearbody s2. change (DEVSPACE <? P2V PHYSTOP) with false. cbv iota.
  destruct (setup_maps_ok d env s2 l) as (s' & l' & E & U & M); [by rewrite Es|done..|].
  exists s', l'. split; [done|]. split; [|done]. apply (child_uses d 1 setup_cost s (d :: l) s2 l); [|done].
  split; [done|done|by exists [d]|done|done].
Qed.

(** ** The parent meanwhile *)
Lemma entry_same_page m pgdir va va' : is_u32 va → is_u32 va' → va / PGSIZE = va' / PGSIZE → entry m pgdir va = entry m pgdir va'.
Proof.
  intros H H' E. change PGSIZE with 4096 in E. unfold entry.
  assert (PDX va = PDX va' ∧ PTX va = PTX va') as [-> ->]; [|done].
  pose proof (page_index va H). pose proof (page_index va' H'). destruct (PTX_eq va H), (PTX_eq va' H'). lia.
Qed.

Lemma walk_find pgdir va env s : present (k_mem s) pgdir (PDX va) = true →
  walkpgdir pgdir va false env s = Done (table (k_mem s) pgdir (PDX va) + 4 * PTX va) s env.
Proof. intros P. unfold walkpgdir. erewrite bind_done by apply load4_run. unfold present, pde in P. rewrite P. done. Qed.

Section parent.
Context (s0 : kstate) (l0 : list Z) (pgdir top : Z) (A0 : aspace kend s0 pgdir l0 top).
Context (s : kstate) (l : list Z) (C : since s0 l0 s l).

Lemma parent_dir : unchanged (k_mem s0) (k_mem s) pgdir.
Proof. apply C; apply A0. Qed.
Lemma parent_table i : 0 ≤ i < 1024 →
  present (k_mem s) pgdir i = present (k_mem s0) pgdir i ∧ table (k_mem s) pgdir i = table (k_mem s0) pgdir i.
Proof. intros Hi. apply same_pdes, unchanged_ld4; [apply parent_dir|done]. Qed.
Lemma parent_entry va : is_u32 va → entry (k_mem s) pgdir va = entry (k_mem s0) pgdir va.
Proof.
  intros Hva. apply entry_frame; [done|apply parent_dir|]. intros P. apply C; apply (tb_table _ _ _ _ (as_tables _ _ _ _ _ A0)); (done || apply PDX_eq, Hva).
Qed.
(** Its user memory. *)
Lemma parent_frame va : 0 ≤ va < KERNBASE → has (entry (k_mem s0) pgdir va) PTE_P = true →
  unchanged (k_mem s0) (k_mem s) (frame (entry (k_mem s0) pgdir va)).
Proof. intros Hva Hp. apply C; apply (as_user _ _ _ _ _ A0 va Hva Hp). Qed.
Lemma parent_ubyte va : 0 ≤ va < KERNBASE → ubyte (k_mem s) pgdir va = ubyte (k_mem s0) pgdir va.
Proof.
  intros Hva. unfold ubyte. rewrite parent_entry by (unfold is_u32; consts; lia).
  destruct (has (entry (k_mem s0) pgdir va) PTE_P) eqn:Hp; [|done]. destruct (has _ PTE_U); [|done]. cbn [andb]. f_equal.
  apply (parent_frame va Hva Hp). pose proof (Z.mod_pos_bound va PGSIZE ltac:(done)). lia.
Qed.

Lemma parent_plain w : plain (k_mem s0) pgdir l0 w → plain (k_mem s) pgdir l w.
Proof.
  intros [P1 P2 P3 P4]. destruct (sn_taken _ _ _ _ C) as (t & Hl). split; [done| |done|].
  - intros H. apply P2. rewrite Hl. apply elem_of_app. by right.
  - intros i Hi. destruct (parent_table i Hi) as [-> ->]. by apply P4.
Qed.
Lemma parent_aspace : 0 ≤ top → aspace kend s pgdir l top.
Proof.
  intros Htop.
  assert (Hu : ∀ va, 0 ≤ va < KERNBASE → is_u32 va) by (unfold is_u32; consts; lia).
  destruct (sn_taken _ _ _ _ C) as (t & Hl). pose proof A0 as [A1 A2 [T1 T2 T3 T4] A4 A5 A6].
  assert (Hsub : ∀ w, w ∉ l0 → w ∉ l) by (intros w H Hw; apply H; rewrite Hl; apply elem_of_app; by right).
  split.
  - by rewrite (sn_state _ _ _ _ C).
  - apply C.
  - split; [done|by apply Hsub|..].
    + intros i Hi. destruct (parent_table i Hi) as [-> ->]. intros P. destruct (T3 i Hi P) as (? & ? & ?).
      split; [done|]. split; [by apply Hsub|done].
    + intros i j Hi Hj. destruct (parent_table i Hi) as [-> ->], (parent_table j Hj) as [-> ->]. by apply T4.
  - intros va Hva. rewrite parent_entry by auto. intros P. by apply parent_plain, A4.
  - intros va va' Hva Hva'. rewrite !parent_entry by auto. by apply A5.
  - intros va Hva. rewrite parent_entry; [by apply A6|]. apply Hu. lia.
Qed.

(** The entry [copyuvm] reads. *)
Lemma parent_walk {B} va (K : Z → KM B) env : is_u32 va → has (entry (k_mem s0) pgdir va) PTE_P = true →
  (pte <- walkpgdir pgdir va false ;; if pte =? 0 then panic "copyuvm: pte should exist" else bind (load4 pte) K) env s =
    K (entry (k_mem s0) pgdir va) env s.
Proof.
  intros Hu Hp. destruct (PDX_eq va Hu) as [_ Hd], (PTX_eq va Hu) as [_ Hx]. destruct (parent_table (PDX va) Hd) as [Pr Et].
  assert (P0 : present (k_mem s0) pgdir (PDX va) = true).
  { unfold entry in Hp. by destruct (present (k_mem s0) pgdir (PDX va)). }
  destruct (tb_table _ _ _ _ (as_tables _ _ _ _ _ A0) _ Hd P0) as ([_ _ Q] & _ & _).
  rewrite (bind_done _ _ _ _ _ _ _ (walk_find pgdir va env s ltac:(by rewrite Pr))).
  rewrite Et, (proj2 (Z.eqb_neq _ _)) by (consts; lia). rewrite (bind_done _ _ _ _ _ _ _ (load4_run _ _ _)).
  f_equal. rewrite <-parent_entry by done. unfold entry. by rewrite Pr, P0, Et.
Qed.
End parent.

(** ** Copying pages *)
Lemma PTE_FLAGS_eq e : PTE_FLAGS e = e `mod` PGSIZE.
Proof. unfold PTE_FLAGS. change 4095 with (Z.ones 12). by rewrite Z.land_ones. Qed.
Lemma flags_range e : 0 ≤ PTE_FLAGS e < PGSIZE.
Proof. rewrite PTE_FLAGS_eq. by apply Z.mod_pos_bound. Qed.
Lemma has_flags e k : 0 ≤ k < PGSIZE → has (PTE_FLAGS e) k = has e k.
Proof.
  intros Hk. pose proof (flags_range e) as Hf. rewrite PTE_FLAGS_eq in *.
  replace e with (e - e `mod` PGSIZE + e `mod` PGSIZE) at 2 by lia. rewrite has_page; [done| |done|done].
  rewrite Zminus_mod_idemp_r, Z.sub_diag. done.
Qed.
Lemma flags_present e : has e PTE_P = true → Z.lor (PTE_FLAGS e) PTE_P = PTE_FLAGS e.
Proof.
  intros H. rewrite <-has_flags in H by done. unfold has in H. apply negb_true_iff, Z.eqb_neq in H.
  apply Z.bits_inj'. intros i Hi. rewrite Z.lor_spec. destruct (decide (i = 0)) as [->|Hne].
  - change (Z.testbit PTE_P 0) with true. rewrite orb_true_r. symmetry. apply Z.bit0_odd || rewrite Z.bit0_odd.
    unfold PTE_P in H. rewrite Zodd_mod. change 1 with (Z.ones 1) in H. rewrite Z.land_ones in H by lia.
    apply Zeq_is_eq_bool. pose proof (Z.mod_pos_bound (PTE_FLAGS e) 2 ltac:(lia)). change (2 ^ 1) with 2 in H. lia.
  - assert (Z.testbit PTE_P i = false) as -> by (apply (Z.bits_above_log2 1); cbn; lia). apply orb_false_r.
Qed.

(** The user pages below [b] are copies, in pages that were free. *)
Definition copied (m0 : mem) (pgdir : Z) l0 (m : mem) (d b : Z) : Prop := ∀ va, 0 ≤ va < b →
  ∃ v, v ∈ l0 ∧ frame (entry m d va) = v ∧ PTE_FLAGS (entry m d va) = PTE_FLAGS (entry m0 pgdir va) ∧
    ∀ x, 0 ≤ x < PGSIZE → m (v + x) = m0 (frame (entry m0 pgdir va) + x).

(** The page the copy is made in. *)
Lemma copy_fill env s0 l0 pgdir top d k s v l i (f := frame (entry (k_mem s0) pgdir i)) : aspace kend s0 pgdir l0 top → child d k s0 l0 s (v :: l) →
  aspace kend s d (v :: l) i → 0 ≤ i < KERNBASE → has (entry (k_mem s0) pgdir i) PTE_P = true →
  ∃ s1, kalloc env s = Done v s1 env ∧ v ∈ l0 ∧ page_ok v ∧
    let s2 := s1 <| k_mem ::= λ m, KString.memmove m v f PGSIZE |> in
    uses d 1 s (v :: l) s2 l ∧ plain (k_mem s2) d l v ∧
    (∀ x, 0 ≤ x < PGSIZE → k_mem s2 (v + x) = k_mem s0 (f + x)) ∧
    ∀ va, is_u32 va → entry (k_mem s2) d va = entry (k_mem s) d va.
Proof.
  intros A0 C [A1 A2 A3 _ _ _] H0 Hp. pose proof (ch_taken _ _ _ _ _ _ C) as (t & Hl0 & _).
  assert (Hv : page_ok v) by (destruct A2 as [_ _ Fp]; by apply Forall_cons in Fp as [Fp _]).
  destruct (filled_page kend env s d v l (λ m, KString.memmove m v f PGSIZE) A2 A1 A3) as (s1 & E1 & U1 & Pv & Em & N1).
  { intros w Hw Hne x Hx. rewrite memmove_spec by done. area; [|done].
    destruct (pages_apart v w); [apply Hv|apply Hw|congruence|lia|lia]. }
  exists s1. split; [exact E1|]. split; [rewrite Hl0; apply elem_of_app; right; apply list_elem_of_here|]. split; [exact Hv|]. cbv zeta.
  set (s2 := s1 <| k_mem ::= _ |>) in *. clearbody s2. split; [done|]. split; [done|]. split; [|done].
  intros x Hx. rewrite Em, memmove_spec by done. area; [|lia]. replace (f + (v + x - v)) with (f + x) by lia.
  apply (parent_frame s0 l0 pgdir top A0 s (v :: l) (child_since _ _ _ _ _ _ C) i H0 Hp). unfold f in *. lia.
Qed.

Lemma copied_add m0 pgdir l0 s d l i s' l' n v : aspace kend s d l i → uses d n s l s' l' → copied m0 pgdir l0 (k_mem s) d i →
  i `mod` PGSIZE = 0 → 0 ≤ i → i + PGSIZE ≤ KERNBASE → (∀ va, 0 ≤ va < i → has (entry m0 pgdir va) PTE_P = true) →
  v ∈ l0 → page_ok v → (∀ x, 0 ≤ x < PGSIZE → k_mem s' (v + x) = m0 (frame (entry m0 pgdir i) + x)) →
  frame (V2P v + PTE_FLAGS (entry m0 pgdir i)) = v →
  (∀ va, is_u32 va → entry (k_mem s') d va =
     if in_area i PGSIZE va then V2P v + PTE_FLAGS (entry m0 pgdir i) else entry (k_mem s) d va) →
  copied m0 pgdir l0 (k_mem s') d (i + PGSIZE).
Proof.
  intros A U Hc Hi H0 H1 Hp Hv0 Hv Hx Hfr En va Hva. assert (P4 : PGSIZE = 4096) by done. assert (K4 : KERNBASE = 2147483648) by done.
  assert (Hu : is_u32 va) by (unfold is_u32; lia). rewrite En by done. area.
  - destruct (page_of i va Hi ltac:(lia)) as [_ Eq]. rewrite (entry_same_page m0 pgdir va i) by (done || (unfold is_u32; lia)).
    exists v. split; [done|]. split; [done|]. split; [|done]. destruct (V2P_page kend v Hv) as (_ & Va & _ & _).
    rewrite PTE_FLAGS_eq, mod_page by (done || apply flags_range). done.
  - destruct (Hc va ltac:(lia)) as (w & Hw0 & Hw & Hwf & Hwx). exists w. split; [done|]. split; [done|]. split; [done|].
    intros x Hx'. rewrite <-Hwx by done. assert (Hpr : has (entry (k_mem s) d va) PTE_P = true).
    { rewrite <-has_flags, Hwf, has_flags by done. apply Hp. lia. }
    pose proof (as_user _ _ _ _ _ A va ltac:(lia) Hpr) as Pl. rewrite Hw in Pl.
    apply (us_plain _ _ _ _ _ _ _ U w Pl). lia.
Qed.

(** One round of the loop. *)
Lemma copy_page n d pgdir sz i env s0 l0 top k s l :
  aspace kend s0 pgdir l0 top → child d k s0 l0 s l → aspace kend s d l i → copied (k_mem s0) pgdir l0 (k_mem s) d i →
  i `mod` PGSIZE = 0 → 0 ≤ i < sz → i + PGSIZE ≤ KERNBASE → (∀ va, 0 ≤ va < sz → has (entry (k_mem s0) pgdir va) PTE_P = true) → (2 ≤ length l)%nat →
  ∃ s' l', copy_from kend (S n) d pgdir sz i env s = copy_from kend n d pgdir sz (i + PGSIZE) env s' ∧
    uses d 2 s l s' l' ∧ child d (k + 2) s0 l0 s' l' ∧ aspace kend s' d l' (i + PGSIZE) ∧ copied (k_mem s0) pgdir l0 (k_mem s') d (i + PGSIZE) ∧
    ∀ va, KERNBASE ≤ va < 4294967296 → entry (k_mem s') d va = entry (k_mem s) d va.
Proof.
  intros A0 C A Hc Hi H0 H1 Hall Hlen. pose proof (Hall i H0) as Hp. assert (P4 : PGSIZE = 4096) by done. assert (K4 : KERNBASE = 2147483648) by done.
  assert (Hu : is_u32 i) by (unfold is_u32; lia). cbn [copy_from]. rewrite (proj2 (Z.ltb_lt _ _)) by lia.
  rewrite (parent_walk s0 l0 pgdir top A0 s l (child_since _ _ _ _ _ _ C) i) by done. rewrite Hp. cbn [negb]. fold (frame (entry (k_mem s0) pgdir i)).
  destruct l as [|v l]; [simpl in Hlen; lia|].
  destruct (copy_fill env s0 l0 pgdir top d k s v l i A0 C A ltac:(lia) Hp) as (s1 & E1 & Hv0 & Hv & U1 & Pv & Em & N1).
  set (e := entry (k_mem s0) pgdir i) in *. set (s2 := s1 <| k_mem ::= _ |>) in *.
  rewrite (bind_done _ _ _ _ _ _ _ E1), (proj2 (Z.eqb_neq _ _)) by (destruct Hv; lia).
  unfold upd_mem. rewrite bind_modify. fold s2. clearbody s2. destruct (V2P_page kend v Hv) as (_ & Va & Vr & _).
  pose proof (flags_range e) as Hf. pose proof (cost_le (k_mem s2) d (PDX i)) as Hco.
  assert (Ht : tables_for d (k_mem s2) i (i + PGSIZE - PGSIZE) = cost (k_mem s2) d (PDX i)).
  { unfold tables_for. replace (i + PGSIZE - PGSIZE) with i by lia. lia. }
  destruct (mappages_range d (PTE_FLAGS e) (PTE_FLAGS e) i PGSIZE (V2P v) env s2 l (flags_present e Hp) Hf Hi)
    as (s3 & l3 & E3 & U3 & M); try (done || lia || (unfold PHYSTOP in *; lia)).
  - rewrite (uses_locks _ _ _ _ _ _ _ U1). apply A.
  - apply U1.
  - apply U1.
  - simpl in Hlen. lia.
  - intros x Hx. rewrite N1 by (unfold is_u32; lia). apply A. lia.
  - rewrite (bind_done _ _ _ _ _ _ _ E3). change (0 <? 0) with false. cbv iota. rewrite u32_small by (unfold is_u32; lia).
    exists s3, l3. split; [done|].
    assert (U : uses d 2 s (v :: l) s3 l3) by (eapply uses_weaken; [exact (uses_trans _ _ _ _ _ _ _ _ _ _ U1 U3)|lia]).
    destruct (us_plain _ _ _ _ _ _ _ U3 v Pv) as [Pv3 Uv].
    destruct (aspace_add kend s d (v :: l) i s3 l3 v 2 (PTE_FLAGS e)) as (A' & Hfr & En); try done; try lia.
    { by left. }
    { by rewrite has_flags. }
    { intros va Hva. rewrite M, N1 by done. by replace (i + PGSIZE - i) with (PGSIZE * Z.of_nat 1) by lia. }
    split; [done|]. split; [by eapply child_uses|]. split; [done|]. split.
    + eapply copied_add; try done; [lia|intros va Hva; apply Hall; lia|].
      intros x Hx. rewrite Uv by lia. by apply Em.
    + intros va Hva. rewrite En by (unfold is_u32; lia). area; [lia|done].
Qed.

(** A page table with nothing but the kernel. *)
Lemma child_empty d n s0 l0 s l : child d n s0 l0 s l → (∀ va, is_u32 va → entry (k_mem s) d va = kernel_entry va) →
  LkKmem ∉ k_locks s0 → d ≠ 0 ∧ aspace kend s d l 0 ∧ ∀ m0 pgdir, copied m0 pgdir l0 (k_mem s) d 0.
Proof.
  intros C N Hl. assert (E : ∀ va, 0 ≤ va < KERNBASE → has (entry (k_mem s) d va) PTE_P = false).
  { intros va Hva. rewrite N by (unfold is_u32; consts; lia). rewrite kernel_entry_range. cbv zeta.
    by rewrite (proj2 (Z.ltb_lt _ _)) by lia. }
  split; [destruct (tb_dir _ _ _ _ (ch_tables _ _ _ _ _ _ C)); consts; lia|]. split; [|intros m0 pgdir va Hva; lia].
  split; [by rewrite (child_locks _ _ _ _ _ _ C)|apply C|apply C|..|done].
  - intros va Hva Hp. by rewrite E in Hp.
  - intros va va' Hva _ Hp. by rewrite E in Hp.
Qed.

Lemma copy_from_ok pgdir sz env s0 l0 top d : aspace kend s0 pgdir l0 top →
  (∀ va, 0 ≤ va < sz → has (entry (k_mem s0) pgdir va) PTE_P = true) → ∀ k n i c s l,
  child d c s0 l0 s l → aspace kend s d l i → copied (k_mem s0) pgdir l0 (k_mem s) d i →
  i `mod` PGSIZE = 0 → 0 ≤ i → i + PGSIZE * Z.of_nat k ≤ KERNBASE →
  sz ≤ i + PGSIZE * Z.of_nat k → (k = 0%nat ∨ i + PGSIZE * Z.of_nat k < sz + PGSIZE) → (k ≤ n)%nat → (2 * k ≤ length l)%nat →
  ∃ s' l', copy_from kend n d pgdir sz i env s = Done d s' env ∧ child d (c + 2 * k) s0 l0 s' l' ∧
    aspace kend s' d l' (i + PGSIZE * Z.of_nat k) ∧ copied (k_mem s0) pgdir l0 (k_mem s') d (i + PGSIZE * Z.of_nat k) ∧
    ∀ va, KERNBASE ≤ va < 4294967296 → entry (k_mem s') d va = entry (k_mem s) d va.
Proof.
  intros A0 Hall. assert (P4 : PGSIZE = 4096) by done. induction k as [|k IH]; intros n i c s l C A Hc Ha H0 H1 H2 H3 Hn Hlen.
  - exists s, l. replace (i + PGSIZE * Z.of_nat 0) with i in * by lia. rewrite Nat.mul_0_r, Nat.add_0_r. split; [|done].
    destruct n; cbn [copy_from]; rewrite (proj2 (Z.ltb_ge _ _)) by lia; done.
  - destruct n as [|n]; [lia|].
    destruct (copy_page n d pgdir sz i env s0 l0 top c s l) as (s1 & l1 & -> & U1 & C1 & A1 & Hc1 & Hk1);
      [done..|lia|lia|done|lia|].
    pose proof (uses_length _ _ _ _ _ _ _ U1).
    destruct (IH n (i + PGSIZE) (c + 2)%nat s1 l1) as (s2 & l2 & E & C2 & A2 & Hc2 & Hk2); [done..| |lia|lia|lia|lia|lia|lia|].
    { by rewrite Zplus_mod, Ha. }
    exists s2, l2. replace (i + PGSIZE * Z.of_nat (S k)) with (i + PGSIZE + PGSIZE * Z.of_nat k) by lia.
    split; [done|]. split; [by replace (c + 2 * S k)%nat with (c + 2 + 2 * k)%nat by lia|]. split; [done|]. split; [done|].
    intros va Hva. by rewrite Hk2, Hk1.
Qed.

(** A copied page reads as the original. *)
Lemma copied_ubyte m0 pgdir l0 m d b va : copied m0 pgdir l0 m d b → 0 ≤ va < b → ubyte m d va = ubyte m0 pgdir va.
Proof.
  intros Hc Hva. destruct (Hc va Hva) as (v & _ & Hv & Hf & Hx). unfold ubyte.
  rewrite <-!(has_flags (entry m d va)), Hf, !has_flags by done. destruct (_ && _); [|done]. f_equal. rewrite Hv. apply Hx.
  by apply Z.mod_pos_bound.
Qed.

(** [copyuvm] with enough free pages. *)
Lemma copyuvm_child pgdir sz env s l (b := PGROUNDUP sz) :
  0 ≤ sz ≤ KERNBASE → aspace kend s pgdir l b → (∀ va, 0 ≤ va < sz → has (entry (k_mem s) pgdir va) PTE_P = true) →
  66 * PGSIZE + 2 * b ≤ PGSIZE * Z.of_nat (length l) →
  ∃ d s' l', copyuvm kend kdata pgdir sz env s = Done d s' env ∧ d ≠ 0 ∧ since s l s' l' ∧
    aspace kend s' d l' b ∧ copied (k_mem s) pgdir l (k_mem s') d b ∧ 0 ≤ b ≤ KERNBASE ∧
    ∀ va, KERNBASE ≤ va < 4294967296 → entry (k_mem s') d va = kernel_entry va.
Proof.
  intros Hsz A0 Hall Hlen. assert (P4 : PGSIZE = 4096) by done. assert (K4 : KERNBASE = 2147483648) by done.
  destruct (PGROUNDUP_spec sz) as [Hb Hb']; [lia|lia|]. fold b in Hb, Hb'. set (k := Z.to_nat (b / PGSIZE)).
  assert (b = PGSIZE * Z.of_nat k ∧ (k ≤ S (Z.to_nat (sz / PGSIZE)))%nat ∧ b ≤ KERNBASE) as (Ek & Hk & Hbk).
  { unfold k. clearbody b. clear -Hsz Hb Hb' P4 K4. rewrite P4, K4 in *. Z.to_euclidean_division_equations. lia. }
  destruct l as [|d l]; [simpl in Hlen; lia|]. simpl length in Hlen.
  destruct (setupkvm_ok env s d l) as (s1 & l1 & E1 & C1 & N1); [apply A0|apply A0|unfold setup_cost; lia|].
  destruct (child_empty _ _ _ _ _ _ C1 N1 (as_locks _ _ _ _ _ A0)) as (Hd0 & A1 & Hc1).
  pose proof (ch_taken _ _ _ _ _ _ C1) as (t & Et & Ht). apply (f_equal length) in Et. rewrite length_app in Et. simpl in Et.
  unfold setup_cost in *.
  destruct (copy_from_ok pgdir sz env s (d :: l) b d A0 Hall k (S (Z.to_nat (sz / PGSIZE))) 0 _ s1 l1 C1 A1)
    as (s' & l' & E & C & A & Hc & N); rewrite ?Z.add_0_l, <-?Ek in *; try done; try lia.
  exists d, s', l'. unfold copyuvm. run E1. rewrite (proj2 (Z.eqb_neq _ _)) by done.
  split; [done|]. split; [done|]. split; [by eapply child_since|]. split; [done|]. split; [done|]. split; [lia|].
  intros va Hva. rewrite N by done. apply N1. unfold is_u32. lia.
Qed.

(** What a copy means for the two address spaces. *)
Definition private_copy (m0 m : mem) (pgdir d b : Z) : Prop :=
  (∀ va, 0 ≤ va < KERNBASE → ubyte m d va = ubyte m0 pgdir va ∧ ubyte m pgdir va = ubyte m0 pgdir va) ∧
  (∀ va va', 0 ≤ va < b → 0 ≤ va' < b → has (entry m pgdir va') PTE_P = true →
     frame (entry m d va) ≠ frame (entry m pgdir va')).

Lemma copied_private s l s' l' pgdir d b : aspace kend s pgdir l b → since s l s' l' → aspace kend s' d l' b →
  copied (k_mem s) pgdir l (k_mem s') d b → 0 ≤ b ≤ KERNBASE → private_copy (k_mem s) (k_mem s') pgdir d b.
Proof.
  intros A0 C A Hc Hb. assert (K4 : KERNBASE = 2147483648) by done. split.
  - intros va Hva. rewrite (parent_ubyte s l pgdir b A0 s' l' C) by done. split; [|done].
    destruct (decide (va < b)); [apply (copied_ubyte _ _ _ _ _ _ _ Hc); lia|]. unfold ubyte.
    by rewrite (as_top _ _ _ _ _ A), (as_top _ _ _ _ _ A0) by lia.
  - intros va va' Hva Hva'. rewrite (parent_entry s l pgdir b A0 s' l' C) by (unfold is_u32; lia).
    intros Hp. destruct (Hc va Hva) as (v & Hv & -> & _). destruct (as_user _ _ _ _ _ A0 va' ltac:(lia) Hp) as [_ Q _ _].
    by intros ->.
Qed.

(** C4. [copyuvm] gives the child a private copy of the parent's memory: with
    enough free pages it returns a new page directory [d] such that, at every
    user address, the child reads what the parent read (or faults where it
    faulted), from pages of memory that the parent does not have.  The parent
    keeps its memory, both address spaces are in order, and above [KERNBASE]
    the child has the kernel's mappings. *)
Theorem copyuvm_copies pgdir sz env s l (b := PGROUNDUP sz) :
  0 ≤ sz ≤ KERNBASE → aspace kend s pgdir l b →
  (∀ va, 0 ≤ va < sz → has (entry (k_mem s) pgdir va) PTE_P = true) →
  66 * PGSIZE + 2 * b ≤ PGSIZE * Z.of_nat (length l) →
  ∃ d s' l', copyuvm kend kdata pgdir sz env s = Done d s' env ∧ d ≠ 0 ∧
    s' = s <| k_mem := k_mem s' |> <| k_freelist := k_freelist s' |> ∧
    aspace kend s' d l' b ∧ aspace kend s' pgdir l' b ∧
    private_copy (k_mem s) (k_mem s') pgdir d b ∧
    (∀ va, KERNBASE ≤ va < 4294967296 → entry (k_mem s') d va = kernel_entry va).
Proof.
  intros Hsz A0 Hall Hlen. destruct (copyuvm_child pgdir sz env s l Hsz A0 Hall Hlen) as (d & s' & l' & E & Hd & C & A & Hc & Hb & N).
  exists d, s', l'. split; [done|]. split; [done|]. split; [apply C|]. split; [done|].
  split; [eapply parent_aspace; [done|done|lia]|]. split; [|done]. by eapply copied_private.
Qed.
End copy.

(** A process with a page of memory. *)
Lemma one_page_process : ∃ s l, aspace KERNBASE s blank_dir l 4096 ∧
  (∀ va, 0 ≤ va < 4096 → ubyte (k_mem s) blank_dir va = Some 0) ∧ (70 ≤ length l)%nat.
Proof.
  destruct (alloc_from_ok KERNBASE 1 1 blank_dir 0 0 4096 [] (blank 72) (pages blank_page 72)) as (s & l & _ & A & U & [X _]).
  - apply blank_ok. lia.
  - done.
  - done.
  - done.
  - done.
  - right. done.
  - done.
  - vm_compute. lia.
  - exists s, l. split; [done|]. split.
    + intros va Hva. rewrite X by (unfold KERNBASE; lia). change (0 + PGSIZE * Z.of_nat 1) with 4096. area; [done|lia].
    + pose proof (uses_length _ _ _ _ _ _ _ U) as H. change (length (pages blank_page 72)) with 72%nat in H. lia.
Qed.

Lemma copyuvm_copies_witness : ∃ s d s', copyuvm KERNBASE (KERNBASE + 1052672) blank_dir 4096 [] s = Done d s' [] ∧
  ubyte (k_mem s') d 7 = Some 0 ∧ frame (entry (k_mem s') d 7) ≠ frame (entry (k_mem s') blank_dir 7).
Proof.
  destruct one_page_process as (s & l & A & X & Hl).
  assert (P : ∀ m va, ubyte m blank_dir va = Some 0 → has (entry m blank_dir va) PTE_P = true).
  { intros m va H. unfold ubyte in H. by destruct (has (entry m blank_dir va) PTE_P). }
  destruct (copyuvm_copies KERNBASE (KERNBASE + 1052672) eq_refl ltac:(unfold KERNLINK, KERNBASE, EXTMEM, PHYSTOP; lia) blank_dir 4096 [] s l)
    as (d & s' & l' & E & _ & _ & _ & _ & [B D] & _).
  - unfold KERNBASE. lia.
  - exact A.
  - intros va Hva. apply P, X, Hva.
  - change (PGROUNDUP 4096) with 4096. unfold PGSIZE. lia.
  - exists s, d, s'. split; [exact E|]. destruct (B 7 ltac:(unfold KERNBASE; lia)) as [B1 B2].
    rewrite X in B1, B2 by lia. split; [exact B1|].
    apply (D 7 7); [change (PGROUNDUP 4096) with 4096; lia|change (PGROUNDUP 4096) with 4096; lia|]. apply P, B2.
Defined.
