(* ===== verification/File.v ===== *)
(** * Open files and pipes (file.c, pipe.c)

    The open-file table [k_ftable], and pipes.  A pipe lives in a page from
    the page allocator and is known by the address of that page; its fields
    are the entry of [k_pipes] for that address.  [fileread], [piperead] and
    [filestat] return the data they copy out together with their result. *)
From S2P Require Import Prelude State Sync CString Print Kalloc Dll Bio Cache Log Fs Vm.

Definition PIPESIZE : Z := 512.

Definition pipe_zero : pipe := Pipe [] 0 0 false false.
Definition get_pipe (s : kstate) (p : Z) : pipe := default pipe_zero (k_pipes s !! p).
Definition upd_pipe (p : Z) (f : pipe → pipe) : KM unit := modify (λ s, s <| k_pipes ::= alter f p |>).

(** ** file.c: the table *)
Fixpoint free_file (tab : list file) (i : nat) : option nat :=
  match tab with
  | [] => None
  | f :: tab => if f_ref f =? 0 then Some i else free_file tab (S i)
  end.

Definition filealloc : KM (option nat) :=
  acquire LkFtable ;;
  tab <- gets k_ftable ;;
  match free_file tab 0 with
  | Some i =>
      upd_file i (λ f, f <| f_ref := 1 |>) ;;
      release LkFtable ;;
      ret (Some i)
  | None =>
      release LkFtable ;;
      ret None
  end.

Definition filedup (f : nat) : KM nat :=
  acquire LkFtable ;;
  ff <- gets (λ s, get_file s f) ;;
  if f_ref ff <? 1 then panic "filedup" else
  upd_file f (λ f, f <| f_ref ::= λ r, r + 1 |>) ;;
  release LkFtable ;;
  ret f.

(** A pointer that may be null, dereferenced. *)
Definition deref {A} (p : option A) : KM A := match p with Some a => ret a | None => panic "trap" end.

Section file.
Context (kend : Z) `{Devsw}.

(** ** pipe.c *)
Definition pipeclose (p : Z) (writable : bool) : KM unit :=
  acquire (LkPipe p) ;;
  (if writable then
     upd_pipe p (λ pi, pi <| pi_writeopen := false |>) ;;
     wakeup (ChNread p)
   else
     upd_pipe p (λ pi, pi <| pi_readopen := false |>) ;;
     wakeup (ChNwrite p)) ;;
  pi <- gets (λ s, get_pipe s p) ;;
  if negb (pi_readopen pi) && negb (pi_writeopen pi) then
    release (LkPipe p) ;;
    modify (λ s, s <| k_pipes ::= delete p |>) ;;
    kfree kend p
  else release (LkPipe p).

Definition fileclose `{Driver} (f : nat) : KM unit :=
  acquire LkFtable ;;
  ff <- gets (λ s, get_file s f) ;;
  if f_ref ff <? 1 then panic "fileclose" else
  upd_file f (λ f, f <| f_ref ::= λ r, r - 1 |>) ;;
  ff <- gets (λ s, get_file s f) ;;
  if 0 <? f_ref ff then release LkFtable else
  upd_file f (λ f, f <| f_ref := 0 |> <| f_type := FD_NONE |>) ;;
  release LkFtable ;;
  match f_type ff with
  | FD_PIPE => pipeclose (f_pipe ff) (f_writable ff)
  | FD_INODE =>
      begin_op ;;
      ip <- deref (f_ip ff) ;;
      iput ip ;;
      end_op
  | FD_NONE => ret tt
  end.

Definition pipealloc_bad `{Driver} (p : Z) (f0 f1 : option nat) : KM (option (nat * nat)) :=
  when (negb (p =? 0)) (kfree kend p) ;;
  match f0 with Some f => fileclose f | None => ret tt end ;;
  match f1 with Some f => fileclose f | None => ret tt end ;;
  ret None.

(** [None] is the result -1. *)
Definition pipealloc `{Driver} : KM (option (nat * nat)) :=
  f0 <- filealloc ;;
  match f0 with
  | None => pipealloc_bad 0 None None
  | Some f0 =>
      f1 <- filealloc ;;
      match f1 with
      | None => pipealloc_bad 0 (Some f0) None
      | Some f1 =>
          p <- kalloc ;;
          if p =? 0 then pipealloc_bad 0 (Some f0) (Some f1) else
          modify (λ s, s <| k_pipes ::= insert p (Pipe (load_bytes (k_mem s) (p + 52) 512) 0 0 true true) |>) ;;
          upd_file f0 (λ f, f <| f_type := FD_PIPE |> <| f_readable := true |> <| f_writable := false |>
                              <| f_pipe := p |>) ;;
          upd_file f1 (λ f, f <| f_type := FD_PIPE |> <| f_readable := false |> <| f_writable := true |>
                              <| f_pipe := p |>) ;;
          ret (Some (f0, f1))
      end
  end.

(** The wait of [pipewrite] for room: [false] when there will be none. *)
Definition pipe_room (p : Z) : KM bool :=
  sleep_loop
    (pi <- gets (λ s, get_pipe s p) ;;
     if negb (pi_nwrite pi =? u32 (pi_nread pi + PIPESIZE)) then ret (Some true) else
     killed <- (if negb (pi_readopen pi) then ret true else mykilled) ;;
     if killed : bool then ret (Some false) else
     wakeup (ChNread p) ;;
     ret None)
    (ChNwrite p) (LkPipe p).

Definition pipe_put (p : Z) (c : Z) : KM unit :=
  upd_pipe p (λ pi, pi <| pi_data ::= <[Z.to_nat (pi_nwrite pi `mod` PIPESIZE) := c]> |>
                       <| pi_nwrite := u32 (pi_nwrite pi + 1) |>).

Fixpoint pipewrite_from (p : Z) (addr : list Z) (n : Z) : KM Z :=
  match addr with
  | [] =>
      wakeup (ChNread p) ;;
      release (LkPipe p) ;;
      ret n
  | c :: addr =>
      ok <- pipe_room p ;;
      if ok : bool then pipe_put p c ;; pipewrite_from p addr n
      else release (LkPipe p) ;; ret (-1)
  end.
(** [addr] holds the [n] bytes to write. *)
Definition pipewrite (p : Z) (addr : list Z) (n : Z) : KM Z :=
  acquire (LkPipe p) ;;
  pipewrite_from p (take (Z.to_nat n) addr) n.

(** The wait of [piperead] for data: [false] when the reader was killed. *)
Definition pipe_data (p : Z) : KM bool :=
  sleep_loop
    (pi <- gets (λ s, get_pipe s p) ;;
     if negb ((pi_nread pi =? pi_nwrite pi) && pi_writeopen pi) then ret (Some true) else
     killed <- mykilled ;;
     if killed : bool then ret (Some false) else ret None)
    (ChNread p) (LkPipe p).

Fixpoint pipe_get (n : nat) (p : Z) : KM (list Z) :=
  match n with
  | O => ret []
  | S n =>
      pi <- gets (λ s, get_pipe s p) ;;
      if pi_nread pi =? pi_nwrite pi then ret [] else
      let c := pi_data pi !!! Z.to_nat (pi_nread pi `mod` PIPESIZE) in
      upd_pipe p (λ pi, pi <| pi_nread := u32 (pi_nread pi + 1) |>) ;;
      l <- pipe_get n p ;;
      ret (c :: l)
  end.

Definition piperead (p : Z) (n : Z) : KM (Z * list Z) :=
  acquire (LkPipe p) ;;
  ok <- pipe_data p ;;
  if negb ok then release (LkPipe p) ;; ret (-1, []) else
  l <- pipe_get (Z.to_nat n) p ;;
  wakeup (ChNwrite p) ;;
  release (LkPipe p) ;;
  ret (Z.of_nat (length l), l).

(** ** file.c: metadata, reading and writing *)
Definition filestat `{Driver} (f : nat) : KM (option stat) :=
  ff <- gets (λ s, get_file s f) ;;
  match f_type ff with
  | FD_INODE =>
      ilock (f_ip ff) ;;
      ip <- deref (f_ip ff) ;;
      st <- stati ip ;;
      iunlock (f_ip ff) ;;
      ret (Some st)
  | FD_NONE | FD_PIPE => ret None
  end.

Definition fileread `{Driver} (f : nat) (n : Z) : KM (Z * list Z) :=
  ff <- gets (λ s, get_file s f) ;;
  if negb (f_readable ff) then ret (-1, []) else
  match f_type ff with
  | FD_PIPE => piperead (f_pipe ff) n
  | FD_INODE =>
      ilock (f_ip ff) ;;
      ip <- deref (f_ip ff) ;;
      off <- gets (λ s, f_off (get_file s f)) ;;
      r <- readi ip off (u32 n) ;;
      when (0 <? r.1) (upd_file f (λ f, f <| f_off ::= λ o, u32 (o + r.1) |>)) ;;
      iunlock (f_ip ff) ;;
      ret r
  | FD_NONE => panic "fileread"
  end.

(** [int max = ((MAXOPBLOCKS-1-1-2) / 2) * 512;] *)
Definition write_max : Z := ((MAXOPBLOCKS - 1 - 1 - 2) / 2) * 512.

(** The loop of [filewrite]; the result is the final value of [i].  Every
    round but a failing one writes at least one byte. *)
Fixpoint filewrite_from `{Driver} (fuel : nat) (f : nat) (addr : list Z) (i n : Z) : KM Z :=
  if i <? n then
    match fuel with
    | O => diverge
    | S fuel =>
        let n1 := if write_max <? n - i then write_max else n - i in
        begin_op ;;
        ff <- gets (λ s, get_file s f) ;;
        ilock (f_ip ff) ;;
        ip <- deref (f_ip ff) ;;
        off <- gets (λ s, f_off (get_file s f)) ;;
        r <- writei ip (take (Z.to_nat n1) addr) off n1 ;;
        when (0 <? r) (upd_file f (λ f, f <| f_off ::= λ o, u32 (o + r) |>)) ;;
        iunlock (f_ip ff) ;;
        end_op ;;
        if r <? 0 then ret i else
        if negb (r =? n1) then panic "short filewrite" else
        filewrite_from fuel f (drop (Z.to_nat r) addr) (i + r) n
    end
  else ret i.

Definition filewrite `{Driver} (f : nat) (addr : list Z) (n : Z) : KM Z :=
  ff <- gets (λ s, get_file s f) ;;
  if negb (f_writable ff) then ret (-1) else
  match f_type ff with
  | FD_PIPE => pipewrite (f_pipe ff) addr n
  | FD_INODE =>
      i <- filewrite_from (Z.to_nat n) f addr 0 n ;;
      ret (if i =? n then n else -1)
  | FD_NONE => panic "filewrite"
  end.
End file.
