(* ===== verification/Proc.v ===== *)
(** * Processes (proc.c)

    The process table, from [allocproc] to [wait] and [kill], the scheduler
    under its three compile-time policies, and the accounting of running,
    waiting and turnaround times.  A process is its index in the table.  The
    trap frame and the context, which C code reaches through pointers into the
    kernel stack, are fields of the process; [kdata], [forkret_pc],
    [trapret_pc] and [initcode] are what the linker provides.

    A store or load outside the three ten-element arrays of [struct proc]
    has no meaning in C; the model stops there ([wild]). *)
From S2P Require Import Prelude State Sync CString Print Kalloc Dll Bio Cache Log Fs Vm File.

(** SCHEDFLAG of the Makefile. *)
Inductive policy := DEFAULT | FRR | FCFS.

Definition wild {A} : KM A := panic "out of bounds".

Definition NTIMES : Z := 10.

(** [safestrcpy(dst, src, n)] on byte arrays: when the loop ends at the NUL of
    [src] it has copied that NUL, and the final store is the byte after it. *)
Definition safestrcpy_bytes (dst src : list Z) (n : nat) : list Z :=
  let c := cstr (rd src) (n - 1) in
  let z := if (length c <? n - 1)%nat then [0; 0] else [0] in
  c ++ z ++ drop (length c + length z) dst.

Definition SEG_UCODE : Z := 3.
Definition SEG_UDATA : Z := 4.
Definition DPL_USER : Z := 3.
Definition FL_IF : Z := 512.

(** [p->tf] and [p->context] relative to the kernel stack. *)
Definition TF_SIZE : Z := 76.
Definition CTX_SIZE : Z := 20.

Fixpoint first_state (st : procstate) (tab : list proc) (i : nat) : option nat :=
  match tab with
  | [] => None
  | p :: tab => if decide (p_state p = st) then Some i else first_state st tab (S i)
  end.

Section proc.
Context (kend kdata forkret_pc trapret_pc : Z) (initcode : list Z) `{Devsw}.

(** ** Creating processes *)
Definition allocproc : KM (option nat) :=
  acquire LkPtable ;;
  tab <- gets k_procs ;;
  match first_state UNUSED tab 0 with
  | None =>
      release LkPtable ;;
      ret None
  | Some p =>
      pid <- gets k_nextpid ;;
      ticks <- gets k_ticks ;;
      upd_proc p (λ q, q <| p_state := EMBRYO |> <| p_pid := pid |>) ;;
      modify (λ s, s <| k_nextpid ::= λ n, s32 (n + 1) |>) ;;
      upd_proc p (λ q, q <| p_running_t := 0 |> <| p_ctime := s32 ticks |> <| p_waiting_t := 0 |>
                         <| p_pidtimes := 0 |>) ;;
      release LkPtable ;;
      kstack <- kalloc ;;
      upd_proc p (λ q, q <| p_kstack := kstack |>) ;;
      if kstack =? 0 then
        upd_proc p (λ q, q <| p_state := UNUSED |>) ;;
        ret None
      else
        let sp := kstack + KSTACKSIZE in
        let sp := sp - TF_SIZE in
        let sp := sp - 4 in
        save4 sp trapret_pc ;;
        upd_proc p (λ q, q <| p_context := Context_ 0 0 0 0 forkret_pc |>) ;;
        ret (Some p)
  end.

Definition userinit `{Driver} : KM unit :=
  p <- allocproc ;;
  modify (λ s, s <| k_initproc := p |>) ;;
  p <- deref p ;;
  pgdir <- setupkvm kend kdata ;;
  upd_proc p (λ q, q <| p_pgdir := pgdir |>) ;;
  if pgdir =? 0 then panic "userinit: out of memory?" else
  inituvm pgdir initcode (Z.of_nat (length initcode)) ;;
  ticks <- gets k_ticks ;;
  upd_proc p (λ q, q <| p_sz := PGSIZE |> <| p_ctime := s32 ticks |>) ;;
  let ds := Z.lor (Z.shiftl SEG_UDATA 3) DPL_USER in
  upd_proc p (λ q, q <| p_tf := tf_zero <| tf_cs := Z.lor (Z.shiftl SEG_UCODE 3) DPL_USER |>
                                        <| tf_ds := ds |> <| tf_es := ds |> <| tf_ss := ds |>
                                        <| tf_eflags := FL_IF |> <| tf_esp := PGSIZE |> <| tf_eip := 0 |> |>) ;;
  upd_proc p (λ q, q <| p_slot := 0 |>) ;;
  upd_proc p (λ q, q <| p_name := safestrcpy_bytes (p_name q) (bytes "initcode") 16 |>) ;;
  cwd <- namei (bytes "/") ;;
  upd_proc p (λ q, q <| p_cwd := cwd |>) ;;
  acquire LkPtable ;;
  upd_proc p (λ q, q <| p_state := RUNNABLE |>) ;;
  release LkPtable.

Definition growproc (n : Z) : KM Z :=
  p <- curproc ;;
  q <- gets (λ s, get_proc s p) ;;
  let done sz :=
    upd_proc p (λ q, q <| p_sz := sz |>) ;;
    switchuvm (Some p) ;;
    ret 0 in
  if 0 <? n then
    sz <- allocuvm kend (p_pgdir q) (p_sz q) (u32 (p_sz q + n)) ;;
    if sz =? 0 then ret (-1) else done sz
  else if n <? 0 then
    sz <- deallocuvm kend (p_pgdir q) (p_sz q) (u32 (p_sz q + n)) ;;
    if sz =? 0 then ret (-1) else done sz
  else done (p_sz q).

Definition fork : KM Z :=
  cp <- curproc ;;
  np <- allocproc ;;
  match np with
  | None => ret (-1)
  | Some np =>
      cur <- gets (λ s, get_proc s cp) ;;
      pgdir <- copyuvm kend kdata (p_pgdir cur) (p_sz cur) ;;
      upd_proc np (λ q, q <| p_pgdir := pgdir |>) ;;
      if pgdir =? 0 then
        kstack <- gets (λ s, p_kstack (get_proc s np)) ;;
        kfree kend kstack ;;
        upd_proc np (λ q, q <| p_kstack := 0 |> <| p_state := UNUSED |>) ;;
        ret (-1)
      else
      cur <- gets (λ s, get_proc s cp) ;;
      upd_proc np (λ q, q <| p_sz := p_sz cur |> <| p_parent := Some cp |>
                          <| p_tf := (p_tf cur) <| tf_eax := 0 |> |>) ;;
      foreach (λ i,
        match p_ofile cur !!! i with
        | Some f => f <- filedup f ;; upd_proc np (λ q, q <| p_ofile ::= <[i := Some f]> |>)
        | None => ret tt
        end) (seq 0 NOFILE) ;;
      cwd <- deref (p_cwd cur) ;;
      cwd <- idup cwd ;;
      upd_proc np (λ q, q <| p_cwd := Some cwd |>
                          <| p_name := safestrcpy_bytes (p_name q) (p_name cur) 16 |>) ;;
      pid <- gets (λ s, p_pid (get_proc s np)) ;;
      acquire LkPtable ;;
      upd_proc np (λ q, q <| p_state := RUNNABLE |>) ;;
      release LkPtable ;;
      ret pid
  end.

(** ** Leaving *)

(** [p->pwaiting_t[i] = ...] and the two stores next to it. *)
Definition save_times (p : nat) (i : Z) (cur : proc) : KM unit :=
  if (0 <=? i) && (i <? NTIMES) then
    upd_proc p (λ q, q <| p_pwaiting_t ::= <[Z.to_nat i := p_waiting_t cur]> |>
                       <| p_prunning_t ::= <[Z.to_nat i := p_running_t cur]> |>
                       <| p_pturnaround_t ::= <[Z.to_nat i := p_turnaround_t cur]> |>)
  else wild.

(** One round of the loop of [exit] over the table. *)
Definition exit_child (cp p : nat) : KM unit :=
  cur <- gets (λ s, get_proc s cp) ;;
  q <- gets (λ s, get_proc s p) ;;
  when (bool_decide (p_parent cur = Some p)) (save_times p (s32 (s32 (p_pid cur - p_pid q) - 1)) cur) ;;
  q <- gets (λ s, get_proc s p) ;;
  when (bool_decide (p_parent q = Some cp))
    (init <- gets k_initproc ;;
     upd_proc p (λ q, q <| p_parent := init |>) ;;
     when (bool_decide (p_state q = ZOMBIE))
       (match init with Some i => wakeup1 (ChProc i) | None => ret tt end)).

Definition exit_close `{Driver} (cp fd : nat) : KM unit :=
  o <- gets (λ s, p_ofile (get_proc s cp) !!! fd) ;;
  match o with
  | Some f =>
      fileclose kend f ;;
      upd_proc cp (λ q, q <| p_ofile ::= <[fd := None]> |>)
  | None => ret tt
  end.

Definition exit `{Driver} : KM unit :=
  cp <- curproc ;;
  init <- gets k_initproc ;;
  if bool_decide (init = Some cp) then panic "init exiting" else
  foreach (exit_close cp) (seq 0 NOFILE) ;;
  begin_op ;;
  cwd <- gets (λ s, p_cwd (get_proc s cp)) ;;
  cwd <- deref cwd ;;
  iput cwd ;;
  end_op ;;
  upd_proc cp (λ q, q <| p_cwd := None |>) ;;
  acquire LkPtable ;;
  parent <- gets (λ s, p_parent (get_proc s cp)) ;;
  match parent with Some i => wakeup1 (ChProc i) | None => ret tt end ;;
  foreach (exit_child cp) (seq 0 NPROC) ;;
  upd_proc cp (λ q, q <| p_state := ZOMBIE |>) ;;
  sched ;;
  panic "zombie exit".

(** The scan of [wait]: the pid of a child it has freed, or whether there are
    children. *)
Fixpoint wait_scan (cp : nat) (l : list nat) (havekids : bool) : KM (Z + bool) :=
  match l with
  | [] => ret (inr havekids)
  | p :: l =>
      q <- gets (λ s, get_proc s p) ;;
      if negb (bool_decide (p_parent q = Some cp)) then wait_scan cp l havekids
      else if negb (bool_decide (p_state q = ZOMBIE)) then wait_scan cp l true
      else
        let pid := p_pid q in
        kfree kend (p_kstack q) ;;
        upd_proc p (λ q, q <| p_kstack := 0 |>) ;;
        freevm kend (p_pgdir q) ;;
        upd_proc p (λ q, q <| p_pid := 0 |> <| p_parent := None |> <| p_name ::= <[0%nat := 0]> |>
                           <| p_killed := false |> <| p_ctime := 0 |> <| p_state := UNUSED |>) ;;
        release LkPtable ;;
        ret (inl pid)
  end.

Definition wait : KM Z :=
  cp <- curproc ;;
  acquire LkPtable ;;
  sleep_loop
    (r <- wait_scan cp (seq 0 NPROC) false ;;
     match r with
     | inl pid => ret (Some pid)
     | inr havekids =>
         killed <- gets (λ s, p_killed (get_proc s cp)) ;;
         if negb havekids || killed then
           release LkPtable ;;
           ret (Some (-1))
         else ret None
     end)
    (ChProc cp) LkPtable.

(** ** The scheduler *)

(** The process the body of the scheduler's loop runs when it looks at entry
    [p], or [None] when it goes on to the next entry. *)
Definition choose (pol : policy) (s : kstate) (p : nat) : option nat :=
  match pol with
  | DEFAULT | FRR => if decide (p_state (get_proc s p) = RUNNABLE) then Some p else None
  | FCFS =>
      let firstCome : option nat := None in
      if decide (p_state (get_proc s p) = RUNNABLE) then
        let firstCome :=
          if 1 <? p_pid (get_proc s p) then
            match firstCome with
            | Some f => if p_ctime (get_proc s p) <? p_ctime (get_proc s f) then Some p else firstCome
            | None => Some p
            end
          else firstCome in
        match firstCome with
        | Some f => Some f
        | None => Some p
        end
      else None
  end.

(** Running process [p] until it comes back to the scheduler. *)
Definition dispatch (p : nat) : KM unit :=
  modify (λ s, s <| k_cpu_proc := Some p |>) ;;
  switchuvm (Some p) ;;
  upd_proc p (λ q, q <| p_state := RUNNING |>) ;;
  swtch ;;
  switchkvm ;;
  modify (λ s, s <| k_cpu_proc := None |>).

(** The inner loop from entry [p] on.  The loop goes on after the process it
    has run, which under [FCFS] is assigned to the loop variable. *)
Fixpoint sched_from (pol : policy) (n : nat) (p : nat) : KM unit :=
  match n with
  | O => ret tt
  | S n =>
      if (p <? NPROC)%nat then
        c <- gets (λ s, choose pol s p) ;;
        match c with
        | None => sched_from pol n (S p)
        | Some p => dispatch p ;; sched_from pol n (S p)
        end
      else ret tt
  end.

(** One round of the outer loop. *)
Definition sched_pass (pol : policy) : KM unit :=
  acquire LkPtable ;;
  sched_from pol (S NPROC) 0 ;;
  release LkPtable.

(** [rounds] rounds of the loop, which never ends. *)
Fixpoint scheduler_rounds (pol : policy) (rounds : nat) : KM unit :=
  match rounds with
  | O => ret tt
  | S rounds => sched_pass pol ;; scheduler_rounds pol rounds
  end.
Definition scheduler (pol : policy) (rounds : nat) : KM unit :=
  modify (λ s, s <| k_cpu_proc := None |>) ;;
  scheduler_rounds pol rounds.

(** A new process starts here, holding the lock of the table; [first] is the
    static variable of that name. *)
Definition forkret `{Driver} (first : bool) : KM unit :=
  release LkPtable ;;
  when first (iinit ROOTDEV ;; initlog ROOTDEV).

(** ** Signals and listings *)
Fixpoint pid_index (pid : Z) (tab : list proc) (i : nat) : option nat :=
  match tab with
  | [] => None
  | p :: tab => if p_pid p =? pid then Some i else pid_index pid tab (S i)
  end.

Definition kill (pid : Z) : KM Z :=
  acquire LkPtable ;;
  tab <- gets k_procs ;;
  match pid_index pid tab 0 with
  | Some p =>
      upd_proc p (λ q, q <| p_killed := true |>) ;;
      upd_proc p (λ q, if decide (p_state q = SLEEPING) then q <| p_state := RUNNABLE |> else q) ;;
      release LkPtable ;;
      ret 0
  | None =>
      release LkPtable ;;
      ret (-1)
  end.

(** spinlock.c: the return addresses on a stack, following the saved [%ebp]. *)
Fixpoint callerpcs (m : mem) (ebp : Z) (n : nat) : list Z :=
  match n with
  | O => []
  | S n =>
      if (ebp =? 0) || (ebp <? KERNBASE) || (ebp =? 4294967295) then replicate (S n) 0
      else ld4 m (ebp + 4) :: callerpcs m (ld4 m ebp) n
  end.
(** [v] is the address of the first argument. *)
Definition getcallerpcs (m : mem) (v : Z) : list Z := callerpcs m (u32 (v - 8)) 10.

Definition state_name (st : procstate) : list Z :=
  bytes match st with
        | UNUSED => "unused"
        | EMBRYO => "embryo"
        | SLEEPING => "sleep "
        | RUNNABLE => "runble"
        | RUNNING => "run   "
        | ZOMBIE => "zombie"
        end.

Fixpoint until_zero (l : list Z) : list Z :=
  match l with
  | [] => []
  | x :: l => if x =? 0 then [] else x :: until_zero l
  end.

Definition procdump1 (p : nat) : KM unit :=
  q <- gets (λ s, get_proc s p) ;;
  if decide (p_state q = UNUSED) then ret tt else
  Cons.cprintf "%d %s %s" [CInt (p_pid q); CStr (state_name (p_state q)); CStr (cstr (rd (p_name q)) 16)] ;;
  when (bool_decide (p_state q = SLEEPING))
    (pc <- gets (λ s, getcallerpcs (k_mem s) (u32 (c_ebp (p_context q) + 8))) ;;
     foreach (λ x, Cons.cprintf " %p" [CInt x]) (until_zero pc)) ;;
  Cons.cprintf nl [].
Definition procdump : KM unit := foreach procdump1 (seq 0 NPROC).

(** ** Times of the children *)
Definition child_time (f : proc → list Z) : KM Z :=
  p <- curproc ;;
  q <- gets (λ s, get_proc s p) ;;
  if (0 <=? p_pidtimes q) && (p_pidtimes q <? NTIMES) then ret (f q !!! Z.to_nat (p_pidtimes q)) else wild.

Definition waittime : KM Z := child_time p_pwaiting_t.
Definition runtime : KM Z := child_time p_prunning_t.
Definition turntime : KM Z :=
  tt <- child_time p_pturnaround_t ;;
  p <- curproc ;;
  upd_proc p (λ q, q <| p_pidtimes ::= λ n, s32 (n + 1) |>) ;;
  ret tt.
End proc.
