(* ===== verification/Exec.v ===== *)
(** * Running programs (exec.c, elf.h)

    [exec] replaces the memory of the current process by that of a program
    file.  [path] and the strings of [argv] are the bytes the user pointers
    point to.  A step of the body that jumps to [bad] returns [None]. *)
From S2P Require Import Prelude State Sync CString Print Kalloc Dll Bio Cache Log Fs Vm File Proc.

(** ** elf.h *)
Definition ELF_MAGIC : Z := 1179403647.
Definition ELF_PROG_LOAD : Z := 1.

Record elfhdr := ElfHdr { eh_magic : Z; eh_entry : Z; eh_phoff : Z; eh_phnum : Z }.
(** The fields of the 52 bytes of a header that [exec] uses. *)
Definition get_elfhdr (d : list Z) : elfhdr :=
  ElfHdr (ldn 4 d 0) (ldn 4 d 24) (ldn 4 d 28) (ldn 2 d 44).

Record proghdr := ProgHdr { ph_type : Z; ph_off : Z; ph_vaddr : Z; ph_filesz : Z; ph_memsz : Z }.
Definition get_proghdr (d : list Z) : proghdr :=
  ProgHdr (ldn 4 d 0) (ldn 4 d 4) (ldn 4 d 8) (ldn 4 d 16) (ldn 4 d 20).

(** The part of a path after its last slash. *)
Fixpoint last_elem (path last : list Z) : list Z :=
  match path with
  | [] => last
  | c :: path => last_elem path (if c =? 47 then path else last)
  end.

Section exec.
Context (kend kdata : Z) `{Devsw}.

(** The loop over the program headers: the size of the image. *)
Fixpoint exec_segments `{Driver} (n : nat) (ip : nat) (pgdir off sz : Z) : KM (option Z) :=
  match n with
  | O => ret (Some sz)
  | S n =>
      r <- readi ip (u32 off) 32 ;;
      if negb (r.1 =? 32) then ret None else
      let ph := get_proghdr r.2 in
      if negb (ph_type ph =? ELF_PROG_LOAD) then exec_segments n ip pgdir (s32 (off + 32)) sz else
      if ph_memsz ph <? ph_filesz ph then ret None else
      if u32 (ph_vaddr ph + ph_memsz ph) <? ph_vaddr ph then ret None else
      sz <- allocuvm kend pgdir sz (u32 (ph_vaddr ph + ph_memsz ph)) ;;
      if sz =? 0 then ret None else
      if negb (ph_vaddr ph `mod` PGSIZE =? 0) then ret None else
      r <- loaduvm pgdir (ph_vaddr ph) ip (ph_off ph) (ph_filesz ph) ;;
      if r <? 0 then ret None else
      exec_segments n ip pgdir (s32 (off + 32)) sz
  end.

(** The argument strings, pushed below [sp]: the new [sp] and the addresses. *)
Fixpoint push_args (pgdir sp : Z) (argc : nat) (argv : list (list Z)) : KM (option (Z * list Z)) :=
  match argv with
  | [] => ret (Some (sp, []))
  | a :: argv =>
      if (MAXARG <=? argc)%nat then ret None else
      let len := Z.of_nat (length a) + 1 in
      let sp := Z.land (u32 (sp - len)) (Z.lnot 3) in
      r <- copyout pgdir sp (a ++ [0]) len ;;
      if r <? 0 then ret None else
      rest <- push_args pgdir sp (S argc) argv ;;
      match rest with
      | None => ret None
      | Some (sp', l) => ret (Some (sp', sp :: l))
      end
  end.

(** [bad:] *)
Definition exec_bad `{Driver} (pgdir : Z) (ip : option nat) : KM Z :=
  when (negb (pgdir =? 0)) (freevm kend pgdir) ;;
  match ip with
  | Some ip => iunlockput ip ;; end_op
  | None => ret tt
  end ;;
  ret (-1).

(** After the image is loaded: the stack, and the switch to the new image. *)
Definition exec_finish `{Driver} (cp : nat) (path : list Z) (argv : list (list Z)) (entry pgdir sz : Z) : KM Z :=
  let sz := PGROUNDUP sz in
  sz <- allocuvm kend pgdir sz (u32 (sz + 2 * PGSIZE)) ;;
  if sz =? 0 then exec_bad pgdir None else
  clearpteu pgdir (u32 (sz - 2 * PGSIZE)) ;;
  args <- push_args pgdir sz 0 argv ;;
  match args with
  | None => exec_bad pgdir None
  | Some (sp, addrs) =>
      let argc := Z.of_nat (length argv) in
      let ustack := [4294967295; argc; u32 (sp - (argc + 1) * 4)] ++ addrs ++ [0] in
      let sp := u32 (sp - (3 + argc + 1) * 4) in
      r <- copyout pgdir sp (flat_map (le_bytes 4) ustack) ((3 + argc + 1) * 4) ;;
      if r <? 0 then exec_bad pgdir None else
      upd_proc cp (λ q, q <| p_name := safestrcpy_bytes (p_name q) (last_elem path path) 16 |>) ;;
      oldpgdir <- gets (λ s, p_pgdir (get_proc s cp)) ;;
      upd_proc cp (λ q, q <| p_pgdir := pgdir |> <| p_sz := sz |>
                          <| p_tf ::= λ t, t <| tf_eip := entry |> <| tf_esp := sp |> |>) ;;
      switchuvm (Some cp) ;;
      freevm kend oldpgdir ;;
      ret 0
  end.

Definition exec `{Driver} (path : list Z) (argv : list (list Z)) : KM Z :=
  cp <- curproc ;;
  begin_op ;;
  ip <- namei path ;;
  match ip with
  | None =>
      end_op ;;
      Cons.cprintf (String.append "exec: fail" nl) [] ;;
      ret (-1)
  | Some ip =>
      ilock (Some ip) ;;
      r <- readi ip 0 52 ;;
      if negb (r.1 =? 52) then exec_bad 0 (Some ip) else
      let elf := get_elfhdr r.2 in
      if negb (eh_magic elf =? ELF_MAGIC) then exec_bad 0 (Some ip) else
      pgdir <- setupkvm kend kdata ;;
      if pgdir =? 0 then exec_bad 0 (Some ip) else
      sz <- exec_segments (Z.to_nat (eh_phnum elf)) ip pgdir (s32 (eh_phoff elf)) 0 ;;
      match sz with
      | None => exec_bad pgdir (Some ip)
      | Some sz =>
          iunlockput ip ;;
          end_op ;;
          exec_finish cp path argv (eh_entry elf) pgdir sz
      end
  end.
End exec.
