(* ===== verification/Syscall.v ===== *)
(** * System calls (syscall.c, sysproc.c, sysfile.c)

    The kernel reads and writes user memory through the page table the
    machine is using; an access to a page that is not mapped traps in the
    kernel, which panics.  Fetching routines return [None] for the result -1;
    a fetched string is the bytes at the pointer, up to the NUL. *)
From S2P Require Import Prelude State Sync CString Print Kalloc Dll Bio Cache Log Fs Vm File Proc Exec.

(** ** User memory *)

Definition uload (va : Z) : KM Z :=
  e <- gets (λ s, upte s va) ;;
  if has e PTE_P then gets (λ s, k_mem s (utrans s va)) else panic "trap".
(** Writes respect the write bit: the kernel runs with CR0_WP set. *)
Definition ustore (va b : Z) : KM unit :=
  e <- gets (λ s, upte s va) ;;
  if has e PTE_P && has e PTE_W then modify (λ s, s <| k_mem ::= <[utrans s va := b]> |>) else panic "trap".

Fixpoint uload_bytes (va : Z) (n : nat) : KM (list Z) :=
  match n with
  | O => ret []
  | S n => b <- uload va ;; l <- uload_bytes (va + 1) n ;; ret (b :: l)
  end.
Fixpoint ustore_bytes (va : Z) (l : list Z) : KM unit :=
  match l with
  | [] => ret tt
  | b :: l => ustore va b ;; ustore_bytes (va + 1) l
  end.

(** ** syscall.c: arguments *)
Definition fetchint (addr : Z) : KM (option Z) :=
  p <- curproc ;;
  sz <- gets (λ s, p_sz (get_proc s p)) ;;
  if (sz <=? addr) || (sz <? u32 (addr + 4)) then ret None else
  l <- uload_bytes addr 4 ;;
  ret (Some (s32 (le_val l))).

(** [for(s = *pp; s < ep; s++)] with [n] bytes to go. *)
Fixpoint fetchstr_from (n : nat) (s : Z) (acc : list Z) : KM (option (list Z)) :=
  match n with
  | O => ret None
  | S n =>
      c <- uload s ;;
      if c =? 0 then ret (Some (rev acc)) else fetchstr_from n (s + 1) (c :: acc)
  end.
Definition fetchstr (addr : Z) : KM (option (list Z)) :=
  p <- curproc ;;
  sz <- gets (λ s, p_sz (get_proc s p)) ;;
  if sz <=? addr then ret None else fetchstr_from (Z.to_nat (sz - addr)) addr [].

Definition argint (n : Z) : KM (option Z) :=
  p <- curproc ;;
  tf <- gets (λ s, p_tf (get_proc s p)) ;;
  fetchint (u32 (tf_esp tf + 4 + 4 * n)).

Definition argptr (n size : Z) : KM (option Z) :=
  p <- curproc ;;
  i <- argint n ;;
  match i with
  | None => ret None
  | Some i =>
      sz <- gets (λ s, p_sz (get_proc s p)) ;;
      if (size <? 0) || (sz <=? u32 i) || (sz <? u32 (u32 i + size)) then ret None else ret (Some (u32 i))
  end.

Definition argstr (n : Z) : KM (option (list Z)) :=
  addr <- argint n ;;
  match addr with
  | None => ret None
  | Some addr => fetchstr (u32 addr)
  end.

(** [if((x = m) < 0) return -1; ...] *)
Definition or_fail {A} (m : KM (option A)) (k : A → KM Z) : KM Z :=
  r <- m ;; match r with Some a => k a | None => ret (-1) end.

Section syscalls.
Context (kend kdata forkret_pc trapret_pc : Z) `{Devsw}.

(** ** sysproc.c *)
Definition sys_fork : KM Z := fork kend kdata forkret_pc trapret_pc.
Definition sys_exit `{Driver} : KM Z := exit kend ;; ret 0.
Definition sys_wait : KM Z := wait kend.
Definition sys_kill : KM Z := or_fail (argint 0) kill.
Definition sys_getpid : KM Z := mypid.
Definition sys_sbrk : KM Z :=
  or_fail (argint 0) (λ n,
    p <- curproc ;;
    addr <- gets (λ s, p_sz (get_proc s p)) ;;
    r <- growproc kend n ;;
    if r <? 0 then ret (-1) else ret (s32 addr)).

Definition sys_sleep : KM Z :=
  or_fail (argint 0) (λ n,
    acquire LkTicks ;;
    ticks0 <- gets k_ticks ;;
    sleep_loop
      (ticks <- gets k_ticks ;;
       if negb (u32 (ticks - ticks0) <? u32 n) then release LkTicks ;; ret (Some 0) else
       killed <- mykilled ;;
       if killed : bool then release LkTicks ;; ret (Some (-1)) else ret None)
      ChTicks LkTicks).

Definition sys_uptime : KM Z :=
  acquire LkTicks ;;
  xticks <- gets k_ticks ;;
  release LkTicks ;;
  ret (s32 xticks).

Definition sys_getyear : KM Z := ret 1975.
Definition sys_runtime : KM Z := runtime.
Definition sys_waittime : KM Z := waittime.
Definition sys_turntime : KM Z := turntime.

(** ** sysfile.c: descriptors *)

(** The descriptor and the file. *)
Definition argfd (n : Z) : KM (option (Z * nat)) :=
  fd <- argint n ;;
  match fd with
  | None => ret None
  | Some fd =>
      if (fd <? 0) || (Z.of_nat NOFILE <=? fd) then ret None else
      p <- curproc ;;
      o <- gets (λ s, p_ofile (get_proc s p) !!! Z.to_nat fd) ;;
      match o with
      | None => ret None
      | Some f => ret (Some (fd, f))
      end
  end.

Fixpoint free_fd {A} (l : list (option A)) (fd : nat) : option nat :=
  match l with
  | [] => None
  | o :: l => match o with None => Some fd | Some _ => free_fd l (S fd) end
  end.

Definition fdalloc (f : nat) : KM (option nat) :=
  p <- curproc ;;
  l <- gets (λ s, p_ofile (get_proc s p)) ;;
  match free_fd l 0 with
  | None => ret None
  | Some fd =>
      upd_proc p (λ q, q <| p_ofile ::= <[fd := Some f]> |>) ;;
      ret (Some fd)
  end.

Definition sys_dup : KM Z :=
  or_fail (argfd 0) (λ '(_, f),
  or_fail (fdalloc f) (λ fd,
    filedup f ;;
    ret (Z.of_nat fd))).

Definition sys_read `{Driver} : KM Z :=
  or_fail (argfd 0) (λ '(_, f),
  or_fail (argint 2) (λ n,
  or_fail (argptr 1 n) (λ p,
    r <- fileread f n ;;
    ustore_bytes p r.2 ;;
    ret r.1))).

Definition sys_write `{Driver} : KM Z :=
  or_fail (argfd 0) (λ '(_, f),
  or_fail (argint 2) (λ n,
  or_fail (argptr 1 n) (λ p,
    l <- uload_bytes p (Z.to_nat n) ;;
    filewrite f l n))).

Definition sys_close `{Driver} : KM Z :=
  or_fail (argfd 0) (λ '(fd, f),
    p <- curproc ;;
    upd_proc p (λ q, q <| p_ofile ::= <[Z.to_nat fd := None]> |>) ;;
    fileclose kend f ;;
    ret 0).

(** The fields of [struct stat], at their offsets. *)
Definition ustore_stat (p : Z) (st : stat) : KM unit :=
  ustore_bytes p (le_bytes 2 (st_type st)) ;;
  ustore_bytes (p + 4) (le_bytes 4 (st_dev_ st)) ;;
  ustore_bytes (p + 8) (le_bytes 4 (st_ino st)) ;;
  ustore_bytes (p + 12) (le_bytes 2 (st_nlink st)) ;;
  ustore_bytes (p + 16) (le_bytes 4 (st_size st)).

Definition sys_fstat `{Driver} : KM Z :=
  or_fail (argfd 0) (λ '(_, f),
  or_fail (argptr 1 20) (λ p,
    r <- filestat f ;;
    match r with
    | None => ret (-1)
    | Some st => ustore_stat p st ;; ret 0
    end)).

(** ** sysfile.c: names *)
Definition link_bad `{Driver} (ip : nat) : KM Z :=
  ilock (Some ip) ;;
  upd_inode ip (λ i, i <| i_nlink ::= λ n, s16 (n - 1) |>) ;;
  iupdate ip ;;
  iunlockput ip ;;
  end_op ;;
  ret (-1).

Definition sys_link `{Driver} : KM Z :=
  or_fail (argstr 0) (λ old,
  or_fail (argstr 1) (λ new,
    begin_op ;;
    ip <- namei old ;;
    match ip with
    | None => end_op ;; ret (-1)
    | Some ip =>
        ilock (Some ip) ;;
        t <- gets (λ s, i_type (get_inode s ip)) ;;
        if t =? T_DIR then iunlockput ip ;; end_op ;; ret (-1) else
        upd_inode ip (λ i, i <| i_nlink ::= λ n, s16 (n + 1) |>) ;;
        iupdate ip ;;
        iunlock (Some ip) ;;
        r <- nameiparent new ;;
        match r with
        | (None, _) => link_bad ip
        | (Some dp, name) =>
            ilock (Some dp) ;;
            d <- gets (λ s, i_dev (get_inode s dp)) ;;
            i <- gets (λ s, get_inode s ip) ;;
            r <- (if negb (d =? i_dev i) then ret (-1) else dirlink dp name (i_inum i)) ;;
            if r <? 0 then iunlockput dp ;; link_bad ip else
            iunlockput dp ;;
            iput ip ;;
            end_op ;;
            ret 0
        end
    end)).

Fixpoint isdirempty_from `{Driver} (n : nat) (dp : nat) (off : Z) : KM bool :=
  match n with
  | O => ret true
  | S n =>
      size <- gets (λ s, i_size (get_inode s dp)) ;;
      if off <? size then
        r <- readi dp off 16 ;;
        if negb (r.1 =? 16) then panic "isdirempty: readi" else
        if negb (de_inum r.2 =? 0) then ret false else isdirempty_from n dp (off + 16)
      else ret true
  end.
Definition isdirempty `{Driver} (dp : nat) : KM bool :=
  size <- gets (λ s, i_size (get_inode s dp)) ;;
  isdirempty_from (S (Z.to_nat size)) dp 32.

Definition unlink_bad `{Driver} (dp : nat) : KM Z := iunlockput dp ;; end_op ;; ret (-1).

Definition sys_unlink `{Driver} : KM Z :=
  or_fail (argstr 0) (λ path,
    begin_op ;;
    r <- nameiparent path ;;
    match r with
    | (None, _) => end_op ;; ret (-1)
    | (Some dp, name) =>
        ilock (Some dp) ;;
        if (namecmp name (bytes ".") =? 0) || (namecmp name (bytes "..") =? 0) then unlink_bad dp else
        r <- dirlookup dp name ;;
        match r with
        | None => unlink_bad dp
        | Some (ip, off) =>
            ilock (Some ip) ;;
            i <- gets (λ s, get_inode s ip) ;;
            if i_nlink i <? 1 then panic "unlink: nlink < 1" else
            empty <- (if i_type i =? T_DIR then isdirempty ip else ret true) ;;
            if negb empty then iunlockput ip ;; unlink_bad dp else
            n <- writei dp (replicate 16 0) off 16 ;;
            if negb (n =? 16) then panic "unlink: writei" else
            when (i_type i =? T_DIR)
              (upd_inode dp (λ i, i <| i_nlink ::= λ n, s16 (n - 1) |>) ;; iupdate dp) ;;
            iunlockput dp ;;
            upd_inode ip (λ i, i <| i_nlink ::= λ n, s16 (n - 1) |>) ;;
            iupdate ip ;;
            iunlockput ip ;;
            end_op ;;
            ret 0
        end
    end).

Definition create `{Driver} (path : list Z) (type major minor : Z) : KM (option nat) :=
  r <- nameiparent path ;;
  match r with
  | (None, _) => ret None
  | (Some dp, name) =>
      ilock (Some dp) ;;
      r <- dirlookup dp name ;;
      match r with
      | Some (ip, _) =>
          iunlockput dp ;;
          ilock (Some ip) ;;
          t <- gets (λ s, i_type (get_inode s ip)) ;;
          if (type =? T_FILE) && (t =? T_FILE) then ret (Some ip) else
          iunlockput ip ;;
          ret None
      | None =>
          d <- gets (λ s, get_inode s dp) ;;
          ip <- ialloc (i_dev d) type ;;
          ilock (Some ip) ;;
          upd_inode ip (λ i, i <| i_major := s16 major |> <| i_minor := s16 minor |> <| i_nlink := 1 |>) ;;
          iupdate ip ;;
          inum <- gets (λ s, i_inum (get_inode s ip)) ;;
          when (type =? T_DIR)
            (upd_inode dp (λ i, i <| i_nlink ::= λ n, s16 (n + 1) |>) ;;
             iupdate dp ;;
             r <- dirlink ip (bytes ".") inum ;;
             r <- (if r <? 0 then ret r else dirlink ip (bytes "..") (i_inum d)) ;;
             when (r <? 0) (panic "create dots")) ;;
          r <- dirlink dp name inum ;;
          if r <? 0 then panic "create: dirlink" else
          iunlockput dp ;;
          ret (Some ip)
      end
  end.

Definition O_RDONLY : Z := 0.
Definition O_WRONLY : Z := 1.
Definition O_RDWR : Z := 2.
Definition O_CREATE : Z := 512.

(** The inode [sys_open] opens, locked; [None] after the cleanup. *)
Definition open_inode `{Driver} (path : list Z) (omode : Z) : KM (option nat) :=
  if has omode O_CREATE then
    ip <- create path T_FILE 0 0 ;;
    match ip with
    | None => end_op ;; ret None
    | Some ip => ret (Some ip)
    end
  else
    ip <- namei path ;;
    match ip with
    | None => end_op ;; ret None
    | Some ip =>
        ilock (Some ip) ;;
        t <- gets (λ s, i_type (get_inode s ip)) ;;
        if (t =? T_DIR) && negb (omode =? O_RDONLY) then
          iunlockput ip ;;
          end_op ;;
          ret None
        else ret (Some ip)
    end.

Definition sys_open `{Driver} : KM Z :=
  or_fail (argstr 0) (λ path,
  or_fail (argint 1) (λ omode,
    begin_op ;;
    or_fail (open_inode path omode) (λ ip,
      f <- filealloc ;;
      match f with
      | None => iunlockput ip ;; end_op ;; ret (-1)
      | Some f =>
          fd <- fdalloc f ;;
          match fd with
          | None => fileclose kend f ;; iunlockput ip ;; end_op ;; ret (-1)
          | Some fd =>
              iunlock (Some ip) ;;
              end_op ;;
              upd_file f (λ f, f <| f_type := FD_INODE |> <| f_ip := Some ip |> <| f_off := 0 |>
                                 <| f_readable := negb (has omode O_WRONLY) |>
                                 <| f_writable := has omode O_WRONLY || has omode O_RDWR |>) ;;
              ret (Z.of_nat fd)
          end
      end))).

(** [if(... || (ip = create(...)) == 0) { end_op(); return -1; } ...] *)
Definition or_end `{Driver} {A} (m : KM (option A)) (k : A → KM Z) : KM Z :=
  r <- m ;; match r with Some a => k a | None => end_op ;; ret (-1) end.

Definition sys_mkdir `{Driver} : KM Z :=
  begin_op ;;
  or_end (argstr 0) (λ path,
  or_end (create path T_DIR 0 0) (λ ip,
    iunlockput ip ;;
    end_op ;;
    ret 0)).

Definition sys_mknod `{Driver} : KM Z :=
  begin_op ;;
  or_end (argstr 0) (λ path,
  or_end (argint 1) (λ major,
  or_end (argint 2) (λ minor,
  or_end (create path T_DEV major minor) (λ ip,
    iunlockput ip ;;
    end_op ;;
    ret 0)))).

Definition sys_chdir `{Driver} : KM Z :=
  cp <- curproc ;;
  begin_op ;;
  or_end (argstr 0) (λ path,
  or_end (namei path) (λ ip,
    ilock (Some ip) ;;
    t <- gets (λ s, i_type (get_inode s ip)) ;;
    if negb (t =? T_DIR) then iunlockput ip ;; end_op ;; ret (-1) else
    iunlock (Some ip) ;;
    cwd <- gets (λ s, p_cwd (get_proc s cp)) ;;
    cwd <- deref cwd ;;
    iput cwd ;;
    end_op ;;
    upd_proc cp (λ q, q <| p_cwd := Some ip |>) ;;
    ret 0)).

(** The strings of the array at [uargv]; [n] is [NELEM(argv) - i]. *)
Fixpoint fetch_argv (n : nat) (uargv : Z) : KM (option (list (list Z))) :=
  match n with
  | O => ret None
  | S n =>
      uarg <- fetchint uargv ;;
      match uarg with
      | None => ret None
      | Some uarg =>
          if uarg =? 0 then ret (Some []) else
          a <- fetchstr (u32 uarg) ;;
          match a with
          | None => ret None
          | Some a =>
              l <- fetch_argv n (u32 (uargv + 4)) ;;
              match l with
              | None => ret None
              | Some l => ret (Some (a :: l))
              end
          end
      end
  end.

Definition sys_exec `{Driver} : KM Z :=
  or_fail (argstr 0) (λ path,
  or_fail (argint 1) (λ uargv,
  or_fail (fetch_argv MAXARG (u32 uargv)) (λ argv,
    exec kend kdata path argv))).

Definition clear_fd (fd : nat) : KM unit :=
  p <- curproc ;; upd_proc p (λ q, q <| p_ofile ::= <[fd := None]> |>).

Definition sys_pipe `{Driver} : KM Z :=
  or_fail (argptr 0 8) (λ fd,
  or_fail (pipealloc kend) (λ '(rf, wf),
    fd0 <- fdalloc rf ;;
    match fd0 with
    | None => fileclose kend rf ;; fileclose kend wf ;; ret (-1)
    | Some fd0 =>
        fd1 <- fdalloc wf ;;
        match fd1 with
        | None => clear_fd fd0 ;; fileclose kend rf ;; fileclose kend wf ;; ret (-1)
        | Some fd1 =>
            ustore_bytes fd (le_bytes 4 (Z.of_nat fd0)) ;;
            ustore_bytes (fd + 4) (le_bytes 4 (Z.of_nat fd1)) ;;
            ret 0
        end
    end)).

(** ** syscall.c: the table *)
Definition syscalls `{Driver} (num : Z) : option (KM Z) :=
  match num with
  | 1 => Some sys_fork
  | 2 => Some sys_exit
  | 3 => Some sys_wait
  | 4 => Some sys_pipe
  | 5 => Some sys_read
  | 6 => Some sys_kill
  | 7 => Some sys_exec
  | 8 => Some sys_fstat
  | 9 => Some sys_chdir
  | 10 => Some sys_dup
  | 11 => Some sys_getpid
  | 12 => Some sys_sbrk
  | 13 => Some sys_sleep
  | 14 => Some sys_uptime
  | 15 => Some sys_open
  | 16 => Some sys_write
  | 17 => Some sys_mknod
  | 18 => Some sys_unlink
  | 19 => Some sys_link
  | 20 => Some sys_mkdir
  | 21 => Some sys_close
  | 22 => Some sys_getyear
  | 23 => Some sys_runtime
  | 24 => Some sys_waittime
  | 25 => Some sys_turntime
  | _ => None
  end.

Definition set_eax (p : nat) (v : Z) : KM unit :=
  upd_proc p (λ q, q <| p_tf ::= λ t, t <| tf_eax := u32 v |> |>).

Definition syscall `{Driver} : KM unit :=
  p <- curproc ;;
  num <- gets (λ s, s32 (tf_eax (p_tf (get_proc s p)))) ;;
  match syscalls num with
  | Some f => r <- f ;; set_eax p r
  | None =>
      q <- gets (λ s, get_proc s p) ;;
      Cons.cprintf (String.append "%d %s: unknown sys call %d" nl)
        [CInt (p_pid q); CStr (cstr (rd (p_name q)) 16); CInt num] ;;
      set_eax p (-1)
  end.
End syscalls.
