(* ===== verification/Kbd.v ===== *)
(** * The keyboard (kbd.c, kbd.h)

    [kbdgetc] decodes the scan codes of the keyboard controller: its state is
    the set of modifier keys that are down or toggled, its input the byte read
    from the data port, or none. *)
From S2P Require Import Prelude.

(** A 256-byte array given by its first elements and designated ones. *)
Definition table (l : list Z) (more : list (Z * Z)) : list Z :=
  foldl (λ t '(i, v), <[Z.to_nat i := v]> t) (l ++ replicate (256 - length l) 0) more.

Definition SHIFT : Z := 1.
Definition CTL : Z := 2.
Definition ALT : Z := 4.
Definition CAPSLOCK : Z := 8.
Definition NUMLOCK : Z := 16.
Definition SCROLLLOCK : Z := 32.
Definition E0ESC : Z := 64.

Definition shiftcode : list Z :=
  table [] [(29, CTL); (42, SHIFT); (54, SHIFT); (56, ALT); (157, CTL); (184, ALT)].
Definition togglecode : list Z := table [] [(58, CAPSLOCK); (69, NUMLOCK); (70, SCROLLLOCK)].
Definition normalmap : list Z :=
  table [0; 27; 49; 50; 51; 52; 53; 54; 55; 56; 57; 48; 45; 61; 8; 9;
         113; 119; 101; 114; 116; 121; 117; 105; 111; 112; 91; 93; 10; 0; 97; 115;
         100; 102; 103; 104; 106; 107; 108; 59; 39; 96; 0; 92; 122; 120; 99; 118;
         98; 110; 109; 44; 46; 47; 0; 42; 0; 32; 0; 0; 0; 0; 0; 0;
         0; 0; 0; 0; 0; 0; 0; 55; 56; 57; 45; 52; 53; 54; 43; 49;
         50; 51; 48; 46; 0; 0; 0; 0]
    [(151, 224); (156, 10); (181, 47); (200, 226); (201, 230); (203, 228); (205, 229); (207, 225); (208, 227); (209, 231); (210, 232); (211, 233)].
Definition shiftmap : list Z :=
  table [0; 27; 33; 64; 35; 36; 37; 94; 38; 42; 40; 41; 95; 43; 8; 9;
         81; 87; 69; 82; 84; 89; 85; 73; 79; 80; 123; 125; 10; 0; 65; 83;
         68; 70; 71; 72; 74; 75; 76; 58; 34; 126; 0; 124; 90; 88; 67; 86;
         66; 78; 77; 60; 62; 63; 0; 42; 0; 32; 0; 0; 0; 0; 0; 0;
         0; 0; 0; 0; 0; 0; 0; 55; 56; 57; 45; 52; 53; 54; 43; 49;
         50; 51; 48; 46; 0; 0; 0; 0]
    [(151, 224); (156, 10); (181, 47); (200, 226); (201, 230); (203, 228); (205, 229); (207, 225); (208, 227); (209, 231); (210, 232); (211, 233)].
Definition ctlmap : list Z :=
  table [0; 0; 0; 0; 0; 0; 0; 0; 0; 0; 0; 0; 0; 0; 0; 0;
         17; 23; 5; 18; 20; 25; 21; 9; 15; 16; 0; 0; 13; 0; 1; 19;
         4; 6; 7; 8; 10; 11; 12; 0; 0; 0; 0; 28; 26; 24; 3; 22;
         2; 14; 13; 0; 0; 239; 0; 0]
    [(151, 224); (156, 13); (181, 239); (200, 226); (201, 230); (203, 228); (205, 229); (207, 225); (208, 227); (209, 231); (210, 232); (211, 233)].

(** [charcode[i]] *)
Definition charcode (i : Z) : list Z :=
  if i =? 0 then normalmap else if i =? 1 then shiftmap else ctlmap.

Definition flag (x f : Z) : bool := negb (Z.land x f =? 0).

(** [data] is [None] when the controller has no data.  The result is the new
    value of [shift] and the character: -1 for no data, 0 for a key that
    stands for no character. *)
Definition kbdgetc (shift : Z) (data : option Z) : Z * Z :=
  match data with
  | None => (shift, -1)
  | Some data =>
      if data =? 224 then (Z.lor shift E0ESC, 0)
      else if flag data 128 then
        let data := if flag shift E0ESC then data else Z.land data 127 in
        (Z.land shift (Z.lnot (Z.lor (shiftcode !!! Z.to_nat data) E0ESC)), 0)
      else
        let '(shift, data) :=
          if flag shift E0ESC then (Z.land shift (Z.lnot E0ESC), Z.lor data 128) else (shift, data) in
        let shift := Z.lor shift (shiftcode !!! Z.to_nat data) in
        let shift := Z.lxor shift (togglecode !!! Z.to_nat data) in
        let c := charcode (Z.land shift (Z.lor CTL SHIFT)) !!! Z.to_nat data in
        let c :=
          if flag shift CAPSLOCK then
            if (97 <=? c) && (c <=? 122) then c + 65 - 97
            else if (65 <=? c) && (c <=? 90) then c + 97 - 65
            else c
          else c in
        (shift, c)
  end.

(** What the interrupt handler reads from a sequence of scan codes. *)
Fixpoint kbd_read (shift : Z) (codes : list Z) : Z * list Z :=
  match codes with
  | [] => (shift, [])
  | d :: codes =>
      let '(shift, c) := kbdgetc shift (Some d) in
      let '(shift, cs) := kbd_read shift codes in
      (shift, c :: cs)
  end.
