(* ===== verification/Console.v ===== *)
(** * The console (console.c)

    The line discipline of [consoleintr], [consoleread] and [consolewrite],
    and the screen.  Every character of the stream [k_out] goes to the serial
    port ([uart_bytes]) and to the screen ([Cga]); both are functions of that
    stream.  [Lines] has the theorems. *)
From S2P Require Import Prelude State Sync CString Print Kalloc Dll Bio Cache Log Fs Vm File Proc.

Definition BACKSPACE : Z := 256.
Definition INPUT_BUF : Z := 128.
(** [C('P')], [C('U')], [C('H')], [C('D')]. *)
Definition ctl_P : Z := 16.
Definition ctl_U : Z := 21.
Definition ctl_H : Z := 8.
Definition ctl_D : Z := 4.

(** ** The devices behind consputc *)
Definition uart_bytes (c : Z) : list Z := if c =? BACKSPACE then [8; 32; 8] else [u8 c].

Module Cga.
(** The cursor position and the characters of the screen. *)
Record cga := CGA { pos : Z; crt : list Z }.

(** [memmove(crt, crt+80, sizeof(crt[0])*23*80);] *)
Definition scroll (l : list Z) : list Z := list_inserts 0 (take 1840 (drop 80 l)) l.
(** [memset(crt+pos, 0, sizeof(crt[0])*(24*80 - pos));] *)
Definition blank (pos : Z) (l : list Z) : list Z :=
  list_inserts (Z.to_nat pos) (replicate (Z.to_nat (24 * 80 - pos)) 0) l.

(** [None]: the kernel panics with "pos under/overflow". *)
Definition cgaputc (c : Z) (d : cga) : option cga :=
  let '(pos, crt) :=
    if c =? 10 then (pos d + (80 - pos d `mod` 80), crt d)
    else if c =? BACKSPACE then ((if 0 <? pos d then pos d - 1 else pos d), crt d)
    else (pos d + 1, <[Z.to_nat (pos d) := Z.lor (Z.land c 255) 1792]> (crt d)) in
  if (pos <? 0) || (25 * 80 <? pos) then None else
  let '(pos, crt) :=
    if 24 <=? pos / 80 then (pos - 80, blank (pos - 80) (scroll crt)) else (pos, crt) in
  Some (CGA pos (<[Z.to_nat pos := Z.lor 32 1792]> crt)).

(** The screen after a stream of characters, the latest first. *)
Fixpoint screen (d : cga) (out : list Z) : option cga :=
  match out with
  | [] => Some d
  | c :: out => match screen d out with
                | Some d => cgaputc c d
                | None => None
                end
  end.
End Cga.

(** ** Input *)
Definition upd_input (f : input → input) : KM unit := modify (λ s, s <| k_input ::= f |>).

(** [while(input.e != input.w && input.buf[(input.e-1) % INPUT_BUF] != '\n')]:
    each round decrements [e]. *)
Fixpoint kill_line (n : nat) : KM unit :=
  match n with
  | O => ret tt
  | S n =>
      i <- gets k_input ;;
      if negb (in_e i =? in_w i) &&
         negb ((in_buf i !!! Z.to_nat (u32 (in_e i - 1) `mod` INPUT_BUF)) =? 10) then
        upd_input (λ i, i <| in_e ::= λ e, u32 (e - 1) |>) ;;
        Cons.consputc BACKSPACE ;;
        kill_line n
      else ret tt
  end.

(** One round of the loop of [consoleintr]; the result is [doprocdump]. *)
Definition consolekey (c : Z) : KM bool :=
  if c =? ctl_P then ret true
  else if c =? ctl_U then
    i <- gets k_input ;;
    kill_line (S (Z.to_nat (u32 (in_e i - in_w i)))) ;;
    ret false
  else if (c =? ctl_H) || (c =? 127) then
    i <- gets k_input ;;
    when (negb (in_e i =? in_w i))
      (upd_input (λ i, i <| in_e ::= λ e, u32 (e - 1) |>) ;;
       Cons.consputc BACKSPACE) ;;
    ret false
  else
    i <- gets k_input ;;
    when (negb (c =? 0) && (u32 (in_e i - in_r i) <? INPUT_BUF))
      (let c := if c =? 13 then 10 else c in
       upd_input (λ i, i <| in_buf ::= <[Z.to_nat (in_e i `mod` INPUT_BUF) := u8 c]> |>
                         <| in_e := u32 (in_e i + 1) |>) ;;
       Cons.consputc c ;;
       i <- gets k_input ;;
       when ((c =? 10) || (c =? ctl_D) || (in_e i =? u32 (in_r i + INPUT_BUF)))
         (upd_input (λ i, i <| in_w := in_e i |>) ;;
          wakeup ChInput)) ;;
    ret false.

Fixpoint consolekeys (cs : list Z) (doprocdump : bool) : KM bool :=
  match cs with
  | [] => ret doprocdump
  | c :: cs => d <- consolekey c ;; consolekeys cs (d || doprocdump)
  end.

(** [cs] is what [getc] returns before its first negative result. *)
Definition consoleintr (cs : list Z) : KM unit :=
  acquire LkCons ;;
  d <- consolekeys cs false ;;
  release LkCons ;;
  when d procdump.

(** ** The device file *)

(** [while(input.r == input.w)]: [false] when the reader was killed. *)
Definition cons_wait : KM bool :=
  sleep_loop
    (i <- gets k_input ;;
     if negb (in_r i =? in_w i) then ret (Some true) else
     killed <- mykilled ;;
     if killed : bool then ret (Some false) else ret None)
    ChInput LkCons.

(** The loop over the [n] bytes still wanted; [got] are the bytes already
    stored.  The result is [false] for a killed reader. *)
Fixpoint consoleread_from (n : nat) (target : Z) (got : list Z) : KM (bool * list Z) :=
  match n with
  | O => ret (true, got)
  | S n' =>
      ok <- cons_wait ;;
      if negb ok then ret (false, got) else
      i <- gets k_input ;;
      let c := in_buf i !!! Z.to_nat (in_r i `mod` INPUT_BUF) in
      upd_input (λ i, i <| in_r ::= λ r, u32 (r + 1) |>) ;;
      if c =? ctl_D then
        when (Z.of_nat n <? target) (upd_input (λ i, i <| in_r ::= λ r, u32 (r - 1) |>)) ;;
        ret (true, got)
      else
        let got := got ++ [c] in
        if c =? 10 then ret (true, got) else consoleread_from n' target got
  end.

Definition consoleread `{Driver} (ip : nat) (n : Z) : KM (Z * list Z) :=
  iunlock (Some ip) ;;
  acquire LkCons ;;
  r <- consoleread_from (Z.to_nat n) (u32 n) [] ;;
  release LkCons ;;
  ilock (Some ip) ;;
  ret (if r.1 then Z.of_nat (length r.2) else -1, r.2).

Definition consolewrite `{Driver} (ip : nat) (buf : list Z) (n : Z) : KM Z :=
  iunlock (Some ip) ;;
  acquire LkCons ;;
  foreach (λ c, Cons.consputc (Z.land c 255)) (take (Z.to_nat n) buf) ;;
  release LkCons ;;
  ilock (Some ip) ;;
  ret n.

(** [devsw], after [consoleinit]. *)
Definition CONSOLE : Z := 1.
Definition devsw `{Driver} : Devsw :=
  {| devsw_read major := if major =? CONSOLE then Some consoleread else None;
     devsw_write major := if major =? CONSOLE then Some consolewrite else None |}.

Definition consoleinit : KM unit := modify (λ s, s <| k_locking := true |>).
