(* ===== verification/Trap.v ===== *)
(** * Traps (trap.c)

    [trap] is the handler every interrupt, exception and system call goes
    through.  [keys] are the characters the interrupting device has (for the
    keyboard, [kbd_read] of its scan codes), [cr2] the fault address register.
    The timer drives the accounting of the scheduling policies. *)
From S2P Require Import Prelude State Sync CString Print Kalloc Dll Bio Cache Log Fs Vm File Proc Exec Syscall Console.

Definition T_SYSCALL : Z := 64.
Definition T_IRQ0 : Z := 32.
Definition IRQ_TIMER : Z := 0.
Definition IRQ_KBD : Z := 1.
Definition IRQ_COM1 : Z := 4.
Definition IRQ_IDE : Z := 14.
Definition IRQ_SPURIOUS : Z := 31.

Section trap.
Context (pol : policy) (kend kdata forkret_pc trapret_pc : Z) `{Devsw}.

(** [myproc() && myproc()->killed && (tf->cs&3) == DPL_USER] *)
Definition dying (tf : trapframe) : KM bool :=
  mp <- myproc ;;
  match mp with
  | None => ret false
  | Some p =>
      killed <- gets (λ s, p_killed (get_proc s p)) ;;
      ret (killed && (Z.land (tf_cs tf) 3 =? DPL_USER))
  end.

(** Times are computed and the process exits. *)
Definition die `{Driver} : KM unit :=
  p <- curproc ;;
  ticks <- gets k_ticks ;;
  upd_proc p (λ q, q <| p_turnaround_t := s32 (ticks - p_ctime q) |>) ;;
  upd_proc p (λ q, q <| p_waiting_t := s32 (p_turnaround_t q - p_running_t q) |>) ;;
  exit kend.

(** What the timer interrupt does to the running process. *)
Definition timer_policy : KM unit :=
  p <- curproc ;;
  match pol with
  | DEFAULT => yield
  | FRR =>
      upd_proc p (λ q, q <| p_slot ::= λ n, s32 (n + 1) |>) ;;
      slot <- gets (λ s, p_slot (get_proc s p)) ;;
      if QUANTA <=? slot then
        upd_proc p (λ q, q <| p_slot := 0 |>) ;;
        yield
      else upd_proc p (λ q, q <| p_running_t ::= λ n, s32 (n + 1) |>)
  | FCFS => upd_proc p (λ q, q <| p_running_t ::= λ n, s32 (n + 1) |>)
  end.

Definition tick : KM unit :=
  acquire LkTicks ;;
  modify (λ s, s <| k_ticks ::= λ t, u32 (t + 1) |>) ;;
  wakeup ChTicks ;;
  release LkTicks.

(** [if(lapic) lapicw(EOI, 0);] *)
Definition lapiceoi : KM unit :=
  lapic <- gets k_lapic ;;
  when lapic (modify (λ s, s <| k_eoi ::= S |>)).

(** [switch(tf->trapno)] *)
Definition trap_switch `{Driver} (tf : trapframe) (keys : list Z) (cr2 : Z) : KM unit :=
  let no := tf_trapno tf in
  if no =? T_IRQ0 + IRQ_TIMER then tick ;; lapiceoi
  else if no =? T_IRQ0 + IRQ_IDE then drv_ideintr ;; lapiceoi
  else if no =? T_IRQ0 + IRQ_IDE + 1 then ret tt
  else if no =? T_IRQ0 + IRQ_KBD then consoleintr keys ;; lapiceoi
  else if no =? T_IRQ0 + IRQ_COM1 then consoleintr keys ;; lapiceoi
  else if (no =? T_IRQ0 + 7) || (no =? T_IRQ0 + IRQ_SPURIOUS) then
    Cons.cprintf (String.append "cpu%d: spurious interrupt at %x:%x" nl) [CInt 0; CInt (tf_cs tf); CInt (tf_eip tf)] ;;
    lapiceoi
  else
    mp <- myproc ;;
    match mp with
    | None =>
        Cons.cprintf (String.append "unexpected trap %d from cpu %d eip %x (cr2=0x%x)" nl)
          [CInt no; CInt 0; CInt (tf_eip tf); CInt cr2] ;;
        panic "trap"
    | Some p =>
        if Z.land (tf_cs tf) 3 =? 0 then
          Cons.cprintf (String.append "unexpected trap %d from cpu %d eip %x (cr2=0x%x)" nl)
            [CInt no; CInt 0; CInt (tf_eip tf); CInt cr2] ;;
          panic "trap"
        else upd_proc p (λ q, q <| p_killed := true |>)
    end.

Definition trap `{Driver} (tf : trapframe) (keys : list Z) (cr2 : Z) : KM unit :=
  if tf_trapno tf =? T_SYSCALL then
    killed <- mykilled ;;
    when killed (exit kend) ;;
    p <- curproc ;;
    upd_proc p (λ q, q <| p_tf := tf |>) ;;
    syscall kend kdata forkret_pc trapret_pc ;;
    killed <- mykilled ;;
    when killed (exit kend)
  else
    trap_switch tf keys cr2 ;;
    d <- dying tf ;;
    when d die ;;
    mp <- myproc ;;
    match mp with
    | Some p =>
        st <- gets (λ s, p_state (get_proc s p)) ;;
        when (bool_decide (st = RUNNING) && (tf_trapno tf =? T_IRQ0 + IRQ_TIMER)) timer_policy
    | None => ret tt
    end ;;
    d <- dying tf ;;
    when d die.
End trap.
