(* ===== verification/Ide.v ===== *)
(** * The IDE disk driver (ide.c)

    The driver the kernel is normally built with: requests wait in
    [idequeue], the disk works on the first one, and its interrupt finishes
    it and starts the next.  The disk itself is hardware; [IdeDevice] is the
    documented behaviour the driver relies on (the task file registers, the
    read and write commands, the status register), and the driver is proved
    against it.

    The result: the driver implements the synchronous driver of memide.c
    (the [iderw] of [Bio]).  A request that has been queued counts as done,
    an interrupt changes nothing that can be seen, and once the queue is
    empty the disk and the buffers are those of the synchronous driver.  No
    process is left asleep on a buffer that is not in the queue. *)
From S2P Require Import Prelude State Sync Bio.

Definition IDE_BSY : Z := 128.
Definition IDE_DRDY : Z := 64.
Definition IDE_DF : Z := 32.
Definition IDE_ERR : Z := 1.
Definition IDE_CMD_READ : Z := 32.
Definition IDE_CMD_WRITE : Z := 48.
Definition IDE_CMD_RDMUL : Z := 196.
Definition IDE_CMD_WRMUL : Z := 197.
Definition SECTOR_SIZE : Z := 512.

(** ** The disk controller *)

(** What a drive is doing: nothing, or transferring a sector. *)
Inductive phase := Idle | Reading (drive lba : Z) | Writing (drive lba : Z).

(** The drive and the sector the registers address (LBA, ports 0x1f3 to
    0x1f6). *)
Definition lba_of (reg : Z → Z) : Z :=
  reg 499 + 256 * reg 500 + 65536 * reg 501 + 16777216 * Z.land (reg 502) 15.
Definition drive_of (reg : Z → Z) : Z := Z.land (Z.shiftr (reg 502) 4) 1.

Class IdeDevice (D : Type) := {
  (* the instructions of the driver *)
  dev_inb : D → Z * D;             (* inb(0x1f7), the status register *)
  dev_outb : Z → Z → D → D;        (* outb(port, data) *)
  dev_outsl : list Z → D → D;      (* outsl(0x1f0, ...) *)
  dev_insl : D → list Z * D;       (* insl(0x1f0, ...) *)
  (* the state of the controller *)
  dev_reg : D → Z → Z;             (* the task file registers *)
  dev_sector : D → Z → Z → list Z; (* drive, sector *)
  dev_phase : D → phase;
  dev_faulty : D → bool;           (* the medium has errors *)
  dev_busy : D → nat;              (* how long it will stay busy *)
  (* reading the status register *)
  inb_ready d : dev_busy d = 0%nat → Z.land (dev_inb d).1 (Z.lor IDE_BSY IDE_DRDY) = IDE_DRDY;
  inb_busy d : dev_busy (dev_inb d).2 = pred (dev_busy d);
  inb_error d : dev_faulty d = false → Z.land (dev_inb d).1 (Z.lor IDE_DF IDE_ERR) = 0;
  inb_keeps d : dev_reg (dev_inb d).2 = dev_reg d ∧ dev_sector (dev_inb d).2 = dev_sector d ∧
    dev_phase (dev_inb d).2 = dev_phase d ∧ dev_faulty (dev_inb d).2 = dev_faulty d;
  (* writing the registers: the device control register 0x3f6 and the task file *)
  outb_reg d port v : port ≠ 503 → dev_reg (dev_outb port v d) = <[port := v]> (dev_reg d);
  outb_keeps d port v : port ≠ 503 → dev_sector (dev_outb port v d) = dev_sector d ∧
    dev_phase (dev_outb port v d) = dev_phase d ∧ dev_faulty (dev_outb port v d) = dev_faulty d;
  (* commands on one sector *)
  outb_read d : dev_phase d = Idle → dev_reg d 498 = 1 →
    dev_phase (dev_outb 503 IDE_CMD_READ d) = Reading (drive_of (dev_reg d)) (lba_of (dev_reg d));
  outb_write d : dev_phase d = Idle → dev_reg d 498 = 1 →
    dev_phase (dev_outb 503 IDE_CMD_WRITE d) = Writing (drive_of (dev_reg d)) (lba_of (dev_reg d));
  outb_command d c : dev_sector (dev_outb 503 c d) = dev_sector d ∧
    dev_faulty (dev_outb 503 c d) = dev_faulty d;
  (* the data register *)
  outsl_writes d k n l : dev_phase d = Writing k n → length l = 512%nat →
    dev_phase (dev_outsl l d) = Idle ∧ dev_faulty (dev_outsl l d) = dev_faulty d ∧
    ∀ k' n', dev_sector (dev_outsl l d) k' n' = if decide (k' = k ∧ n' = n) then l else dev_sector d k' n';
  insl_reads d k n : dev_phase d = Reading k n →
    (dev_insl d).1 = dev_sector d k n ∧ dev_phase (dev_insl d).2 = Idle ∧
    dev_sector (dev_insl d).2 = dev_sector d ∧ dev_faulty (dev_insl d).2 = dev_faulty d }.

(** ** The driver *)
Record istate (D : Type) := IState {
  i_k : kstate; i_queue : option nat (* idequeue *); i_disk1 : bool (* havedisk1 *); i_dev : D }.
Arguments IState {D} _ _ _ _.
Arguments i_k {D} _.
Arguments i_queue {D} _.
Arguments i_disk1 {D} _.
Arguments i_dev {D} _.
#[global] Instance eta_istate D : Eta (istate D) := λ r, IState (i_k r) (i_queue r) (i_disk1 r) (i_dev r).

Section driver.
Context {D : Type} `{!IdeDevice D}.
Abbreviation IM A := (M (istate D) A) (only parsing).

(** A kernel routine that sleeps at most once. *)
Definition lift {A} (m : KM A) : IM A := λ env s,
  match m [] (i_k s) with
  | Done a k _ => Done a (s <| i_k := k |>) env
  | Panic msg => Panic msg
  | Asleep k =>
      match env with
      | [] => Asleep (s <| i_k := k |>)
      | f :: env =>
          let s1 := f (s <| i_k := k |>) in
          match m [λ _, i_k s1] (i_k s) with
          | Done a k _ => Done a (s1 <| i_k := k |>) env
          | Panic msg => Panic msg
          | Asleep k => Asleep (s1 <| i_k := k |>)
          end
      end
  end.

Definition inb : IM Z := λ env s, Done (dev_inb (i_dev s)).1 (s <| i_dev := (dev_inb (i_dev s)).2 |>) env.
Definition outb (port v : Z) : IM unit := modify (λ s, s <| i_dev ::= dev_outb port v |>).
Definition outsl (l : list Z) : IM unit := modify (λ s, s <| i_dev ::= dev_outsl l |>).
Definition insl : IM (list Z) := λ env s, Done (dev_insl (i_dev s)).1 (s <| i_dev := (dev_insl (i_dev s)).2 |>) env.

(** [while(((r = inb(0x1f7)) & (IDE_BSY|IDE_DRDY)) != IDE_DRDY) ;] *)
Fixpoint poll (n : nat) : IM Z :=
  r <- inb ;;
  if Z.land r (Z.lor IDE_BSY IDE_DRDY) =? IDE_DRDY then ret r else
  match n with
  | O => λ _ s, Asleep s
  | S n => poll n
  end.

Definition idewait (checkerr : bool) : IM Z :=
  n <- gets (λ s, dev_busy (i_dev s)) ;;
  r <- poll n ;;
  ret (if checkerr && negb (Z.land r (Z.lor IDE_DF IDE_ERR) =? 0) then -1 else 0).

(** [for(i=0; i<1000; i++) if(inb(0x1f7) != 0) { havedisk1 = 1; break; }] *)
Fixpoint probe (n : nat) : IM unit :=
  match n with
  | O => ret tt
  | S n => r <- inb ;; if negb (r =? 0) then modify (λ s, s <| i_disk1 := true |>) else probe n
  end.

(** The lock and the interrupt routing it sets up are outside this state. *)
Definition ideinit : IM unit :=
  idewait false ;;
  outb 502 (Z.lor 224 (Z.shiftl 1 4)) ;;
  probe 1000 ;;
  outb 502 (Z.lor 224 (Z.shiftl 0 4)).

Definition idestart (b : option nat) : IM unit :=
  match b with
  | None => panic "idestart"
  | Some i =>
      q <- gets (λ s, get_buf (i_k s) i) ;;
      if FSSIZE <=? b_blockno q then panic "incorrect blockno" else
      let sector_per_block := BSIZE / SECTOR_SIZE in
      let sector := s32 (b_blockno q * sector_per_block) in
      let read_cmd := if sector_per_block =? 1 then IDE_CMD_READ else IDE_CMD_RDMUL in
      let write_cmd := if sector_per_block =? 1 then IDE_CMD_WRITE else IDE_CMD_WRMUL in
      if 7 <? sector_per_block then panic "idestart" else
      idewait false ;;
      outb 1014 0 ;;
      outb 498 sector_per_block ;;
      outb 499 (Z.land sector 255) ;;
      outb 500 (Z.land (Z.shiftr sector 8) 255) ;;
      outb 501 (Z.land (Z.shiftr sector 16) 255) ;;
      outb 502 (Z.lor (Z.lor 224 (Z.shiftl (Z.land (b_dev q) 1) 4)) (Z.land (Z.shiftr sector 24) 15)) ;;
      if has_flag (b_flags q) B_DIRTY then
        outb 503 write_cmd ;;
        outsl (b_data q)
      else outb 503 read_cmd
  end.

(** [if(!(b->flags & B_DIRTY) && idewait(1) >= 0) insl(0x1f0, b->data, BSIZE/4);] *)
Definition transfer (i : nat) (f : Z) : IM unit :=
  if has_flag f B_DIRTY then ret tt else
  r <- idewait true ;;
  if 0 <=? r then
    l <- insl ;;
    lift (upd_buf i (λ b, b <| b_data := l |>))
  else ret tt.

Definition ideintr : IM unit :=
  lift (acquire LkIde) ;;
  b <- gets i_queue ;;
  match b with
  | None => lift (release LkIde)
  | Some i =>
      next <- gets (λ s, b_qnext (get_buf (i_k s) i)) ;;
      modify (λ s, s <| i_queue := next |>) ;;
      f <- gets (λ s, b_flags (get_buf (i_k s) i)) ;;
      transfer i f ;;
      lift (upd_buf i (λ b, b <| b_flags ::= λ f, set_flag f B_VALID |>)) ;;
      lift (upd_buf i (λ b, b <| b_flags ::= λ f, clear_flag f B_DIRTY |>)) ;;
      lift (wakeup (ChBuf i)) ;;
      next <- gets i_queue ;;
      (match next with None => ret tt | Some _ => idestart next end) ;;
      lift (release LkIde)
  end.

(** The loop of [iderw] to the end of the queue that starts at buffer [i]:
    the buffer whose [qnext] is null. *)
Fixpoint last_link (n : nat) (tab : list buf) (i : nat) : option nat :=
  match b_qnext (tab !!! i) with
  | None => Some i
  | Some j => match n with O => None | S n => last_link n tab j end
  end.

Definition enqueue (i : nat) : IM unit :=
  lift (upd_buf i (λ b, b <| b_qnext := None |>)) ;;
  h <- gets i_queue ;;
  match h with
  | None => modify (λ s, s <| i_queue := Some i |>)
  | Some j =>
      l <- gets (λ s, last_link (length (k_bcache (i_k s))) (k_bcache (i_k s)) j) ;;
      match l with
      | Some t => lift (upd_buf t (λ b, b <| b_qnext := Some i |>))
      | None => λ _ s, Asleep s
      end
  end.

(** [while((b->flags & (B_VALID|B_DIRTY)) != B_VALID) sleep(b, &idelock);] *)
Fixpoint await (n i : nat) : IM unit :=
  f <- gets (λ s, b_flags (get_buf (i_k s) i)) ;;
  if Z.land f (Z.lor B_VALID B_DIRTY) =? B_VALID then ret tt else
  match n with
  | O => λ _ s, Asleep s
  | S n => lift (sleep (ChBuf i) LkIde) ;; await n i
  end.

Definition iderw (i : nat) : IM unit :=
  h <- lift (holdingsleep (SlBuf i)) ;;
  if negb h then panic "iderw: buf not locked" else
  b <- gets (λ s, get_buf (i_k s) i) ;;
  if Z.land (b_flags b) (Z.lor B_VALID B_DIRTY) =? B_VALID then panic "iderw: nothing to do" else
  d1 <- gets i_disk1 ;;
  if negb (b_dev b =? 0) && negb d1 then panic "iderw: ide disk 1 not present" else
  lift (acquire LkIde) ;;
  enqueue i ;;
  h <- gets i_queue ;;
  (if decide (h = Some i) then idestart (Some i) else ret tt) ;;
  (λ env, await (S (length env)) i env) ;;
  lift (release LkIde).

(** ** The controller at work *)

(** A state of the controller after reading its status. *)
Record polled (d d' : D) : Prop := {
  po_reg : dev_reg d' = dev_reg d; po_sector : dev_sector d' = dev_sector d;
  po_phase : dev_phase d' = dev_phase d; po_faulty : dev_faulty d' = dev_faulty d }.

Lemma polled_inb d : polled d (dev_inb d).2.
Proof. destruct (inb_keeps d) as (? & ? & ? & ?). by constructor. Qed.
Lemma polled_trans d d' d'' : polled d d' → polled d' d'' → polled d d''.
Proof. intros [] []. constructor; congruence. Qed.

Lemma istate_set (s : istate D) d d' : (s <| i_dev := d |>) <| i_dev := d' |> = s <| i_dev := d' |>.
Proof. done. Qed.

(** Polling ends: the controller is busy for a finite time. *)
Lemma poll_ok n env s : (dev_busy (i_dev s) ≤ n)%nat →
  ∃ r d, poll n env s = Done r (s <| i_dev := d |>) env ∧ polled (i_dev s) d ∧
    (dev_faulty (i_dev s) = false → Z.land r (Z.lor IDE_DF IDE_ERR) = 0).
Proof.
  revert s. induction n as [|n IH]; intros s Hn; cbn [poll]; rewrite (bind_done _ _ _ _ _ _ _ eq_refl).
  - rewrite inb_ready by lia. rewrite Z.eqb_refl. eexists _, _. split; [done|]. split; [apply polled_inb|apply inb_error].
  - destruct (_ =? _).
    { eexists _, _. split; [done|]. split; [apply polled_inb|apply inb_error]. }
    destruct (IH (s <| i_dev := (dev_inb (i_dev s)).2 |>)) as (r & d & E & Hp & He).
    { cbn. rewrite inb_busy. lia. }
    exists r, d. split; [exact E|]. split; [by eapply polled_trans; [apply polled_inb|]|].
    intros Hf. apply He. cbn. by rewrite (po_faulty _ _ (polled_inb _)).
Qed.

Lemma idewait_ok c env s :
  ∃ r d, idewait c env s = Done r (s <| i_dev := d |>) env ∧ polled (i_dev s) d ∧
    (dev_faulty (i_dev s) = false → r = 0).
Proof.
  unfold idewait. rewrite bind_gets. destruct (poll_ok (dev_busy (i_dev s)) env s ltac:(done)) as (r & d & E & Hp & He).
  run E. eexists _, _. split; [done|]. split; [done|]. intros Hf. by rewrite (He Hf), andb_false_r.
Qed.

(** The registers [idestart] leaves address the block. *)
Lemma registers_of b (reg : Z → Z) : 0 ≤ b < FSSIZE →
  reg 499 = Z.land b 255 → reg 500 = Z.land (Z.shiftr b 8) 255 → reg 501 = Z.land (Z.shiftr b 16) 255 →
  reg 502 = Z.lor (Z.lor 224 (Z.shiftl (Z.land 1 1) 4)) (Z.land (Z.shiftr b 24) 15) →
  lba_of reg = b ∧ drive_of reg = 1.
Proof.
  unfold FSSIZE, lba_of, drive_of. intros Hb -> -> -> ->.
  change 255 with (Z.ones 8). rewrite !Z.land_ones by lia. rewrite !Z.shiftr_div_pow2 by lia.
  assert (E16 : b / 2 ^ 16 = 0) by (apply Z.div_small; lia). assert (E24 : b / 2 ^ 24 = 0) by (apply Z.div_small; lia).
  rewrite E16, E24. change (2 ^ 8) with 256. change (Z.land 0 15) with 0. rewrite Z.lor_0_r.
  split; [|reflexivity]. change (Z.land (Z.lor 224 (Z.shiftl (Z.land 1 1) 4)) 15) with 0.
  rewrite Zmod_0_l. rewrite (Z.mod_small (b / 256)) by (split; [apply Z.div_pos; lia|apply Z.div_lt_upper_bound; lia]).
  pose proof (Z.div_mod b 256 ltac:(lia)). lia.
Qed.

(** A buffer that may be given to the driver. *)
Record request_ok (b : buf) : Prop := {
  rq_dev : b_dev b = ROOTDEV; rq_block : 0 ≤ b_blockno b < FSSIZE; rq_data : length (b_data b) = 512%nat;
  rq_todo : valid b && negb (dirty b) = false }.

(** The state of the disk after a request has been started. *)
Definition started (b : buf) (d d' : D) : Prop :=
  dev_faulty d' = dev_faulty d ∧
  if dirty b then dev_phase d' = Idle ∧ ∀ n, dev_sector d' 1 n = if decide (n = b_blockno b) then b_data b else dev_sector d 1 n
  else dev_phase d' = Reading 1 (b_blockno b) ∧ dev_sector d' = dev_sector d.

(** The controller once the six registers have been written. *)
Definition addressed (b : Z) (d : D) : D :=
  dev_outb 502 (Z.lor (Z.lor 224 (Z.shiftl (Z.land 1 1) 4)) (Z.land (Z.shiftr b 24) 15))
    (dev_outb 501 (Z.land (Z.shiftr b 16) 255) (dev_outb 500 (Z.land (Z.shiftr b 8) 255)
      (dev_outb 499 (Z.land b 255) (dev_outb 498 1 (dev_outb 1014 0 d))))).

Lemma addressed_ok b d : 0 ≤ b < FSSIZE → dev_phase d = Idle →
  dev_sector (addressed b d) = dev_sector d ∧ dev_phase (addressed b d) = Idle ∧
  dev_faulty (addressed b d) = dev_faulty d ∧ dev_reg (addressed b d) 498 = 1 ∧
  lba_of (dev_reg (addressed b d)) = b ∧ drive_of (dev_reg (addressed b d)) = 1.
Proof.
  intros Hb Hp. unfold addressed.
  repeat match goal with |- context [dev_sector (dev_outb ?p ?v ?x)] =>
    destruct (outb_keeps x p v ltac:(lia)) as (-> & -> & ->) end.
  split; [done|]. split; [done|]. split; [done|]. rewrite !outb_reg by lia.
  split; [|apply registers_of; [done|..]]; rewrite ?fn_lookup_insert_ne by lia; by rewrite ?fn_lookup_insert.
Qed.

Lemma idestart_ok i env s : request_ok (get_buf (i_k s) i) → dev_phase (i_dev s) = Idle →
  ∃ d, idestart (Some i) env s = Done tt (s <| i_dev := d |>) env ∧ started (get_buf (i_k s) i) (i_dev s) d.
Proof.
  intros [Hdev Hblk Hlen _] Hidle. unfold idestart. rewrite bind_gets. set (b := get_buf (i_k s) i) in *.
  rewrite (proj2 (Z.leb_gt _ _)) by lia. change (BSIZE / SECTOR_SIZE) with 1. cbv zeta. rewrite Z.mul_1_r.
  rewrite (s32_small (b_blockno b)) by (unfold FSSIZE in *; lia). cbn [Z.eqb Pos.eqb Z.ltb Z.compare Pos.compare Pos.compare_cont].
  destruct (idewait_ok false env s) as (r & d & E & [Hr Hs Hp Hf] & _). run E. unfold outb, outsl.
  rewrite !bind_modify. rewrite Hdev. change ROOTDEV with 1.
  change (s <| i_dev := d |> <| i_dev ::= _ |> <| i_dev ::= _ |> <| i_dev ::= _ |> <| i_dev ::= _ |> <| i_dev ::= _ |> <| i_dev ::= _ |>)
    with (s <| i_dev := addressed (b_blockno b) d |>).
  destruct (addressed_ok (b_blockno b) d Hblk ltac:(congruence)) as (As & Ap & Af & An & Al & Ad).
  unfold has_flag. rewrite land_dirty, negb_involutive. fold (dirty b). unfold started. destruct (dirty b).
  - rewrite bind_modify. destruct (outb_command (addressed (b_blockno b) d) IDE_CMD_WRITE) as [Cs Cf].
    pose proof (outb_write _ Ap An) as Cp. destruct (outsl_writes _ _ _ _ Cp Hlen) as (Op & Of & Os).
    exists (dev_outsl (b_data b) (dev_outb 503 IDE_CMD_WRITE (addressed (b_blockno b) d))).
    split; [reflexivity|]. split; [congruence|]. split; [done|]. intros n. rewrite Os, Al, Ad, Cs, As, Hs.
    do 2 case_decide; naive_solver.
  - destruct (outb_command (addressed (b_blockno b) d) IDE_CMD_READ) as [Cs Cf].
    pose proof (outb_read _ Ap An) as Cp. exists (dev_outb 503 IDE_CMD_READ (addressed (b_blockno b) d)).
    split; [reflexivity|]. split; [congruence|].
    rewrite Cp, Al, Ad, Cs, As, Hs. done.
Qed.
End driver.

(** ** The queue *)

(** The buffers linked from [h]. *)
Fixpoint qchain (tab : list buf) (h : option nat) (q : list nat) : Prop :=
  match q with
  | [] => h = None
  | i :: q => h = Some i ∧ (i < length tab)%nat ∧ qchain tab (b_qnext (tab !!! i)) q
  end.

Fixpoint walk_queue (n : nat) (tab : list buf) (h : option nat) : list nat :=
  match n, h with
  | S n, Some i => i :: walk_queue n tab (b_qnext (tab !!! i))
  | _, _ => []
  end.

Lemma qchain_walk tab h q n : qchain tab h q → (length q ≤ n)%nat → walk_queue n tab h = q.
Proof.
  revert h n. induction q as [|i q IH]; intros h n Hc Hn.
  - rewrite Hc. by destruct n.
  - destruct Hc as (-> & _ & Hc). destruct n as [|n]; simpl in Hn; [lia|]. simpl. f_equal. apply IH; [done|lia].
Qed.

Lemma qchain_lt tab h q i : qchain tab h q → i ∈ q → (i < length tab)%nat.
Proof.
  revert h. induction q as [|j q IH]; intros h Hc Hi; [by apply not_elem_of_nil in Hi|].
  destruct Hc as (_ & Hj & Hc). apply elem_of_cons in Hi as [->|Hi]; [done|]. by eapply IH.
Qed.

Lemma qchain_length tab h q : qchain tab h q → NoDup q → (length q ≤ length tab)%nat.
Proof.
  intros Hc Hn. rewrite <-(length_seq (length tab) 0). apply submseteq_length, NoDup_submseteq; [done|].
  intros i Hi. apply elem_of_seq. pose proof (qchain_lt _ _ _ _ Hc Hi). lia.
Qed.

(** The queue depends only on the links of its buffers. *)
Lemma qchain_ext tab tab' h q : length tab' = length tab →
  (∀ i, i ∈ q → b_qnext (tab' !!! i) = b_qnext (tab !!! i)) → qchain tab h q → qchain tab' h q.
Proof.
  intros Hl. revert h. induction q as [|i q IH]; intros h He Hc; [done|]. destruct Hc as (-> & Hi & Hc).
  split; [done|]. split; [by rewrite Hl|]. rewrite He by left. apply IH; [|done]. intros j Hj. apply He. by right.
Qed.

Lemma last_link_ok tab j q n : qchain tab (Some j) (j :: q) → (length q ≤ n)%nat →
  last_link n tab j = last (j :: q).
Proof.
  revert j n. induction q as [|k q IH]; intros j n (_ & Hj & Hc) Hn.
  - destruct n; simpl; by rewrite Hc.
  - destruct Hc as (Ek & Hk & Hc). destruct n as [|n]; simpl in Hn; [lia|]. cbn [last_link]. rewrite Ek.
    change (last (j :: k :: q)) with (last (k :: q)). apply IH; [by split|lia].
Qed.

(** Linking a buffer that is not in the queue after the last one. *)
Lemma qchain_snoc tab h q t i : qchain tab h q → NoDup q → last q = Some t → i ∉ q → (i < length tab)%nat →
  b_qnext (tab !!! i) = None →
  qchain (alter (λ b, b <| b_qnext := Some i |>) t tab) h (q ++ [i]).
Proof.
  intros Hc Hn Ht Hi Hlt Hnone.
  assert (Htlt : (t < length tab)%nat) by (eapply qchain_lt; [exact Hc|]; by apply last_Some_elem_of).
  revert h Hc. induction q as [|j q IH]; intros h Hc; [done|]. destruct Hc as (-> & Hj & Hc).
  apply NoDup_cons in Hn as [Hjq Hn]. apply not_elem_of_cons in Hi as [Hij Hi].
  cbn [app qchain]. split; [done|]. split; [by rewrite length_alter|]. rewrite alter_total by done.
  destruct q as [|k q].
  - injection Ht as ->. rewrite decide_True by done. cbn. split; [done|]. split; [by rewrite length_alter|].
    rewrite alter_total, decide_False by done. done.
  - rewrite decide_False.
    + by apply IH.
    + intros ->. apply Hjq. apply (last_Some_elem_of (k :: q)). exact Ht.
Qed.

(** ** The synchronous driver on contents and buffers *)

(** What [Bio.iderw] does to the contents of the disk and the buffers. *)
Definition serve (st : (Z → block) * list buf) (i : nat) : (Z → block) * list buf :=
  let b := st.2 !!! i in
  if dirty b then
    (<[b_blockno b := b_data b]> st.1,
     alter (λ b, b <| b_flags ::= λ f, set_flag (clear_flag f B_DIRTY) B_VALID |>) i st.2)
  else
    (st.1, alter (λ b, b <| b_data := st.1 (b_blockno b) |> <| b_flags ::= λ f, set_flag f B_VALID |>) i st.2).
Definition flush (q : list nat) (st : (Z → block) * list buf) : (Z → block) * list buf := foldl serve st q.

(** Equal contents, and buffers equal but for their links. *)
Definition forget (b : buf) : buf := b <| b_qnext := None |>.
Definition same (st st' : (Z → block) * list buf) : Prop :=
  (∀ n, st.1 n = st'.1 n) ∧ length st.2 = length st'.2 ∧ ∀ i, forget (st.2 !!! i) = forget (st'.2 !!! i).

#[global] Instance same_equiv : Equivalence same.
Proof.
  split.
  - by intros st.
  - intros st st' (H1 & H2 & H3). by split_and!.
  - intros st st' st'' (H1 & H2 & H3) (H1' & H2' & H3').
    split_and!; [intros n; by rewrite H1|by rewrite H2|intros i; by rewrite H3].
Qed.

Lemma forget_fields b b' : forget b = forget b' →
  b_flags b = b_flags b' ∧ b_dev b = b_dev b' ∧ b_blockno b = b_blockno b' ∧ b_lock b = b_lock b' ∧ b_data b = b_data b'.
Proof. destruct b, b'. cbn. by intros [= ]. Qed.

Lemma forget_eq b b' : forget b = forget b' → b' = b <| b_qnext := b_qnext b' |>.
Proof. destruct b, b'. unfold forget, upd. cbn. intros [= ]. by subst. Qed.

(** A function on buffers that neither reads nor writes the link. *)
Definition unlinked (g : buf → buf) : Prop :=
  (∀ b, b_qnext (g b) = b_qnext b) ∧ ∀ b b', forget b = forget b' → forget (g b) = forget (g b').

Lemma total_alter_forget (g g' : buf → buf) i (t t' : list buf) : length t = length t' →
  (∀ j, forget (t !!! j) = forget (t' !!! j)) → forget (g (t !!! i)) = forget (g' (t' !!! i)) →
  ∀ j, forget (alter g i t !!! j) = forget (alter g' i t' !!! j).
Proof.
  intros Hl Ht Hg j. rewrite !list_lookup_total_alter, Hl. case_decide; [done|apply Ht].
Qed.

#[global] Instance serve_proper : Proper (same ==> eq ==> same) serve.
Proof.
  intros st st' (H1 & H2 & H3) i _ <-. destruct (forget_fields _ _ (H3 i)) as (Ef & Ed & Eb & El & Ea).
  unfold serve, dirty. rewrite Ef. destruct (Z.testbit _ 2).
  - split_and!; cbn [fst snd]; [|by rewrite !length_alter|].
    + intros n. rewrite Eb, Ea. unfold insert, fn_insert. case_decide; [done|apply H1].
    + apply total_alter_forget; [done|done|]. by rewrite (forget_eq _ _ (H3 i)).
  - split_and!; cbn [fst snd]; [done|by rewrite !length_alter|].
    apply total_alter_forget; [done|done|]. rewrite (forget_eq _ _ (H3 i)). cbn. by rewrite H1.
Qed.
#[global] Instance flush_proper q : Proper (same ==> same) (flush q).
Proof.
  unfold flush. induction q as [|i q IH]; intros st st' H; [done|]. cbn [foldl]. apply IH. by rewrite H.
Qed.

Lemma flush_snoc q i st : flush (q ++ [i]) st = serve (flush q st) i.
Proof. unfold flush. by rewrite foldl_app. Qed.

Lemma serve_other st i j : i ≠ j → (serve st i).2 !!! j = st.2 !!! j.
Proof. intros H. unfold serve. destruct (dirty _); cbn [snd]; by rewrite list_lookup_total_alter_ne. Qed.
Lemma flush_other q st j : j ∉ q → (flush q st).2 !!! j = st.2 !!! j.
Proof.
  unfold flush. revert st. induction q as [|i q IH]; intros st Hj; [done|]. apply not_elem_of_cons in Hj as [Hi Hj].
  cbn [foldl]. rewrite IH by done. by apply serve_other.
Qed.
Lemma flush_length q st : length (flush q st).2 = length st.2.
Proof.
  unfold flush. revert st. induction q as [|i q IH]; intros st; [done|]. cbn [foldl]. rewrite IH.
  unfold serve. destruct (dirty _); cbn [snd]; by rewrite length_alter.
Qed.

(** Writing the first dirty block of the queue early changes nothing. *)
Lemma flush_early i q c c' tab : dirty (tab !!! i) = true →
  (∀ n, c' n = if decide (n = b_blockno (tab !!! i)) then b_data (tab !!! i) else c n) →
  same (flush (i :: q) (c', tab)) (flush (i :: q) (c, tab)).
Proof.
  intros Hd Hc. unfold flush. cbn [foldl]. apply flush_proper. unfold serve. cbn [fst snd]. rewrite Hd.
  split_and!; cbn [fst snd]; [|done|done]. intros n. unfold insert, fn_insert. case_decide; [done|].
  rewrite Hc, decide_False by congruence. done.
Qed.

(** Updating a buffer that is not in the queue. *)
Lemma flush_update q i g st : i ∉ q → unlinked g →
  same (flush q (st.1, alter g i st.2)) ((flush q st).1, alter g i (flush q st).2).
Proof.
  intros Hi Hg. unfold flush. revert st. induction q as [|j q IH]; intros st; [done|].
  apply not_elem_of_cons in Hi as [Hij Hi]. cbn [foldl]. rewrite <-(IH Hi (serve st j)). apply flush_proper.
  unfold serve. cbn [fst snd]. rewrite list_lookup_total_alter_ne by done. destruct (dirty _); cbn [fst snd].
  - by rewrite (list_alter_alter_ne _ g) by done.
  - by rewrite (list_alter_alter_ne _ g) by done.
Qed.

Lemma finish_flags f : clear_flag (set_flag f B_VALID) B_DIRTY = set_flag (clear_flag f B_DIRTY) B_VALID.
Proof.
  unfold clear_flag, set_flag. apply Z.bits_inj'. intros n Hn.
  rewrite Z.land_spec, !Z.lor_spec, Z.land_spec, Z.lnot_spec by done.
  destruct (decide (n = 1)) as [->|]; [by destruct (Z.testbit f 1)|].
  change B_VALID with (2 ^ 1). rewrite Z.pow2_bits_false by done. by rewrite !orb_false_r.
Qed.
Lemma clean_flags f : Z.testbit f 2 = false → clear_flag f B_DIRTY = f.
Proof.
  intros Hf. unfold clear_flag. apply Z.bits_inj'. intros n Hn. rewrite Z.land_spec, Z.lnot_spec by done.
  change B_DIRTY with (2 ^ 2). destruct (decide (n = 2)) as [->|]; [by rewrite Hf|].
  rewrite Z.pow2_bits_false by done. by rewrite andb_true_r.
Qed.

(** [Bio.iderw] is [serve]. *)
Lemma memide_serves p i env d : runs p d → mine d p (get_buf d i) → request_ok (get_buf d i) → k_disksize d = FSSIZE →
  ∃ d', Bio.iderw i env d = Done tt d' env ∧
    same (serve (disk_get (k_disk d), k_bcache d) i) (disk_get (k_disk d'), k_bcache d') ∧
    k_procs d' = k_procs d ∧ k_disksize d' = FSSIZE.
Proof.
  intros Hr Hm [Hdev Hblk Hlen Htodo] Hsz. unfold serve. cbn [fst snd]. change (k_bcache d !!! i) with (get_buf d i).
  destruct (dirty (get_buf d i)) eqn:Hd.
  - eexists. split; [by apply (iderw_write p); [..|rewrite Hsz; lia]|]. split; [|done].
    split; [|done]. intros n. unfold disk_get, disk_put, insert, fn_insert. cbn. case_decide as E.
    + by rewrite (proj2 (Z.eqb_eq _ _) E).
    + by rewrite (proj2 (Z.eqb_neq _ _) E).
  - eexists. split; [apply (iderw_read p); [done|done| |done|done|rewrite Hsz; lia]|done].
    by destruct (valid (get_buf d i)).
Qed.

Section simulation.
Context {D : Type} `{!IdeDevice D}.
Implicit Types s : istate D.

(** The requests in the queue, the first one in progress. *)
Definition queue s : list nat := walk_queue (length (k_bcache (i_k s))) (k_bcache (i_k s)) (i_queue s).
(** The first drive of the controller is drive 0; the root device is 1. *)
Definition contents s : (Z → block) * list buf := (dev_sector (i_dev s) 1, k_bcache (i_k s)).

(** The driver between two events. *)
Record driver_ok s (q : list nat) : Prop := {
  do_chain : qchain (k_bcache (i_k s)) (i_queue s) q;
  do_nodup : NoDup q;
  do_ready i : i ∈ q → request_ok (k_bcache (i_k s) !!! i);
  do_phase : match q with
    | [] => dev_phase (i_dev s) = Idle
    | i :: _ => let b := k_bcache (i_k s) !!! i in
        if dirty b then dev_phase (i_dev s) = Idle ∧ dev_sector (i_dev s) 1 (b_blockno b) = b_data b
        else dev_phase (i_dev s) = Reading 1 (b_blockno b)
    end;
  do_faulty : dev_faulty (i_dev s) = false;
  do_disk1 : i_disk1 s = true;
  do_asleep p i : p_state (get_proc (i_k s) p) = SLEEPING → p_chan (get_proc (i_k s) p) = Some (ChBuf i) → i ∈ q }.

Lemma driver_queue s q : driver_ok s q → queue s = q.
Proof. intros []. apply qchain_walk; [done|]. by eapply qchain_length. Qed.

(** The driver and the synchronous driver: the queue counts as served. *)
Record sim s (d : kstate) : Prop := {
  sim_ok : driver_ok s (queue s);
  sim_same : same (flush (queue s) (contents s)) (disk_get (k_disk d), k_bcache d);
  sim_pids p : pid_of (i_k s) p = pid_of d p;
  sim_size : k_disksize d = FSSIZE }.

(** ** Events *)

(** A process calls [iderw], the disk interrupts, or the holder of a buffer
    that is not in the queue changes it. *)
Inductive event := Request (i p : nat) | Interrupt | Update (i : nat) (g : buf → buf).

Definition turn (p : nat) (k : kstate) : kstate := k <| k_locks := [] |> <| k_cpu_proc := Some p |>.

Definition ide_step (e : event) s : option (istate D) :=
  match e with
  | Request i p => match iderw i [] (s <| i_k ::= turn p |>) with Asleep s' => Some s' | _ => None end
  | Interrupt => match ideintr [] (s <| i_k ::= λ k, k <| k_locks := [] |> |>) with Done _ s' _ => Some s' | _ => None end
  | Update i g => Some (s <| i_k ::= λ k, k <| k_bcache ::= alter g i |> |>)
  end.
Definition sync_step (e : event) (d : kstate) : option kstate :=
  match e with
  | Request i p => match Bio.iderw i [] (turn p d) with Done _ d' _ => Some d' | _ => None end
  | Interrupt => Some d
  | Update i g => Some (d <| k_bcache ::= alter g i |>)
  end.

Definition allowed (e : event) s : Prop :=
  match e with
  | Request i p => i ∉ queue s ∧ (i < length (k_bcache (i_k s)))%nat ∧ (p < length (k_procs (i_k s)))%nat ∧
      mine (i_k s) p (get_buf (i_k s) i) ∧ request_ok (get_buf (i_k s) i)
  | Interrupt => True
  | Update i g => i ∉ queue s ∧ unlinked g
  end.

(** ** Steps of the driver *)
Lemma lift_done {A} (m : KM A) env s a k e : m [] (i_k s) = Done a k e → lift m env s = Done a (s <| i_k := k |>) env.
Proof. unfold lift. by intros ->. Qed.

Lemma lift_same {A} (m : KM A) env s a e : m [] (i_k s) = Done a (i_k s) e → lift m env s = Done a s env.
Proof. unfold lift. intros ->. by destruct s. Qed.
Lemma istate_ext s s' : i_k s = i_k s' → i_queue s = i_queue s' → i_disk1 s = i_disk1 s' → i_dev s = i_dev s' → s = s'.
Proof. destruct s, s'. cbn. by intros; subst. Qed.
Lemma queue_set s k : i_queue (s <| i_k := k |>) = i_queue s.
Proof. done. Qed.
Lemma tab_set s f : k_bcache (i_k (s <| i_k ::= λ k, k <| k_bcache ::= f |> |>)) = f (k_bcache (i_k s)).
Proof. done. Qed.

Definition with_tab (tab : list buf) s : istate D := s <| i_k ::= λ k, k <| k_bcache := tab |> |>.

Lemma enqueue_ok i q env s : qchain (k_bcache (i_k s)) (i_queue s) q → NoDup q → i ∉ q → (i < length (k_bcache (i_k s)))%nat →
  ∃ tab h, enqueue i env s = Done tt ((with_tab tab s) <| i_queue := h |>) env ∧ qchain tab h (q ++ [i]) ∧
    length tab = length (k_bcache (i_k s)) ∧ (∀ j, forget (tab !!! j) = forget (k_bcache (i_k s) !!! j)) ∧
    (h = Some i ↔ q = []).
Proof.
  intros Hc Hn Hi Hlt. set (tab := k_bcache (i_k s)) in *. set (t0 := alter (λ b, b <| b_qnext := None |>) i tab).
  assert (Ht0 : qchain t0 (i_queue s) q).
  { apply (qchain_ext tab); [apply length_alter| |done]. intros j Hj. unfold t0.
    rewrite list_lookup_total_alter_ne; [done|]. by intros ->. }
  assert (H0 : ∀ j, forget (t0 !!! j) = forget (tab !!! j)).
  { intros j. unfold t0. rewrite alter_total by done. by case_decide; subst. }
  assert (Hl0 : length t0 = length tab) by apply length_alter.
  assert (Hn0 : b_qnext (t0 !!! i) = None) by (unfold t0; by rewrite alter_total, decide_True by done).
  unfold enqueue. erewrite bind_done by (by eapply lift_done). rewrite bind_gets.
  rewrite queue_set. destruct q as [|j q].
  - cbn in Hc. rewrite Hc. exists t0, (Some i). split; [done|]. split; [|done]. cbn. by rewrite Hl0.
  - pose proof Ht0 as (Ej & _). rewrite Ej in *. rewrite bind_gets.
    change (k_bcache (i_k _)) with t0. rewrite (last_link_ok t0 j q) by (by try (pose proof (qchain_length _ _ _ Ht0 Hn) as X; cbn in X; lia)).
    destruct (last (j :: q)) as [t|] eqn:El; [|by apply last_None in El].
    exists (alter (λ b, b <| b_qnext := Some i |>) t t0), (Some j). split.
    { erewrite lift_done by done. f_equal. apply istate_ext; [by kext|exact Ej|done..]. }
    split; [by apply qchain_snoc; [..|lia|]|]. split; [by rewrite length_alter|]. split.
    + intros k. rewrite <-H0. rewrite list_lookup_total_alter. case_decide as E; [|done]. by destruct E as [<- _].
    + split; [|done]. intros [= ->]. exfalso. apply Hi. left.
Qed.

Lemma sched_asleep p k : k_locks k = [LkPtable] → k_cpu_proc k = Some p → p_state (get_proc k p) ≠ RUNNING →
  sched [] k = Asleep k.
Proof.
  intros Hl Hp Hs. unfold sched. run (curproc_ok _ _ _ Hp). mstep. rewrite Hl.
  rewrite (bool_decide_eq_true_2 (LkPtable ∈ [LkPtable])) by set_solver. rewrite bool_decide_eq_true_2 by done. mred.
  by rewrite bool_decide_eq_false_2.
Qed.

Lemma sleep_asleep p i k : k_locks k = [LkIde] → k_cpu_proc k = Some p → (p < length (k_procs k))%nat →
  sleep (ChBuf i) LkIde [] k =
    Asleep (k <| k_procs ::= alter (λ q, q <| p_chan := Some (ChBuf i) |> <| p_state := SLEEPING |>) p |> <| k_locks := [LkPtable] |>).
Proof.
  intros Hl Hp Hlt. unfold sleep, myproc. rewrite bind_gets, Hp. rewrite bool_decide_eq_true_2 by done. mstep.
  step acquire_ok by (rewrite Hl; set_solver). unfold release. mstep.
  assert (E : k_locks (k <| k_locks ::= cons LkPtable |>) = [LkPtable; LkIde]) by (simpl; by rewrite Hl).
  rewrite E, decide_True by set_solver. unfold upd_proc. mstep. unfold bind at 1.
  rewrite (sched_asleep p).
  - f_equal. kext. by rewrite Hl.
  - simpl. by rewrite Hl.
  - done.
  - unfold get_proc. simpl. rewrite alter_total, decide_True by done. done.
Qed.

(** The kernel once process [p] waits for buffer [i]. *)
Definition waits (tab : list buf) (i p : nat) (k : kstate) : kstate :=
  k <| k_locks := [LkPtable] |> <| k_cpu_proc := Some p |> <| k_bcache := tab |>
    <| k_procs ::= alter (λ q, q <| p_chan := Some (ChBuf i) |> <| p_state := SLEEPING |>) p |>.

Lemma request_todo b b' : forget b = forget b' → request_ok b' → request_ok b ∧ dirty b = dirty b' ∧ b_blockno b = b_blockno b' ∧ b_data b = b_data b'.
Proof.
  intros E [H1 H2 H3 H4]. destruct (forget_fields _ _ E) as (Ef & Ed & Eb & _ & Ea). unfold valid, dirty in *.
  split; [|by rewrite Ef]. constructor; unfold valid, dirty; rewrite ?Ef, ?Ed, ?Eb, ?Ea; done.
Qed.
Lemma started_forget b b' (d d' : D) : forget b = forget b' → started b d d' → started b' d d'.
Proof.
  intros E. destruct (forget_fields _ _ E) as (Ef & Ed & Eb & _ & Ea). unfold started, dirty. by rewrite Ef, Eb, Ea.
Qed.

Lemma iderw_asleep i p q s : driver_ok s q → allowed (Request i p) s →
  ∃ tab h d, iderw i [] (s <| i_k ::= turn p |>) = Asleep (IState (waits tab i p (i_k s)) h (i_disk1 s) d) ∧
    qchain tab h (q ++ [i]) ∧ length tab = length (k_bcache (i_k s)) ∧
    (∀ j, forget (tab !!! j) = forget (k_bcache (i_k s) !!! j)) ∧
    match q with [] => started (get_buf (i_k s) i) (i_dev s) d | _ => d = i_dev s end.
Proof.
  intros O (Hi & Hlt & Hp & Hm & Hrq). pose proof (driver_queue s q O) as Eq. rewrite Eq in Hi.
  set (s0 := s <| i_k ::= turn p |>). set (s1 := s0 <| i_k ::= λ k, k <| k_locks := [LkIde] |> |>).
  destruct (enqueue_ok i q [] s1 (do_chain _ _ O) (do_nodup _ _ O) Hi Hlt) as (tab & h & E & Hc & Hl & Hf & Hh).
  change (k_bcache (i_k s1)) with (k_bcache (i_k s)) in *.
  unfold iderw. erewrite bind_done.
  2: { eapply lift_same. apply (holdingsleep_ok _ p); [done|done|]. exact Hm. }
  mred. rewrite bind_gets. fold s0. change (get_buf (i_k s0) i) with (get_buf (i_k s) i). rewrite land_both.
  pose proof (rq_todo _ Hrq) as Ht. unfold valid, dirty in Ht. rewrite Ht.
  rewrite bind_gets. change (i_disk1 s0) with (i_disk1 s). rewrite (do_disk1 _ _ O). cbn [negb]. rewrite andb_false_r.
  erewrite bind_done by (eapply lift_done; apply acquire_ok, not_elem_of_nil).
  match goal with |- context [bind (enqueue i) _ _ ?x] => change x with s1 end.
  run E. rewrite bind_gets. set (s2 := (with_tab tab s1) <| i_queue := h |>). change (i_queue s2) with h.
  assert (Hd : ∃ d, (if decide (h = Some i) then idestart (Some i) else ret tt) [] s2 = Done tt (s2 <| i_dev := d |>) [] ∧
    match q with [] => started (get_buf (i_k s) i) (i_dev s) d | _ => d = i_dev s end).
  { destruct q as [|j q].
    - rewrite decide_True by (by apply Hh). destruct (request_todo _ _ (Hf i) Hrq) as (Hr2 & _).
      destruct (idestart_ok i [] s2) as (d & Ed & Hs); [exact Hr2|exact (do_phase _ _ O)|].
      exists d. split; [exact Ed|]. by eapply started_forget; [apply Hf|].
    - rewrite decide_False by (intros Hx; by apply Hh in Hx). by exists (i_dev s). }
  destruct Hd as (d & Ed & Hs). run Ed. exists tab, h, d. split; [|done].
  cbn [length await]. unfold bind at 1. rewrite bind_gets.
  destruct (forget_fields _ _ (Hf i)) as (Ef & _). change (b_flags (get_buf (i_k (s2 <| i_dev := d |>)) i)) with (b_flags (tab !!! i)).
  rewrite Ef, land_both. change (k_bcache (i_k s) !!! i) with (get_buf (i_k s) i). rewrite Ht.
  unfold bind at 1. unfold lift at 1. rewrite (sleep_asleep p) by done.
  f_equal. apply istate_ext; [by kext|done|exact (do_disk1 _ _ O)|done].
Qed.

(** A request joins the queue. *)
Lemma request_ok_step i p q s : driver_ok s q → allowed (Request i p) s →
  ∃ s', ide_step (Request i p) s = Some s' ∧ driver_ok s' (q ++ [i]) ∧
    same (flush (q ++ [i]) (contents s')) (flush (q ++ [i]) (contents s)) ∧ ∀ p', pid_of (i_k s') p' = pid_of (i_k s) p'.
Proof.
  intros O A. destruct (iderw_asleep i p q s O A) as (tab & h & d & E & Hc & Hl & Hf & Hd).
  destruct A as (Hi & Hlt & Hp & Hm & Hrq). rewrite (driver_queue s q O) in Hi.
  cbn [ide_step]. rewrite E. eexists. split; [reflexivity|]. split; [|split].
  - constructor; cbn.
    + done.
    + apply NoDup_app. split; [by destruct O|]. split; [set_solver|apply NoDup_singleton].
    + intros j Hj. apply (request_todo _ (k_bcache (i_k s) !!! j) (Hf j)). apply elem_of_app in Hj as [Hj|Hj].
      * by apply (do_ready _ _ O).
      * apply list_elem_of_singleton in Hj as ->. exact Hrq.
    + destruct q as [|j q]; cbn.
      * destruct (request_todo _ _ (Hf i) Hrq) as (_ & -> & -> & ->). destruct Hd as [_ Hd].
        change (k_bcache (i_k s) !!! i) with (get_buf (i_k s) i). destruct (dirty (get_buf (i_k s) i)); [|by destruct Hd].
        destruct Hd as [? Hd]. split; [done|]. by rewrite Hd, decide_True.
      * destruct (request_todo _ _ (Hf j) (do_ready _ _ O j ltac:(left))) as (_ & -> & -> & ->). subst d. exact (do_phase _ _ O).
    + destruct q; [destruct Hd as [-> _]|subst d]; by destruct O.
    + by destruct O.
    + intros p' j. unfold get_proc. cbn. rewrite alter_total by done. case_decide as Ep.
      * cbn. intros _ [= <-]. set_solver.
      * intros H1 H2. apply elem_of_app. left. by apply (do_asleep _ _ O p' j).
  - transitivity (flush (q ++ [i]) (dev_sector (i_dev s) 1, tab)).
    2: { apply flush_proper. by split_and!. }
    unfold contents. cbn. destruct q as [|j q]; [|by subst d]. destruct Hd as [_ Hd].
    destruct (request_todo _ _ (Hf i) Hrq) as (_ & Ed & Eb & Ea).
    destruct (dirty (get_buf (i_k s) i)) eqn:Dd; [|by destruct Hd as [_ ->]].
    destruct Hd as [_ Hd]. apply flush_early; [by rewrite Ed|]. intros n. by rewrite Hd, Eb, Ea.
  - intros p'. unfold pid_of, get_proc. cbn. rewrite alter_total by done. by case_decide; subst.
Qed.

(** Changing a buffer outside the queue. *)
Lemma update_ok_step i g q s : driver_ok s q → i ∉ q → unlinked g →
  ∃ s', ide_step (Update i g) s = Some s' ∧ driver_ok s' q ∧
    same (flush q (contents s')) ((flush q (contents s)).1, alter g i (flush q (contents s)).2) ∧
    ∀ p', pid_of (i_k s') p' = pid_of (i_k s) p'.
Proof.
  intros O Hi Hg. eexists. split; [reflexivity|].
  assert (Hn : ∀ j, j ∈ q → alter g i (k_bcache (i_k s)) !!! j = k_bcache (i_k s) !!! j).
  { intros j Hj. apply list_lookup_total_alter_ne. by intros ->. }
  split; [|split; [|done]].
  - destruct O as [Hc Hnd Hr Hp Hf H1 Ha]. constructor; cbn; [| |..]; try done.
    + apply (qchain_ext (k_bcache (i_k s))); [apply length_alter| |done]. intros j Hj. by rewrite Hn.
    + intros j Hj. rewrite Hn by done. auto.
    + destruct q as [|j q]; [done|]. rewrite Hn by left. done.
  - unfold contents. cbn. by apply (flush_update q i g (dev_sector (i_dev s) 1, k_bcache (i_k s))).
Qed.

(** ** The interrupt *)

Lemma dev_set s d k : (s <| i_dev := d |>) <| i_k := k |> = (s <| i_k := k |>) <| i_dev := d |>.
Proof. done. Qed.

Lemma transfer_ok i env s (b := k_bcache (i_k s) !!! i) :
  dev_faulty (i_dev s) = false → (if dirty b then dev_phase (i_dev s) = Idle else dev_phase (i_dev s) = Reading 1 (b_blockno b)) →
  ∃ d, transfer i (b_flags b) env s =
      Done tt ((with_tab (if dirty b then k_bcache (i_k s) else
        alter (λ b, b <| b_data := dev_sector (i_dev s) 1 (b_blockno b) |>) i (k_bcache (i_k s))) s) <| i_dev := d |>) env ∧
    dev_phase d = Idle ∧ dev_sector d = dev_sector (i_dev s) ∧ dev_faulty d = false.
Proof.
  intros Hf Hp. unfold transfer, has_flag. rewrite land_dirty, negb_involutive. fold (dirty b). destruct (dirty b).
  - exists (i_dev s). split; [|done]. unfold ret. f_equal. apply istate_ext; [|done..]. by kext.
  - destruct (idewait_ok true env s) as (r & d & E & [_ Hs Hph Hfa] & Hr). run E. rewrite (Hr Hf). cbn [Z.leb Z.compare].
    destruct (insl_reads d 1 (b_blockno b)) as (Hd & Hi & Hse & Hfe); [congruence|].
    exists (dev_insl d).2. split; [|split_and!; congruence].
    rewrite (bind_done _ _ _ _ _ _ _ eq_refl). erewrite lift_done by reflexivity. f_equal.
    apply istate_ext; [|done..]. kext. apply alter_ext_total. simpl. by rewrite Hd, Hs.
Qed.

(** The rest of the handler, once the data has been transferred. *)
Lemma served_tab i c (tab : list buf) :
  alter (λ b, b <| b_flags ::= λ f, clear_flag f B_DIRTY |>) i (alter (λ b, b <| b_flags ::= λ f, set_flag f B_VALID |>) i
    (if dirty (tab !!! i) then tab else alter (λ b, b <| b_data := c (b_blockno b) |>) i tab)) = (serve (c, tab) i).2.
Proof.
  unfold serve. cbn [fst snd]. destruct (dirty (tab !!! i)) eqn:Hd; cbn [snd]; rewrite !list_alter_alter_eq; apply alter_ext_total;
    unfold compose.
  - unfold upd. cbn [b_flags b_dev b_blockno b_lock b_refcnt b_prev b_next b_qnext b_data]. by rewrite finish_flags.
  - unfold dirty in Hd. unfold upd. cbn [b_flags b_dev b_blockno b_lock b_refcnt b_prev b_next b_qnext b_data].
    by rewrite finish_flags, clean_flags.
Qed.

Lemma serve_ready st i j : i ≠ j → request_ok (st.2 !!! j) → request_ok ((serve st i).2 !!! j).
Proof. intros H. by rewrite serve_other. Qed.

(** The kernel after the interrupt for buffer [i]. *)
Definition woken_by (tab : list buf) (i : nat) (k : kstate) : kstate :=
  k <| k_locks := [] |> <| k_bcache := tab |> <| k_procs ::= fmap (wake1 (ChBuf i)) |>.

Lemma ideintr_done i q s (st := serve (contents s) i) : driver_ok s (i :: q) →
  ∃ d, ideintr [] (s <| i_k ::= λ k, k <| k_locks := [] |> |>) =
      Done tt (IState (woken_by st.2 i (i_k s)) (b_qnext (get_buf (i_k s) i)) (i_disk1 s) d) [] ∧ dev_faulty d = false ∧
    match q with
    | [] => dev_phase d = Idle ∧ dev_sector d = dev_sector (i_dev s)
    | j :: _ => ∃ d0, dev_sector d0 = dev_sector (i_dev s) ∧ started (st.2 !!! j) d0 d
    end.
Proof.
  intros O. destruct (do_chain _ _ O) as (Eq & Hi & Hc). pose proof (do_nodup _ _ O) as [Hiq Hn]%NoDup_cons.
  unfold ideintr. erewrite bind_done by (eapply lift_done; apply acquire_ok, not_elem_of_nil).
  set (s1 := s <| i_k ::= λ k, k <| k_locks := [LkIde] |> |>).
  match goal with |- context [bind (gets i_queue) _ _ ?x] => change x with s1 end.
  rewrite bind_gets. change (i_queue s1) with (i_queue s). rewrite Eq. rewrite bind_gets, bind_modify, bind_gets.
  set (s2 := s1 <| i_queue := b_qnext (get_buf (i_k s1) i) |>).
  change (b_flags (get_buf (i_k s2) i)) with (b_flags (k_bcache (i_k s2) !!! i)).
  destruct (transfer_ok i [] s2) as (d & Et & Hp & Hs & Hf); [by destruct O| |].
  { pose proof (do_phase _ _ O) as Hph. cbn in Hph. change (k_bcache (i_k s2)) with (k_bcache (i_k s)).
    destruct (dirty (k_bcache (i_k s) !!! i)); [by destruct Hph|done]. }
  run Et. clear Et. do 2 (erewrite bind_done by (eapply lift_done; reflexivity)).
  erewrite bind_done by (eapply lift_done; apply wakeup_ok; simpl; set_solver).
  rewrite bind_gets.
  set (s3 := IState ((woken_by st.2 i (i_k s)) <| k_locks := [LkIde] |>) (b_qnext (get_buf (i_k s) i)) (i_disk1 s) d).
  match goal with |- context [i_queue ?x] => assert (E3 : x = s3) end.
  { apply istate_ext; [|done..]. kext. apply (served_tab i (dev_sector (i_dev s) 1) (k_bcache (i_k s))). }
  rewrite E3. clear E3. change (i_queue s3) with (b_qnext (get_buf (i_k s) i)).
  assert (Hr : ∀ d', lift (release LkIde) [] (s3 <| i_dev := d' |>) =
    Done tt (IState (woken_by st.2 i (i_k s)) (b_qnext (get_buf (i_k s) i)) (i_disk1 s) d') []).
  { intros d'. by erewrite lift_done by (by apply release_ok). }
  destruct q as [|j q].
  - cbn in Hc. unfold get_buf in Hr |- *. rewrite Hc in Hr |- *. exists d. split; [|done]. exact (Hr d).
  - destruct Hc as (Ej & Hj & Hc). unfold get_buf in Hr |- *. rewrite Ej in Hr |- *.
    destruct (idestart_ok j [] s3) as (d' & Es & Hst); [|done|].
    { apply serve_ready; [|by apply (do_ready _ _ O); right; left]. apply not_elem_of_cons in Hiq as [? _]. done. }
    run Es. exists d'. split; [exact (Hr d')|]. split; [destruct Hst as [-> _]; done|]. by exists d.
Qed.

Lemma head_done i q s : driver_ok s (i :: q) →
  same (dev_sector (i_dev s) 1, (serve (contents s) i).2) (serve (contents s) i).
Proof.
  intros O. split; [|done]. intros n. cbn [fst]. pose proof (do_phase _ _ O) as Hp. cbn in Hp. unfold serve. cbn [fst snd contents].
  destruct (dirty (k_bcache (i_k s) !!! i)); [|done]. destruct Hp as [_ Hp]. cbn [fst]. unfold insert, fn_insert. by case_decide; subst.
Qed.

Lemma proc_woken tab i k p : get_proc (woken_by tab i k) p = wake1 (ChBuf i) (get_proc k p).
Proof.
  unfold get_proc. cbn. rewrite !list_lookup_total_alt, list_lookup_fmap. by destruct (k_procs k !! p).
Qed.

(** An interrupt finishes the first request and starts the next. *)
Lemma interrupt_ok_step q s : driver_ok s q →
  ∃ s', ide_step Interrupt s = Some s' ∧ driver_ok s' (tail q) ∧
    same (flush (tail q) (contents s')) (flush q (contents s)) ∧ ∀ p', pid_of (i_k s') p' = pid_of (i_k s) p'.
Proof.
  intros O. destruct q as [|i q].
  { assert (Eq : i_queue s = None) by apply (do_chain _ _ O). cbn [ide_step]. unfold ideintr.
    erewrite bind_done by (eapply lift_done; apply acquire_ok, not_elem_of_nil). rewrite bind_gets, queue_set.
    change (i_queue (s <| i_k ::= _ |>)) with (i_queue s). rewrite Eq. erewrite lift_done by (by apply release_ok).
    eexists. split; [reflexivity|]. split; [|done]. destruct O. by constructor. }
  destruct (ideintr_done i q s O) as (d & E & Hf & Hd). cbn [ide_step tail]. rewrite E. eexists. split; [reflexivity|].
  pose proof (do_nodup _ _ O) as [Hiq Hn]%NoDup_cons. destruct (do_chain _ _ O) as (Eq & Hi & Hc).
  assert (Ho : ∀ j, j ∈ q → (serve (contents s) i).2 !!! j = k_bcache (i_k s) !!! j).
  { intros j Hj. rewrite serve_other; [done|]. by intros ->. }
  split; [|split].
  - constructor; cbn.
    + apply (qchain_ext (k_bcache (i_k s))); [apply (flush_length [i])| |exact Hc]. intros j Hj. by rewrite Ho.
    + done.
    + intros j Hj. rewrite Ho by done. apply (do_ready _ _ O). by right.
    + destruct q as [|j q]; [by destruct Hd|]. destruct Hd as (d0 & _ & _ & Hd). destruct (dirty _); [|by destruct Hd].
      destruct Hd as [? Hd]. split; [done|]. by rewrite Hd, decide_True.
    + done.
    + by destruct O.
    + intros p j. rewrite proc_woken. unfold wake1. case_decide as Hw; [done|]. intros H1 H2.
      pose proof (do_asleep _ _ O p j H1 H2) as [->|Hj]%elem_of_cons; [|done]. by destruct Hw.
  - change (flush (i :: q) (contents s)) with (flush q (serve (contents s) i)).
    etransitivity; [|apply (flush_proper q), (head_done i q s O)]. unfold contents at 1. cbn [i_dev i_k woken_by k_bcache upd].
    destruct q as [|j q]; [destruct Hd as [_ Hd]; by rewrite <-Hd|]. destruct Hd as (d0 & <- & _ & Hd).
    destruct (dirty _) eqn:Dd; destruct Hd as [_ Hd]; [|by rewrite <-Hd]. by apply flush_early.
  - intros p'. unfold pid_of. cbn [i_k]. rewrite proc_woken. unfold wake1. by case_decide.
Qed.

(** ** The simulation *)
Lemma sim_intro s s' d' q : driver_ok s' q → same (flush q (contents s')) (disk_get (k_disk d'), k_bcache d') →
  (∀ p, pid_of (i_k s') p = pid_of (i_k s) p) → (∀ p, pid_of (i_k s) p = pid_of d' p) → k_disksize d' = FSSIZE → sim s' d'.
Proof.
  intros O Hs H1 H2 Hsz. constructor; [..|done]; [by rewrite (driver_queue _ _ O)..|]. intros p. by rewrite H1.
Qed.

Lemma sim_step e s d : sim s d → allowed e s →
  ∃ s' d', ide_step e s = Some s' ∧ sync_step e d = Some d' ∧ sim s' d'.
Proof.
  intros [O Hs Hpid Hsz] A. destruct e as [i p| |i g].
  - destruct (request_ok_step i p _ s O A) as (s' & E & O' & Hs' & Hp'). exists s'.
    destruct A as (Hi & _ & _ & Hm & Hrq). destruct Hs as (Hc & Hl & Hb).
    assert (Hbi : forget (get_buf d i) = forget (get_buf (i_k s) i)).
    { unfold get_buf. specialize (Hb i). cbn [snd] in Hb. rewrite <-Hb. by rewrite flush_other. }
    destruct (memide_serves p i [] (turn p d)) as (d' & Ed & Hd & Hpr & Hsz'); [done| | |done|].
    { unfold mine in *. destruct (forget_fields _ _ Hbi) as (_ & _ & _ & El & _). change (get_buf (turn p d) i) with (get_buf d i).
      rewrite El, Hm. by rewrite (Hpid p). }
    { by destruct (request_todo _ _ Hbi Hrq). }
    exists d'. split; [done|]. split; [cbn; by rewrite Ed|]. apply (sim_intro s _ _ _ O'); [|done| |done].
    + rewrite Hs', flush_snoc. rewrite <-Hd. by apply serve_proper.
    + intros p'. rewrite Hpid. unfold pid_of, get_proc. by rewrite Hpr.
  - destruct (interrupt_ok_step _ s O) as (s' & E & O' & Hs' & Hp'). exists s', d. split; [done|]. split; [done|].
    apply (sim_intro s _ _ _ O'); [by rewrite Hs'|done..].
  - destruct A as [Hi Hg]. destruct (update_ok_step i g _ s O Hi Hg) as (s' & E & O' & Hs' & Hp').
    exists s', (d <| k_bcache ::= alter g i |>). split; [done|]. split; [done|].
    apply (sim_intro s _ _ _ O'); [|done..]. rewrite Hs'. destruct Hs as (Hc & Hl & Hb). split; [done|]. cbn.
    split; [by rewrite !length_alter|]. apply total_alter_forget; [done|done|]. apply Hg, Hb.
Qed.

Fixpoint ide_run (evs : list event) s : option (istate D) :=
  match evs with [] => Some s | e :: evs => s ← ide_step e s; ide_run evs s end.
Fixpoint sync_run (evs : list event) (d : kstate) : option kstate :=
  match evs with [] => Some d | e :: evs => d ← sync_step e d; sync_run evs d end.
Fixpoint all_allowed (evs : list event) s : Prop :=
  match evs with
  | [] => True
  | e :: evs => allowed e s ∧ match ide_step e s with Some s => all_allowed evs s | None => True end
  end.

Lemma sim_run evs s d : sim s d → all_allowed evs s →
  ∃ s' d', ide_run evs s = Some s' ∧ sync_run evs d = Some d' ∧ sim s' d'.
Proof.
  revert s d. induction evs as [|e evs IH]; intros s d Hs A; [by exists s, d|]. destruct A as [Ae A].
  destruct (sim_step e s d Hs Ae) as (s1 & d1 & E1 & E2 & Hs1). rewrite E1 in A.
  destruct (IH s1 d1 Hs1 A) as (s' & d' & E1' & E2' & Hs'). exists s', d'. cbn. rewrite E1, E2. done.
Qed.

Lemma drain s d : sim s d → ∃ s', ide_run (replicate (length (queue s)) Interrupt) s = Some s' ∧ sim s' d ∧ queue s' = [].
Proof.
  remember (queue s) as q eqn:Eq. revert s Eq. induction q as [|i q IH]; intros s Eq Hs; [by exists s|].
  pose proof (sim_ok _ _ Hs) as O. rewrite <-Eq in O.
  destruct (interrupt_ok_step _ s O) as (s1 & E & O' & _ & _).
  destruct (sim_step Interrupt s d Hs I) as (s1' & d1 & E1 & [= <-] & Hs1). rewrite E in E1. injection E1 as <-.
  destruct (IH s1) as (s' & E' & Hs' & Hq'); [by rewrite (driver_queue _ _ O')|done|].
  exists s'. cbn [replicate length ide_run]. rewrite E. done.
Qed.

(** C11. The IDE driver implements the synchronous disk of memide.c.  Start
    both in corresponding states and let processes issue requests (each for
    a buffer it holds, not already in the queue), change buffers they hold,
    and the disk interrupt, in any order.  No call panics or spins, no
    process ever sleeps on a buffer that is not queued, and after as many
    interrupts as there are requests left the queue is empty, nobody sleeps
    on a buffer, and the contents of the disk and of every buffer are those
    the synchronous driver has computed. *)
Theorem ide_refines evs s d :
  sim s d → all_allowed evs s →
  ∃ s' d', ide_run evs s = Some s' ∧ sync_run evs d = Some d' ∧
    (∀ p i, p_state (get_proc (i_k s') p) = SLEEPING → p_chan (get_proc (i_k s') p) = Some (ChBuf i) → i ∈ queue s') ∧
    ∃ s'', ide_run (replicate (length (queue s')) Interrupt) s' = Some s'' ∧ i_queue s'' = None ∧
      (∀ p i, p_state (get_proc (i_k s'') p) = SLEEPING → p_chan (get_proc (i_k s'') p) ≠ Some (ChBuf i)) ∧
      (∀ n, dev_sector (i_dev s'') 1 n = disk_get (k_disk d') n) ∧
      ∀ i, forget (get_buf (i_k s'') i) = forget (get_buf d' i).
Proof.
  intros Hs A. destruct (sim_run evs s d Hs A) as (s' & d' & E1 & E2 & Hs'). exists s', d'. split; [done|]. split; [done|].
  split; [exact (do_asleep _ _ (sim_ok _ _ Hs'))|]. destruct (drain s' d' Hs') as (s'' & E & Hs'' & Hq).
  destruct Hs'' as [O (Hc & _ & Hb) _ _]. rewrite Hq in *. exists s''. split; [done|]. split; [exact (do_chain _ _ O)|].
  split; [|done]. intros p i H1 H2. by pose proof (do_asleep _ _ O p i H1 H2) as ?%not_elem_of_nil.
Qed.
End simulation.

(** ** A controller *)
Record drive := Drive { dr_reg : Z → Z; dr_sector : Z → Z → list Z; dr_phase : phase; dr_busy : nat }.

Definition drive_inb (d : drive) : Z * drive :=
  (match dr_busy d with O => IDE_DRDY | S _ => IDE_BSY end,
   Drive (dr_reg d) (dr_sector d) (dr_phase d) (pred (dr_busy d))).
Definition drive_outb (port v : Z) (d : drive) : drive :=
  if decide (port = 503) then
    Drive (dr_reg d) (dr_sector d)
      (if v =? IDE_CMD_READ then Reading (drive_of (dr_reg d)) (lba_of (dr_reg d))
       else if v =? IDE_CMD_WRITE then Writing (drive_of (dr_reg d)) (lba_of (dr_reg d)) else Idle) 3
  else Drive (<[port := v]> (dr_reg d)) (dr_sector d) (dr_phase d) (dr_busy d).
Definition drive_outsl (l : list Z) (d : drive) : drive :=
  match dr_phase d with
  | Writing k n => Drive (dr_reg d) (λ k' n', if decide (k' = k ∧ n' = n) then l else dr_sector d k' n') Idle 5
  | _ => d
  end.
Definition drive_insl (d : drive) : list Z * drive :=
  match dr_phase d with
  | Reading k n => (dr_sector d k n, Drive (dr_reg d) (dr_sector d) Idle 0)
  | _ => ([], d)
  end.

#[global, refine] Instance drive_device : IdeDevice drive := {|
  dev_inb := drive_inb; dev_outb := drive_outb; dev_outsl := drive_outsl; dev_insl := drive_insl;
  dev_reg := dr_reg; dev_sector := dr_sector; dev_phase := dr_phase; dev_faulty _ := false; dev_busy := dr_busy |}.
Proof.
  - intros d H. unfold drive_inb. cbn [fst]. by rewrite H.
  - done.
  - intros d _. unfold drive_inb. cbn [fst]. by destruct (dr_busy d).
  - done.
  - intros d port v H. unfold drive_outb. by rewrite decide_False.
  - intros d port v H. unfold drive_outb. by rewrite decide_False.
  - done.
  - done.
  - done.
  - intros d k n l H _. unfold drive_outsl. by rewrite H.
  - intros d k n H. unfold drive_insl. by rewrite H.
Defined.

(** Process 0 holds buffer 0, which is to be written to block 5. *)
Definition one_request : kstate :=
  user_boot <| k_procs := [proc_zero <| p_state := RUNNING |> <| p_pid := 1 |>] |> <| k_disksize := FSSIZE |>
    <| k_bcache := [buf_zero <| b_dev := 1 |> <| b_blockno := 5 |> <| b_flags := B_DIRTY |>
                             <| b_lock := SleepLock true 1 |> <| b_data := replicate 512 7 |>] |>
    <| k_disk := Disk (λ _, replicate 512 0) [] |>.
Definition idle_drive : istate drive :=
  IState one_request None true (Drive (λ _, 0) (λ _ _, replicate 512 0) Idle 0).

Lemma ide_refines_witness :
  ∃ s' d', ide_run [Request 0 0; Interrupt] idle_drive = Some s' ∧ sync_run [Request 0 0; Interrupt] one_request = Some d' ∧
    (∀ p i, p_state (get_proc (i_k s') p) = SLEEPING → p_chan (get_proc (i_k s') p) = Some (ChBuf i) → i ∈ queue s') ∧
    ∃ s'', ide_run (replicate (length (queue s')) Interrupt) s' = Some s'' ∧ i_queue s'' = None ∧
      (∀ p i, p_state (get_proc (i_k s'') p) = SLEEPING → p_chan (get_proc (i_k s'') p) ≠ Some (ChBuf i)) ∧
      (∀ n, dev_sector (i_dev s'') 1 n = disk_get (k_disk d') n) ∧
      ∀ i, forget (get_buf (i_k s'') i) = forget (get_buf d' i).
Proof.
  apply (ide_refines [Request 0 0; Interrupt] idle_drive one_request).
  - constructor; [|by split_and!|done|done]. constructor; [done|apply NoDup_nil_2|..]; try done.
    + intros i Hi. by apply not_elem_of_nil in Hi.
    + intros [|p] i; [done|]. destruct p; done.
  - cbn [all_allowed]. split; [|by destruct (ide_step _ _) as [x|]; [destruct (ide_step Interrupt x)|]]. split_and!; [apply not_elem_of_nil|cbn; lia|cbn; lia|done|].
    constructor; [done|cbn; unfold FSSIZE; lia|done|done].
Defined.
