(* ===== verification/Drivers.v ===== *)
(** * The disk drivers in the kernel (ide.c, memide.c)

    The kernel is linked with one of two disk drivers.  [Bio] has the
    interface [Driver] the rest of the kernel uses and the instance of
    memide.c; this file has the instance of ide.c.  The variables of ide.c are
    in the kernel's state ([k_ide]), and so is the sequence of the port accesses
    the driver has made: a disk controller is what answers them, any
    [IdeDevice] in a state [d0] when the machine starts, and its state at any
    moment is the result of replaying them. *)
From S2P Require Import Prelude State Sync Bio Ide.

Section ide.
Context {D : Type} `{!IdeDevice D} (d0 : D).

Definition io_step (d : D) (e : ide_io) : D :=
  match e with
  | IdeIn => (dev_inb d).2
  | IdeOut port v => dev_outb port v d
  | IdeOutsl l => dev_outsl l d
  | IdeInsl => (dev_insl d).2
  end.
Definition replay (h : list ide_io) : D := foldl io_step d0 h.

Lemma replay_snoc h e : replay (h ++ [e]) = io_step (replay h) e.
Proof. unfold replay. by rewrite foldl_app. Qed.

(** The controller with its history as its state. *)
#[refine] Definition controller : IdeDevice (list ide_io) := {|
  dev_inb h := ((dev_inb (replay h)).1, h ++ [IdeIn]);
  dev_outb port v h := h ++ [IdeOut port v];
  dev_outsl l h := h ++ [IdeOutsl l];
  dev_insl h := ((dev_insl (replay h)).1, h ++ [IdeInsl]);
  dev_reg h := dev_reg (replay h); dev_sector h := dev_sector (replay h); dev_phase h := dev_phase (replay h);
  dev_faulty h := dev_faulty (replay h); dev_busy h := dev_busy (replay h) |}.
Proof.
  all: intros h; cbn [fst snd]; intros *; rewrite ?replay_snoc; cbn [io_step].
  - apply inb_ready.
  - apply inb_busy.
  - apply inb_error.
  - apply inb_keeps.
  - apply outb_reg.
  - apply outb_keeps.
  - apply outb_read.
  - apply outb_write.
  - apply outb_command.
  - apply outsl_writes.
  - apply insl_reads.
Defined.

(** The state the routines of ide.c work on, in the kernel's state. *)
Definition up (k : kstate) : istate (list ide_io) := IState k (ide_queue (k_ide k)) (ide_disk1 (k_ide k)) (ide_log (k_ide k)).
Definition down (t : istate (list ide_io)) : kstate := (i_k t) <| k_ide := IdeState (i_queue t) (i_disk1 t) (i_dev t) |>.

(** A routine of ide.c as a routine of the kernel; other processes run at the
    same points of it. *)
Definition in_kernel {A} (m : M (istate (list ide_io)) A) : KM A := λ env k,
  match m ((λ f t, up (f (down t))) <$> env) (up k) with
  | Done a t env' => Done a (down t) (drop (length env - length env') env)
  | Panic msg => Panic msg
  | Asleep t => Asleep (down t)
  end.

Definition ide_driver : Driver := {|
  drv_iderw i := in_kernel (@Ide.iderw _ controller i);
  drv_ideintr := in_kernel (@Ide.ideintr _ controller) |}.
End ide.

(** The drivers the kernel may be linked with. *)
Inductive linked : Driver → Prop :=
  | linked_memide : linked memide
  | linked_ide D (I : IdeDevice D) (d0 : D) : linked (ide_driver d0).
