(* ===== verification/Locks.v ===== *)
(** * The lock discipline

    A routine is checked against the spin locks it is entered with and the
    ones it returns with: [locks l m l'] says that [m], entered with the locks
    [l] held, returns with [l' a] held, where [a] is its result, whatever the
    other processes do in between.  The rules follow the structure of a
    routine, and [Neutral m] is the contract of a routine that returns with
    the locks it was entered with.  [DriverLocks] and [DevLocks] state that
    contract for the disk driver and for the devices behind device files;
    ide.c, memide.c and the console keep it.  The theorem of this file is that
    [trap], with every system call and interrupt handler it may dispatch to,
    is such a routine. *)
From S2P Require Import Prelude State Sync Dll Bio Cache Log CString Print Kalloc Fs Vm File Proc Exec Syscall Console Trap Ide Drivers.

(** The locks held in a state: of the kernel, and of the kernel with the disk
    controller beside it. *)
Class HasLocks (St : Type) := klocks : St → list lockid.
#[global] Instance kstate_locks : HasLocks kstate := k_locks.
#[global] Instance istate_locks D : HasLocks (istate D) := λ s, k_locks (i_k s).

(** Another process's turn leaves this CPU with the locks it found. *)
Definition steady {St} `{!HasLocks St} (f : St → St) : Prop := ∀ s, klocks (f s) = klocks s.

Definition locks {St} `{!HasLocks St} {A} (l : list lockid) (m : M St A) (l' : A → list lockid) : Prop :=
  ∀ env s a s' env', Forall steady env → klocks s = l → m env s = Done a s' env' →
    klocks s' = l' a ∧ Forall steady env'.

Class Neutral {St} `{!HasLocks St} {A} (m : M St A) : Prop := neutral l : locks l m (λ _, l).

(** ** Rules *)
Section rules.
Context {St : Type} `{HL : !HasLocks St}.

Lemma locks_ret {A} l (a : A) l' : l' a = l → locks l (ret a) l'.
Proof. intros E env s b s' env' He Hl [= <- <- <-]. by rewrite E. Qed.
Lemma locks_ret_same {A} l (a : A) : locks l (ret a) (λ _, l).
Proof. by apply locks_ret. Qed.
Lemma locks_gets {A} l (f : St → A) : locks l (gets f) (λ _, l).
Proof. intros env s b s' env' He Hl [= <- <- <-]. done. Qed.
Lemma locks_modify l f : (∀ s, klocks (f s) = klocks s) → locks l (modify f) (λ _, l).
Proof. intros E env s b s' env' He Hl [= <- <- <-]. by rewrite E. Qed.
Lemma locks_panic {A} l msg (l' : A → list lockid) : locks l (panic msg) l'.
Proof. intros env s b s' env' He Hl E. discriminate E. Qed.
Lemma locks_bind {A B} l (m : M St A) l1 (k : A → M St B) l2 :
  locks l m l1 → (∀ a, locks (l1 a) (k a) l2) → locks l (bind m k) l2.
Proof.
  intros Hm Hk env s b s' env' He Hl E. apply bind_inv in E as (a & s1 & env1 & E1 & E2).
  destruct (Hm _ _ _ _ _ He Hl E1) as [Hl1 He1]. by apply (Hk a env1 s1 b s' env').
Qed.
Lemma locks_when l b m : locks l m (λ _, l) → locks l (when b m) (λ _, l).
Proof. destruct b; [done|intros _; apply locks_ret_same]. Qed.
Lemma locks_foreach {A} l (body : A → M St unit) xs :
  (∀ x, locks l (body x) (λ _, l)) → locks l (foreach body xs) (λ _, l).
Proof.
  intros H. induction xs as [|x xs IH]; [apply locks_ret_same|].
  simpl. eapply locks_bind; [apply H|]. intros ?. exact IH.
Qed.
Lemma locks_first_some {A B} l (body : A → M St (option B)) xs :
  (∀ x, locks l (body x) (λ _, l)) → locks l (first_some body xs) (λ _, l).
Proof.
  intros H. induction xs as [|x xs IH]; [apply locks_ret_same|].
  simpl. eapply locks_bind; [apply H|]. intros [b|]; [apply locks_ret_same|exact IH].
Qed.
End rules.

(** ** Locks, sleeping and waking *)
Lemma locks_acquire l lk : locks l (acquire lk) (λ _, lk :: l).
Proof.
  intros env s [] s' env' He Hl E. unfold acquire in E. rewrite bind_gets in E.
  destruct (decide (lk ∈ k_locks s)); [discriminate E|]. injection E as <- <-. unfold klocks, kstate_locks in *. simpl. by rewrite Hl.
Qed.
Lemma locks_release_drop l lk : locks l (release lk) (λ _, drop_lock lk l).
Proof.
  intros env s [] s' env' He Hl E. unfold release in E. rewrite bind_gets in E.
  destruct (decide (lk ∈ k_locks s)); [|discriminate E]. injection E as <- <-. unfold klocks, kstate_locks in *. simpl. by rewrite Hl.
Qed.
Lemma locks_release l lk : locks (lk :: l) (release lk) (λ _, l).
Proof.
  pose proof (locks_release_drop (lk :: l) lk) as H. simpl in H. by rewrite decide_True in H.
Qed.
Lemma locks_swtch l : locks l swtch (λ _, l).
Proof.
  intros env s [] s' env' He Hl E. unfold swtch in E. destruct env as [|f env]; [discriminate E|].
  injection E as <- <-. apply Forall_cons in He as [Hf He]. by rewrite Hf.
Qed.

Ltac lk1 :=
  lazymatch goal with
  | |- Neutral _ => intros ?l
  | |- locks _ (let _ := _ in _) _ => cbv zeta
  | |- locks _ (bind _ _) _ => eapply locks_bind; [|intros ?; cbv beta]
  | |- locks _ (ret _) _ => first [apply locks_ret_same | apply locks_ret; reflexivity]
  | |- locks _ (gets _) _ => apply locks_gets
  | |- locks _ (modify _) _ => apply locks_modify; intros; reflexivity
  | |- locks _ (upd_proc _ _) _ => apply locks_modify; intros; reflexivity
  | |- locks _ (upd_buf _ _) _ => apply locks_modify; intros; reflexivity
  | |- locks _ (upd_inode _ _) _ => apply locks_modify; intros; reflexivity
  | |- locks _ (upd_file _ _) _ => apply locks_modify; intros; reflexivity
  | |- locks _ (upd_log _) _ => apply locks_modify; intros; reflexivity
  | |- locks _ (upd_mem _) _ => apply locks_modify; intros; reflexivity
  | |- locks _ (upd_pipe _ _) _ => apply locks_modify; intros; reflexivity
  | |- locks _ (upd_input _) _ => apply locks_modify; intros; reflexivity
  | |- locks _ (panic _) _ => apply locks_panic
  | |- locks _ (acquire _) _ => apply locks_acquire
  | |- locks _ (release _) _ => apply locks_release
  | |- locks _ (when _ _) _ => apply locks_when
  | |- locks _ (foreach _ _) _ => apply locks_foreach; intros ?
  | |- locks _ (first_some _ _) _ => apply locks_first_some; intros ?
  | |- locks _ (match ?x with _ => _ end) _ => destruct x
  | |- locks _ ((λ _, _) _) _ => cbv beta
  | |- locks _ _ _ => apply neutral; apply _
  end.
Ltac lks := repeat lk1.

#[global] Instance neutral_myproc : Neutral myproc.
Proof. unfold myproc. lks. Qed.
#[global] Instance neutral_curproc : Neutral curproc.
Proof. unfold curproc. lks. Qed.
#[global] Instance neutral_mypid : Neutral mypid.
Proof. unfold mypid. lks. Qed.
#[global] Instance neutral_mykilled : Neutral mykilled.
Proof. unfold mykilled. lks. Qed.
#[global] Instance neutral_swtch : Neutral swtch.
Proof. intros l. apply locks_swtch. Qed.
#[global] Instance neutral_sched : Neutral sched.
Proof. unfold sched. lks. Qed.
#[global] Instance neutral_yield : Neutral yield.
Proof. unfold yield. lks. Qed.
#[global] Instance neutral_wakeup1 ch : Neutral (wakeup1 ch).
Proof. unfold wakeup1. lks. Qed.
#[global] Instance neutral_wakeup ch : Neutral (wakeup ch).
Proof. unfold wakeup. lks. Qed.

(** [sleep] gives up the lock it is passed and takes it again. *)
Lemma locks_sleep l ch lk : locks (lk :: l) (sleep ch lk) (λ _, lk :: l).
Proof.
  unfold sleep. eapply locks_bind; [apply neutral_myproc|]. intros [p|]; [|apply locks_panic].
  destruct (decide (lk = LkPtable)) as [->|Hne].
  - rewrite !bool_decide_false by (intros H; by apply H). cbn [when]. lks.
  - rewrite !bool_decide_true by done. cbn [when].
    eapply (locks_bind _ _ (λ _, LkPtable :: l)).
    + eapply locks_bind; [apply locks_acquire|]. intros ?.
      pose proof (locks_release_drop (LkPtable :: lk :: l) lk) as H. simpl in H.
      by rewrite decide_False, decide_True in H.
    + intros ?. lks.
Qed.

Lemma locks_sleep_loop {A} l (body : KM (option A)) ch lk l' :
  locks (lk :: l) body (λ r, match r with Some a => l' a | None => lk :: l end) →
  locks (lk :: l) (sleep_loop body ch lk) l'.
Proof.
  intros H env s a s' env' He Hl E. unfold sleep_loop in E. revert E.
  generalize (S (length env)). intros n. revert env s He Hl. induction n as [|n IH]; intros env s He Hl E.
  { discriminate E. }
  cbn [sleep_rounds] in E. apply bind_inv in E as (r & s1 & env1 & E1 & E2).
  destruct (H _ _ _ _ _ He Hl E1) as [Hl1 He1]. destruct r as [b|].
  { injection E2 as <- <- <-. done. }
  apply bind_inv in E2 as ([] & s2 & env2 & E2 & E3).
  destruct (locks_sleep _ _ _ _ _ _ _ _ He1 Hl1 E2) as [Hl2 He2]. by apply (IH env2 s2).
Qed.

#[global] Instance neutral_initsleeplock r : Neutral (initsleeplock r).
Proof. intros l. apply locks_modify. intros s. apply k_locks_set_sl. Qed.
#[global] Instance neutral_upd_sl r f : Neutral (upd_sl r f).
Proof. intros l. apply locks_modify. intros s. apply k_locks_set_sl. Qed.
#[global] Instance neutral_acquiresleep r : Neutral (acquiresleep r).
Proof.
  unfold acquiresleep. lk1. lk1; [lks|]. eapply locks_bind.
  { apply locks_sleep_loop with (l' := λ _, LkSleep r :: l). lk1; [lks|].
    apply locks_ret. by destruct (sl_locked _). }
  intros ?. lks.
Qed.
#[global] Instance neutral_releasesleep r : Neutral (releasesleep r).
Proof. unfold releasesleep. lks. Qed.
#[global] Instance neutral_holdingsleep r : Neutral (holdingsleep r).
Proof. unfold holdingsleep. lks. Qed.

(** ** The buffer cache and the log *)
#[local] Transparent binit bread bwrite brelse initlog begin_op end_op log_write.

(** The contract of a disk driver. *)
Class DriverLocks (Drv : Driver) : Prop := {
  dl_iderw i :: Neutral (drv_iderw i);
  dl_ideintr :: Neutral drv_ideintr }.

Section kernel.
Context {Drv : Driver} {RL : DriverLocks Drv}.

#[global] Instance neutral_bget dev b : Neutral (bget dev b).
Proof. unfold bget. lks. Qed.
#[global] Instance neutral_bread dev b : Neutral (bread dev b).
Proof. unfold bread. lks. Qed.
#[global] Instance neutral_bwrite i : Neutral (bwrite i).
Proof. unfold bwrite. lks. Qed.
#[global] Instance neutral_brelse i : Neutral (brelse i).
Proof. unfold brelse. lks. Qed.
#[global] Instance neutral_readsb dev : Neutral (readsb dev).
Proof. unfold readsb. lks. Qed.
#[global] Instance neutral_set_lh_block i v : Neutral (set_lh_block i v).
Proof. unfold set_lh_block. lks. Qed.
#[global] Instance neutral_install_trans : Neutral install_trans.
Proof. unfold install_trans, install_trans1. lks. Qed.
#[global] Instance neutral_read_head : Neutral read_head.
Proof. unfold read_head. lks. Qed.
#[global] Instance neutral_write_head : Neutral write_head.
Proof. unfold write_head. lks. Qed.
#[global] Instance neutral_recover_from_log : Neutral recover_from_log.
Proof. unfold recover_from_log. lks. Qed.
#[global] Instance neutral_initlog dev : Neutral (initlog dev).
Proof. unfold initlog. lks. Qed.
#[global] Instance neutral_begin_op : Neutral begin_op.
Proof.
  unfold begin_op. lk1. lk1; [lks|].
  apply locks_sleep_loop with (l' := λ _, l). lks.
Qed.
#[global] Instance neutral_write_log : Neutral write_log.
Proof. unfold write_log, write_log1. lks. Qed.
#[global] Instance neutral_commit : Neutral commit.
Proof. unfold commit. lks. Qed.
#[global] Instance neutral_end_op : Neutral end_op.
Proof. unfold end_op. lks. Qed.
#[global] Instance neutral_log_write i : Neutral (log_write i).
Proof. unfold log_write. lks. Qed.

(** ** Output and memory *)
#[global] Instance neutral_consputc c : Neutral (Cons.consputc c).
Proof. unfold Cons.consputc. lks. Qed.
#[global] Instance neutral_printint x b sg : Neutral (Cons.printint x b sg).
Proof. unfold Cons.printint. lks. Qed.
#[global] Instance neutral_cprintf fmt args : Neutral (Cons.cprintf fmt args).
Proof.
  assert (H : ∀ n f a l, (length f ≤ n)%nat → locks l (Cons.cprintf_from f a) (λ _, l)).
  { induction n as [|n IH]; intros f a l Hf; (destruct f as [|c f]; [apply locks_ret_same|]); simpl in Hf; [lia|].
    cbn [Cons.cprintf_from]. destruct (c =? 0); [lks|]. destruct (negb (c =? 37)).
    { lk1; [lks|]. apply IH. lia. }
    destruct f as [|d f]; [lks|]. simpl in Hf. destruct (d =? 0); [lks|]. cbv zeta.
    repeat (match goal with |- context [if ?b then _ else _] => destruct b end);
      repeat (lk1; [solve [lks]|]); apply IH; lia. }
  unfold Cons.cprintf. lk1. lk1; [lks|]. destruct a; cbn [when].
  - lk1; [lks|]. lk1; [by apply (H (length (bytes fmt)))|]. lks.
  - lk1; [lks|]. lk1; [by apply (H (length (bytes fmt)))|]. lks.
Qed.

(** The allocator takes its lock depending on a flag that its body leaves
    alone. *)
Lemma locks_kmem {A} (body : KM A) l :
  (∀ env s, ∃ a s', body env s = Done a s' env ∧ k_locks s' = k_locks s ∧ k_use_lock s' = k_use_lock s) →
  locks l (ul <- gets k_use_lock ;; when ul (acquire LkKmem) ;;
           a <- body ;; ul <- gets k_use_lock ;; when ul (release LkKmem) ;; ret a) (λ _, l).
Proof.
  intros Hb env s a s' env' He Hl E. rewrite bind_gets in E. destruct (k_use_lock s) eqn:Hu; cbn [when] in E.
  - apply bind_inv in E as ([] & s1 & env1 & E1 & E2).
    destruct (locks_acquire _ _ _ _ _ _ _ He Hl E1) as [Hl1 He1].
    assert (Hu1 : k_use_lock s1 = true).
    { unfold acquire in E1. rewrite bind_gets in E1. destruct (decide _); [discriminate E1|].
      by injection E1 as <- <-. }
    destruct (Hb env1 s1) as (b & s2 & E3 & Hl2 & Hu2). rewrite (bind_done _ _ _ _ _ _ _ E3), bind_gets in E2.
    rewrite Hu2, Hu1 in E2. cbn [when] in E2. apply bind_inv in E2 as ([] & s3 & env3 & E4 & E5).
    injection E5 as <- <- <-. apply (locks_release l LkKmem env1 s2 tt s3 env3); [done| |done].
    unfold klocks, kstate_locks in *. congruence.
  - rewrite bind_ret in E. destruct (Hb env s) as (b & s2 & E3 & Hl2 & Hu2).
    rewrite (bind_done _ _ _ _ _ _ _ E3), bind_gets, Hu2, Hu in E. cbn [when] in E.
    injection E as <- <- <-. unfold klocks, kstate_locks in *. split; [congruence|done].
Qed.

#[global] Instance neutral_kalloc : Neutral kalloc.
Proof.
  intros l. pose proof (locks_kmem (r <- gets k_freelist ;;
    when (negb (r =? 0)) (modify (λ s, s <| k_freelist := ld4 (k_mem s) r |>)) ;; ret r) l) as H.
  intros env s a s' env' He Hl E. apply (H ltac:(intros e t; rewrite bind_gets; destruct (negb _); eauto) env s a s' env' He Hl).
  rewrite <-E. unfold kalloc. apply bind_ext. intros ul e t. apply bind_ext. intros ? e1 t1.
  rewrite !bind_assoc. apply bind_ext. intros r e2 t2. by rewrite bind_assoc.
Qed.

#[global] Instance neutral_kfree kend v : Neutral (kfree kend v).
Proof.
  intros l. unfold kfree. destruct (_ || _); [apply locks_panic|].
  lk1; [lks|]. pose proof (locks_kmem (freelist <- gets k_freelist ;;
    upd_mem (λ m, KString.store4 m v freelist) ;; modify (λ s, s <| k_freelist := v |>)) l) as H.
  intros env s a0 s' env' He Hl E.
  apply (H ltac:(intros e t; rewrite bind_gets; unfold upd_mem; rewrite bind_modify; eauto) env s a0 s' env' He Hl).
  rewrite <-E. apply bind_ext. intros ul e t. apply bind_ext. intros ? e1 t1.
  rewrite !bind_assoc. apply bind_ext. intros r e2 t2. rewrite bind_assoc. apply bind_ext. intros ? e3 t3.
  apply bind_ext. intros [] e4 t4. apply bind_ext. intros [] e5 t5; [|done].
  unfold bind, when. by destruct (release LkKmem e5 t5) as [[] ? ?| |].
Qed.

(** ** The file system *)

(** What the drivers promise. *)
Class DevLocks (D : Devsw) : Prop := {
  dev_read_neutral major f i n : devsw_read major = Some f → Neutral (f i n);
  dev_write_neutral major f i l n : devsw_write major = Some f → Neutral (f i l n) }.

#[global] Instance neutral_bzero dev b : Neutral (bzero dev b).
Proof. unfold bzero. lks. Qed.
#[global] Instance neutral_balloc dev : Neutral (balloc dev).
Proof.
  assert (H : ∀ n b, Neutral (balloc_from dev n b)).
  { induction n as [|n IH]; intros b; cbn [balloc_from]; lks. }
  unfold balloc. lks.
Qed.
#[global] Instance neutral_bfree dev b : Neutral (bfree dev b).
Proof. unfold bfree. lks. Qed.
#[global] Instance neutral_iinit dev : Neutral (iinit dev).
Proof. unfold iinit. lks. Qed.
#[global] Instance neutral_iget dev i : Neutral (iget dev i).
Proof. unfold iget. lks. Qed.
#[global] Instance neutral_ialloc dev t : Neutral (ialloc dev t).
Proof.
  assert (H : ∀ n b, Neutral (ialloc_from dev t n b)).
  { induction n as [|n IH]; intros b; cbn [ialloc_from]; lks. }
  unfold ialloc. lks.
Qed.
#[global] Instance neutral_iupdate i : Neutral (iupdate i).
Proof. unfold iupdate. lks. Qed.
#[global] Instance neutral_idup i : Neutral (idup i).
Proof. unfold idup. lks. Qed.
#[global] Instance neutral_ilock i : Neutral (ilock i).
Proof. unfold ilock. lks. Qed.
#[global] Instance neutral_iunlock i : Neutral (iunlock i).
Proof. unfold iunlock. lks. Qed.
#[global] Instance neutral_bmap i b : Neutral (bmap i b).
Proof. unfold bmap, set_addr. lks. Qed.
#[global] Instance neutral_itrunc i : Neutral (itrunc i).
Proof. unfold itrunc, itrunc1, set_addr. lks. Qed.
#[global] Instance neutral_iput i : Neutral (iput i).
Proof. unfold iput. lks. Qed.
#[global] Instance neutral_iunlockput i : Neutral (iunlockput i).
Proof. unfold iunlockput. lks. Qed.
#[global] Instance neutral_stati i : Neutral (stati i).
Proof. unfold stati. lks. Qed.

Section dev.
Context {D : Devsw} {DL : DevLocks D}.

#[global] Instance neutral_readi i off n : Neutral (readi i off n).
Proof using DL RL.
  assert (H : ∀ f off left, Neutral (readi_loop f i off left)).
  { induction f as [|f IH]; intros o lf; cbn [readi_loop]; lks. }
  unfold readi. lk1. lk1; [lks|]. destruct (_ =? T_DEV).
  - destruct (_ || _); [lks|]. destruct (devsw_read _) eqn:E; [|lks]. by eapply dev_read_neutral.
  - lks.
Qed.
#[global] Instance neutral_writei i l off n : Neutral (writei i l off n).
Proof using DL RL.
  assert (H : ∀ f src off left, Neutral (writei_loop f i src off left)).
  { induction f as [|f IH]; intros src o lf; cbn [writei_loop]; lks. }
  unfold writei. lk1. lk1; [lks|]. destruct (_ =? T_DEV).
  - destruct (_ || _); [lks|]. destruct (devsw_write _) eqn:E; [|lks]. by eapply dev_write_neutral.
  - lks.
Qed.
#[global] Instance neutral_dirlookup i n : Neutral (dirlookup i n).
Proof using DL RL.
  assert (H : ∀ f off, Neutral (dirlookup_from f i n off)).
  { induction f as [|f IH]; intros o; cbn [dirlookup_from]; lks. }
  unfold dirlookup. lks.
Qed.
#[global] Instance neutral_dirlink i n inum : Neutral (dirlink i n inum).
Proof using DL RL.
  assert (H : ∀ f off, Neutral (dirlink_slot f i off)).
  { induction f as [|f IH]; intros o; cbn [dirlink_slot]; lks. }
  unfold dirlink. lks.
Qed.
#[global] Instance neutral_namex path np : Neutral (namex path np).
Proof using DL RL.
  assert (H : ∀ f ip path name, Neutral (namex_from f ip path np name)).
  { induction f as [|f IH]; intros ip pa nm; cbn [namex_from]; lks. }
  unfold namex. lks.
Qed.
#[global] Instance neutral_namei path : Neutral (namei path).
Proof using DL RL. unfold namei. lks. Qed.
#[global] Instance neutral_nameiparent path : Neutral (nameiparent path).
Proof using DL RL. unfold nameiparent. lks. Qed.
End dev.

(** ** Virtual memory *)
Lemma locks_diverge {A} l (l' : A → list lockid) : locks l diverge l'.
Proof. intros env s a s' env' He Hl E. discriminate E. Qed.

#[global] Instance neutral_diverge {A} : Neutral (@diverge A).
Proof. intros l. apply locks_diverge. Qed.
#[global] Instance neutral_load4 a : Neutral (load4 a).
Proof. unfold load4. lks. Qed.
#[global] Instance neutral_save4 a v : Neutral (save4 a v).
Proof. unfold save4. lks. Qed.
#[global] Instance neutral_walkpgdir pd va al : Neutral (walkpgdir pd va al).
Proof. unfold walkpgdir. lks. Qed.
#[global] Instance neutral_mappages pd va sz pa perm : Neutral (mappages pd va sz pa perm).
Proof.
  assert (H : ∀ n a last pa, Neutral (mappages_from n pd a last pa perm)).
  { induction n as [|n IH]; intros; cbn [mappages_from]; lks. }
  unfold mappages. lks.
Qed.
#[global] Instance neutral_deallocuvm ke pd o n : Neutral (deallocuvm ke pd o n).
Proof.
  assert (H : ∀ n a osz, Neutral (dealloc_from ke n pd a osz)).
  { induction n0 as [|n' IH]; intros; cbn [dealloc_from]; lks. }
  unfold deallocuvm. lks.
Qed.
#[global] Instance neutral_freevm ke pd : Neutral (freevm ke pd).
Proof. unfold freevm. lks. Qed.
#[global] Instance neutral_allocuvm ke pd o n : Neutral (allocuvm ke pd o n).
Proof.
  assert (H : ∀ k a osz nsz, Neutral (alloc_from ke k pd a osz nsz)).
  { induction k as [|k IH]; intros; cbn [alloc_from]; lks. }
  unfold allocuvm. lks.
Qed.
#[global] Instance neutral_setupkvm ke kd : Neutral (setupkvm ke kd).
Proof.
  assert (H : ∀ ms pd, Neutral (setup_maps ke pd ms)).
  { induction ms as [|k ms IH]; intros; cbn [setup_maps]; lks. }
  unfold setupkvm. lks.
Qed.
#[global] Instance neutral_switchkvm : Neutral switchkvm.
Proof. unfold switchkvm. lks. Qed.
#[global] Instance neutral_switchuvm p : Neutral (switchuvm p).
Proof. unfold switchuvm. lks. Qed.
#[global] Instance neutral_inituvm pd i sz : Neutral (inituvm pd i sz).
Proof. unfold inituvm. lks. Qed.
#[global] Instance neutral_loaduvm {D : Devsw} {DL : DevLocks D} pd a i o sz : Neutral (loaduvm pd a i o sz).
Proof.
  assert (H : ∀ n x, Neutral (load_from n pd a i o sz x)).
  { induction n as [|n IH]; intros; cbn [load_from]; lks. }
  unfold loaduvm. lks.
Qed.
#[global] Instance neutral_clearpteu pd va : Neutral (clearpteu pd va).
Proof. unfold clearpteu. lks. Qed.
#[global] Instance neutral_copyuvm ke kd pd sz : Neutral (copyuvm ke kd pd sz).
Proof.
  assert (H : ∀ n d x, Neutral (copy_from ke n d pd sz x)).
  { induction n as [|n IH]; intros; cbn [copy_from]; lks. }
  unfold copyuvm. lks.
Qed.
#[global] Instance neutral_vload4 va : Neutral (vload4 va).
Proof. unfold vload4. lks. Qed.
#[global] Instance neutral_uva2ka pd va : Neutral (uva2ka pd va).
Proof. unfold uva2ka. lks. Qed.
#[global] Instance neutral_copyout pd va b n : Neutral (copyout pd va b n).
Proof.
  assert (H : ∀ k va b n, Neutral (copyout_from k pd va b n)).
  { induction k as [|k IH]; intros; cbn [copyout_from]; lks. }
  unfold copyout. lks.
Qed.

(** ** Files and pipes *)
#[global] Instance neutral_filealloc : Neutral filealloc.
Proof. unfold filealloc. lks. Qed.
#[global] Instance neutral_filedup f : Neutral (filedup f).
Proof. unfold filedup. lks. Qed.
#[global] Instance neutral_deref {A} (p : option A) : Neutral (deref p).
Proof. unfold deref. lks. Qed.
#[global] Instance neutral_pipeclose ke p w : Neutral (pipeclose ke p w).
Proof. unfold pipeclose. lks. Qed.
#[global] Instance neutral_fileclose ke f : Neutral (fileclose ke f).
Proof. unfold fileclose. lks. Qed.
#[global] Instance neutral_pipealloc ke : Neutral (pipealloc ke).
Proof. unfold pipealloc, pipealloc_bad. lks. Qed.

Lemma locks_pipe_room l p : locks (LkPipe p :: l) (pipe_room p) (λ _, LkPipe p :: l).
Proof. unfold pipe_room. apply locks_sleep_loop. lks. Qed.
Lemma locks_pipe_data l p : locks (LkPipe p :: l) (pipe_data p) (λ _, LkPipe p :: l).
Proof. unfold pipe_data. apply locks_sleep_loop. lks. Qed.

#[global] Instance neutral_pipewrite p a n : Neutral (pipewrite p a n).
Proof.
  unfold pipewrite. lk1. lk1; [lks|]. generalize (take (Z.to_nat n) a). intros b.
  induction b as [|c b IH]; cbn [pipewrite_from]; [lks|].
  lk1; [apply locks_pipe_room|]. destruct a1; [|lks]. lk1; [unfold pipe_put; lks|]. exact IH.
Qed.
#[global] Instance neutral_piperead p n : Neutral (piperead p n).
Proof.
  assert (H : ∀ k, Neutral (pipe_get k p)).
  { induction k as [|k IH]; cbn [pipe_get]; lks. }
  unfold piperead. lk1. lk1; [lks|]. lk1; [apply locks_pipe_data|]. lks.
Qed.
#[global] Instance neutral_filestat f : Neutral (filestat f).
Proof. unfold filestat. lks. Qed.
#[global] Instance neutral_fileread {D : Devsw} {DL : DevLocks D} f n : Neutral (fileread f n).
Proof. unfold fileread. lks. Qed.
#[global] Instance neutral_filewrite {D : Devsw} {DL : DevLocks D} f a n : Neutral (filewrite f a n).
Proof.
  assert (H : ∀ k a i, Neutral (filewrite_from k f a i n)).
  { induction k as [|k IH]; intros; cbn [filewrite_from]; lks. }
  unfold filewrite. lks.
Qed.

(** ** Processes *)
Section procs.
Context (ke kd fpc tpc : Z) (ic : list Z) {D : Devsw} {DL : DevLocks D}.

#[global] Instance neutral_allocproc : Neutral (allocproc fpc tpc).
Proof using Type. unfold allocproc. lks. Qed.
#[global] Instance neutral_userinit : Neutral (userinit ke kd fpc tpc ic).
Proof using DL RL. unfold userinit. lks. Qed.
#[global] Instance neutral_growproc n : Neutral (growproc ke n).
Proof using Type. unfold growproc. lks. Qed.
#[global] Instance neutral_fork : Neutral (fork ke kd fpc tpc).
Proof using Type. unfold fork. lks. Qed.
(** [exit] does not return. *)
Lemma locks_exit l (l' : unit → list lockid) : locks l (exit ke) l'.
Proof using Type.
  intros env s a s' env' He Hl E. exfalso. revert E. unfold exit.
  intros E. repeat (match type of E with
    | bind _ _ _ _ = _ => apply bind_inv in E as (? & ? & ? & _ & E)
    | (if ?b then _ else _) _ _ = _ => destruct b
    | panic _ _ _ = _ => discriminate E
    end).
Qed.
#[global] Instance neutral_exit : Neutral (exit ke).
Proof using Type. intros l. apply locks_exit. Qed.

Lemma locks_wait_scan l cp ps hk :
  locks (LkPtable :: l) (wait_scan ke cp ps hk)
    (λ r, match r with inl _ => l | inr _ => LkPtable :: l end).
Proof using Type. revert hk. induction ps as [|p ps IH]; intros hk; cbn [wait_scan]; [by apply locks_ret|].
  lk1; [lks|]. destruct (negb _); [apply IH|]. destruct (negb _); [apply IH|]. lks.
Qed.
#[global] Instance neutral_wait : Neutral (wait ke).
Proof using Type.
  unfold wait. lk1. lk1; [lks|]. lk1; [lks|]. apply locks_sleep_loop with (l' := λ _, l).
  lk1; [apply locks_wait_scan|]. destruct a1; lks.
Qed.
#[global] Instance neutral_kill pid : Neutral (kill pid).
Proof using Type. unfold kill. lks. Qed.
#[global] Instance neutral_sched_pass pol : Neutral (sched_pass pol).
Proof using Type.
  assert (H : ∀ n p, Neutral (sched_from pol n p)).
  { induction n as [|n IH]; intros p; cbn [sched_from]; unfold dispatch; lks. }
  unfold sched_pass. lks.
Qed.
#[global] Instance neutral_procdump : Neutral procdump.
Proof using Type. unfold procdump, procdump1. lks. Qed.
#[global] Instance neutral_child_time f : Neutral (child_time f).
Proof using Type. unfold child_time, wild. lks. Qed.
#[global] Instance neutral_turntime : Neutral turntime.
Proof using Type. unfold turntime. lks. Qed.

#[global] Instance neutral_exec p a : Neutral (exec ke kd p a).
Proof using DL RL.
  assert (H1 : ∀ n ip pd off sz, Neutral (exec_segments ke n ip pd off sz)).
  { induction n as [|n IH]; intros; cbn [exec_segments]; lks. }
  assert (H2 : ∀ av pd sp ac, Neutral (push_args pd sp ac av)).
  { induction av as [|x av IH]; intros; cbn [push_args]; lks. }
  assert (H3 : ∀ pd ip, Neutral (exec_bad ke pd ip)) by (unfold exec_bad; intros; lks).
  unfold exec, exec_finish. lks.
Qed.

(** ** System calls *)
#[global] Instance neutral_uload va : Neutral (uload va).
Proof using Type. unfold uload. lks. Qed.
#[global] Instance neutral_uload_bytes va n : Neutral (uload_bytes va n).
Proof using Type. revert va. induction n as [|n IH]; intros va; cbn [uload_bytes]; lks. Qed.
#[global] Instance neutral_ustore_bytes va l : Neutral (ustore_bytes va l).
Proof using Type. revert va. induction l as [|b l IH]; intros va; cbn [ustore_bytes]; unfold ustore; lks. Qed.
#[global] Instance neutral_fetchint a : Neutral (fetchint a).
Proof using Type. unfold fetchint. lks. Qed.
#[global] Instance neutral_fetchstr a : Neutral (fetchstr a).
Proof using Type.
  assert (H : ∀ n s acc, Neutral (fetchstr_from n s acc)).
  { induction n as [|n IH]; intros; cbn [fetchstr_from]; lks. }
  unfold fetchstr. lks.
Qed.
#[global] Instance neutral_argint n : Neutral (argint n).
Proof using Type. unfold argint. lks. Qed.
#[global] Instance neutral_argptr n sz : Neutral (argptr n sz).
Proof using Type. unfold argptr. lks. Qed.
#[global] Instance neutral_argstr n : Neutral (argstr n).
Proof using Type. unfold argstr. lks. Qed.
#[global] Instance neutral_argfd n : Neutral (argfd n).
Proof using Type. unfold argfd. lks. Qed.
#[global] Instance neutral_fdalloc f : Neutral (fdalloc f).
Proof using Type. unfold fdalloc. lks. Qed.
#[global] Instance neutral_create p t ma mi : Neutral (create p t ma mi).
Proof using DL RL. unfold create. lks. Qed.
#[global] Instance neutral_fetch_argv n u : Neutral (fetch_argv n u).
Proof using Type. revert u. induction n as [|n IH]; intros; cbn [fetch_argv]; lks. Qed.
#[global] Instance neutral_isdirempty dp : Neutral (isdirempty dp).
Proof using DL RL.
  assert (H : ∀ n off, Neutral (isdirempty_from n dp off)).
  { induction n as [|n IH]; intros; cbn [isdirempty_from]; lks. }
  unfold isdirempty. lks.
Qed.
#[global] Instance neutral_sys_sleep : Neutral sys_sleep.
Proof using Type.
  unfold sys_sleep, or_fail. lk1. lk1; [lks|]. destruct a as [n|]; [|lks].
  lk1; [lks|]. lk1; [lks|]. apply locks_sleep_loop with (l' := λ _, l). lks.
Qed.
End procs.

(** The console driver keeps the promise of [DevLocks]. *)
#[global] Instance neutral_cons_wait_read ip n : Neutral (consoleread ip n).
Proof.
  assert (Hw : ∀ l, locks (LkCons :: l) cons_wait (λ _, LkCons :: l)).
  { intros l. unfold cons_wait. apply locks_sleep_loop. lks. }
  assert (Hr : ∀ k t g l, locks (LkCons :: l) (consoleread_from k t g) (λ _, LkCons :: l)).
  { induction k as [|k IH]; intros t g l; cbn [consoleread_from]; [lks|].
    lk1; [apply Hw|]. destruct (negb a); [lks|]. lk1; [lks|]. cbv zeta. lk1; [lks|].
    destruct (_ =? ctl_D); [lks|]. destruct (_ =? 10); [lks|]. apply IH. }
  unfold consoleread. lk1. lk1; [lks|]. lk1; [lks|]. lk1; [apply Hr|]. lks.
Qed.
#[global] Instance neutral_consolewrite ip b n : Neutral (consolewrite ip b n).
Proof. unfold consolewrite. lks. Qed.

Lemma console_locks : DevLocks devsw.
Proof.
  split.
  - intros major f i n E. simpl in E. destruct (major =? CONSOLE); [|discriminate E].
    injection E as <-. apply _.
  - intros major f i l n E. simpl in E. destruct (major =? CONSOLE); [|discriminate E].
    injection E as <-. apply _.
Qed.

#[global] Instance neutral_kill_line n : Neutral (kill_line n).
Proof. induction n as [|n IH]; cbn [kill_line]; lks. Qed.
#[global] Instance neutral_consoleintr cs : Neutral (consoleintr cs).
Proof.
  assert (H : ∀ cs d, Neutral (consolekeys cs d)).
  { induction cs0 as [|c cs' IH]; intros d; cbn [consolekeys]; unfold consolekey; lks. }
  unfold consoleintr. lks.
Qed.

Section table.
Context (ke kd fpc tpc : Z) {D : Devsw} {DL : DevLocks D}.

Ltac sysc := unfold or_fail, or_end, link_bad, unlink_bad, open_inode, clear_fd, ustore_stat; lks.

(** One case per entry of the table. *)
Lemma syscalls_neutral num f : syscalls ke kd fpc tpc num = Some f → Neutral f.
Proof using DL RL.
  intros E. assert (Hn : 1 ≤ num ≤ 25 ∨ syscalls ke kd fpc tpc num = None).
  { destruct (decide (1 ≤ num ≤ 25)) as [|Hx]; [by left|right]. destruct num as [|n|n]; try reflexivity.
    do 5 (destruct n as [n|n|]; try reflexivity; try lia). }
  destruct Hn as [Hn|Hn]; [|rewrite Hn in E; discriminate E].
  assert (Hi : num ∈ seqZ 1 25) by (apply elem_of_seqZ; lia). clear Hn. revert E.
  repeat (apply elem_of_cons in Hi as [->|Hi]; [intros [= <-]|]); [..|by apply not_elem_of_nil in Hi].
  - unfold sys_fork. apply _.
  - unfold sys_exit. sysc.
  - unfold sys_wait. apply _.
  - unfold sys_pipe. sysc.
  - unfold sys_read. sysc.
  - unfold sys_kill. sysc.
  - unfold sys_exec. sysc.
  - unfold sys_fstat. sysc.
  - unfold sys_chdir. sysc.
  - unfold sys_dup. sysc.
  - unfold sys_getpid. apply _.
  - unfold sys_sbrk. sysc.
  - apply _.
  - unfold sys_uptime. sysc.
  - unfold sys_open. sysc.
  - unfold sys_write. sysc.
  - unfold sys_mknod. sysc.
  - unfold sys_unlink. sysc.
  - unfold sys_link. sysc.
  - unfold sys_mkdir. sysc.
  - unfold sys_close. sysc.
  - unfold sys_getyear. sysc.
  - unfold sys_runtime, runtime. apply _.
  - unfold sys_waittime, waittime. apply _.
  - unfold sys_turntime. apply _.
Qed.

#[global] Instance neutral_syscall : Neutral (syscall ke kd fpc tpc).
Proof using DL RL.
  unfold syscall, set_eax. lk1. lk1; [lks|]. lk1; [lks|].
  destruct (syscalls ke kd fpc tpc a0) eqn:E; [|lks].
  lk1; [eapply syscalls_neutral, E|]. lks.
Qed.

#[global] Instance neutral_trap pol tf keys cr2 : Neutral (trap pol ke kd fpc tpc tf keys cr2).
Proof using DL RL.
  unfold trap, trap_switch, lapiceoi, tick, dying, die, timer_policy. lks.
Qed.
End table.
End kernel.

(** ** The disk drivers *)
Lemma memide_locks : DriverLocks memide.
Proof. split; [intros i|]; cbn [drv_iderw drv_ideintr memide]; unfold Bio.iderw, Bio.ideintr; lks. Qed.

(** Routines that never wait. *)
Definition awake {A} (m : KM A) : Prop := ∀ s k, m [] s ≠ Asleep k.

Lemma awake_acquire lk : awake (acquire lk).
Proof. intros s k. unfold acquire. rewrite bind_gets. by destruct (decide _). Qed.
Lemma awake_release lk : awake (release lk).
Proof. intros s k. unfold release. rewrite bind_gets. by destruct (decide _). Qed.
Lemma awake_upd_buf i f : awake (upd_buf i f).
Proof. done. Qed.

(** [acquire] and [release] do not look at the turns of others. *)
Lemma acquire_det lk s : (∃ msg, ∀ env, acquire lk env s = Panic msg) ∨ ∃ s1, ∀ env, acquire lk env s = Done tt s1 env.
Proof. unfold acquire. setoid_rewrite bind_gets. destruct (decide _); [left|right]; eexists; done. Qed.
Lemma release_det lk s : (∃ msg, ∀ env, release lk env s = Panic msg) ∨ ∃ s1, ∀ env, release lk env s = Done tt s1 env.
Proof. unfold release. setoid_rewrite bind_gets. destruct (decide _); [right|left]; eexists; done. Qed.

Lemma awake_wakeup ch : awake (wakeup ch).
Proof.
  intros s k. unfold wakeup, wakeup1, bind. destruct (acquire_det LkPtable s) as [[msg E]|[s1 E]]; rewrite E; [done|].
  unfold modify. apply awake_release.
Qed.
Lemma awake_holdingsleep r : awake (holdingsleep r).
Proof.
  intros s k. unfold holdingsleep, mypid, curproc, myproc, bind, gets. destruct (acquire_det (LkSleep r) s) as [[msg E]|[s1 E]]; rewrite E; [done|].
  cbn. repeat (case_match; try done); try congruence; by eapply awake_release.
Qed.

(** [sleep] stops the kernel or waits once, and what it does before and after
    does not depend on the turns. *)
Lemma sched_det s : (∃ msg, ∀ env, sched env s = Panic msg) ∨ ∀ env, sched env s = swtch env s.
Proof.
  unfold sched, curproc, myproc. setoid_rewrite bind_assoc. setoid_rewrite bind_gets. destruct (k_cpu_proc s) as [p|]; [|left; by eexists].
  setoid_rewrite bind_ret. setoid_rewrite bind_gets. setoid_rewrite bind_gets.
  destruct (negb _); [left; by eexists|]. destruct (negb _); [left; by eexists|]. destruct (bool_decide _); [left; by eexists|]. by right.
Qed.
Lemma sleep_det ch lk s : (∃ msg, ∀ env, sleep ch lk env s = Panic msg) ∨
  ∃ s0 (post : KM unit), ∀ env, sleep ch lk env s = bind swtch (λ _, post) env s0.
Proof.
  unfold sleep, myproc. setoid_rewrite bind_gets. destruct (k_cpu_proc s) as [p|]; [|left; by eexists].
  assert (P : (∃ msg, ∀ env, when (bool_decide (lk ≠ LkPtable)) (acquire LkPtable ;; release lk) env s = Panic msg) ∨
    ∃ s1, ∀ env, when (bool_decide (lk ≠ LkPtable)) (acquire LkPtable ;; release lk) env s = Done tt s1 env).
  { destruct (bool_decide _); cbn [when]; [|right; by eexists].
    destruct (acquire_det LkPtable s) as [[msg E]|[s1 E]]; [left; exists msg; intros env; unfold bind; by rewrite E|].
    destruct (release_det lk s1) as [[msg E']|[s2 E']]; [left; exists msg|right; exists s2]; intros env; unfold bind; by rewrite E, E'. }
  destruct P as [[msg E]|[s1 E]]; [left; exists msg; intros env; by apply bind_panic|].
  destruct (sched_det (s1 <| k_procs ::= alter (λ q, q <| p_chan := Some ch |> <| p_state := SLEEPING |>) p |>)) as [[msg E']|E'].
  - left. exists msg. intros env. rewrite (bind_done _ _ _ _ _ _ _ (E env)). unfold upd_proc. rewrite bind_modify. by apply bind_panic.
  - right. eexists _, _. intros env. rewrite (bind_done _ _ _ _ _ _ _ (E env)). unfold upd_proc at 1. rewrite bind_modify.
    unfold bind at 1. rewrite E'. reflexivity.
Qed.

Section ide.
Context {D : Type} `{!IdeDevice D}.

Lemma locks_lift {A} l (m : KM A) l' : awake m → locks l m l' → locks l (lift (D := D) m) l'.
Proof.
  intros Ha Hm env s a s' env' He Hl E. unfold lift in E. destruct (m [] (i_k s)) as [b k e| |k] eqn:E0; [|done|by apply Ha in E0].
  injection E as <- <- <-. split; [|done]. by apply (Hm [] (i_k s) b k e).
Qed.

Lemma locks_lift_sleep l ch lk : locks (lk :: l) (lift (D := D) (sleep ch lk)) (λ _, lk :: l).
Proof.
  intros env s [] s' env' He Hl E. unfold lift in E. destruct (sleep ch lk [] (i_k s)) as [[] k e| |k] eqn:E0; [|done|].
  { injection E as <- <-. split; [|done]. by apply (locks_sleep l ch lk [] (i_k s) tt k e). }
  destruct env as [|f env]; [done|]. apply Forall_cons in He as [Hf He]. set (s1 := f _) in E. specialize (Hf (s <| i_k := k |>)). fold s1 in Hf.
  destruct (sleep_det ch lk (i_k s)) as [[msg P]|(s0 & post & P)]; [by rewrite P in E0|].
  rewrite P in E0, E. injection E0 as <-.
  destruct (bind swtch (λ _, post) [λ _, i_k s1] s0) as [[] k' e| |] eqn:E1; [|done..]. injection E as <- <-. split; [|done].
  set (h := λ x : kstate, if decide (k_locks x = k_locks s0) then i_k s1 else x).
  assert (Hh : steady h) by (intros x; unfold h; case_decide as Ex; [|done]; unfold klocks, kstate_locks; by rewrite Ex).
  apply (locks_sleep l ch lk [h] (i_k s) tt k' e); [by constructor|done|]. rewrite P, <-E1.
  unfold bind, swtch, h. by rewrite decide_True.
Qed.

Lemma locks_spin {A} l (l' : A → list lockid) : locks l (λ _ (s : istate D), Asleep s) l'.
Proof. intros env s a s' env' He Hl E. discriminate E. Qed.

Ltac ilks := repeat lazymatch goal with
  | |- locks _ (lift (acquire _)) _ => apply locks_lift; [apply awake_acquire|lks]
  | |- locks _ (lift (release _)) _ => apply locks_lift; [apply awake_release|lks]
  | |- locks _ (lift (upd_buf _ _)) _ => apply locks_lift; [apply awake_upd_buf|lks]
  | |- locks _ (lift (wakeup _)) _ => apply locks_lift; [apply awake_wakeup|lks]
  | |- locks _ (lift (holdingsleep _)) _ => apply locks_lift; [apply awake_holdingsleep|lks]
  | |- locks _ (lift (sleep _ _)) _ => apply locks_lift_sleep
  | |- locks _ (λ _ _, Asleep _) _ => apply locks_spin
  | |- _ => lk1
  end.

#[local] Instance neutral_ide_inb : Neutral (Ide.inb (D := D)).
Proof. intros l env s a s' env' He Hl [= <- <- <-]. done. Qed.
#[local] Instance neutral_ide_insl : Neutral (Ide.insl (D := D)).
Proof. intros l env s a s' env' He Hl [= <- <- <-]. done. Qed.
#[local] Instance neutral_ide_poll n : Neutral (Ide.poll (D := D) n).
Proof. induction n as [|n IH]; cbn [poll]; ilks. Qed.
#[local] Instance neutral_idewait c : Neutral (Ide.idewait (D := D) c).
Proof. unfold idewait. ilks. Qed.
#[local] Instance neutral_idestart b : Neutral (Ide.idestart (D := D) b).
Proof. unfold idestart, outb, outsl. ilks. Qed.
#[local] Instance neutral_transfer i f : Neutral (Ide.transfer (D := D) i f).
Proof. unfold transfer. ilks. Qed.
#[local] Instance neutral_ide_enqueue i : Neutral (Ide.enqueue (D := D) i).
Proof. unfold enqueue. ilks. Qed.

Lemma locks_await l n i : locks (LkIde :: l) (Ide.await (D := D) n i) (λ _, LkIde :: l).
Proof. induction n as [|n IH]; cbn [await]; ilks. exact IH. Qed.

Lemma neutral_ide_ideintr : Neutral (Ide.ideintr (D := D)).
Proof. unfold Ide.ideintr. ilks. Qed.

Lemma neutral_ide_iderw i : Neutral (Ide.iderw (D := D) i).
Proof.
  unfold Ide.iderw. ilks. intros env s a' s' env' He Hl E. by apply (locks_await l (S (length env)) i env s a' s' env').
Qed.
End ide.

(** A routine of ide.c keeps the contract in the kernel's state too. *)
Lemma locks_in_kernel {A} l (m : M (istate (list ide_io)) A) l' : locks l m l' → locks l (in_kernel m) l'.
Proof.
  intros Hm env s a s' env' He Hl E. unfold in_kernel in E.
  destruct (m _ (up s)) as [b t e| |] eqn:E0; [|done..]. injection E as <- <- <-. split; [|by apply Forall_drop].
  apply (Hm _ _ _ _ _) in E0 as [E0 _]; [exact E0| |exact Hl].
  apply Forall_fmap. eapply Forall_impl; [exact He|]. intros f Hf t'. exact (Hf (down t')).
Qed.

Lemma ide_locks {D} `{!IdeDevice D} (d0 : D) : DriverLocks (ide_driver d0).
Proof. split; [intros i|]; intros l; apply locks_in_kernel; [apply neutral_ide_iderw|apply neutral_ide_ideintr]. Qed.

Lemma linked_locks Drv : linked Drv → DriverLocks Drv.
Proof. intros []; [apply memide_locks|apply ide_locks]. Qed.

(** C8. Every trap is balanced in spin locks: whatever the interrupt,
    exception or system call (each of the 25 calls, on every path through it),
    whichever disk driver the kernel is linked with and however its disk
    answers, whatever the scheduling policy, and whatever the other
    processes do while this one waits, a handler entered without spin locks
    returns without spin locks. *)
Theorem trap_keeps_locks Drv pol ke kd fpc tpc tf keys cr2 env s s' env' :
  linked Drv → Forall steady env → k_locks s = [] →
  @trap pol ke kd fpc tpc (@devsw Drv) Drv tf keys cr2 env s = Done tt s' env' → k_locks s' = [].
Proof.
  intros RL%linked_locks He Hl E. pose proof (@console_locks Drv RL) as DL.
  by destruct (@neutral_trap Drv RL ke kd fpc tpc (@devsw Drv) DL pol tf keys cr2 [] env s tt s' env' He Hl E).
Qed.

(** An interrupt of the disk finishes a write that a process waits for, and
    wakes it: the handler takes the lock of the driver and that of the process
    table. *)
Definition write_done : kstate :=
  one_request <| k_procs ::= alter (λ q, q <| p_state := SLEEPING |> <| p_chan := Some (ChBuf 0) |>) 0%nat |>
    <| k_cpu_proc := None |> <| k_ide := IdeState (Some 0%nat) true [] |>.
Definition quiet_drive : drive := Drive (λ _, 0) (λ _ _, replicate 512 0) Idle 0.

Lemma trap_keeps_locks_witness :
  ∃ s', @trap DEFAULT KERNBASE KERNBASE 0 0 (@devsw (ide_driver quiet_drive)) (ide_driver quiet_drive)
      (tf_zero <| tf_trapno := T_IRQ0 + IRQ_IDE |>) [] 0 [] write_done = Done tt s' [] ∧
    p_state (get_proc s' 0) = RUNNABLE ∧ ide_queue (k_ide s') = None ∧ k_eoi s' = 1%nat ∧ k_locks s' = [].
Proof.
  eexists. split; [lazy; reflexivity|]. split; [reflexivity|]. split; [reflexivity|]. split; [reflexivity|].
  eapply (trap_keeps_locks (ide_driver quiet_drive) DEFAULT KERNBASE KERNBASE 0 0 (tf_zero <| tf_trapno := T_IRQ0 + IRQ_IDE |>)
    [] 0 [] write_done); [constructor|constructor|reflexivity|lazy; reflexivity].
Defined.
