(* ===== verification/Sched.v ===== *)
(** * The scheduler: theorems (proc.c, trap.c)

    Every runnable process is run within one pass over the table, whichever
    the policy; under [FRR] the timer takes the CPU from a process at the end
    of its quantum; and the policy [FCFS] is, contrary to what it is meant to
    be, the round robin of [DEFAULT]. *)
From S2P Require Import Prelude State Sync CString Print Kalloc Dll Bio Cache Log Fs Vm File Proc Exec Syscall Console Trap.

Lemma bind_asleep {S A B} (m : M S A) (k : A → M S B) env s s' :
  m env s = Asleep s' → bind m k env s = Asleep s'.
Proof. intros E. unfold bind. by rewrite E. Qed.

(** ** The policies *)

(** Whatever the policy, the body of the loop runs the entry it looks at. *)
Lemma choose_runnable pol s p :
  choose pol s p = if decide (p_state (get_proc s p) = RUNNABLE) then Some p else None.
Proof. destruct pol; simpl; [done|done|]. destruct (decide _); [|done]. by destruct (1 <? _). Qed.

Lemma sched_from_policy pol pol' n p env s : sched_from pol n p env s = sched_from pol' n p env s.
Proof.
  revert p env s. induction n as [|n IH]; intros p env s; [done|]. simpl.
  destruct (p <? NPROC)%nat; [|done]. rewrite !bind_gets, !choose_runnable.
  destruct (decide _); [|apply IH]. apply bind_ext. intros. apply IH.
Qed.

Lemma sched_pass_policy pol pol' env s : sched_pass pol env s = sched_pass pol' env s.
Proof.
  unfold sched_pass. apply bind_ext. intros. unfold bind.
  by rewrite (sched_from_policy pol pol').
Qed.

(** C19. The scheduler built with [SCHEDFLAG=FCFS] is the round robin scheduler:
    on every machine state and every behaviour of the processes, its run is
    that of the [DEFAULT] scheduler, for any number of rounds.  The variable
    [firstCome] starts afresh at every table entry, so creation times are
    never compared. *)
Theorem fcfs_is_round_robin rounds env s : scheduler FCFS rounds env s = scheduler DEFAULT rounds env s.
Proof.
  unfold scheduler. rewrite !bind_modify. generalize (s <| k_cpu_proc := None |>). clear s. intros s.
  revert env s. induction rounds as [|n IH]; intros env s; [done|]. simpl. unfold bind.
  rewrite (sched_pass_policy FCFS DEFAULT). destruct (sched_pass DEFAULT env s); [apply IH|done|done].
Qed.

(** ** Every runnable process runs *)

(** What the scheduler relies on: a table of [NPROC] entries where a runnable
    process has a kernel stack and a page directory. *)
Definition sched_ready (s : kstate) : Prop :=
  length (k_procs s) = NPROC ∧
  ∀ q, (q < NPROC)%nat → p_state (get_proc s q) = RUNNABLE →
    p_kstack (get_proc s q) ≠ 0 ∧ p_pgdir (get_proc s q) ≠ 0.

(** A turn of a process, seen from a waiting process [p]: it gives the CPU
    back with the table in order, holding the lock of the table, and has not
    taken [p] out of the runnable processes unless it was [p]'s own turn. *)
Definition turn (p : nat) (f : kstate → kstate) : Prop :=
  ∀ s, sched_ready s → k_locks s = [LkPtable] →
    sched_ready (f s) ∧ k_locks (f s) = [LkPtable] ∧
    (k_cpu_proc s ≠ Some p → p_state (get_proc s p) = RUNNABLE →
     p_state (get_proc (f s) p) = RUNNABLE).

(** The state in which process [q] starts its turn. *)
Definition turn_start (q : nat) (s : kstate) : kstate :=
  s <| k_cpu_proc := Some q |> <| k_esp0 := u32 (p_kstack (get_proc s q) + KSTACKSIZE) |>
    <| k_cr3 := V2P (p_pgdir (get_proc s q)) |>
    <| k_procs ::= alter (λ q, q <| p_state := RUNNING |>) q |>.
(** The state in which the scheduler goes on after it. *)
Definition turn_end (s : kstate) : kstate :=
  s <| k_cr3 := V2P (k_kpgdir s) |> <| k_cpu_proc := None |>.

Lemma dispatch_ok q env s :
  p_kstack (get_proc s q) ≠ 0 → p_pgdir (get_proc s q) ≠ 0 →
  dispatch q env s =
    match env with
    | [] => Asleep (turn_start q s)
    | f :: env => Done tt (turn_end (f (turn_start q s))) env
    end.
Proof.
  intros Hk Hp. unfold dispatch, switchuvm, upd_proc, switchkvm. rewrite bind_modify, bind_assoc, bind_gets.
  change (get_proc (s <| k_cpu_proc := Some q |>) q) with (get_proc s q).
  rewrite (proj2 (Z.eqb_neq _ _) Hk), (proj2 (Z.eqb_neq _ _) Hp), bind_assoc, !bind_modify.
  unfold bind, swtch. by destruct env.
Qed.

Lemma turn_start_ready q s : (q < NPROC)%nat → sched_ready s → sched_ready (turn_start q s).
Proof.
  intros Hq [Hl Hr]. split; [simpl; by rewrite length_alter|]. intros r Hlt.
  unfold get_proc in *. simpl. rewrite !alter_total by (rewrite Hl; lia).
  destruct (decide (q = r)); [simpl; discriminate|]. by apply Hr.
Qed.
Lemma turn_start_state q p s : q ≠ p → p_state (get_proc (turn_start q s) p) = p_state (get_proc s p).
Proof.
  intros Hne. unfold get_proc. simpl. rewrite list_lookup_total_alter_ne; done.
Qed.

Lemma sched_from_serves pol n q p env s :
  (q ≤ p)%nat → (p < NPROC)%nat → (p < q + n)%nat →
  sched_ready s → k_locks s = [LkPtable] → p_state (get_proc s p) = RUNNABLE →
  Forall (turn p) env → (p - q ≤ length env)%nat →
  ∃ i s1, (i ≤ p - q)%nat ∧ sched_from pol n q (take i env) s = Asleep s1 ∧
    k_cpu_proc s1 = Some p ∧ p_state (get_proc s1 p) = RUNNING.
Proof.
  revert q env s. induction n as [|n IH]; intros q env s Hqp Hp Hn Hs Hl Hr He Hlen; [lia|].
  destruct (decide (q = p)) as [->|Hne].
  - exists 0%nat, (turn_start p s). split; [lia|]. split; [|split; [done|]].
    + simpl. rewrite (proj2 (Nat.ltb_lt _ _) Hp), bind_gets, choose_runnable, decide_True by done.
      apply bind_asleep. destruct (proj2 Hs p Hp Hr). by rewrite dispatch_ok.
    + unfold get_proc. simpl. rewrite alter_total by (rewrite (proj1 Hs); lia). by rewrite decide_True.
  - destruct (decide (p_state (get_proc s q) = RUNNABLE)) as [Hq|Hq].
    + destruct env as [|f env]; [simpl in Hlen; lia|]. apply Forall_cons in He as [Hf He].
      destruct (proj2 Hs q ltac:(lia) Hq) as [Hk Hd].
      destruct (Hf (turn_start q s) (turn_start_ready q s ltac:(lia) Hs) Hl) as (Hs2 & Hl2 & Hr2).
      destruct (IH (S q) env (turn_end (f (turn_start q s)))) as (i & s1 & Hi & E & ?); try done; try lia.
      * apply Hr2; [simpl; congruence|by rewrite turn_start_state].
      * simpl in Hlen. lia.
      * exists (S i), s1. split; [lia|]. split; [|done]. simpl.
        rewrite (proj2 (Nat.ltb_lt _ _)) by lia. rewrite bind_gets, choose_runnable, decide_True by done.
        erewrite bind_done by (rewrite dispatch_ok by done; simpl; reflexivity). exact E.
    + destruct (IH (S q) env s) as (i & s1 & Hi & E & ?); try done; try lia.
      exists i, s1. split; [lia|]. split; [|done]. simpl.
      by rewrite (proj2 (Nat.ltb_lt _ _)), bind_gets, choose_runnable, decide_False by (done || lia).
Qed.

(** C18. Bounded waiting: under every policy a process that is runnable when a
    pass of the scheduler begins gets the CPU during that pass, after at most
    as many turns of other processes as there are table entries before its
    own.  (Cutting the schedule after [i] turns leaves the machine in the
    turn that follows, which is the turn of [p].) *)
Theorem scheduler_bounded_waiting pol rounds p env s :
  sched_ready s → k_locks s = [] → (p < NPROC)%nat → p_state (get_proc s p) = RUNNABLE →
  Forall (turn p) env → (p ≤ length env)%nat →
  ∃ i s1, (i ≤ p)%nat ∧ scheduler pol (S rounds) (take i env) s = Asleep s1 ∧
    k_cpu_proc s1 = Some p ∧ p_state (get_proc s1 p) = RUNNING.
Proof.
  intros Hs Hl Hp Hr He Hlen.
  destruct (sched_from_serves pol (S NPROC) 0 p env (s <| k_cpu_proc := None |> <| k_locks := [LkPtable] |>))
    as (i & s1 & Hi & E & H); try done; try lia.
  exists i, s1. split; [lia|]. split; [|done].
  unfold scheduler. rewrite bind_modify. simpl scheduler_rounds. apply bind_asleep. unfold sched_pass.
  erewrite bind_done by (apply acquire_ok; simpl; rewrite Hl; apply not_elem_of_nil).
  apply bind_asleep. rewrite <- E. f_equal. kext. by rewrite Hl.
Qed.

(** Three runnable processes and a turn in which the running one yields. *)
Definition three_procs : kstate :=
  mem_boot <| k_procs ::= λ l, ((λ i, proc_zero <| p_state := RUNNABLE |> <| p_pid := i |>
    <| p_kstack := 4096 |> <| p_pgdir := 8192 |>) <$> [1; 2; 3]) ++ drop 3 l |>.
Definition yields (s : kstate) : kstate :=
  match k_cpu_proc s with
  | Some q =>
      if decide (p_kstack (get_proc s q) ≠ 0 ∧ p_pgdir (get_proc s q) ≠ 0)
      then s <| k_procs ::= alter (λ q, q <| p_state := RUNNABLE |>) q |> else s
  | None => s
  end.

Lemma yields_turn p : turn p yields.
Proof.
  intros s [Hlen Hr] Hl. unfold yields. destruct (k_cpu_proc s) as [q|]; [|done].
  destruct (decide _) as [[Hk Hd]|]; [|done].
  assert (Hq : ∀ r, get_proc (s <| k_procs ::= alter (λ q, q <| p_state := RUNNABLE |>) q |>) r =
    if decide (q = r ∧ (q < NPROC)%nat) then (get_proc s r) <| p_state := RUNNABLE |> else get_proc s r).
  { intros r. unfold get_proc. simpl. rewrite list_lookup_total_alter, Hlen.
    repeat case_decide; naive_solver. }
  split; [|split; [done|]].
  - split; [simpl; by rewrite length_alter|]. intros r Hlt. rewrite !Hq.
    destruct (decide _) as [[-> _]|]; [by intros _|by apply Hr].
  - intros _ Hp. rewrite Hq. by destruct (decide _).
Qed.

(** [sched_ready], evaluated. *)
Definition sched_readyb (s : kstate) : bool :=
  (length (k_procs s) =? NPROC)%nat &&
  forallb (λ q, negb (bool_decide (p_state (get_proc s q) = RUNNABLE)) ||
                negb (p_kstack (get_proc s q) =? 0) && negb (p_pgdir (get_proc s q) =? 0)) (seq 0 NPROC).
Lemma sched_readyb_ok s : sched_readyb s = true → sched_ready s.
Proof.
  intros [E F]%andb_prop. split; [by apply Nat.eqb_eq|]. intros q Hq Hr.
  rewrite forallb_forall in F. specialize (F q ltac:(apply in_seq; lia)).
  rewrite bool_decide_eq_true_2 in F by done. simpl in F.
  apply andb_prop in F as [A B]. by rewrite negb_true_iff, Z.eqb_neq in A, B.
Qed.

Lemma scheduler_bounded_waiting_witness :
  ∃ i s1, (i ≤ 2)%nat ∧ scheduler FRR 1 (take i [yields; yields; yields]) three_procs = Asleep s1 ∧
    k_cpu_proc s1 = Some 2%nat ∧ p_state (get_proc s1 2) = RUNNING.
Proof.
  apply (scheduler_bounded_waiting FRR 0 2 [yields; yields; yields] three_procs).
  - apply sched_readyb_ok. vm_compute. reflexivity.
  - reflexivity.
  - unfold NPROC. lia.
  - vm_compute. reflexivity.
  - repeat (constructor; [apply yields_turn|]). constructor.
  - simpl. lia.
Defined.

(** ** The timer under FRR *)

(** Process [p] after [n] ticks of its quantum. *)
Definition charged (p : nat) (n : Z) (s : kstate) : kstate :=
  s <| k_procs ::= alter (λ q, q <| p_slot := n |> <| p_running_t ::= λ r, s32 (r + n) |>) p |>.

Lemma frr_tick p n env s :
  k_cpu_proc s = Some p → (p < length (k_procs s))%nat → 0 ≤ n < QUANTA - 1 →
  timer_policy FRR env (charged p n s) = Done tt (charged p (n + 1) s) env.
Proof.
  intros Hp Hl Hn. unfold timer_policy. step curproc_ok. unfold upd_proc. rewrite bind_modify, bind_gets.
  assert (Hs : p_slot (get_proc ((charged p n s) <| k_procs ::= alter (λ q, q <| p_slot ::= λ m, s32 (m + 1) |>) p |>) p) = n + 1).
  { unfold get_proc, charged. simpl. rewrite list_alter_alter_eq, alter_total, decide_True by done. simpl.
    apply s32_small. change QUANTA with 5 in Hn. lia. }
  rewrite Hs, (proj2 (Z.leb_gt _ _)) by lia. unfold modify. apply f_equal3; [reflexivity| |reflexivity].
  unfold charged. kext. rewrite !list_alter_alter_eq. apply list_alter_ext; [|done]. intros [] Hq.
  unfold compose. proc_red. rewrite !s32_add, s32_small by (change QUANTA with 5 in Hn; lia).
  by rewrite Z.add_assoc.
Qed.

Lemma charged_0 p s : p_slot (get_proc s p) = 0 → is_s32 (p_running_t (get_proc s p)) → charged p 0 s = s.
Proof.
  intros Hs Hr. unfold charged. kext. rewrite <-(list_alter_id id (k_procs s) p) at 2 by done.
  apply alter_ext_total. unfold get_proc in *. destruct (k_procs s !!! p). simpl in *. unfold id. proc_red.
  by rewrite Z.add_0_r, s32_small, Hs.
Qed.

Lemma frr_ticks p n env s :
  k_cpu_proc s = Some p → (p < length (k_procs s))%nat → (n < 5)%nat →
  p_slot (get_proc s p) = 0 → is_s32 (p_running_t (get_proc s p)) →
  foreach (λ _, timer_policy FRR) (seq 0 n) env s = Done tt (charged p (Z.of_nat n) s) env.
Proof.
  intros Hp Hl Hn Hs Hr. induction n as [|n IH].
  - simpl. by rewrite charged_0.
  - rewrite seq_S, foreach_app, (bind_done _ _ _ _ _ _ _ (IH ltac:(lia))). cbn [foreach].
    erewrite bind_done by (apply frr_tick; [done..|change QUANTA with 5; lia]).
    unfold ret. do 2 f_equal. lia.
Qed.

Lemma yield_ok p f env s :
  k_cpu_proc s = Some p → (p < length (k_procs s))%nat → k_locks s = [] →
  let s1 := s <| k_locks := [LkPtable] |> <| k_procs ::= alter (λ q, q <| p_state := RUNNABLE |>) p |> in
  k_locks (f s1) = [LkPtable] → yield (f :: env) s = Done tt ((f s1) <| k_locks := [] |>) env.
Proof.
  intros Hp Hl Hlk s1 Hf. unfold yield. step acquire_ok by (rewrite Hlk; apply not_elem_of_nil).
  step curproc_ok. unfold upd_proc. rewrite bind_modify.
  replace (_ <| k_procs ::= _ |>) with s1 by (unfold s1; kext; by rewrite Hlk).
  erewrite bind_done; [by erewrite release_ok|]. unfold sched. step curproc_ok. rewrite !bind_gets.
  replace (p_state (get_proc s1 p)) with RUNNABLE.
  - reflexivity.
  - unfold get_proc, s1. simpl. by rewrite alter_total, decide_True.
Qed.

(** Process [p] when it gives the CPU up at the end of its quantum. *)
Definition preempted (p : nat) (s : kstate) : kstate :=
  s <| k_locks := [LkPtable] |>
    <| k_procs ::= alter (λ q, q <| p_slot := 0 |> <| p_running_t ::= λ r, s32 (r + 4) |>
                                 <| p_state := RUNNABLE |>) p |>.

(** The quantum of the FRR policy.  A process that has just been given the
    CPU keeps it for [QUANTA] - 1 = 4 ticks, each charged to its running time;
    the fifth tick takes the CPU away, ends the quantum and is not charged:
    five ticks cost the process four units of running time. *)
Theorem frr_quantum p f env s :
  k_cpu_proc s = Some p → (p < length (k_procs s))%nat → k_locks s = [] →
  p_slot (get_proc s p) = 0 → is_s32 (p_running_t (get_proc s p)) →
  k_locks (f (preempted p s)) = [LkPtable] →
  (∀ n, (n < 5)%nat →
    foreach (λ _, timer_policy FRR) (seq 0 n) env s = Done tt (charged p (Z.of_nat n) s) env) ∧
  foreach (λ _, timer_policy FRR) (seq 0 5) (f :: env) s =
    Done tt ((f (preempted p s)) <| k_locks := [] |>) env.
Proof.
  intros Hp Hl Hlk Hs Hr Hf. split; [intros; by apply frr_ticks|].
  rewrite (seq_S 4 0), foreach_app, (bind_done _ _ _ _ _ _ _ (frr_ticks p 4 (f :: env) s Hp Hl ltac:(lia) Hs Hr)).
  cbn [foreach]. unfold timer_policy. rewrite bind_assoc. step curproc_ok. unfold upd_proc.
  rewrite bind_assoc, bind_modify, bind_assoc, bind_gets.
  replace (p_slot _) with 5.
  2:{ unfold get_proc, charged. simpl. by rewrite list_alter_alter_eq, alter_total, decide_True. }
  change (QUANTA <=? 5) with true. cbv iota. rewrite bind_assoc, bind_modify.
  set (s2 := _ <| k_procs ::= alter (λ q, q <| p_slot := 0 |>) p |>).
  assert (E : s2 <| k_locks := [LkPtable] |> <| k_procs ::= alter (λ q, q <| p_state := RUNNABLE |>) p |> = preempted p s).
  { unfold s2, preempted, charged. kext. rewrite !list_alter_alter_eq. apply list_alter_ext; [|done].
    intros [] _. unfold compose. proc_red. reflexivity. }
  erewrite bind_done by (apply yield_ok; [done|simpl; by rewrite !length_alter|done|by rewrite E]).
  unfold ret. by rewrite E.
Qed.

Lemma frr_quantum_witness :
  foreach (λ _, timer_policy FRR) (seq 0 5) [yields] (user_boot <| k_ticks := 1 |>) =
    Done tt ((yields (preempted 0 (user_boot <| k_ticks := 1 |>))) <| k_locks := [] |>) [].
Proof.
  apply (frr_quantum 0 yields [] (user_boot <| k_ticks := 1 |>)).
  - reflexivity.
  - vm_compute. lia.
  - reflexivity.
  - reflexivity.
  - vm_compute. by split.
  - reflexivity.
Defined.
