(* ===== verification/Frame.v ===== *)
(** * Frames

    What a routine leaves alone.  [Keeps R m] says that every run of [m] that
    returns takes a state to one related by the preorder [R], without giving
    up the CPU.  The rules
    follow the structure of a routine; only the leaves depend on [R].  The
    instances at the end say that the routines of kalloc.c and vm.c touch
    nothing but memory, the free list, the locks and the console. *)
From S2P Require Import Prelude State Sync Dll Bio Cache Log CString Print Kalloc Fs Vm File Proc.

Class Keeps (R : kstate → kstate → Prop) {A} (m : KM A) : Prop :=
  keeps env s a s' env' : m env s = Done a s' env' → R s s' ∧ env' = env.

Section rules.
Context (R : kstate → kstate → Prop) `{!PreOrder R}.

#[global] Instance keeps_ret {A} (a : A) : Keeps R (ret a).
Proof. intros env s b s' env' [= <- <- <-]. by split; [reflexivity|]. Qed.
#[global] Instance keeps_gets {A} (f : kstate → A) : Keeps R (gets f).
Proof. intros env s b s' env' [= <- <- <-]. by split; [reflexivity|]. Qed.
#[global] Instance keeps_panic {A} msg : Keeps R (panic (A:=A) msg).
Proof. intros env s b s' env' E. discriminate E. Qed.
#[global] Instance keeps_diverge {A} : Keeps R (diverge (A:=A)).
Proof. intros env s b s' env' E. discriminate E. Qed.
Lemma keeps_modify f : (∀ s, R s (f s)) → Keeps R (modify f).
Proof. intros E env s b s' env' [= <- <- <-]. by split; [apply E|]. Qed.
Lemma keeps_bind {A B} (m : KM A) (k : A → KM B) : Keeps R m → (∀ a, Keeps R (k a)) → Keeps R (bind m k).
Proof.
  intros Hm Hk env s b s' env' E. apply bind_inv in E as (a & s1 & env1 & E1 & E2).
  destruct (Hm _ _ _ _ _ E1) as [H1 ->]. destruct (Hk a _ _ _ _ _ E2) as [H2 ->].
  split; [by etrans|done].
Qed.
Lemma keeps_when b m : Keeps R m → Keeps R (when b m).
Proof. destruct b; [done|intros _; apply keeps_ret]. Qed.
Lemma keeps_foreach {A} (body : A → KM unit) xs : (∀ x, Keeps R (body x)) → Keeps R (foreach body xs).
Proof.
  intros H. induction xs as [|x xs IH]; [apply keeps_ret|]. simpl. apply keeps_bind; [apply H|done].
Qed.
End rules.

Ltac kp1 leaf :=
  lazymatch goal with
  | |- Keeps _ (let _ := _ in _) => cbv zeta
  | |- Keeps _ (bind _ _) => apply keeps_bind; [apply _| |intros ?; cbv beta]
  | |- Keeps _ (ret _) => apply keeps_ret; apply _
  | |- Keeps _ (gets _) => apply keeps_gets; apply _
  | |- Keeps _ (panic _) => apply keeps_panic
  | |- Keeps _ diverge => apply keeps_diverge
  | |- Keeps _ (modify _) => apply keeps_modify; intros ?; leaf
  | |- Keeps _ (when _ _) => apply keeps_when; [apply _|]
  | |- Keeps _ (foreach _ _) => apply keeps_foreach; [apply _|intros ?]
  | |- Keeps _ (match ?x with _ => _ end) => destruct x
  | |- Keeps _ ((λ _, _) _) => cbv beta
  | |- Keeps _ _ => apply _
  end.

(** ** Routines that only work on memory *)
Definition mem_only (s s' : kstate) : Prop :=
  s' = s <| k_mem := k_mem s' |> <| k_freelist := k_freelist s' |> <| k_locks := k_locks s' |>
         <| k_out := k_out s' |>.

#[global] Instance mem_only_preorder : PreOrder mem_only.
Proof.
  split.
  - intros s. by destruct s.
  - intros [] [] []. unfold mem_only, upd, eta_expand. simpl. intros [=] [=]. by subst.
Qed.

Lemma mem_only_procs s s' : mem_only s s' → k_procs s' = k_procs s.
Proof. by intros ->. Qed.
Lemma mem_only_fields s s' : mem_only s s' →
  k_procs s' = k_procs s ∧ k_cpu_proc s' = k_cpu_proc s ∧ k_nextpid s' = k_nextpid s ∧
  k_ftable s' = k_ftable s ∧ k_icache s' = k_icache s ∧ k_initproc s' = k_initproc s.
Proof. by intros ->. Qed.

Ltac mkp := repeat kp1 ltac:(by unfold mem_only; kext).

#[global] Instance mem_acquire lk : Keeps mem_only (acquire lk).
Proof. unfold acquire. mkp. Qed.
#[global] Instance mem_release lk : Keeps mem_only (release lk).
Proof. unfold release. mkp. Qed.
#[global] Instance mem_upd_mem f : Keeps mem_only (upd_mem f).
Proof. unfold upd_mem. mkp. Qed.
#[global] Instance mem_consputc c : Keeps mem_only (Cons.consputc c).
Proof. unfold Cons.consputc. mkp. Qed.
#[global] Instance mem_printint x b sg : Keeps mem_only (Cons.printint x b sg).
Proof. unfold Cons.printint. mkp. Qed.
#[global] Instance mem_cprintf fmt args : Keeps mem_only (Cons.cprintf fmt args).
Proof.
  assert (H : ∀ n f a, (length f ≤ n)%nat → Keeps mem_only (Cons.cprintf_from f a)).
  { induction n as [|n IH]; intros f a Hf; (destruct f as [|c f]; [apply _|]); simpl in Hf; [lia|].
    cbn [Cons.cprintf_from]. destruct (c =? 0); [mkp|]. destruct (negb (c =? 37)).
    { kp1 idtac; [mkp|]. apply IH. lia. }
    destruct f as [|d f]; [mkp|]. simpl in Hf. destruct (d =? 0); [mkp|]. cbv zeta.
    repeat (match goal with |- context [if ?b then _ else _] => destruct b end);
      repeat (kp1 idtac; [solve [mkp]|]); apply IH; lia. }
  unfold Cons.cprintf. mkp; by apply (H (length (bytes fmt))).
Qed.
#[global] Instance mem_kalloc : Keeps mem_only kalloc.
Proof. unfold kalloc. mkp. Qed.
#[global] Instance mem_kfree kend v : Keeps mem_only (kfree kend v).
Proof. unfold kfree. mkp. Qed.
#[global] Instance mem_load4 a : Keeps mem_only (load4 a).
Proof. unfold load4. mkp. Qed.
#[global] Instance mem_save4 a v : Keeps mem_only (save4 a v).
Proof. unfold save4. mkp. Qed.
#[global] Instance mem_walkpgdir pd va al : Keeps mem_only (walkpgdir pd va al).
Proof. unfold walkpgdir. mkp. Qed.
#[global] Instance mem_mappages_from n pd a l pa perm : Keeps mem_only (mappages_from n pd a l pa perm).
Proof. revert a pa. induction n; intros; cbn [mappages_from]; mkp. Qed.
#[global] Instance mem_mappages pd va sz pa perm : Keeps mem_only (mappages pd va sz pa perm).
Proof. unfold mappages. mkp. Qed.
#[global] Instance mem_dealloc_from kend n pd a o : Keeps mem_only (dealloc_from kend n pd a o).
Proof. revert a. induction n; intros; cbn [dealloc_from]; mkp. Qed.
#[global] Instance mem_deallocuvm kend pd o n : Keeps mem_only (deallocuvm kend pd o n).
Proof. unfold deallocuvm. mkp. Qed.
#[global] Instance mem_freevm kend pd : Keeps mem_only (freevm kend pd).
Proof. unfold freevm. mkp. Qed.
#[global] Instance mem_alloc_from kend n pd a o sz : Keeps mem_only (alloc_from kend n pd a o sz).
Proof. revert a. induction n; intros; cbn [alloc_from]; mkp. Qed.
#[global] Instance mem_allocuvm kend pd o n : Keeps mem_only (allocuvm kend pd o n).
Proof. unfold allocuvm. mkp. Qed.
#[global] Instance mem_setup_maps kend pd l : Keeps mem_only (setup_maps kend pd l).
Proof. induction l; cbn [setup_maps]; mkp. Qed.
#[global] Instance mem_setupkvm kend kdata : Keeps mem_only (setupkvm kend kdata).
Proof. unfold setupkvm. mkp. Qed.
#[global] Instance mem_inituvm pd init sz : Keeps mem_only (inituvm pd init sz).
Proof. unfold inituvm. mkp. Qed.
#[global] Instance mem_copy_from kend n d pd sz i : Keeps mem_only (copy_from kend n d pd sz i).
Proof. revert i. induction n; intros; cbn [copy_from]; mkp. Qed.
#[global] Instance mem_copyuvm kend kdata pd sz : Keeps mem_only (copyuvm kend kdata pd sz).
Proof. unfold copyuvm. mkp. Qed.
