(* ===== verification/Fork.v ===== *)
(** * The life of a process: theorems on fork, exit, wait and kill

    [fork] gives the child the parent's memory size, registers, files and
    directory and counts the new references; [exit] hands the children over
    to init; [wait] frees exactly one exited child; pids stay unique. *)
From S2P Require Import Prelude State Sync Dll Bio Cache Log CString Print Kalloc Fs Vm File Proc Frame.

(** ** Helpers *)
Ltac inv_bind E a s e E1 := apply bind_inv in E as (a & s & e & E1 & E).

(** The fields that the routines of this file change. *)
Definition pview (s : kstate) : list proc * Z * list file * list inode * option nat * option nat * Z :=
  (k_procs s, k_nextpid s, k_ftable s, k_icache s, k_cpu_proc s, k_initproc s, k_ticks s).

(** Closes an equality of views of nested updates of one table entry. *)
Ltac pvsolve :=
  unfold pview in *; simpl in *; simplify_eq/=;
  repeat match goal with H : ?f ?s = _ |- context [?f ?s] => is_var s; rewrite H end;
  repeat match goal with H : ?f ?s = ?f ?s' |- context [?f ?s'] => is_var s; is_var s'; rewrite <-H end;
  repeat (match goal with |- (_, _) = (_, _) => apply f_equal2 end; try reflexivity);
  rewrite ?list_alter_alter_eq; try (apply list_alter_ext; [intros [] ?; proc_red|reflexivity]; try reflexivity).

Lemma keeps_view {A} (m : KM A) `{!Keeps mem_only m} env s a s' env' :
  m env s = Done a s' env' → pview s' = pview s ∧ env' = env.
Proof. intros E. apply keeps in E as [-> ->]. done. Qed.

Lemma pview_procs s s' : pview s = pview s' → k_procs s = k_procs s'.
Proof. unfold pview. congruence. Qed.
Lemma pview_nextpid s s' : pview s = pview s' → k_nextpid s = k_nextpid s'.
Proof. unfold pview. congruence. Qed.
Lemma pview_ftable s s' : pview s = pview s' → k_ftable s = k_ftable s'.
Proof. unfold pview. congruence. Qed.
Lemma pview_icache s s' : pview s = pview s' → k_icache s = k_icache s'.
Proof. unfold pview. congruence. Qed.
Lemma pview_cpu s s' : pview s = pview s' → k_cpu_proc s = k_cpu_proc s'.
Proof. unfold pview. congruence. Qed.
Lemma pview_init s s' : pview s = pview s' → k_initproc s = k_initproc s'.
Proof. unfold pview. congruence. Qed.
Lemma pview_ticks s s' : pview s = pview s' → k_ticks s = k_ticks s'.
Proof. unfold pview. congruence. Qed.
Lemma pview_intro s s' : k_procs s = k_procs s' → k_nextpid s = k_nextpid s' → k_ftable s = k_ftable s' →
  k_icache s = k_icache s' → k_cpu_proc s = k_cpu_proc s' → k_initproc s = k_initproc s' →
  k_ticks s = k_ticks s' → pview s = pview s'.
Proof. unfold pview. congruence. Qed.

Ltac kview E := apply keeps_view in E; [destruct E as [E ->]|apply _].

Lemma first_state_spec st tab i : 
  match first_state st tab i with
  | Some j => (i ≤ j)%nat ∧ ∃ p, tab !! (j - i)%nat = Some p ∧ p_state p = st ∧
      ∀ k q, (k < j - i)%nat → tab !! k = Some q → p_state q ≠ st
  | None => Forall (λ p, p_state p ≠ st) tab
  end.
Proof.
  revert i. induction tab as [|p tab IH]; intros i; simpl; [constructor|].
  destruct (decide (p_state p = st)) as [E|E].
  - split; [lia|]. exists p. rewrite Nat.sub_diag. split; [done|]. split; [done|]. intros; lia.
  - specialize (IH (S i)). destruct (first_state st tab (S i)) as [j|]; [|by constructor].
    destruct IH as (Hj & q & Hq & Hs & Hb). split; [lia|]. exists q.
    replace (j - i)%nat with (S (j - S i)) by lia. split; [done|]. split; [done|].
    intros [|k] r Hk Hr; simpl in Hr; [by injection Hr as <-|]. by apply (Hb k r); [lia|].
Qed.

Lemma first_state_lt st tab j : first_state st tab 0 = Some j →
  (j < length tab)%nat ∧ p_state (tab !!! j) = st.
Proof.
  intros E. pose proof (first_state_spec st tab 0) as H. rewrite E in H.
  destruct H as (_ & p & Hp & Hs & _). rewrite Nat.sub_0_r in Hp.
  split; [by eapply lookup_lt_Some|]. by erewrite list_lookup_total_correct.
Qed.

Lemma alter_as_insert {A} `{Inhabited A} (f : A → A) (l : list A) i :
  (i < length l)%nat → alter f i l = <[i := f (l !!! i)]> l.
Proof.
  intros Hi. apply list_eq. intros j. destruct (decide (i = j)) as [->|Hne].
  - rewrite list_lookup_alter_eq, list_lookup_insert_eq by done.
    by rewrite (list_lookup_lookup_total_lt l j).
  - by rewrite list_lookup_alter_ne, list_lookup_insert_ne by done.
Qed.

Section fork.
Context (kend kdata forkret_pc trapret_pc : Z) (initcode : list Z) `{Devsw}.

(** ** allocproc *)

(** The entry [allocproc] fills; without memory for a stack it is unused
    again. *)
Definition new_proc (pid ticks kstack : Z) (q : proc) : proc :=
  q <| p_state := if kstack =? 0 then UNUSED else EMBRYO |> <| p_pid := pid |> <| p_running_t := 0 |>
    <| p_ctime := s32 ticks |> <| p_waiting_t := 0 |> <| p_pidtimes := 0 |> <| p_kstack := kstack |>
    <| p_context := if kstack =? 0 then p_context q else Context_ 0 0 0 0 forkret_pc |>.

Lemma allocproc_inv env s r s1 env1 :
  allocproc forkret_pc trapret_pc env s = Done r s1 env1 →
  env1 = env ∧
  match first_state UNUSED (k_procs s) 0 with
  | None => r = None ∧ pview s1 = pview s
  | Some np => ∃ ks, r = (if ks =? 0 then None else Some np) ∧
      pview s1 = pview (s <| k_procs ::= alter (new_proc (k_nextpid s) (k_ticks s) ks) np |>
                          <| k_nextpid ::= λ n, s32 (n + 1) |>)
  end.
Proof.
  intros E. unfold allocproc in E. inv_bind E a s2 e2 E2. kview E2.
  rewrite bind_gets in E. destruct (first_state UNUSED (k_procs s) 0) as [np|] eqn:F;
    (replace (k_procs s2) with (k_procs s) in E by (unfold pview in E2; congruence)); rewrite F in E.
  - rewrite !bind_gets in E. unfold upd_proc in E. rewrite !bind_modify in E.
    inv_bind E b s3 e3 E3. kview E3.
    inv_bind E ks s4 e4 E4. kview E4.
    rewrite bind_modify in E. destruct (ks =? 0) eqn:Hks.
    + rewrite bind_modify in E. injection E as <- <- <-. split; [done|]. exists ks. rewrite Hks.
      split; [done|]. pvsolve. unfold new_proc. by rewrite Hks.
    + inv_bind E c s5 e5 E5. kview E5. rewrite bind_modify in E.
      injection E as <- <- <-. split; [done|]. exists ks. rewrite Hks.
      split; [done|]. pvsolve. unfold new_proc. by rewrite Hks.
  - inv_bind E b s3 e3 E3. kview E3. injection E as <- <- <-.
    split; [done|]. split; [done|]. congruence.
Qed.
(** ** Copying the open files *)
Definition copy_fd (cur : list (option nat)) (l : list (option nat)) (i : nat) : list (option nat) :=
  match cur !!! i with Some f => <[i := Some f]> l | None => l end.
Definition count_fd (cur : list (option nat)) (l : list file) (i : nat) : list file :=
  match cur !!! i with Some f => alter (λ f, f <| f_ref ::= λ r, r + 1 |>) f l | None => l end.
Definition copy_fds (cur l : list (option nat)) (ix : list nat) : list (option nat) := foldl (copy_fd cur) l ix.
Definition count_fds (cur : list (option nat)) (l : list file) (ix : list nat) : list file := foldl (count_fd cur) l ix.
Arguments copy_fds : simpl never.
Arguments count_fds : simpl never.

(** How many of the first [NOFILE] descriptors refer to [f]. *)
Definition fd_refs (cur : list (option nat)) (ix : list nat) (f : nat) : Z :=
  Z.of_nat (length (filter (λ i, cur !!! i = Some f) ix)).

Lemma length_copy_fds cur l ix : length (copy_fds cur l ix) = length l.
Proof.
  unfold copy_fds. revert l. induction ix as [|i ix IH]; intros l; [done|]. simpl. rewrite IH. unfold copy_fd.
  destruct (cur !!! i); [|done]. by rewrite length_insert.
Qed.

Lemma lookup_copy_fds cur l ix i : (i < length l)%nat →
  copy_fds cur l ix !!! i =
    if decide (i ∈ ix) then match cur !!! i with Some f => Some f | None => l !!! i end else l !!! i.
Proof.
  unfold copy_fds. revert l. induction ix as [|j ix IH]; intros l Hi; [done|]. cbn [foldl].
  rewrite IH by (unfold copy_fd; destruct (cur !!! j); [by rewrite length_insert|done]).
  assert (Hj : copy_fd cur l j !!! i = if decide (i = j) then match cur !!! i with Some f => Some f | None => l !!! i end
    else l !!! i).
  { unfold copy_fd. destruct (decide (i = j)) as [->|]; destruct (cur !!! j) eqn:Ej; try done.
    - by rewrite list_lookup_total_insert_eq.
    - by rewrite list_lookup_total_insert_ne. }
  rewrite Hj. destruct (decide (i = j)) as [->|Hne].
  - rewrite (decide_True (P := j ∈ j :: ix)) by apply list_elem_of_here. destruct (decide _); [|done].
    by destruct (cur !!! j).
  - destruct (decide (i ∈ ix)).
    + by rewrite decide_True by (by apply list_elem_of_further).
    + by rewrite decide_False by (by apply not_elem_of_cons).
Qed.

Lemma length_count_fds cur l ix : length (count_fds cur l ix) = length l.
Proof.
  unfold count_fds. revert l. induction ix as [|i ix IH]; intros l; [done|]. simpl. rewrite IH. unfold count_fd.
  destruct (cur !!! i); [|done]. by rewrite length_alter.
Qed.

Lemma ref_count_fds cur l ix f : (f < length l)%nat →
  f_ref (count_fds cur l ix !!! f) = f_ref (l !!! f) + fd_refs cur ix f.
Proof.
  unfold fd_refs, count_fds. revert l. induction ix as [|j ix IH]; intros l Hf; [simpl; lia|]. cbn [foldl].
  rewrite IH by (unfold count_fd; destruct (cur !!! j); [by rewrite length_alter|done]).
  rewrite filter_cons. unfold count_fd. destruct (cur !!! j) as [g|] eqn:E.
  - destruct (decide (Some g = Some f)) as [[= ->]|Hne]; simpl length.
    + rewrite alter_total, decide_True by done. simpl. lia.
    + rewrite list_lookup_total_alter_ne by congruence. done.
  - by rewrite decide_False.
Qed.

Lemma filedup_inv f env s g s' env' :
  filedup f env s = Done g s' env' →
  g = f ∧ env' = env ∧ (f < length (k_ftable s))%nat ∧
  pview s' = pview (s <| k_ftable ::= alter (λ f, f <| f_ref ::= λ r, r + 1 |>) f |>).
Proof.
  intros E. unfold filedup in E. inv_bind E a s1 e1 E1. kview E1. rewrite bind_gets in E.
  destruct (f_ref (get_file s1 f) <? 1) eqn:Hr; [discriminate E|]. unfold upd_file in E. rewrite bind_modify in E.
  inv_bind E b s2 e2 E2. kview E2. injection E as <- <- <-. split; [done|]. split; [done|].
  pose proof (pview_ftable _ _ E1) as Ht. split; [|pvsolve].
  destruct (decide (f < length (k_ftable s))%nat) as [|Hn]; [done|]. exfalso.
  unfold get_file in Hr. rewrite Ht, list_lookup_total_alt, lookup_ge_None_2 in Hr by lia. discriminate Hr.
Qed.

Lemma idup_inv i env s j s' env' :
  idup i env s = Done j s' env' →
  j = i ∧ env' = env ∧
  pview s' = pview (s <| k_icache ::= alter (λ ip, ip <| i_ref ::= λ r, r + 1 |>) i |>).
Proof.
  intros E. unfold idup in E. inv_bind E a s1 e1 E1. kview E1. unfold upd_inode in E. rewrite bind_modify in E.
  inv_bind E b s2 e2 E2. kview E2. injection E as <- <- <-. split; [done|]. split; [done|]. pvsolve.
Qed.

Definition dup_body (cur : proc) (np i : nat) : KM unit :=
  match p_ofile cur !!! i with
  | Some f => f <- filedup f ;; upd_proc np (λ q, q <| p_ofile ::= <[i := Some f]> |>)
  | None => ret tt
  end.

Lemma dup_loop_inv cur np ix env s u s' env' :
  foreach (dup_body cur np) ix env s = Done u s' env' →
  env' = env ∧
  pview s' = pview (s <| k_procs ::= alter (λ q, q <| p_ofile ::= λ l, copy_fds (p_ofile cur) l ix |>) np |>
                      <| k_ftable ::= λ l, count_fds (p_ofile cur) l ix |>) ∧
  ∀ i f, i ∈ ix → p_ofile cur !!! i = Some f → (f < length (k_ftable s))%nat.
Proof.
  revert env s. induction ix as [|i ix IH]; intros env s E.
  - injection E as <- <- <-. split; [done|]. split; [|by intros ?? ?%elem_of_nil].
    pvsolve. symmetry. apply list_alter_id. by intros [].
  - cbn [foreach] in E. inv_bind E a s1 e1 E1. destruct (IH _ _ E) as (-> & Hv & Hf). clear IH.
    unfold dup_body in E1. unfold copy_fds, count_fds in *. cbn [foldl]. unfold copy_fd at 2, count_fd at 2.
    destruct (p_ofile cur !!! i) as [f|] eqn:Ei.
    + inv_bind E1 g s2 e2 E2. apply filedup_inv in E2 as (-> & -> & Hlt & E2).
      injection E1 as <- <-. split; [done|]. split.
      * pvsolve.
      * intros j h [->|Hj]%elem_of_cons Eh; [congruence|]. specialize (Hf j h Hj Eh). simpl in Hf.
        rewrite (pview_ftable _ _ E2) in Hf. simpl in Hf. by rewrite length_alter in Hf.
    + injection E1 as <- <-. split; [done|]. split; [done|].
      intros j h [->|Hj]%elem_of_cons Eh; [congruence|]. by apply (Hf j h).
Qed.
(** ** fork *)

(** What the child of [cp] is made of; [old] is the entry it was given. *)
Record child_of (cp : nat) (par old : proc) (pid : Z) (child : proc) : Prop := {
  ch_state : p_state child = RUNNABLE;
  ch_pid : p_pid child = pid;
  ch_parent : p_parent child = Some cp;
  ch_sz : p_sz child = p_sz par;
  ch_tf : p_tf child = (p_tf par) <| tf_eax := 0 |>;
  ch_cwd : p_cwd child = p_cwd par;
  ch_ofile i : (i < NOFILE)%nat → (i < length (p_ofile old))%nat →
    p_ofile child !!! i = match p_ofile par !!! i with Some f => Some f | None => p_ofile old !!! i end;
  ch_mem : p_kstack child ≠ 0 ∧ p_pgdir child ≠ 0;
  ch_start : p_context child = Context_ 0 0 0 0 forkret_pc }.

Definition child_entry (cp : nat) (par : proc) (pid ticks ks pgdir : Z) (q : proc) : proc :=
  (new_proc pid ticks ks q) <| p_pgdir := pgdir |> <| p_sz := p_sz par |> <| p_parent := Some cp |>
    <| p_tf := (p_tf par) <| tf_eax := 0 |> |>
    <| p_ofile ::= λ l, copy_fds (p_ofile par) l (seq 0 NOFILE) |>
    <| p_cwd := p_cwd par |> <| p_name := safestrcpy_bytes (p_name q) (p_name par) 16 |> <| p_state := RUNNABLE |>.

Lemma child_entry_ok cp par pid ticks ks pgdir q :
  ks ≠ 0 → pgdir ≠ 0 → child_of cp par q pid (child_entry cp par pid ticks ks pgdir q).
Proof.
  intros Hks Hpg. split; try done.
  - intros i Hi Hl.
    change (copy_fds (p_ofile par) (p_ofile q) (seq 0 NOFILE) !!! i = match p_ofile par !!! i with
      Some f => Some f | None => p_ofile q !!! i end).
    rewrite lookup_copy_fds, decide_True by (done || apply elem_of_seq; lia). done.
  - simpl. by rewrite (proj2 (Z.eqb_neq _ _) Hks).
Qed.

(** Follows one field of [pview] through the six steps of [fork]. *)
Ltac chain l E1 E2 Hv E4 E5 E6 :=
  rewrite (l _ _ E6); simpl; rewrite (l _ _ E5); simpl; rewrite (l _ _ E4); simpl;
  rewrite (l _ _ Hv); simpl; rewrite (l _ _ E2), (l _ _ E1); reflexivity.

(** The tables after each step of a [fork] that succeeds. *)
Lemma fork_views cp np ks pgdir cwd s s1 s2 s3 s4 s5 s6 (par := get_proc s cp) :
  (np < length (k_procs s))%nat → ks ≠ 0 → p_cwd par = Some cwd →
  pview s1 = pview (s <| k_procs ::= alter (new_proc (k_nextpid s) (k_ticks s) ks) np |> <| k_nextpid ::= λ n, s32 (n + 1) |>) →
  pview s2 = pview s1 →
  pview s3 = pview (s2 <| k_procs ::= alter (λ q, q <| p_pgdir := pgdir |>) np |>
    <| k_procs ::= alter (λ q, q <| p_sz := p_sz par |> <| p_parent := Some cp |> <| p_tf := (p_tf par) <| tf_eax := 0 |> |>) np |>
    <| k_procs ::= alter (λ q, q <| p_ofile ::= λ l, copy_fds (p_ofile par) l (seq 0 NOFILE) |>) np |>
    <| k_ftable ::= λ l, count_fds (p_ofile par) l (seq 0 NOFILE) |>) →
  pview s4 = pview (s3 <| k_icache ::= alter (λ ip, ip <| i_ref ::= λ r, r + 1 |>) cwd |>) →
  pview s5 = pview (s4 <| k_procs ::= alter (λ q, q <| p_cwd := Some cwd |> <| p_name := safestrcpy_bytes (p_name q) (p_name par) 16 |>) np |>) →
  pview s6 = pview (s5 <| k_procs ::= alter (λ q, q <| p_state := RUNNABLE |>) np |>) →
  p_pid (get_proc s4 np) = k_nextpid s ∧
  pview s6 = pview (s <| k_procs ::= alter (child_entry cp par (k_nextpid s) (k_ticks s) ks pgdir) np |>
                      <| k_nextpid ::= λ n, s32 (n + 1) |> <| k_ftable ::= λ l, count_fds (p_ofile par) l (seq 0 NOFILE) |>
                      <| k_icache ::= alter (λ ip, ip <| i_ref ::= λ r, r + 1 |>) cwd |>).
Proof.
  intros Hnp Hks Hcwd E1 E2 Hv E4 E5 E6.
  assert (Hp4 : k_procs s4 = alter (λ q, (child_entry cp par (k_nextpid s) (k_ticks s) ks pgdir q)
    <| p_state := EMBRYO |> <| p_cwd := p_cwd q |> <| p_name := p_name q |>) np (k_procs s)).
  { rewrite (pview_procs _ _ E4). simpl. rewrite (pview_procs _ _ Hv). simpl.
    rewrite (pview_procs _ _ E2), (pview_procs _ _ E1). simpl. rewrite !list_alter_alter_eq.
    apply list_alter_ext; [|done]. intros [] Hx. unfold child_entry, new_proc, compose.
    rewrite (proj2 (Z.eqb_neq _ _) Hks).
    proc_red. reflexivity. }
  split; [unfold get_proc; by rewrite Hp4, alter_total, decide_True by done|].
  apply pview_intro.
  - rewrite (pview_procs _ _ E6). simpl. rewrite (pview_procs _ _ E5). simpl. rewrite Hp4, !list_alter_alter_eq.
    apply list_alter_ext; [|done]. intros [] Hx. unfold child_entry, new_proc, compose.
    rewrite Hcwd. proc_red. reflexivity.
  - chain pview_nextpid E1 E2 Hv E4 E5 E6.
  - chain pview_ftable E1 E2 Hv E4 E5 E6.
  - chain pview_icache E1 E2 Hv E4 E5 E6.
  - chain pview_cpu E1 E2 Hv E4 E5 E6.
  - chain pview_init E1 E2 Hv E4 E5 E6.
  - chain pview_ticks E1 E2 Hv E4 E5 E6.
Qed.

Lemma fork_inv cp env s pid s' env' :
  k_cpu_proc s = Some cp → p_state (get_proc s cp) ≠ UNUSED →
  fork kend kdata forkret_pc trapret_pc env s = Done pid s' env' →
  env' = env ∧
  match first_state UNUSED (k_procs s) 0 with
  | None => pid = -1 ∧ pview s' = pview s
  | Some np =>
      (pid = -1 ∧ ∃ q, p_state q = UNUSED ∧ p_pid q = k_nextpid s ∧
        pview s' = pview (s <| k_procs ::= <[np := q]> |> <| k_nextpid ::= λ n, s32 (n + 1) |>)) ∨
      (pid = k_nextpid s ∧ ∃ ks pgdir cwd, ks ≠ 0 ∧ pgdir ≠ 0 ∧ p_cwd (get_proc s cp) = Some cwd ∧
        (∀ i f, (i < NOFILE)%nat → p_ofile (get_proc s cp) !!! i = Some f → (f < length (k_ftable s))%nat) ∧
        pview s' = pview (s <| k_procs ::= alter (child_entry cp (get_proc s cp) (k_nextpid s) (k_ticks s) ks pgdir) np |>
                            <| k_nextpid ::= λ n, s32 (n + 1) |>
                            <| k_ftable ::= λ l, count_fds (p_ofile (get_proc s cp)) l (seq 0 NOFILE) |>
                            <| k_icache ::= alter (λ ip, ip <| i_ref ::= λ r, r + 1 |>) cwd |>))
  end.
Proof.
  intros Hcp Hst E. unfold fork in E. erewrite bind_done in E by (by apply curproc_ok).
  inv_bind E r s1 e1 E1. apply allocproc_inv in E1 as [-> E1].
  destruct (first_state UNUSED (k_procs s) 0) as [np|] eqn:F; [|destruct E1 as [-> E1]; by injection E as <- <- <-].
  apply first_state_lt in F as [Hnp Hun]. destruct E1 as (ks & -> & E1).
  destruct (ks =? 0) eqn:Hks.
  { injection E as <- <- <-. split; [done|]. left. split; [done|].
    exists (new_proc (k_nextpid s) (k_ticks s) ks (k_procs s !!! np)). split; [simpl; by rewrite Hks|]. split; [done|].
    rewrite E1. unfold pview. simpl. by rewrite alter_as_insert. }
  rewrite bind_gets in E. inv_bind E pgdir s2 e2 E2. kview E2. unfold upd_proc in E. rewrite bind_modify in E.
  assert (Hne : np ≠ cp) by (intros ->; by apply Hst).
  assert (Hcp2 : ∀ f, get_proc (s2 <| k_procs ::= alter f np |>) cp = get_proc s cp).
  { intros f. unfold get_proc. simpl. rewrite list_lookup_total_alter_ne by done.
    rewrite (pview_procs _ _ E2), (pview_procs _ _ E1). simpl. by rewrite list_lookup_total_alter_ne by done. }
  destruct (pgdir =? 0) eqn:Hpg.
  { rewrite bind_gets in E. inv_bind E a s3 e3 E3. kview E3. rewrite bind_modify in E. injection E as <- <- <-.
    split; [done|]. left. split; [done|].
    exists ((new_proc (k_nextpid s) (k_ticks s) ks (k_procs s !!! np)) <| p_pgdir := pgdir |> <| p_kstack := 0 |>
      <| p_state := UNUSED |>). split; [done|]. split; [done|].
    pvsolve. by rewrite alter_as_insert. }
  rewrite bind_gets, bind_modify in E. rewrite Hcp2 in E.
  inv_bind E a s3 e3 E3. pose proof (dup_loop_inv (get_proc s cp) np _ _ _ a s3 e3 E3) as (-> & Hv & Hfd). clear E3.
  destruct (p_cwd (get_proc s cp)) as [cwd|] eqn:Hcwd; [|discriminate E]. cbn [deref] in E. rewrite bind_ret in E.
  inv_bind E ic s4 e4 E4. apply idup_inv in E4 as (-> & -> & E4).
  rewrite bind_modify, bind_gets in E. inv_bind E b s5 e5 E5. kview E5. rewrite bind_modify in E.
  inv_bind E c s6 e6 E6. kview E6. injection E as <- <- <-. split; [done|]. right.
  rewrite Z.eqb_neq in Hks, Hpg.
  destruct (fork_views cp np ks pgdir cwd s s1 s2 s3 s4 s5 s6 Hnp Hks Hcwd E1 E2 Hv E4 E5 E6) as [Hpid V]. split.
  { rewrite <-Hpid. unfold get_proc. simpl. destruct (decide (np < length (k_procs s4))%nat); [by rewrite alter_total, decide_True by done|].
    rewrite !list_lookup_total_alt, !lookup_ge_None_2 by (rewrite ?length_alter; lia). done. }
  exists ks, pgdir, cwd. split; [done|]. split; [done|]. split; [done|]. split; [|done].
  intros i f Hi Hf. specialize (Hfd i f ltac:(apply elem_of_seq; lia) Hf). simpl in Hfd.
  by rewrite (pview_ftable _ _ E2), (pview_ftable _ _ E1) in Hfd.
Qed.
(** C13. [fork], on every path.  No other process's entry changes.  When it
    fails the files, the inodes and the states of all processes are as
    before.  When it succeeds it returns the next pid; the child, in the first
    unused entry, is runnable with the parent's size, registers (but for a
    zero result), directory and open files, its own stack and page directory,
    and starts at [forkret]; and every file has gained exactly as many
    references as the parent has descriptors for it. *)
Theorem fork_spec cp env s pid s' env' :
  k_cpu_proc s = Some cp → p_state (get_proc s cp) ≠ UNUSED →
  fork kend kdata forkret_pc trapret_pc env s = Done pid s' env' →
  env' = env ∧
  (∀ q, first_state UNUSED (k_procs s) 0 ≠ Some q → get_proc s' q = get_proc s q) ∧
  ((pid = -1 ∧ k_ftable s' = k_ftable s ∧ k_icache s' = k_icache s ∧
    ∀ q, p_state (get_proc s' q) = p_state (get_proc s q)) ∨
   (pid = k_nextpid s ∧ k_nextpid s' = s32 (pid + 1) ∧
    ∃ np cwd, first_state UNUSED (k_procs s) 0 = Some np ∧ p_cwd (get_proc s cp) = Some cwd ∧
      child_of cp (get_proc s cp) (get_proc s np) pid (get_proc s' np) ∧
      (∀ f, f_ref (get_file s' f) = f_ref (get_file s f) + fd_refs (p_ofile (get_proc s cp)) (seq 0 NOFILE) f) ∧
      k_icache s' = alter (λ ip, ip <| i_ref ::= λ r, r + 1 |>) cwd (k_icache s))).
Proof.
  intros Hcp Hst E. destruct (fork_inv _ _ _ _ _ _ Hcp Hst E) as [-> H0]. split; [done|]. clear E.
  destruct (first_state UNUSED (k_procs s) 0) as [np|] eqn:F.
  2:{ destruct H0 as [-> Hv]. unfold get_proc. rewrite (pview_procs _ _ Hv).
      split; [done|]. left. by rewrite (pview_ftable _ _ Hv), (pview_icache _ _ Hv). }
  apply first_state_lt in F as [Hnp Hun].
  destruct H0 as [(-> & q & Hq & _ & Hv)|(-> & ks & pgdir & cwd & Hks & Hpg & Hcwd & Hfd & Hv)];
    unfold get_proc in *; rewrite (pview_procs _ _ Hv); simpl.
  - split; [intros r Hr; by rewrite list_lookup_total_insert_ne by congruence|].
    left. rewrite (pview_ftable _ _ Hv), (pview_icache _ _ Hv). split; [done|]. split; [done|]. split; [done|].
    intros r. destruct (decide (np = r)) as [<-|Hne].
    + by rewrite list_lookup_total_insert_eq, Hq, Hun.
    + by rewrite list_lookup_total_insert_ne.
  - split; [intros r Hr; by rewrite list_lookup_total_alter_ne by congruence|].
    right. rewrite (pview_nextpid _ _ Hv), (pview_icache _ _ Hv). split; [done|]. split; [done|].
    exists np, cwd. split; [done|]. split; [done|]. split; [|split; [|done]].
    + rewrite alter_total, decide_True by done. by apply child_entry_ok.
    + intros f. unfold get_file. rewrite (pview_ftable _ _ Hv). simpl.
      destruct (decide (f < length (k_ftable s))%nat) as [Hf|Hf]; [by apply ref_count_fds|].
      rewrite (list_lookup_total_alt (count_fds _ _ _)), (list_lookup_total_alt (k_ftable s)).
      rewrite !lookup_ge_None_2 by (rewrite ?length_count_fds; lia).
      unfold fd_refs. destruct (filter _ _) as [|i l] eqn:Ef; [simpl; lia|]. exfalso.
      pose proof (list_elem_of_here i l) as Hi. rewrite <-Ef in Hi.
      apply list_elem_of_filter in Hi as [Ei Hi]. change (i ∈ seq 0 NOFILE) in Hi. apply elem_of_seq in Hi. apply (Hfd i f) in Ei; lia.
Qed.
(** ** Pids *)

(** Pids in use are different and below the next one. *)
Definition pid_ok (s : kstate) : Prop :=
  (∀ i, 0 ≤ p_pid (get_proc s i) < k_nextpid s) ∧
  ∀ i j, i ≠ j → p_pid (get_proc s i) ≠ 0 → p_pid (get_proc s i) ≠ p_pid (get_proc s j).

(** One entry is given the next pid, the others keep theirs. *)
Lemma pid_ok_next s s' np :
  pid_ok s → 0 < k_nextpid s < 2147483647 → k_nextpid s' = s32 (k_nextpid s + 1) →
  p_pid (get_proc s' np) = k_nextpid s → (∀ q, q ≠ np → p_pid (get_proc s' q) = p_pid (get_proc s q)) → pid_ok s'.
Proof.
  intros [Hr Hu] Hn En Hp Ho. rewrite s32_small in En by lia. split.
  - intros i. rewrite En. destruct (decide (i = np)) as [->|Hne]; [lia|]. rewrite Ho by done. specialize (Hr i). lia.
  - intros i j Hij. destruct (decide (i = np)) as [->|Hi]; [|destruct (decide (j = np)) as [->|Hj]].
    + rewrite Hp, Ho by done. specialize (Hr j). lia.
    + rewrite Hp, Ho by done. specialize (Hr i). lia.
    + rewrite !Ho by done. by apply Hu.
Qed.

(** Pids identify processes: [fork], whether it succeeds or fails half way,
    keeps the pids of the table different from each other and below
    [nextpid], as long as the counter has not run out of positive numbers. *)
Theorem fork_pids_unique cp env s pid s' env' :
  k_cpu_proc s = Some cp → p_state (get_proc s cp) ≠ UNUSED → 0 < k_nextpid s < 2147483647 → pid_ok s →
  fork kend kdata forkret_pc trapret_pc env s = Done pid s' env' → pid_ok s'.
Proof.
  intros Hcp Hst Hn Hok E. destruct (fork_inv _ _ _ _ _ _ Hcp Hst E) as [_ H0]. clear E.
  destruct (first_state UNUSED (k_procs s) 0) as [np|] eqn:F.
  2:{ destruct H0 as [_ Hv]. unfold pid_ok, get_proc in *. by rewrite (pview_procs _ _ Hv), (pview_nextpid _ _ Hv). }
  apply first_state_lt in F as [Hnp _].
  destruct H0 as [(_ & q & _ & Hq & Hv)|(_ & ks & pgdir & cwd & _ & _ & _ & _ & Hv)];
    (apply (pid_ok_next s s' np Hok Hn); [by rewrite (pview_nextpid _ _ Hv)| |]);
    unfold get_proc in *; rewrite (pview_procs _ _ Hv); simpl; [| |
      by rewrite alter_total, decide_True by done|intros r Hr; by rewrite list_lookup_total_alter_ne by done].
  - by rewrite list_lookup_total_insert_eq.
  - intros r Hr. by rewrite list_lookup_total_insert_ne by done.
Qed.
End fork.

Lemma fork_spec_witness :
  ∃ s', fork KERNBASE KERNBASE 0 0 [] user_boot = Done (-1) s' [] ∧
  ∀ q, p_state (get_proc s' q) = p_state (get_proc user_boot q).
Proof.
  eexists. split; [lazy; reflexivity|].
  epose proof (fork_spec KERNBASE KERNBASE 0 0 0 [] user_boot (-1) _ [] eq_refl ltac:(discriminate)
    ltac:(lazy; reflexivity)) as (_ & _ & [(_ & _ & _ & H)|(H & _)]); [exact H|discriminate H].
Defined.

Lemma fork_pids_unique_witness :
  ∃ s', fork KERNBASE KERNBASE 0 0 [] (user_boot <| k_nextpid := 2 |>) = Done (-1) s' [] ∧ pid_ok s'.
Proof.
  eexists. split; [lazy; reflexivity|].
  eapply (fork_pids_unique KERNBASE KERNBASE 0 0 0 [] (user_boot <| k_nextpid := 2 |>) (-1) _ []);
    [reflexivity|discriminate|simpl; lia| |lazy; reflexivity].
  assert (H : ∀ i, p_pid (get_proc (user_boot <| k_nextpid := 2 |>) i) = if decide (i = 0%nat) then 1 else 0).
  { intros [|i]; [reflexivity|]. rewrite decide_False by done. unfold get_proc. simpl.
    do 63 (destruct i as [|i]; [reflexivity|]). reflexivity. }
  split; [intros i; rewrite H; simpl; by destruct (decide _)|].
  intros i j. rewrite !H. destruct (decide (i = 0%nat)), (decide (j = 0%nat)); congruence.
Defined.

(** ** exit: the loop over the table *)
Section exit.
Context (cp : nat).

(** The index [exit] uses in its parent's arrays. *)
Definition times_index (cur par : proc) : Z := s32 (s32 (p_pid cur - p_pid par) - 1).
Definition times_saved (i : Z) (cur q : proc) : proc :=
  q <| p_pwaiting_t ::= <[Z.to_nat i := p_waiting_t cur]> |>
    <| p_prunning_t ::= <[Z.to_nat i := p_running_t cur]> |>
    <| p_pturnaround_t ::= <[Z.to_nat i := p_turnaround_t cur]> |>.

(** A round of the loop as a function on the table. *)
Definition exit_saved (tab : list proc) (p : nat) : list proc :=
  let cur := tab !!! cp in
  if decide (p_parent cur = Some p) then alter (times_saved (times_index cur (tab !!! p)) cur) p tab else tab.
Definition exit_round (init : nat) (tab : list proc) (p : nat) : list proc :=
  if decide (p_parent (tab !!! p) = Some cp) then
    let tab2 := alter (λ q, q <| p_parent := Some init |>) p (exit_saved tab p) in
    if decide (p_state (tab !!! p) = ZOMBIE) then wake1 (ChProc init) <$> tab2 else tab2
  else exit_saved tab p.

Lemma alter_keeps {T} (g : proc → T) f (l : list proc) i j :
  (∀ q, g (f q) = g q) → g (alter f i l !!! j) = g (l !!! j).
Proof. intros Hf. rewrite list_lookup_total_alter. by destruct (decide _) as [[-> _]|]. Qed.

Lemma exit_saved_keeps {T} (g : proc → T) tab p j :
  (∀ i cur q, g (times_saved i cur q) = g q) → g (exit_saved tab p !!! j) = g (tab !!! j).
Proof. intros Hf. unfold exit_saved. destruct (decide _); [|done]. by apply alter_keeps. Qed.

Lemma exit_child_round init p env s :
  k_initproc s = Some init →
  (p_parent (get_proc s cp) = Some p → 0 ≤ times_index (get_proc s cp) (get_proc s p) < NTIMES) →
  exit_child cp p env s = Done tt (s <| k_procs := exit_round init (k_procs s) p |>) env.
Proof.
  intros Hi Hg. unfold exit_child. rewrite !bind_gets.
  rewrite (bind_done _ _ _ _ tt (s <| k_procs := exit_saved (k_procs s) p |>) env).
  2:{ unfold exit_saved, save_times, upd_proc. fold (get_proc s cp). fold (get_proc s p).
      fold (times_index (get_proc s cp) (get_proc s p)). destruct (decide _) as [Hp|Hp].
      - specialize (Hg Hp). rewrite bool_decide_eq_true_2 by done. cbn [when].
        by rewrite (proj2 (andb_true_iff _ _)) by (rewrite Z.leb_le, Z.ltb_lt; done).
      - rewrite bool_decide_eq_false_2 by done. cbn [when]. by destruct s. }
  rewrite bind_gets. unfold exit_round.
  change (get_proc (s <| k_procs := exit_saved (k_procs s) p |>) p) with (exit_saved (k_procs s) p !!! p).
  rewrite !(exit_saved_keeps p_parent), !(exit_saved_keeps p_state) by done.
  destruct (decide _) as [Hp|Hp].
  - rewrite bool_decide_eq_true_2 by done. cbn [when]. rewrite bind_gets. unfold upd_proc. rewrite bind_modify.
    change (k_initproc (s <| k_procs := exit_saved (k_procs s) p |>)) with (k_initproc s). rewrite Hi. destruct (decide _).
    + by rewrite bool_decide_eq_true_2 by done.
    + by rewrite bool_decide_eq_false_2 by done.
  - by rewrite bool_decide_eq_false_2 by done.
Qed.
(** What the rounds over the entries [ix] have done to entry [j]. *)
Record exit_done (init : nat) (tab : list proc) (ix : list nat) (tab' : list proc) : Prop := {
  ed_length : length tab' = length tab;
  ed_zombie j : p_state (tab' !!! j) = ZOMBIE ↔ p_state (tab !!! j) = ZOMBIE;
  ed_ids {T} (g : proc → T) j : (∀ i cur q, g (times_saved i cur q) = g q) →
    (∀ q, g (q <| p_parent := Some init |>) = g q) → (∀ q, g (q <| p_state := RUNNABLE |>) = g q) →
    g (tab' !!! j) = g (tab !!! j);
  ed_parent j : p_parent (tab' !!! j) =
    if decide (j ∈ ix ∧ p_parent (tab !!! j) = Some cp) then Some init else p_parent (tab !!! j);
  ed_wake j : j ∈ ix → p_parent (tab !!! j) = Some cp → p_state (tab !!! j) = ZOMBIE →
    ¬ (p_state (tab' !!! init) = SLEEPING ∧ p_chan (tab' !!! init) = Some (ChProc init));
  ed_times par : par ∈ ix → p_parent (tab !!! cp) = Some par →
    let i := Z.to_nat (times_index (tab !!! cp) (tab !!! par)) in
    p_pwaiting_t (tab' !!! par) = <[i := p_waiting_t (tab !!! cp)]> (p_pwaiting_t (tab !!! par)) ∧
    p_prunning_t (tab' !!! par) = <[i := p_running_t (tab !!! cp)]> (p_prunning_t (tab !!! par)) ∧
    p_pturnaround_t (tab' !!! par) = <[i := p_turnaround_t (tab !!! cp)]> (p_pturnaround_t (tab !!! par));
  ed_untouched j : j ∉ ix → p_pwaiting_t (tab' !!! j) = p_pwaiting_t (tab !!! j) ∧
    p_prunning_t (tab' !!! j) = p_prunning_t (tab !!! j) ∧
    p_pturnaround_t (tab' !!! j) = p_pturnaround_t (tab !!! j) }.

Lemma lookup_wake1 ch (l : list proc) j : (wake1 ch <$> l) !!! j = wake1 ch (l !!! j).
Proof.
  rewrite !list_lookup_total_alt, list_lookup_fmap. destruct (l !! j); [done|]. simpl.
  unfold wake1. rewrite decide_False; [done|]. by intros [? _].
Qed.
Lemma wake1_keeps {T} (g : proc → T) ch q :
  (∀ q, g (q <| p_state := RUNNABLE |>) = g q) → g (wake1 ch q) = g q.
Proof. intros Hg. unfold wake1. by destruct (decide _). Qed.
Lemma wake1_zombie ch q : p_state (wake1 ch q) = ZOMBIE ↔ p_state q = ZOMBIE.
Proof. unfold wake1. destruct (decide _) as [[E _]|]; simpl; [rewrite E|]; naive_solver. Qed.

(** Entry [j] after the round for entry [p]. *)
Definition entry_after (init p : nat) (tab : list proc) (j : nat) : proc :=
  let cur := tab !!! cp in
  let q := tab !!! j in
  let q := if decide (j = p ∧ p_parent cur = Some p) then times_saved (times_index cur (tab !!! p)) cur q else q in
  let q := if decide (j = p ∧ p_parent (tab !!! p) = Some cp) then q <| p_parent := Some init |> else q in
  if decide (p_parent (tab !!! p) = Some cp ∧ p_state (tab !!! p) = ZOMBIE) then wake1 (ChProc init) q else q.

Lemma length_exit_saved tab p : length (exit_saved tab p) = length tab.
Proof. unfold exit_saved. destruct (decide _); [apply length_alter|done]. Qed.
Lemma length_exit_round init tab p : length (exit_round init tab p) = length tab.
Proof.
  unfold exit_round. repeat destruct (decide _); rewrite ?length_fmap, ?length_alter; apply length_exit_saved.
Qed.

Lemma exit_round_at init tab p j : (p < length tab)%nat →
  exit_round init tab p !!! j = entry_after init p tab j.
Proof.
  intros Hp. unfold exit_round, entry_after.
  assert (Hs : exit_saved tab p !!! j = if decide (j = p ∧ p_parent (tab !!! cp) = Some p)
    then times_saved (times_index (tab !!! cp) (tab !!! p)) (tab !!! cp) (tab !!! j) else tab !!! j).
  { unfold exit_saved. destruct (decide (p_parent (tab !!! cp) = Some p)) as [E|E].
    - rewrite alter_total by done. destruct (decide (p = j)) as [->|]; [by rewrite decide_True|].
      by rewrite decide_False by naive_solver.
    - by rewrite decide_False by naive_solver. }
  pose proof (length_exit_saved tab p) as Hl.
  destruct (decide (p_parent (tab !!! p) = Some cp)) as [E|E].
  - assert (H2 : alter (λ q, q <| p_parent := Some init |>) p (exit_saved tab p) !!! j =
      if decide (j = p ∧ p_parent (tab !!! p) = Some cp) then (exit_saved tab p !!! j) <| p_parent := Some init |>
      else exit_saved tab p !!! j).
    { rewrite alter_total by (by rewrite Hl). destruct (decide (p = j)) as [->|]; [by rewrite decide_True|].
      by rewrite decide_False by naive_solver. }
    destruct (decide (p_state (tab !!! p) = ZOMBIE)).
    + rewrite lookup_wake1, H2, Hs. by rewrite (decide_True (P := _ ∧ p_state _ = ZOMBIE)) by done.
    + rewrite H2, Hs. by rewrite (decide_False (P := _ ∧ p_state _ = ZOMBIE)) by naive_solver.
  - rewrite Hs. by rewrite (decide_False (P := _ ∧ p_state _ = ZOMBIE)), (decide_False (P := _ ∧ p_parent (tab !!! p) = _)) by naive_solver.
Qed.

Lemma entry_after_keeps {T} (g : proc → T) init p tab j :
  (∀ i cur q, g (times_saved i cur q) = g q) → (∀ q, g (q <| p_parent := Some init |>) = g q) →
  (∀ q, g (q <| p_state := RUNNABLE |>) = g q) → g (entry_after init p tab j) = g (tab !!! j).
Proof.
  intros H1 H2 H3. unfold entry_after. repeat destruct (decide _); rewrite ?wake1_keeps, ?H2, ?H1 by done; done.
Qed.
Lemma entry_after_zombie init p tab j :
  p_state (entry_after init p tab j) = ZOMBIE ↔ p_state (tab !!! j) = ZOMBIE.
Proof. unfold entry_after. repeat destruct (decide _); rewrite ?wake1_zombie; done. Qed.
Lemma entry_after_parent init p tab j :
  p_parent (entry_after init p tab j) =
    if decide (j = p ∧ p_parent (tab !!! p) = Some cp) then Some init else p_parent (tab !!! j).
Proof.
  unfold entry_after.
  destruct (decide (j = p ∧ p_parent (tab !!! p) = Some cp)), (decide (j = p ∧ p_parent (tab !!! cp) = Some p)),
    (decide (p_parent (tab !!! p) = Some cp ∧ _)); by rewrite ?(wake1_keeps p_parent) by done.
Qed.
(** Asleep on its children. *)
Definition waiting (init : nat) (q : proc) : Prop := p_state q = SLEEPING ∧ p_chan q = Some (ChProc init).
Lemma wake1_awake init q : ¬ waiting init (wake1 (ChProc init) q).
Proof. unfold wake1. destruct (decide _) as [|Hn]; [by intros [? _]|exact Hn]. Qed.
Lemma entry_after_awake init p tab j : ¬ waiting init (tab !!! j) → ¬ waiting init (entry_after init p tab j).
Proof.
  intros Hn. unfold entry_after.
  destruct (decide (p_parent (tab !!! p) = Some cp ∧ _)); [apply wake1_awake|].
  by repeat destruct (decide _).
Qed.
Lemma entry_after_other {T} (g : proc → T) init p tab j :
  j ≠ p → (∀ q, g (q <| p_state := RUNNABLE |>) = g q) → g (entry_after init p tab j) = g (tab !!! j).
Proof.
  intros Hne Hg. unfold entry_after. rewrite !(decide_False (P := j = p ∧ _)) by naive_solver.
  destruct (decide _); [by apply wake1_keeps|done].
Qed.
Lemma entry_after_saved {T} (g : proc → T) init p tab :
  p_parent (tab !!! cp) = Some p →
  (∀ q, g (q <| p_parent := Some init |>) = g q) → (∀ q, g (q <| p_state := RUNNABLE |>) = g q) →
  g (entry_after init p tab p) = g (times_saved (times_index (tab !!! cp) (tab !!! p)) (tab !!! cp) (tab !!! p)).
Proof.
  intros Hp H1 H2. unfold entry_after. rewrite (decide_True (P := p = p ∧ p_parent (tab !!! cp) = _)) by done.
  repeat destruct (decide _); rewrite ?wake1_keeps, ?H1 by done; done.
Qed.

Lemma exit_done_step init tab ix tab' p :
  p_parent (tab !!! cp) ≠ Some cp → exit_done init tab ix tab' → p ∉ ix → (p < length tab)%nat →
  exit_done init tab (ix ++ [p]) (exit_round init tab' p).
Proof.
  intros Hcp [Hl Hz Hg Hpar Hw Ht Hu] Hp Hlt.
  assert (Hat : ∀ j, exit_round init tab' p !!! j = entry_after init p tab' j).
  { intros j. apply exit_round_at. by rewrite Hl. }
  assert (Hcur : p_parent (tab' !!! cp) = p_parent (tab !!! cp)).
  { rewrite Hpar, decide_False by naive_solver. done. }
  assert (Hpp : p_parent (tab' !!! p) = p_parent (tab !!! p)).
  { rewrite Hpar, decide_False by naive_solver. done. }
  split.
  - by rewrite length_exit_round.
  - intros j. rewrite Hat, entry_after_zombie. apply Hz.
  - intros T g j H1 H2 H3. rewrite Hat, entry_after_keeps by done. by apply Hg.
  - intros j. rewrite Hat, entry_after_parent, Hpp. destruct (decide (j = p ∧ _)) as [[-> E]|Hn].
    + rewrite decide_True by (rewrite elem_of_app, list_elem_of_singleton; naive_solver). done.
    + rewrite Hpar. destruct (decide (j ∈ ix ∧ _)) as [[Hj E]|Hn'].
      * rewrite decide_True by (rewrite elem_of_app; naive_solver). done.
      * rewrite decide_False by (rewrite elem_of_app, list_elem_of_singleton; naive_solver). done.
  - intros j [Hj| ->%list_elem_of_singleton]%elem_of_app Ep Es; rewrite Hat.
    + apply entry_after_awake. by apply (Hw j).
    + unfold entry_after. rewrite (decide_True (P := p_parent (tab' !!! p) = Some cp ∧ _)); [apply wake1_awake|].
      by rewrite Hpp, Hz.
  - intros par [Hj| ->%list_elem_of_singleton]%elem_of_app Ep; rewrite Hat.
    + assert (par ≠ p) by congruence.
      rewrite !(entry_after_other _ init p tab' par) by done. by apply Ht.
    + rewrite !(entry_after_saved _ init p tab') by (done || congruence). unfold times_saved, times_index. simpl.
      destruct (Hu p Hp) as (-> & -> & ->).
      rewrite !(Hg _ p_pid), (Hg _ p_waiting_t), (Hg _ p_running_t), (Hg _ p_turnaround_t) by done. done.
  - intros j Hj. rewrite Hat. assert (j ≠ p ∧ j ∉ ix) as [Hne Hni] by set_solver.
    rewrite !(entry_after_other _ init p tab' j) by done. by apply Hu.
Qed.
Lemma exit_done_nil init tab : exit_done init tab [] tab.
Proof.
  split; try done.
  - by intros j ?%elem_of_nil.
  - by intros j ?%elem_of_nil.
Qed.

Lemma procs_self s : s <| k_procs := k_procs s |> = s.
Proof. by destruct s. Qed.

Lemma exit_loop init tab rest dn env s :
  exit_done init tab dn (k_procs s) → k_initproc s = Some init → p_parent (tab !!! cp) ≠ Some cp →
  NoDup (dn ++ rest) → Forall (λ p, (p < length tab)%nat) rest →
  (∀ p, p ∈ rest → p_parent (tab !!! cp) = Some p → 0 ≤ times_index (tab !!! cp) (tab !!! p) < NTIMES) →
  ∃ tab', foreach (exit_child cp) rest env s = Done tt (s <| k_procs := tab' |>) env ∧
    exit_done init tab (dn ++ rest) tab'.
Proof.
  revert dn s. induction rest as [|p rest IH]; intros dn s Hd Hi Hcp Hn Hf Hg.
  { exists (k_procs s). rewrite app_nil_r, procs_self. done. }
  apply Forall_cons in Hf as [Hp Hf].
  assert (p ∉ dn) by (apply NoDup_app in Hn as (_ & Hn & _); intros ?; apply (Hn p); [done|left]).
  assert (Hgp : p_parent (get_proc s cp) = Some p → 0 ≤ times_index (get_proc s cp) (get_proc s p) < NTIMES).
  { unfold times_index, get_proc. rewrite !(ed_ids _ _ _ _ Hd p_pid) by done.
    rewrite (ed_parent _ _ _ _ Hd), decide_False by naive_solver. apply Hg. left. }
  cbn [foreach]. rewrite (bind_done _ _ _ _ _ _ _ (exit_child_round init p env s Hi Hgp)).
  destruct (IH (dn ++ [p]) (s <| k_procs := exit_round init (k_procs s) p |>)) as (tab' & E & Hd').
  - by apply exit_done_step.
  - done.
  - done.
  - by rewrite <-app_assoc.
  - done.
  - intros q Hq. apply Hg. by right.
  - exists tab'. split; [exact E|]. by rewrite <-app_assoc in Hd'.
Qed.

(** C31. An exiting process leaves no children behind.  The loop of [exit] over
    the table ends; after it no process has the exiting one as its parent, its
    children are children of init, init is not left asleep in [wait] if one of
    them had already exited, and the parent has the three times of the exiting
    process, provided that the parent's pid is at most ten less. *)
Theorem exit_hands_over init env s :
  length (k_procs s) = NPROC → k_initproc s = Some init → init ≠ cp →
  p_parent (get_proc s cp) ≠ Some cp →
  (∀ par, p_parent (get_proc s cp) = Some par → 0 ≤ times_index (get_proc s cp) (get_proc s par) < NTIMES) →
  ∃ tab', foreach (exit_child cp) (seq 0 NPROC) env s = Done tt (s <| k_procs := tab' |>) env ∧
    (∀ j, (j < NPROC)%nat → p_parent (tab' !!! j) =
      if decide (p_parent (get_proc s j) = Some cp) then Some init else p_parent (get_proc s j)) ∧
    (∀ j, (j < NPROC)%nat → p_parent (tab' !!! j) ≠ Some cp) ∧
    (∀ j, (j < NPROC)%nat → p_parent (get_proc s j) = Some cp → p_state (get_proc s j) = ZOMBIE →
      ¬ waiting init (tab' !!! init)) ∧
    (∀ par, (par < NPROC)%nat → p_parent (get_proc s cp) = Some par →
      let i := Z.to_nat (times_index (get_proc s cp) (get_proc s par)) in
      p_pwaiting_t (tab' !!! par) = <[i := p_waiting_t (get_proc s cp)]> (p_pwaiting_t (get_proc s par)) ∧
      p_prunning_t (tab' !!! par) = <[i := p_running_t (get_proc s cp)]> (p_prunning_t (get_proc s par)) ∧
      p_pturnaround_t (tab' !!! par) = <[i := p_turnaround_t (get_proc s cp)]> (p_pturnaround_t (get_proc s par))).
Proof.
  intros Hl Hi Hne Hcp Hg.
  destruct (exit_loop init (k_procs s) (seq 0 NPROC) [] env s) as (tab' & E & Hd); try done.
  { apply exit_done_nil. }
  { apply NoDup_seq. }
  { apply Forall_forall. intros p Hp%elem_of_seq. rewrite Hl. lia. }
  { intros p _. apply Hg. }
  assert (Hin : ∀ j, (j < NPROC)%nat → j ∈ [] ++ seq 0 NPROC) by (intros; apply elem_of_seq; lia).
  assert (Hp : ∀ j, (j < NPROC)%nat → p_parent (tab' !!! j) =
      if decide (p_parent (get_proc s j) = Some cp) then Some init else p_parent (get_proc s j)).
  { intros j Hj. rewrite (ed_parent _ _ _ _ Hd). unfold get_proc. specialize (Hin j Hj).
    destruct (decide (p_parent _ = Some cp)); [by rewrite decide_True|by rewrite decide_False by naive_solver]. }
  exists tab'. split; [done|]. split; [done|]. split; [|split].
  - intros j Hj. rewrite Hp by done. destruct (decide _); congruence.
  - intros j Hj. apply (ed_wake _ _ _ _ Hd). auto.
  - intros par Hpar. apply (ed_times _ _ _ _ Hd). auto.
Qed.

(** C29. [exit] stores outside its parent's arrays.  When the exiting process's
    pid is not one to ten more than its parent's (the parent has forked, or
    others have, more than ten times since it was created), the loop of
    [exit] writes the times outside the ten-element arrays of the parent. *)
Theorem exit_times_out_of_bounds init par env s :
  length (k_procs s) = NPROC → k_initproc s = Some init → p_parent (get_proc s cp) ≠ Some cp →
  (par < NPROC)%nat → p_parent (get_proc s cp) = Some par →
  ¬ (0 ≤ times_index (get_proc s cp) (get_proc s par) < NTIMES) →
  foreach (exit_child cp) (seq 0 NPROC) env s = wild env s.
Proof.
  intros Hl Hi Hcp Hp Hpar Hg.
  replace (seq 0 NPROC) with (seq 0 par ++ par :: seq (S par) (NPROC - S par)).
  2:{ replace NPROC with (par + S (NPROC - S par))%nat at 2 by lia. rewrite seq_app. done. }
  rewrite foreach_app.
  destruct (exit_loop init (k_procs s) (seq 0 par) [] env s) as (tab' & E & Hd); try done.
  { apply exit_done_nil. }
  { apply NoDup_seq. }
  { apply Forall_forall. intros p ?%elem_of_seq. lia. }
  { intros p ?%elem_of_seq E. unfold get_proc in Hpar. rewrite Hpar in E. injection E. lia. }
  run E. cbn [foreach]. apply bind_panic. unfold exit_child. rewrite !bind_gets.
  assert (Hcur : p_parent (get_proc (s <| k_procs := tab' |>) cp) = Some par).
  { unfold get_proc. simpl. rewrite (ed_parent _ _ _ _ Hd), decide_False by naive_solver. done. }
  rewrite bool_decide_eq_true_2 by done. cbn [when]. apply bind_panic. unfold save_times.
  replace (_ && _) with false; [done|]. symmetry. apply andb_false_iff.
  rewrite Z.leb_gt, Z.ltb_ge. unfold get_proc. simpl.
  rewrite !(ed_ids _ _ _ _ Hd p_pid) by done. unfold times_index, get_proc in Hg. lia.
Qed.
End exit.

(** Init, its child with pid [pid], which is exiting, and an exited child of
    that one. *)
Definition family (pid : Z) : kstate :=
  mem_boot <| k_initproc := Some 0%nat |>
    <| k_procs ::= λ l,
        [proc_zero <| p_state := SLEEPING |> <| p_chan := Some (ChProc 0) |> <| p_pid := 1 |>;
         proc_zero <| p_state := RUNNING |> <| p_pid := pid |> <| p_parent := Some 0%nat |> <| p_running_t := 7 |>;
         proc_zero <| p_state := ZOMBIE |> <| p_pid := 40 |> <| p_parent := Some 1%nat |>] ++ drop 3 l |>.

Lemma exit_hands_over_witness :
  ∃ tab', foreach (exit_child 1) (seq 0 NPROC) [] (family 3) = Done tt ((family 3) <| k_procs := tab' |>) [] ∧
    p_parent (tab' !!! 2%nat) = Some 0%nat ∧ p_prunning_t (tab' !!! 0%nat) = [0; 7; 0; 0; 0; 0; 0; 0; 0; 0].
Proof.
  destruct (exit_hands_over 1 0 [] (family 3)) as (tab' & E & H1 & _ & _ & H2).
  - reflexivity.
  - reflexivity.
  - discriminate.
  - discriminate.
  - intros par [= <-]. vm_compute. by split.
  - exists tab'. split; [exact E|]. split.
    + rewrite (H1 2%nat) by (unfold NPROC; lia). reflexivity.
    + destruct (H2 0%nat) as (_ & -> & _); [unfold NPROC; lia|reflexivity|reflexivity].
Defined.

Lemma exit_times_out_of_bounds_witness :
  foreach (exit_child 1) (seq 0 NPROC) [] (family 12) = Panic "out of bounds".
Proof.
  rewrite (exit_times_out_of_bounds 1 0 0 [] (family 12)).
  - reflexivity.
  - reflexivity.
  - reflexivity.
  - discriminate.
  - unfold NPROC. lia.
  - reflexivity.
  - vm_compute. intros [_ ?]. discriminate.
Defined.

(** ** wait *)
Lemma sleep_loop_inv {A} (body : KM (option A)) ch lk env s a s' env' :
  sleep_loop body ch lk env s = Done a s' env' →
  ∃ env1 s1, body env1 s1 = Done (Some a) s' env' ∧ (s1 = s ∨ ∃ s2 env2, body env s = Done None s2 env2).
Proof.
  unfold sleep_loop. generalize (S (length env)). intros n. revert env s.
  induction n as [|n IH]; intros env s E; [discriminate E|]. cbn [sleep_rounds] in E.
  inv_bind E r s1 e1 E1. destruct r as [b|].
  - injection E as <- <- <-. exists env, s. split; [done|by left].
  - inv_bind E u s2 e2 E2. apply IH in E as (env3 & s3 & E & _). exists env3, s3. split; [done|]. right. by exists s1, e1.
Qed.

Section wait.
Context (kend : Z) (cp : nat).

(** The entry of a child that has been waited for. *)
Definition reaped (q : proc) : proc :=
  q <| p_kstack := 0 |> <| p_pid := 0 |> <| p_parent := None |> <| p_name ::= <[0%nat := 0]> |>
    <| p_killed := false |> <| p_ctime := 0 |> <| p_state := UNUSED |>.

Definition is_child (s : kstate) (p : nat) : Prop := p_parent (get_proc s p) = Some cp.
Definition zombie_child (s : kstate) (p : nat) : Prop := is_child s p ∧ p_state (get_proc s p) = ZOMBIE.

Lemma wait_scan_inv l b env s r s' env' :
  wait_scan kend cp l b env s = Done r s' env' →
  match r with
  | inr b' => s' = s ∧ env' = env ∧ (∀ p, p ∈ l → ¬ zombie_child s p) ∧ (b' = true ↔ b = true ∨ ∃ p, p ∈ l ∧ is_child s p)
  | inl pid => ∃ l1 p l2, l = l1 ++ p :: l2 ∧ (∀ q, q ∈ l1 → ¬ zombie_child s q) ∧ zombie_child s p ∧
      pid = p_pid (get_proc s p) ∧ env' = env ∧ pview s' = pview (s <| k_procs ::= alter reaped p |>)
  end.
Proof.
  revert b. induction l as [|p l IH]; intros b E.
  { injection E as <- <- <-. split; [done|]. split; [done|]. split; [by intros p ?%elem_of_nil|].
    split; [by left|]. intros [|(p & ?%elem_of_nil & _)]; done. }
  cbn [wait_scan] in E. rewrite bind_gets in E.
  destruct (decide (p_parent (get_proc s p) = Some cp)) as [Hc|Hc].
  - rewrite bool_decide_eq_true_2 in E by done. cbn [negb] in E.
    destruct (decide (p_state (get_proc s p) = ZOMBIE)) as [Hz|Hz].
    + rewrite bool_decide_eq_true_2 in E by done. cbn [negb] in E. clear IH. unfold upd_proc in E.
      inv_bind E u1 s1 e1 E1. kview E1. rewrite bind_modify in E. inv_bind E u2 s2 e2 E2. kview E2.
      rewrite bind_modify in E. inv_bind E u3 s3 e3 E3. kview E3. injection E as <- <- <-.
      exists [], p, l. split; [done|]. split; [by intros q ?%elem_of_nil|]. split; [done|]. split; [done|].
      split; [done|]. pvsolve.
    + rewrite bool_decide_eq_false_2 in E by done. cbn [negb] in E. apply IH in E.
      destruct r as [pid|b'].
      * destruct E as (l1 & q & l2 & -> & Hl & Hq). exists (p :: l1), q, l2. split; [done|]. split; [|done].
        intros x [->|Hx]%elem_of_cons; [by intros [_ ?]|by apply Hl].
      * destruct E as (-> & -> & Hl & Hb). split; [done|]. split; [done|]. split.
        -- intros x [->|Hx]%elem_of_cons; [by intros [_ ?]|by apply Hl].
        -- rewrite Hb. split; [|by left]. intros _. right. exists p. split; [left|done].
  - rewrite bool_decide_eq_false_2 in E by done. cbn [negb] in E. apply IH in E.
    destruct r as [pid|b'].
    + destruct E as (l1 & q & l2 & -> & Hl & Hq). exists (p :: l1), q, l2. split; [done|]. split; [|done].
      intros x [->|Hx]%elem_of_cons; [by intros [? _]|by apply Hl].
    + destruct E as (-> & -> & Hl & Hb). split; [done|]. split; [done|]. split.
      * intros x [->|Hx]%elem_of_cons; [by intros [? _]|by apply Hl].
      * rewrite Hb. split; (intros [|(q & Hq & Hqc)]; [by left|right]).
        -- exists q. by split; [right|].
        -- apply elem_of_cons in Hq as [->|Hq]; [done|]. by exists q.
Qed.

(** One look at the table: it ends the call or there is a child to wait for. *)
Lemma wait_look_inv env s r s' env' :
  (r <- wait_scan kend cp (seq 0 NPROC) false ;;
   match r with
   | inl pid => ret (Some pid)
   | inr havekids =>
       killed <- gets (λ s, p_killed (get_proc s cp)) ;;
       if negb havekids || killed then release LkPtable ;; ret (Some (-1)) else ret None
   end) env s = Done r s' env' →
  match r with
  | None => (∀ p, (p < NPROC)%nat → ¬ zombie_child s p) ∧ (∃ p, (p < NPROC)%nat ∧ is_child s p) ∧ p_killed (get_proc s cp) = false
  | Some r =>
      (r = -1 ∧ k_procs s' = k_procs s ∧ (∀ p, (p < NPROC)%nat → ¬ zombie_child s p) ∧
       ((∀ p, (p < NPROC)%nat → ¬ is_child s p) ∨ p_killed (get_proc s cp) = true)) ∨
      (∃ p, (p < NPROC)%nat ∧ zombie_child s p ∧ (∀ q, (q < p)%nat → ¬ zombie_child s q) ∧
       r = p_pid (get_proc s p) ∧ k_procs s' = alter reaped p (k_procs s))
  end.
Proof.
  intros E. inv_bind E res s2 e2 E2. apply wait_scan_inv in E2. destruct res as [pid|b].
  - destruct E2 as (l1 & p & l2 & El & Hl & Hz & -> & -> & Hv). injection E as <- <- <-. right. exists p.
    assert (Hp : l1 = seq 0 p ∧ (p < NPROC)%nat).
    { assert (Hlk : seq 0 NPROC !! length l1 = Some p) by (rewrite El; by apply list_lookup_middle).
      apply lookup_seq in Hlk as [-> Hlt]. simpl. split; [|simpl in *; lia].
      apply (f_equal (take (length l1))) in El. rewrite take_app_length, take_seq, Nat.min_l in El by lia. done. }
    destruct Hp as [-> Hp]. split; [done|]. split; [done|]. split; [|split; [done|by rewrite (pview_procs _ _ Hv)]].
    intros q Hq. apply Hl, elem_of_seq. lia.
  - destruct E2 as (-> & -> & Hl & Hb). rewrite bind_gets in E.
    assert (Hz : ∀ p, (p < NPROC)%nat → ¬ zombie_child s p) by (intros p Hp; apply Hl, elem_of_seq; lia).
    destruct (negb b || p_killed (get_proc s cp)) eqn:Hk.
    + inv_bind E v s3 e3 E3. kview E3. injection E as <- <- <-. left. split; [done|]. split; [by apply pview_procs|].
      split; [done|]. destruct b; [by right|left].
      intros p Hp Hc. assert (false = true); [|done]. apply Hb. right. exists p. split; [apply elem_of_seq; lia|done].
    + injection E as <- <- <-. apply orb_false_iff in Hk as [Hk1 Hk2]. apply negb_false_iff in Hk1. split; [done|]. split; [|done].
      apply Hb in Hk1 as [?|(p & Hp & Hc)]; [done|]. exists p. split; [|done]. apply elem_of_seq in Hp. lia.
Qed.

(** C30. [wait], whatever happens while it sleeps.  It returns either the pid
    of the first exited child in table order, whose entry is then free and
    has forgotten its pid, its parent and a pending kill, all other entries
    being those it last saw; or -1, with the table as it last saw it, having
    seen no exited child and either no child at all or a kill of its own.
    The table it last saw is the one it was called with, unless that one had
    children of which none had exited, and the caller was not killed. *)
Theorem wait_spec env s r s' env' :
  k_cpu_proc s = Some cp → wait kend env s = Done r s' env' →
  ∃ s1, (k_procs s1 = k_procs s ∨
         (∀ p, (p < NPROC)%nat → ¬ zombie_child s p) ∧ (∃ p, (p < NPROC)%nat ∧ is_child s p) ∧ p_killed (get_proc s cp) = false) ∧
        ((r = -1 ∧ k_procs s' = k_procs s1 ∧ (∀ p, (p < NPROC)%nat → ¬ zombie_child s1 p) ∧
          ((∀ p, (p < NPROC)%nat → ¬ is_child s1 p) ∨ p_killed (get_proc s1 cp) = true)) ∨
         (∃ p, (p < NPROC)%nat ∧ zombie_child s1 p ∧ (∀ q, (q < p)%nat → ¬ zombie_child s1 q) ∧
          r = p_pid (get_proc s1 p) ∧ k_procs s' = alter reaped p (k_procs s1))).
Proof.
  intros Hcp E. unfold wait in E. erewrite bind_done in E by (by apply curproc_ok).
  inv_bind E u s0 e0 E0. kview E0. apply pview_procs in E0. apply sleep_loop_inv in E as (env1 & s1 & E & H1). exists s1.
  split; [|exact (wait_look_inv _ _ _ _ _ E)]. destruct H1 as [-> |(s2 & e2 & E2)]; [by left|right].
  apply wait_look_inv in E2. unfold zombie_child, is_child, get_proc in *. by rewrite E0 in E2.
Qed.
End wait.

(** A killed process with a child that has not exited. *)
Definition killed_parent : kstate :=
  user_boot <| k_procs ::= λ l, <[1%nat := proc_zero <| p_state := SLEEPING |> <| p_pid := 5 |>
    <| p_parent := Some 0%nat |>]> (alter (λ q, q <| p_killed := true |>) 0%nat l) |>.

Lemma wait_spec_witness :
  ∃ s', wait KERNBASE [] killed_parent = Done (-1) s' [] ∧
  ∃ s1, (k_procs s' = k_procs s1 ∧ ∀ p, (p < NPROC)%nat → ¬ zombie_child 0 s1 p) ∨
        (∃ p, zombie_child 0 s1 p ∧ k_procs s' = alter reaped p (k_procs s1)).
Proof.
  eexists. split; [lazy; reflexivity|].
  edestruct (wait_spec KERNBASE 0 [] killed_parent (-1)) as (s1 & _ & [(_ & H & Hz & _)|(p & _ & Hz & _ & _ & H)]).
  - reflexivity.
  - lazy. reflexivity.
  - exists s1. left. split; [exact H|exact Hz].
  - exists s1. right. exists p. split; [exact Hz|exact H].
Defined.
