(* ===== verification/ForkMem.v ===== *)
(** * fork as a whole (proc.c, vm.c, kalloc.c, file.c)

    [Fork] says what [fork] does to the tables of the kernel when it returns,
    [CopyVm] what [copyuvm] does to memory.  Here the two meet: with a free
    entry in the process table and enough free pages, [fork] returns, and the
    child is a process of its own with a copy of the parent's memory. *)
From S2P Require Import Prelude State Sync Dll Bio Cache Log CString Print Kalloc Fs Vm Paging CopyVm File Proc Frame Fork.

Section fork_memory.
Context (kend kdata forkret_pc trapret_pc : Z).
Context (Hdata : kdata `mod` PGSIZE = 0) (Hlink : KERNLINK < kdata < KERNBASE + PHYSTOP).

(** The state of memory: bytes, free list and locks. *)
Definition mview (s : kstate) : mem * Z * list lockid := (k_mem s, k_freelist s, k_locks s).

Lemma free_list_view s s' l : mview s' = mview s → free_list kend s l → free_list kend s' l.
Proof. intros E [F1 F2 F3]. injection E as E1 E2 E3. split; [by rewrite E1, E2|done|done]. Qed.
Lemma aspace_view s s' pgdir l b : mview s' = mview s → aspace kend s pgdir l b → aspace kend s' pgdir l b.
Proof.
  intros E [A1 A2 A3 A4 A5 A6]. pose proof (free_list_view _ _ _ E A2). injection E as E1 E2 E3.
  split; rewrite ?E1, ?E3; done.
Qed.

(** ** allocproc *)

(** A store into a page that was free before. *)
Lemma since_store s s1 v l a x : free_list kend s (v :: l) → s1 = s <| k_freelist := k_freelist s1 |> → free_list kend s1 l →
  v ≤ a → a + 4 ≤ v + PGSIZE → since kend s (v :: l) (s1 <| k_mem ::= λ m, KString.store4 m a x |>) l.
Proof.
  intros F Es F1 Ha Hb. destruct F as [_ Fn Fp]. apply NoDup_cons in Fn as [Fn _]. apply Forall_cons in Fp as [Hv Fp].
  assert (U : ∀ w, page_ok kend w → w ≠ v → unchanged (k_mem s) (KString.store4 (k_mem s) a x) w).
  { intros w Hw Hne y Hy. rewrite store4_other; [done|]. destruct (pages_apart v w); [apply Hv|apply Hw|congruence|lia|lia]. }
  split.
  - rewrite Es. kext.
  - replace (s1 <| k_mem ::= _ |>) with (s1 <| k_mem := KString.store4 (k_mem s) a x |> <| k_freelist := k_freelist s1 |>) by (rewrite Es; kext).
    apply free_list_mem; [done| |done]. rewrite Es. intros w Hw. rewrite Forall_forall in Fp. apply U; [by apply Fp|]. by intros ->.
  - by exists [v].
  - intros w Hw Hn. apply not_elem_of_cons in Hn as [Hn _]. rewrite Es. by apply U.
Qed.

Lemma allocproc_ok np env s pgdir v l b : k_locks s = [] → first_state UNUSED (k_procs s) 0 = Some np → 0 ≤ b →
  aspace kend s pgdir (v :: l) b →
  ∃ s1, allocproc forkret_pc trapret_pc env s = Done (Some np) s1 env ∧ k_locks s1 = [] ∧ aspace kend s1 pgdir l b ∧
    ∀ va, 0 ≤ va < KERNBASE → ubyte (k_mem s1) pgdir va = ubyte (k_mem s) pgdir va ∧ entry (k_mem s1) pgdir va = entry (k_mem s) pgdir va.
Proof.
  intros Hl Hf Hb A. unfold allocproc. step acquire_ok by (rewrite Hl; apply not_elem_of_nil).
  rewrite bind_gets. change (k_procs (s <|k_locks ::= cons LkPtable|>)) with (k_procs s). rewrite Hf, !bind_gets. unfold upd_proc. rewrite !bind_modify.
  step (release_ok LkPtable []) by (simpl; by rewrite Hl).
  match goal with |- context [bind kalloc _ _ ?t] => set (s2 := t) end.
  assert (V : mview s2 = mview s) by (unfold mview, s2; simpl; by rewrite Hl). clearbody s2.
  pose proof (aspace_view _ _ _ _ _ V A) as A2. injection V as V1 V2 V3.
  destruct (kalloc_spec kend env s2 (v :: l) (as_locks _ _ _ _ _ A2) (as_free _ _ _ _ _ A2)) as (s3 & E3 & Es & F3).
  run E3. rewrite bind_modify. assert (Hv : page_ok kend v) by (pose proof (as_free _ _ _ _ _ A2) as [_ _ Fp]; by apply Forall_cons in Fp as [Fp _]).
  rewrite (proj2 (Z.eqb_neq v 0)) by (destruct Hv; unfold KERNBASE in *; lia). unfold save4, upd_mem. rewrite !bind_modify.
  pose proof (since_store s2 s3 v l (v + KSTACKSIZE - TF_SIZE - 4) trapret_pc (as_free _ _ _ _ _ A2) Es F3) as C.
  specialize (C ltac:(unfold KSTACKSIZE, TF_SIZE; lia) ltac:(unfold KSTACKSIZE, TF_SIZE, PGSIZE; lia)).
  eexists. split; [done|]. set (s4 := s3 <| k_mem ::= _ |>) in C.
  assert (V4 : ∀ s5, mview s5 = mview s4 → k_locks s5 = [] ∧ aspace kend s5 pgdir l b ∧ ∀ va, 0 ≤ va < KERNBASE →
    ubyte (k_mem s5) pgdir va = ubyte (k_mem s) pgdir va ∧ entry (k_mem s5) pgdir va = entry (k_mem s) pgdir va).
  { intros s5 V. split; [|split].
    - injection V as _ _ ->. rewrite Es. simpl. by rewrite V3.
    - eapply aspace_view; [done|]. by eapply (parent_aspace kend s2 (v :: l)).
    - intros va Hva. injection V as -> _ _. rewrite <-V1. split.
      + by apply (parent_ubyte kend s2 (v :: l) pgdir b A2 s4 l C).
      + apply (parent_entry kend s2 (v :: l) pgdir b A2 s4 l C). unfold is_u32, KERNBASE in *. lia. }
  by apply V4.
Qed.

(** ** The open files and the rest *)
Lemma filedup_ok f env s : k_locks s = [] → 1 ≤ f_ref (get_file s f) →
  ∃ s', filedup f env s = Done f s' env ∧ mview s' = mview s ∧ ∀ g, f_ref (get_file s g) ≤ f_ref (get_file s' g).
Proof.
  intros Hl Hr. unfold filedup. step acquire_ok by (rewrite Hl; apply not_elem_of_nil). rewrite bind_gets.
  change (get_file (s <| k_locks ::= cons LkFtable |>) f) with (get_file s f). rewrite (proj2 (Z.ltb_ge _ _)) by lia.
  unfold upd_file. rewrite bind_modify. step (release_ok LkFtable []) by (simpl; by rewrite Hl).
  eexists. split; [done|]. split; [unfold mview; simpl; by rewrite Hl|]. intros g. unfold get_file. simpl.
  destruct (decide (f < length (k_ftable s))%nat) as [Hf|Hf].
  - rewrite alter_total by done. case_decide; [subst; simpl; lia|done].
  - exfalso. unfold get_file in Hr. rewrite list_lookup_total_alt, lookup_ge_None_2 in Hr by lia. vm_compute in Hr. done.
Qed.

Lemma dup_loop_ok cur np ix env : ∀ s, k_locks s = [] →
  (∀ i f, i ∈ ix → p_ofile cur !!! i = Some f → 1 ≤ f_ref (get_file s f)) →
  ∃ s', foreach (dup_body cur np) ix env s = Done tt s' env ∧ mview s' = mview s.
Proof.
  induction ix as [|i ix IH]; intros s Hl Hf; cbn [foreach]; [by exists s|].
  unfold dup_body at 1. destruct (p_ofile cur !!! i) as [f|] eqn:Ei.
  - destruct (filedup_ok f env s Hl) as (s1 & E1 & V1 & R1); [apply (Hf i f); [left|done]|].
    rewrite bind_assoc. run E1. unfold upd_proc. rewrite bind_modify.
    destruct (IH (s1 <| k_procs ::= alter (λ q, q <| p_ofile ::= <[i := Some f]> |>) np |>)) as (s2 & E2 & V2).
    + simpl. injection V1 as _ _ ->. done.
    + intros j g Hj Hg. change (1 ≤ f_ref (get_file s1 g)). etrans; [|apply R1]. apply (Hf j g); [by right|done].
    + exists s2. split; [exact E2|]. rewrite V2. exact V1.
  - rewrite bind_ret. apply IH; [done|]. intros j g Hj. apply Hf. by right.
Qed.

Lemma idup_ok i env s : k_locks s = [] → ∃ s', idup i env s = Done i s' env ∧ mview s' = mview s ∧ k_procs s' = k_procs s.
Proof.
  intros Hl. unfold idup. step acquire_ok by (rewrite Hl; apply not_elem_of_nil). unfold upd_inode. rewrite bind_modify.
  step (release_ok LkIcache []) by (simpl; by rewrite Hl). eexists. split; [done|]. split; [unfold mview; simpl; by rewrite Hl|done].
Qed.

(** ** fork *)

(** The steps of [fork] after [copyuvm]. *)
Lemma fork_rest_ok np par cwd env s : k_locks s = [] → (np < length (k_procs s))%nat → p_cwd par = Some cwd →
  (∀ i f, (i < NOFILE)%nat → p_ofile par !!! i = Some f → 1 ≤ f_ref (get_file s f)) →
  ∃ pid s', (foreach (dup_body par np) (seq 0 NOFILE) ;;
       cwd <- deref (p_cwd par) ;;
       cwd <- idup cwd ;;
       upd_proc np (λ q, q <| p_cwd := Some cwd |> <| p_name := safestrcpy_bytes (p_name q) (p_name par) 16 |>) ;;
       pid <- gets (λ s, p_pid (get_proc s np)) ;;
       acquire LkPtable ;;
       upd_proc np (λ q, q <| p_state := RUNNABLE |>) ;;
       release LkPtable ;;
       ret pid) env s = Done pid s' env ∧ mview s' = mview s ∧
    p_pgdir (get_proc s' np) = p_pgdir (get_proc s np) ∧ p_state (get_proc s' np) = RUNNABLE.
Proof.
  intros Hl Hnp Hcwd Hf.
  destruct (dup_loop_ok par np (seq 0 NOFILE) env s Hl) as (s1 & E1 & V1); [intros i f Hi; apply Hf; apply elem_of_seq in Hi; lia|].
  destruct (dup_loop_inv par np _ _ _ _ _ _ E1) as (_ & Pv & _). apply pview_procs in Pv. simpl in Pv.
  assert (L1 : k_locks s1 = []) by (injection V1 as _ _ ->; done).
  run E1. rewrite Hcwd. cbn [deref]. rewrite bind_ret. destruct (idup_ok cwd env s1 L1) as (s2 & E2 & V2 & P2). run E2.
  assert (L2 : k_locks s2 = []) by (injection V2 as _ _ ->; done).
  unfold upd_proc. rewrite bind_modify, bind_gets. step acquire_ok by (simpl; rewrite L2; apply not_elem_of_nil). rewrite bind_modify.
  step (release_ok LkPtable []) by (simpl; by rewrite L2). eexists _, _. split; [done|]. split; [|split].
  - rewrite <-V1, <-V2. unfold mview. simpl. by rewrite L2.
  - unfold get_proc. simpl. rewrite P2, Pv, !list_alter_alter_eq, alter_total, decide_True by done. done.
  - unfold get_proc. simpl. rewrite P2, Pv, !list_alter_alter_eq, alter_total, decide_True by done. done.
Qed.

(** [fork] runs to its end. *)
Lemma fork_runs cp np cwd env s l (par := get_proc s cp) (b := PGROUNDUP (p_sz par)) :
  k_cpu_proc s = Some cp → p_state par ≠ UNUSED → first_state UNUSED (k_procs s) 0 = Some np → k_locks s = [] →
  p_cwd par = Some cwd → (∀ i f, (i < NOFILE)%nat → p_ofile par !!! i = Some f → 1 ≤ f_ref (get_file s f)) →
  0 ≤ p_sz par ≤ KERNBASE → aspace kend s (p_pgdir par) l b →
  (∀ va, 0 ≤ va < p_sz par → has (entry (k_mem s) (p_pgdir par) va) PTE_P = true) →
  67 * PGSIZE + 2 * b ≤ PGSIZE * Z.of_nat (length l) →
  ∃ pid s' l', fork kend kdata forkret_pc trapret_pc env s = Done pid s' env ∧ k_locks s' = [] ∧
    p_state (get_proc s' np) = RUNNABLE ∧ (np < length (k_procs s))%nat ∧
    aspace kend s' (p_pgdir (get_proc s' np)) l' b ∧ aspace kend s' (p_pgdir par) l' b ∧
    private_copy (k_mem s) (k_mem s') (p_pgdir par) (p_pgdir (get_proc s' np)) b.
Proof.
  intros Hcp Hst Hfs Hl Hcwd Hfd Hsz A Hall Hlen. pose proof (first_state_lt _ _ _ Hfs) as [Hnp Hun].
  assert (P4 : PGSIZE = 4096) by done. assert (K4 : KERNBASE = 2147483648) by done.
  destruct (PGROUNDUP_spec (p_sz par)) as [_ Hb]; [lia|lia|]. fold b in Hb.
  destruct l as [|v l]; [simpl in Hlen; unfold PGSIZE in Hlen; lia|].
  destruct (allocproc_ok np env s (p_pgdir par) v l b Hl Hfs ltac:(lia) A) as (s1 & E1 & L1 & A1 & U1).
  destruct (allocproc_inv _ _ _ _ _ _ _ E1) as [_ I1]. rewrite Hfs in I1. destruct I1 as (ks & _ & P1).
  assert (Hne : np ≠ cp) by (intros ->; by apply Hst).
  assert (Hc1 : get_proc s1 cp = par) by (unfold get_proc; rewrite (pview_procs _ _ P1); simpl; by rewrite list_lookup_total_alter_ne).
  destruct (copyuvm_child kend kdata Hdata Hlink (p_pgdir par) (p_sz par) env s1 l Hsz A1) as (d & s2 & l2 & E2 & Hd & C2 & A2 & Hc & Hbk & _).
  { intros va Hva. rewrite (proj2 (U1 va ltac:(lia))). by apply Hall. }
  { fold b. simpl in Hlen. unfold PGSIZE in *. lia. }
  fold b in A2, Hc, Hbk. pose proof (sn_state _ _ _ _ _ C2) as S2.
  assert (Hc2 : ∀ f, get_proc (s2 <| k_procs ::= alter f np |>) cp = par).
  { intros f. unfold get_proc. simpl. rewrite list_lookup_total_alter_ne by done. by rewrite S2. }
  set (s3 := s2 <| k_procs ::= alter (λ q, q <| p_pgdir := d |>) np |> <| k_procs ::= alter (λ q, q <| p_sz := p_sz par |>
    <| p_parent := Some cp |> <| p_tf := (p_tf par) <| tf_eax := 0 |> |>) np |>).
  assert (N3 : (np < length (k_procs s3))%nat).
  { unfold s3. simpl. rewrite !length_alter, S2. simpl. rewrite (pview_procs _ _ P1). simpl. by rewrite length_alter. }
  assert (D3 : p_pgdir (get_proc s3 np) = d).
  { unfold s3, get_proc in *. simpl in *. rewrite !length_alter in N3. rewrite list_alter_alter_eq, alter_total, decide_True by done. done. }
  assert (V3 : mview s3 = mview s2) by done.
  destruct (fork_rest_ok np par cwd env s3) as (pid & s' & E & V & D & R).
  - change (k_locks s2 = []). by rewrite S2.
  - done.
  - done.
  - intros i f Hi Hf. change (1 ≤ f_ref (get_file s2 f)). rewrite S2. change (1 ≤ f_ref (get_file s1 f)).
    unfold get_file. rewrite (pview_ftable _ _ P1). by apply (Hfd i f).
  - exists pid, s', l2. rewrite D3 in D. rewrite D. rewrite V3 in V. split; [|split; [|split; [done|split; [done|split; [|split]]]]].
    + unfold fork. step curproc_ok by done. run E1. rewrite bind_gets, Hc1. run E2. unfold upd_proc. rewrite bind_modify.
      rewrite (proj2 (Z.eqb_neq d 0)), bind_gets, Hc2, bind_modify by done. exact E.
    + injection V as _ _ ->. by rewrite S2.
    + by eapply aspace_view.
    + eapply aspace_view; [done|]. eapply (parent_aspace kend s1 l); [done|done|lia].
    + replace (k_mem s') with (k_mem s2) by (injection V as -> _ _; done).
      destruct (copied_private kend s1 l s2 l2 (p_pgdir par) d b A1 C2 A2 Hc Hbk) as [B1 B2]. split; [|done].
      intros va Hva. destruct (B1 va Hva) as [-> ->]. by split; apply U1.
Qed.

(** C3. [fork] end to end.  A process that has an address space in order, open
    files and a directory, and that finds a free entry and enough free pages
    (67 for the stack, the page directory and the kernel's tables, and two for
    each page of its memory), forks: the call returns the next pid, the child
    in the free entry is runnable with the parent's registers but for a zero
    result, its size, files and directory, and a page directory with a private
    copy of the parent's memory; the parent keeps its memory, both address
    spaces are in order, and no lock stays held. *)
Theorem fork_copies cp np cwd env s l (par := get_proc s cp) (b := PGROUNDUP (p_sz par)) :
  k_cpu_proc s = Some cp → p_state par ≠ UNUSED → first_state UNUSED (k_procs s) 0 = Some np → k_locks s = [] →
  p_cwd par = Some cwd → (∀ i f, (i < NOFILE)%nat → p_ofile par !!! i = Some f → 1 ≤ f_ref (get_file s f)) →
  0 ≤ p_sz par ≤ KERNBASE → aspace kend s (p_pgdir par) l b →
  (∀ va, 0 ≤ va < p_sz par → has (entry (k_mem s) (p_pgdir par) va) PTE_P = true) →
  67 * PGSIZE + 2 * b ≤ PGSIZE * Z.of_nat (length l) →
  ∃ s' l' (child := get_proc s' np), fork kend kdata forkret_pc trapret_pc env s = Done (k_nextpid s) s' env ∧ k_locks s' = [] ∧
    child_of forkret_pc cp par (get_proc s np) (k_nextpid s) child ∧
    aspace kend s' (p_pgdir child) l' b ∧ aspace kend s' (p_pgdir par) l' b ∧
    private_copy (k_mem s) (k_mem s') (p_pgdir par) (p_pgdir child) b.
Proof.
  intros Hcp Hst Hfs Hl Hcwd Hfd Hsz A Hall Hlen.
  destruct (fork_runs cp np cwd env s l Hcp Hst Hfs Hl Hcwd Hfd Hsz A Hall Hlen) as (pid & s' & l' & E & L & R & Hnp & M).
  destruct (fork_inv _ _ _ _ _ _ _ _ _ _ Hcp Hst E) as [_ I]. rewrite Hfs in I. fold par in I.
  destruct I as [(_ & q & Hq & _ & P)|(-> & ks & pg & c & Hks & Hpg & _ & _ & P)]; apply pview_procs in P; simpl in P.
  - exfalso. unfold get_proc in R. rewrite P, list_lookup_total_insert_eq, Hq in R by done. done.
  - exists s', l'. split; [done|]. split; [done|]. split; [|done].
    unfold get_proc at 2. rewrite P, alter_total, decide_True by done. by apply child_entry_ok.
Qed.
End fork_memory.

(** A process with a page of memory, and a free entry. *)
Definition forker : proc := proc_zero <| p_state := RUNNING |> <| p_pid := 1 |> <| p_sz := 4096 |> <| p_pgdir := blank_dir |> <| p_cwd := Some 0%nat |>.

Lemma fork_copies_witness : ∃ s s' (child := get_proc s' 1), fork KERNBASE (KERNBASE + 1052672) 0 0 [] s = Done 2 s' [] ∧
  p_state child = RUNNABLE ∧ p_sz child = 4096 ∧ ubyte (k_mem s') (p_pgdir child) 7 = Some 0.
Proof.
  destruct one_page_process as (s0 & l & A0 & X & Hl).
  set (s := s0 <| k_locks := [] |> <| k_cpu_proc := Some 0%nat |> <| k_procs := [forker; proc_zero] |> <| k_nextpid := 2 |>).
  assert (A : aspace KERNBASE s blank_dir l 4096).
  { destruct A0 as [_ [F1 F2 F3] A3 A4 A5 A6]. split; [apply not_elem_of_nil|by split|exact A3|exact A4|exact A5|exact A6]. }
  destruct (fork_copies KERNBASE (KERNBASE + 1052672) 0 0 eq_refl ltac:(unfold KERNLINK, KERNBASE, EXTMEM, PHYSTOP; lia) 0 1 0 [] s l)
    as (s' & l' & E & _ & C & _ & _ & [B _]).
  - reflexivity.
  - discriminate.
  - reflexivity.
  - reflexivity.
  - reflexivity.
  - intros i f Hi Hf. exfalso. change (replicate NOFILE None !!! i = Some f) in Hf. rewrite lookup_total_replicate_2 in Hf by exact Hi. discriminate.
  - change (p_sz (get_proc s 0)) with 4096. unfold KERNBASE. lia.
  - exact A.
  - intros va Hva. specialize (X va Hva). unfold ubyte in X. change (k_mem s) with (k_mem s0). change (p_pgdir (get_proc s 0)) with blank_dir.
    by destruct (has (entry (k_mem s0) blank_dir va) PTE_P).
  - change (PGROUNDUP (p_sz (get_proc s 0))) with 4096. unfold PGSIZE. lia.
  - exists s, s'. split; [exact E|]. split; [apply C|]. split; [exact (ch_sz _ _ _ _ _ _ C)|].
    destruct (B 7 ltac:(unfold KERNBASE; lia)) as [B1 _]. etransitivity; [exact B1|]. apply X. lia.
Defined.
