(* ===== verification/Ring.v ===== *)
(** * Ring buffers

    pipe.c and console.c keep bytes in an array that counters index modulo its
    size while the counters themselves wrap modulo 2^32.  [ring data start n]
    is the [n] bytes from the counter value [start] on.  The lemmas are what
    the two components need: the counters' wrap is harmless because the size
    divides 2^32, and storing at the end extends the ring. *)
From S2P Require Import Prelude.

Section ring.
Context (N : Z) (HN : 0 < N) (Hdiv : (N | 4294967296)).

Definition ring (data : list Z) (start : Z) (n : nat) : list Z :=
  (λ i, data !!! Z.to_nat ((start + Z.of_nat i) `mod` N)) <$> seq 0 n.

Lemma length_ring data start n : length (ring data start n) = n.
Proof. unfold ring. by rewrite length_fmap, length_seq. Qed.

Lemma u32_mod_ring z : u32 z `mod` N = z `mod` N.
Proof. unfold u32. symmetry. by apply Znumtheory.Zmod_div_mod. Qed.

Lemma ring_u32 data start n : ring data (u32 start) n = ring data start n.
Proof.
  unfold ring. apply list_fmap_ext. intros k i _. simpl.
  rewrite Zplus_mod, u32_mod_ring, <-Zplus_mod. done.
Qed.

Lemma ring_S data start n :
  ring data start (S n) = data !!! Z.to_nat (start `mod` N) :: ring data (start + 1) n.
Proof.
  unfold ring. cbn [seq fmap list_fmap]. f_equal; [by rewrite Z.add_0_r|].
  rewrite <-fmap_S_seq, <-list_fmap_compose. apply list_fmap_ext. intros k i _. simpl. do 3 f_equal. lia.
Qed.

Lemma ring_app data start n m :
  ring data start (n + m) = ring data start n ++ ring data (start + Z.of_nat n) m.
Proof.
  revert start. induction n as [|n IH]; intros start; [simpl; by rewrite Z.add_0_r|].
  change (S n + m)%nat with (S (n + m)). rewrite !ring_S, IH. cbn [app]. do 3 f_equal. lia.
Qed.

(** A store outside the ring. *)
Lemma ring_insert_ne data start n j c : Z.of_nat n ≤ j → j < N →
  ring (<[Z.to_nat ((start + j) `mod` N) := c]> data) start n = ring data start n.
Proof.
  intros Hn Hj. unfold ring. apply list_fmap_ext. intros k i [-> Hi]%lookup_seq. simpl.
  rewrite list_lookup_total_insert_ne; [done|].
  pose proof (Z.mod_pos_bound (start + j) N HN). pose proof (Z.mod_pos_bound (start + Z.of_nat k) N HN).
  intros E. apply Z2Nat.inj in E; [|lia..]. assert (E' : (j - Z.of_nat k) `mod` N = 0).
  { replace (j - Z.of_nat k) with ((start + j) - (start + Z.of_nat k)) by lia. by rewrite Zminus_mod, E, Z.sub_diag. }
  rewrite Z.mod_small in E'; lia.
Qed.

(** A store at its end. *)
Lemma ring_snoc data start n c : length data = Z.to_nat N → Z.of_nat n < N →
  ring (<[Z.to_nat ((start + Z.of_nat n) `mod` N) := c]> data) start (S n) = ring data start n ++ [c].
Proof.
  intros Hl Hn. replace (S n) with (n + 1)%nat by lia. rewrite ring_app, ring_insert_ne by lia. f_equal.
  rewrite ring_S. cbn. f_equal. apply list_lookup_total_insert_eq. rewrite Hl.
  pose proof (Z.mod_pos_bound (start + Z.of_nat n) N HN). lia.
Qed.
End ring.
