(* ===== verification/Pipes.v ===== *)
(** * Pipes: theorems (pipe.c)

    A pipe promises a queue of bytes.  [contents] is the queue a [struct pipe]
    stands for: the bytes between its two counters, which count modulo 2^32
    and index the buffer modulo [PIPESIZE].  The results: the operations on
    the buffer are the operations of a queue of at most [PIPESIZE] bytes;
    what is written is read, across any wrap of the counters; and with readers
    and writers interleaving at every wait, no byte is lost, duplicated or
    reordered. *)
From S2P Require Import Prelude State Ring Sync Dll Bio Cache Log CString Print Kalloc Fs Vm File Frame Fork.

(** ** The queue in the buffer *)
Definition pcount (pi : pipe) : Z := u32 (pi_nwrite pi - pi_nread pi).
Definition contents (pi : pipe) : list Z := ring PIPESIZE (pi_data pi) (pi_nread pi) (Z.to_nat (pcount pi)).

Record pipe_wf (pi : pipe) : Prop := {
  pw_data : length (pi_data pi) = 512%nat;
  pw_nread : is_u32 (pi_nread pi);
  pw_nwrite : is_u32 (pi_nwrite pi);
  pw_count : pcount pi ≤ PIPESIZE }.

Definition put_byte (c : Z) (pi : pipe) : pipe :=
  pi <| pi_data ::= <[Z.to_nat (pi_nwrite pi `mod` PIPESIZE) := c]> |> <| pi_nwrite := u32 (pi_nwrite pi + 1) |>.
Definition get_byte (pi : pipe) : pipe := pi <| pi_nread := u32 (pi_nread pi + 1) |>.

Lemma length_contents pi : length (contents pi) = Z.to_nat (pcount pi).
Proof. apply length_ring. Qed.

Lemma pcount_range pi : 0 ≤ pcount pi < 4294967296.
Proof. apply u32_range. Qed.

Lemma pipesize_pos : 0 < PIPESIZE.
Proof. done. Qed.
Lemma pipesize_div : (PIPESIZE | 4294967296).
Proof. by exists 8388608. Qed.

(** The write index is the end of the ring. *)
Lemma nwrite_slot pi : pi_nwrite pi `mod` PIPESIZE = (pi_nread pi + Z.of_nat (Z.to_nat (pcount pi))) `mod` PIPESIZE.
Proof.
  pose proof (pcount_range pi). rewrite Z2Nat.id by lia. unfold pcount.
  rewrite Zplus_mod, (u32_mod_ring _ pipesize_pos pipesize_div), <-Zplus_mod. f_equal. lia.
Qed.

Lemma pcount_put c pi : pcount pi < PIPESIZE → pcount (put_byte c pi) = pcount pi + 1.
Proof.
  intros H. pose proof (pcount_range pi) as Hr. unfold pcount, put_byte, u32 in *. simpl. change PIPESIZE with 512 in H.
  rewrite Zminus_mod_idemp_l. replace (pi_nwrite pi + 1 - pi_nread pi) with (pi_nwrite pi - pi_nread pi + 1) by lia.
  rewrite <-Zplus_mod_idemp_l. rewrite Z.mod_small; lia.
Qed.

Lemma pcount_get pi : 0 < pcount pi → pcount (get_byte pi) = pcount pi - 1.
Proof.
  intros H. pose proof (pcount_range pi) as Hr. unfold pcount, get_byte, u32 in *. simpl.
  rewrite Zminus_mod_idemp_r. replace (pi_nwrite pi - (pi_nread pi + 1)) with (pi_nwrite pi - pi_nread pi - 1) by lia.
  rewrite <-Zminus_mod_idemp_l. rewrite Z.mod_small; lia.
Qed.

Lemma put_byte_spec c pi : pipe_wf pi → pcount pi < PIPESIZE →
  pipe_wf (put_byte c pi) ∧ contents (put_byte c pi) = contents pi ++ [c].
Proof.
  intros [Hd Hr Hw Hc] Hlt. pose proof (pcount_range pi) as Hpr. split.
  - split; simpl; [by rewrite length_insert|done|apply u32_range|]. rewrite pcount_put by done. lia.
  - unfold contents. rewrite pcount_put by done.
    replace (Z.to_nat (pcount pi + 1)) with (S (Z.to_nat (pcount pi))) by lia. simpl. rewrite nwrite_slot.
    apply ring_snoc; [done..|lia].
Qed.

Lemma get_byte_spec pi : pipe_wf pi → 0 < pcount pi →
  pipe_wf (get_byte pi) ∧ contents pi = pi_data pi !!! Z.to_nat (pi_nread pi `mod` PIPESIZE) :: contents (get_byte pi).
Proof.
  intros [Hd Hr Hw Hc] Hlt. split.
  - split; simpl; [done|apply u32_range|done|]. rewrite pcount_get by done. lia.
  - unfold contents. rewrite pcount_get by done.
    replace (Z.to_nat (pcount pi)) with (S (Z.to_nat (pcount pi - 1))) by lia. rewrite ring_S. f_equal.
    unfold get_byte. simpl. by rewrite (ring_u32 _ pipesize_pos pipesize_div).
Qed.

(** The tests of pipe.c. *)
Lemma pipe_full pi : pipe_wf pi → (pi_nwrite pi =? u32 (pi_nread pi + PIPESIZE)) = bool_decide (pcount pi = PIPESIZE).
Proof.
  intros [Hd Hr Hw Hc]. unfold pcount, u32, is_u32 in *. change PIPESIZE with 512 in *.
  apply eq_true_iff_eq. rewrite Z.eqb_eq, bool_decide_eq_true. split.
  - intros ->. rewrite Zminus_mod_idemp_l. by replace (pi_nread pi + 512 - pi_nread pi) with 512 by lia.
  - intros E. replace (pi_nwrite pi) with ((pi_nread pi + (pi_nwrite pi - pi_nread pi)) `mod` 4294967296) at 1.
    + by rewrite <-Zplus_mod_idemp_r, E.
    + replace (pi_nread pi + (pi_nwrite pi - pi_nread pi)) with (pi_nwrite pi) by lia. by apply Z.mod_small.
Qed.
Lemma pipe_empty pi : pipe_wf pi → (pi_nread pi =? pi_nwrite pi) = bool_decide (pcount pi = 0).
Proof.
  intros [Hd Hr Hw Hc]. unfold pcount, u32, is_u32 in *.
  apply eq_true_iff_eq. rewrite Z.eqb_eq, bool_decide_eq_true. split.
  - intros ->. by rewrite Z.sub_diag.
  - intros E. apply Z.mod_divide in E as [k E]; lia.
Qed.

Lemma contents_nil pi : pcount pi = 0 → contents pi = [].
Proof. intros E. apply nil_length_inv. by rewrite length_contents, E. Qed.

(** ** The operations on the pipe at an address *)
Lemma wf_present s p : pipe_wf (get_pipe s p) → k_pipes s !! p = Some (get_pipe s p).
Proof. unfold get_pipe. destruct (k_pipes s !! p); [done|]. by intros [? _ _ _]. Qed.

Lemma get_pipe_alter s p g : pipe_wf (get_pipe s p) → get_pipe (s <| k_pipes ::= alter g p |>) p = g (get_pipe s p).
Proof. intros Hw. unfold get_pipe at 1. simpl. rewrite lookup_alter_eq, (wf_present s p Hw). done. Qed.

Lemma pipe_put_ok p c env s : pipe_put p c env s = Done tt (s <| k_pipes ::= alter (put_byte c) p |>) env.
Proof. done. Qed.

Lemma pipe_get_ok n p env s : pipe_wf (get_pipe s p) →
  ∃ g, pipe_get n p env s = Done (take n (contents (get_pipe s p))) (s <| k_pipes ::= alter g p |>) env ∧
    pipe_wf (g (get_pipe s p)) ∧ contents (g (get_pipe s p)) = drop n (contents (get_pipe s p)) ∧
    pi_writeopen (g (get_pipe s p)) = pi_writeopen (get_pipe s p).
Proof.
  revert s. induction n as [|n IH]; intros s Hw.
  { exists id. split; [|done]. simpl. unfold ret. f_equal. kext. by rewrite alter_id by done. }
  cbn [pipe_get]. rewrite bind_gets, pipe_empty by done.
  destruct (decide (pcount (get_pipe s p) = 0)) as [E|E].
  - rewrite bool_decide_eq_true_2 by done. exists (λ x, x). rewrite !contents_nil, take_nil, drop_nil by done.
    split; [|done]. unfold ret. f_equal. kext. by rewrite alter_id by done.
  - rewrite bool_decide_eq_false_2 by done. unfold upd_pipe. rewrite bind_modify.
    pose proof (pcount_range (get_pipe s p)). destruct (get_byte_spec _ Hw ltac:(lia)) as [Hw' Hc].
    set (s1 := s <| k_pipes ::= _ |>). assert (Hg : get_pipe s1 p = get_byte (get_pipe s p)) by (by apply get_pipe_alter).
    destruct (IH s1) as (g & Eg & Hg1 & Hg2 & Hg3); [by rewrite Hg|]. rewrite Hg in *.
    exists (g ∘ get_byte). rewrite (bind_done _ _ _ _ _ _ _ Eg). unfold compose. split; [|split; [done|split]].
    + unfold ret. rewrite Hc. f_equal.
      unfold s1. kext. by rewrite alter_alter_eq.
    + rewrite Hg2, Hc. done.
    + rewrite Hg3. done.
Qed.

(** ** Without contention *)
Lemma pipe_room_ok p env s :
  pipe_wf (get_pipe s p) → pcount (get_pipe s p) < PIPESIZE → pipe_room p env s = Done true s env.
Proof.
  intros Hw Hc. unfold pipe_room. apply sleep_loop_exit. rewrite bind_gets, pipe_full by done.
  by rewrite bool_decide_eq_false_2 by lia.
Qed.

Lemma pipe_data_ok p env s :
  pipe_wf (get_pipe s p) → contents (get_pipe s p) ≠ [] → pipe_data p env s = Done true s env.
Proof.
  intros Hw Hc. unfold pipe_data. apply sleep_loop_exit. rewrite bind_gets, pipe_empty by done.
  rewrite bool_decide_eq_false_2; [done|]. intros E. by apply Hc, contents_nil.
Qed.

(** Bytes put one after the other. *)
Definition put_bytes (l : list Z) (pi : pipe) : pipe := foldl (λ pi c, put_byte c pi) pi l.
Lemma put_bytes_spec l pi : pipe_wf pi → pcount pi + Z.of_nat (length l) ≤ PIPESIZE →
  pipe_wf (put_bytes l pi) ∧ contents (put_bytes l pi) = contents pi ++ l.
Proof.
  unfold put_bytes. revert pi. induction l as [|c l IH]; intros pi Hw Hc; [by rewrite app_nil_r|]. simpl in *.
  destruct (put_byte_spec c pi Hw ltac:(lia)) as [Hw1 Hc1].
  destruct (IH (put_byte c pi) Hw1) as [Hw2 ->]; [rewrite pcount_put; lia|]. by rewrite Hc1, <-app_assoc.
Qed.

Lemma pipewrite_ok p l n env s :
  k_locks s = [] → pipe_wf (get_pipe s p) → 0 ≤ n → length l = Z.to_nat n → pcount (get_pipe s p) + n ≤ PIPESIZE →
  pipewrite p l n env s =
    Done n (s <| k_pipes ::= alter (put_bytes l) p |> <| k_procs ::= fmap (wake1 (ChNread p)) |>) env.
Proof.
  intros Hl Hw Hn Hlen Hc. unfold pipewrite. step acquire_ok by (rewrite Hl; apply not_elem_of_nil).
  rewrite take_ge by lia. set (s1 := s <| k_locks ::= _ |>).
  assert (H : ∀ l s1, k_locks s1 = [LkPipe p] → pipe_wf (get_pipe s1 p) →
    pcount (get_pipe s1 p) + Z.of_nat (length l) ≤ PIPESIZE →
    pipewrite_from p l n env s1 = Done n (s1 <| k_locks := [] |> <| k_pipes ::= alter (put_bytes l) p |>
      <| k_procs ::= fmap (wake1 (ChNread p)) |>) env).
  { clear. induction l as [|c l IH]; intros s Hl Hw Hc; cbn [pipewrite_from].
    - step wakeup_ok by (rewrite Hl; set_solver). step release_ok. unfold ret. f_equal. kext.
      by rewrite alter_id.
    - simpl in Hc. step pipe_room_ok by (done || lia). cbv iota. run (pipe_put_ok p c env s).
      rewrite IH; [|done|rewrite get_pipe_alter by done; apply put_byte_spec; [done|lia]|
        rewrite get_pipe_alter, pcount_put by (done || lia); lia].
      f_equal. kext. by rewrite alter_alter_eq. }
  rewrite (H l s1); [|unfold s1; simpl; by rewrite Hl|done|unfold s1; change (get_pipe _ p) with (get_pipe s p); lia].
  f_equal. unfold s1. kext. by rewrite Hl.
Qed.

Lemma piperead_ok p n env s :
  k_locks s = [] → pipe_wf (get_pipe s p) → contents (get_pipe s p) ≠ [] →
  let l := take (Z.to_nat n) (contents (get_pipe s p)) in
  ∃ g, piperead p n env s = Done (Z.of_nat (length l), l)
        (s <| k_pipes ::= alter g p |> <| k_procs ::= fmap (wake1 (ChNwrite p)) |>) env ∧
    pipe_wf (g (get_pipe s p)) ∧ contents (g (get_pipe s p)) = drop (Z.to_nat n) (contents (get_pipe s p)).
Proof.
  intros Hl Hw Hc l. unfold piperead. step acquire_ok by (rewrite Hl; apply not_elem_of_nil).
  set (s1 := s <| k_locks ::= _ |>). change (get_pipe s p) with (get_pipe s1 p) in *.
  step pipe_data_ok by done. cbn [negb].
  destruct (pipe_get_ok (Z.to_nat n) p env s1 Hw) as (g & E & Hg1 & Hg2 & _).
  exists g. split; [|done]. run E. step wakeup_ok by (unfold s1; simpl; rewrite Hl; set_solver).
  step release_ok. unfold ret, l, s1. kdone.
Qed.

(** C17. What is written to a pipe is what is read from it.  On a pipe holding
    [q], [pipewrite] of [l] (when it fits) returns its length at once, and
    [piperead] of [m] bytes then returns the first [m] bytes of [q ++ l] and
    leaves the rest: for every position of the two counters, including those
    where they wrap around 2^32 or the buffer's end. *)
Theorem pipe_roundtrip p l m env s :
  k_locks s = [] → pipe_wf (get_pipe s p) → 0 ≤ m →
  let q := contents (get_pipe s p) in
  Z.of_nat (length q) + Z.of_nat (length l) ≤ PIPESIZE → q ++ l ≠ [] →
  ∃ s1 s2, pipewrite p l (Z.of_nat (length l)) env s = Done (Z.of_nat (length l)) s1 env ∧
    piperead p m env s1 = Done (Z.min m (Z.of_nat (length (q ++ l))), take (Z.to_nat m) (q ++ l)) s2 env ∧
    pipe_wf (get_pipe s2 p) ∧ contents (get_pipe s2 p) = drop (Z.to_nat m) (q ++ l).
Proof.
  intros Hl Hw Hm q Hc Hne.
  assert (Hq : pcount (get_pipe s p) = Z.of_nat (length q)).
  { unfold q. rewrite length_contents. pose proof (pcount_range (get_pipe s p)). lia. }
  destruct (put_bytes_spec l _ Hw ltac:(lia)) as [Hw1 Hc1].
  set (s1 := s <| k_pipes ::= alter (put_bytes l) p |> <| k_procs ::= fmap (wake1 (ChNread p)) |>). exists s1.
  assert (Hg : get_pipe s1 p = put_bytes l (get_pipe s p)) by (by apply get_pipe_alter).
  destruct (piperead_ok p m env s1) as (g & E & Hg1 & Hg2); [done|by rewrite Hg|by rewrite Hg, Hc1|].
  rewrite Hg, Hc1 in E, Hg2. rewrite Hg in Hg1. fold q in E, Hg2.
  exists (s1 <| k_pipes ::= alter g p |> <| k_procs ::= fmap (wake1 (ChNwrite p)) |>).
  assert (Hs2 : get_pipe (s1 <| k_pipes ::= alter g p |> <| k_procs ::= fmap (wake1 (ChNwrite p)) |>) p = g (put_bytes l (get_pipe s p))).
  { rewrite <-Hg. apply (get_pipe_alter s1). by rewrite Hg. }
  rewrite Hs2. split; [apply pipewrite_ok; (done || lia)|]. split; [|done]. rewrite E, length_take. do 2 f_equal. lia.
Qed.

(** An empty pipe one byte before the counters wrap. *)
Definition wrapping : kstate :=
  user_boot <| k_pipes := {[ 4096 := Pipe (replicate 512 0) 4294967295 4294967295 true true ]} |>.
Lemma wrapping_wf : pipe_wf (get_pipe wrapping 4096).
Proof. split; vm_compute; [reflexivity|by split|by split|discriminate]. Qed.

Lemma pipe_roundtrip_witness :
  ∃ s1 s2, pipewrite 4096 [7; 8; 9] 3 [] wrapping = Done 3 s1 [] ∧
    piperead 4096 2 [] s1 = Done (2, [7; 8]) s2 [] ∧ contents (get_pipe s2 4096) = [9].
Proof.
  destruct (pipe_roundtrip 4096 [7; 8; 9] 2 [] wrapping) as (s1 & s2 & E1 & E2 & _ & E3).
  - reflexivity.
  - exact wrapping_wf.
  - lia.
  - vm_compute. discriminate.
  - discriminate.
  - exists s1, s2. split; [exact E1|]. split; [exact E2|exact E3].
Defined.

(** ** With the other end running at every wait *)

Lemma keeps_pipes {A} (m : KM A) `{!Keeps mem_only m} env s a s' env' :
  m env s = Done a s' env' → k_pipes s' = k_pipes s ∧ env' = env.
Proof. intros E. apply keeps in E as [-> ->]. done. Qed.
Ltac kpipes E := apply keeps_pipes in E; [destruct E as [E ->]|mkp].

Lemma sched_turn env s u s' env' :
  sched env s = Done u s' env' → ∃ f, env = f :: env' ∧ s' = f s.
Proof.
  intros E. unfold sched in E. inv_bind E p s1 e1 E1.
  assert (s1 = s ∧ e1 = env) as [-> ->].
  { unfold curproc, myproc in E1. rewrite bind_gets in E1. destruct (k_cpu_proc s); [|discriminate E1].
    by injection E1 as <- <- <-. }
  rewrite !bind_gets in E. destruct (negb _); [discriminate E|]. destruct (negb _); [discriminate E|].
  destruct (bool_decide _); [discriminate E|]. destruct env as [|f env]; [discriminate E|].
  injection E as <- <- <-. by exists f.
Qed.

Lemma sleep_turn ch lk env s u s' env' :
  sleep ch lk env s = Done u s' env' →
  ∃ f s1, env = f :: env' ∧ k_pipes s1 = k_pipes s ∧ k_pipes s' = k_pipes (f s1).
Proof.
  intros E. unfold sleep, myproc in E. rewrite bind_gets in E. destruct (k_cpu_proc s) as [q|]; [|discriminate E].
  inv_bind E a s1 e1 E1. kpipes E1. unfold upd_proc in E. rewrite bind_modify in E.
  inv_bind E b s2 e2 E2. rewrite bind_modify in E. kpipes E.
  apply sched_turn in E2 as (f & -> & ->). eexists f, _. split; [done|]. split; [|exact E]. exact E1.
Qed.

(** A waiting loop on the pipe whose body does not change it and goes on
    waiting only when [Q] holds of the pipe.  [T f x] says that the turn [f]
    of the other processes does [x] to the pipe, and [R] composes what the
    turns that were used have done. *)
Section turns.
Context {X : Type} (p : Z) (T : (kstate → kstate) → X → Prop) (Q : pipe → Prop) (R : list X → pipe → pipe → Prop).
Context (R_nil : ∀ pi, R [] pi pi).
Context (R_cons : ∀ f x xs s pi, T f x → Q (get_pipe s p) → R xs (get_pipe (f s) p) pi → R (x :: xs) (get_pipe s p) pi).

Lemma get_pipe_pipes s s' : k_pipes s = k_pipes s' → get_pipe s p = get_pipe s' p.
Proof. unfold get_pipe. by intros ->. Qed.

Lemma sleep_loop_turns {A} (body : KM (option A)) ch lk xs env s a s' env' :
  (∀ env s r s' env', body env s = Done r s' env' → k_pipes s' = k_pipes s ∧ env' = env ∧ (r = None → Q (get_pipe s p))) →
  Forall2 T env xs → sleep_loop body ch lk env s = Done a s' env' →
  ∃ used rest, xs = used ++ rest ∧ env' = drop (length used) env ∧ Forall2 T env' rest ∧ R used (get_pipe s p) (get_pipe s' p) ∧
  ∃ s1, k_pipes s1 = k_pipes s' ∧ body env' s1 = Done (Some a) s' env'.
Proof.
  intros Hb. unfold sleep_loop. generalize (S (length env)). intros n. revert env xs s.
  induction n as [|n IH]; intros env xs s He E; [discriminate E|]. cbn [sleep_rounds] in E.
  inv_bind E r s1 e1 E1. pose proof (Hb _ _ _ _ _ E1) as (Hp & -> & HQ). destruct r as [b|].
  - injection E as <- <- <-. exists [], xs. rewrite (get_pipe_pipes s1 s Hp). split_and!; [done..|]. by exists s.
  - inv_bind E u s2 e2 E2. apply sleep_turn in E2 as (f & s3 & -> & H3 & H2).
    apply Forall2_cons_inv_l in He as (x & xs' & Hf & He & ->). apply (IH _ _ _ He) in E as (used & rest & -> & -> & Hr & HR & Hx).
    exists (x :: used), rest. split_and!; [done..| |done].
    rewrite <-(get_pipe_pipes s1 s Hp), (get_pipe_pipes s1 s3 (eq_sym H3)). apply (R_cons f); [done| |].
    + rewrite (get_pipe_pipes s3 s1 H3), (get_pipe_pipes s1 s Hp). by apply HQ.
    + by rewrite <-(get_pipe_pipes s2 (f s3) H2).
Qed.
End turns.

(** A turn in which readers take the first [k] bytes. *)
Definition takes (p : Z) (f : kstate → kstate) (k : nat) : Prop :=
  (k ≤ 512)%nat ∧ ∀ s, pipe_wf (get_pipe s p) → pipe_wf (get_pipe (f s) p) ∧ contents (get_pipe (f s) p) = drop k (contents (get_pipe s p)).
(** A turn in which writers add the bytes [a] where there is room for them. *)
Definition adds (p : Z) (f : kstate → kstate) (a : list Z) : Prop :=
  (length a ≤ 512)%nat ∧ ∀ s, pipe_wf (get_pipe s p) → (length (contents (get_pipe s p)) + length a ≤ 512)%nat →
    pipe_wf (get_pipe (f s) p) ∧ contents (get_pipe (f s) p) = contents (get_pipe s p) ++ a.

Lemma wakeup_pipes ch env s u s' env' : wakeup ch env s = Done u s' env' → k_pipes s' = k_pipes s ∧ env' = env.
Proof.
  intros E. unfold wakeup, wakeup1 in E. inv_bind E a s1 e1 E1. kpipes E1. rewrite bind_modify in E. kpipes E.
  split; [|done]. by rewrite E.
Qed.
Lemma mykilled_pure env s b s' env' : mykilled env s = Done b s' env' → s' = s ∧ env' = env.
Proof.
  unfold mykilled, curproc, myproc. rewrite bind_assoc, bind_gets. destruct (k_cpu_proc s); [|discriminate].
  rewrite bind_ret. by intros [= _ <- <-].
Qed.

(** The running process has been killed. *)
Definition is_killed (s : kstate) : Prop := mykilled [] s = Done true s [].

Lemma mykilled_true env s s' env' : mykilled env s = Done true s' env' → is_killed s.
Proof.
  unfold is_killed, mykilled, curproc, myproc. rewrite !bind_assoc, !bind_gets. destruct (k_cpu_proc s); [|discriminate].
  rewrite !bind_ret. unfold gets. by intros [= -> _ _].
Qed.
Lemma release_killed lk env s u s' env' : release lk env s = Done u s' env' → is_killed s → is_killed s'.
Proof.
  unfold release. rewrite bind_gets. case_decide; [|discriminate]. intros [= _ <- _].
  unfold is_killed, mykilled, curproc, myproc. rewrite !bind_assoc, !bind_gets. simpl. destruct (k_cpu_proc s); [|discriminate].
  rewrite !bind_ret. unfold gets, get_proc. intros [= E]. simpl. by rewrite E.
Qed.

(** ** The writer *)

(** The readers' turns during one wait for room. *)
Definition taken (ks : list nat) (pi pi' : pipe) : Prop :=
  pipe_wf pi → pipe_wf pi' ∧ (sum_list ks ≤ length (contents pi))%nat ∧ contents pi' = drop (sum_list ks) (contents pi).

Lemma taken_nil pi : taken [] pi pi.
Proof. intros Hw. split; [done|]. split; [simpl; lia|done]. Qed.

Lemma taken_cons p f k ks s pi : takes p f k → (pipe_wf (get_pipe s p) → pcount (get_pipe s p) = PIPESIZE) →
  taken ks (get_pipe (f s) p) pi → taken (k :: ks) (get_pipe s p) pi.
Proof.
  intros [Hk Hf] HQ HR Hw. destruct (Hf s Hw) as [Hw1 E1]. destruct (HR Hw1) as (Hw2 & Hl & E2). split; [done|].
  assert (L : length (contents (get_pipe s p)) = 512%nat) by (by rewrite length_contents, HQ).
  rewrite E1, length_drop in Hl. rewrite E2, E1, drop_drop. simpl. split; [lia|done].
Qed.

Lemma pipe_room_inv p ks env s b s' env' :
  Forall2 (takes p) env ks → pipe_wf (get_pipe s p) → pipe_room p env s = Done b s' env' →
  ∃ used rest, ks = used ++ rest ∧ env' = drop (length used) env ∧ Forall2 (takes p) env' rest ∧
    taken used (get_pipe s p) (get_pipe s' p) ∧
    (if b then pcount (get_pipe s' p) < PIPESIZE
     else pcount (get_pipe s' p) = PIPESIZE ∧ (pi_readopen (get_pipe s' p) = false ∨ is_killed s')).
Proof.
  intros He Hw E. unfold pipe_room in E.
  apply (sleep_loop_turns p (takes p) (λ pi, pipe_wf pi → pcount pi = PIPESIZE) taken taken_nil (taken_cons p) _ _ _ ks)
    in E as (used & rest & -> & -> & He' & HR & s1 & Hp & E); [| |done].
  - exists used, rest. split_and!; [done..|]. rewrite bind_gets in E.
    rewrite <-(get_pipe_pipes p s1 s' Hp). destruct (HR Hw) as [Hw' _].
    rewrite <-(get_pipe_pipes p s1 s' Hp) in Hw'. rewrite pipe_full in E by done.
    destruct (decide (pcount (get_pipe s1 p) = PIPESIZE)) as [Ec|Ec].
    + rewrite bool_decide_eq_true_2 in E by done. cbn [negb] in E. inv_bind E k s2 e2 E2. destruct k; [|inv_bind E v s3 e3 E3; discriminate E].
      injection E as <- <- _. split; [done|]. destruct (pi_readopen (get_pipe s1 p)); [|by left]. right.
      pose proof (mykilled_pure _ _ _ _ _ E2) as [-> _]. by apply mykilled_true in E2.
    + rewrite bool_decide_eq_false_2 in E by done. injection E as <- _. pose proof (pw_count _ Hw'). lia.
  - clear. intros env s r s' env' E. rewrite bind_gets in E.
    destruct (negb _) eqn:En; [by injection E as <- <- <-|]. apply negb_false_iff in En.
    inv_bind E k s1 e1 E1.
    assert (s1 = s ∧ e1 = env) as [-> ->]
      by (destruct (negb _); [by injection E1 as <- <- <-|by apply mykilled_pure in E1]).
    destruct k; [by injection E as <- <- <-|]. inv_bind E v s3 e3 E3. apply wakeup_pipes in E3 as [<- ->].
    injection E as <- <- <-. split_and!; [done..|]. intros _ Hw. rewrite pipe_full in En by done. by apply bool_decide_eq_true in En.
Qed.

Lemma pipewrite_from_stream p l n ks env s r s' env' :
  Forall2 (takes p) env ks → pipe_wf (get_pipe s p) → pipewrite_from p l n env s = Done r s' env' →
  pipe_wf (get_pipe s' p) ∧ ∃ used rest m, ks = used ++ rest ∧ env' = drop (length used) env ∧
    (sum_list used ≤ length (contents (get_pipe s p) ++ take m l))%nat ∧
    contents (get_pipe s' p) = drop (sum_list used) (contents (get_pipe s p) ++ take m l) ∧
    (r = n ∧ m = length l ∨ r = -1 ∧ (m < length l)%nat ∧ pcount (get_pipe s' p) = PIPESIZE ∧
       (pi_readopen (get_pipe s' p) = false ∨ is_killed s')).
Proof.
  revert ks env s. induction l as [|c l IH]; intros ks env s He Hw E; cbn [pipewrite_from] in E.
  - inv_bind E a s1 e1 E1. apply wakeup_pipes in E1 as [E1 ->]. inv_bind E b s2 e2 E2. kpipes E2.
    injection E as <- <- <-. rewrite (get_pipe_pipes p s2 s) by (by rewrite E2). split; [done|].
    exists [], ks, 0%nat. split_and!; [done|done|simpl; lia|by rewrite app_nil_r|by left].
  - inv_bind E ok s1 e1 E1. apply (pipe_room_inv p ks) in E1 as (used & rest & -> & -> & He1 & HR & Hc); [|done|done].
    destruct (HR Hw) as (Hw1 & Hl1 & Ek). destruct ok.
    + rewrite (bind_done _ _ _ _ _ _ _ (pipe_put_ok p c _ s1)) in E.
      destruct (put_byte_spec c _ Hw1 Hc) as [Hw2 E2].
      apply (IH rest) in E as (Hw' & used2 & rest2 & m & -> & -> & Hl & E & Hr); [|done|by rewrite get_pipe_alter by done].
      rewrite get_pipe_alter, E2, Ek, <-app_assoc in E, Hl by done. split; [done|].
      rewrite <-drop_app_le, drop_drop in E by done. rewrite <-drop_app_le, length_drop in Hl by done.
      exists (used ++ used2), rest2, (S m). rewrite sum_list_with_app. cbn [take].
      change ([c] ++ take m l) with (c :: take m l) in *.
      split_and!; [by rewrite app_assoc|by rewrite length_app, drop_drop| |done|].
      * rewrite length_app in *. simpl in *. lia.
      * destruct Hr as [[-> ->]|(-> & Hm & ? & ?)]; [by left|right]. simpl. split_and!; [done|lia|done|done].
    + inv_bind E b s2 e2 E2. pose proof (release_killed _ _ _ _ _ _ E2) as Hd. kpipes E2. injection E as <- <- <-.
      rewrite (get_pipe_pipes p s2 s1) by done. destruct Hc as [Hc Hs].
      split; [done|]. exists used, rest, 0%nat. rewrite app_nil_r. split_and!; [done..|]. right. simpl. split_and!; [done|lia|done|].
      destruct Hs; [by left|right; by apply Hd].
Qed.

(** C15. A writer among readers.  Whenever [pipewrite] waits for room the other
    processes run, the [i]-th turn taking the first [ks !! i] bytes.  When it
    returns, the pipe holds the old contents followed by the bytes written so
    far, less exactly the bytes that the turns it waited through took, from
    the front: the writer loses, repeats and overwrites nothing.  It returns
    [n] when all the bytes are in; and -1 only at a full pipe with bytes
    left to write, when the read end is closed or the writer was killed. *)
Theorem pipewrite_stream p l n ks env s r s' env' :
  Forall2 (takes p) env ks → pipe_wf (get_pipe s p) → pipewrite p l n env s = Done r s' env' →
  let data := take (Z.to_nat n) l in
  pipe_wf (get_pipe s' p) ∧
  ∃ used rest m, ks = used ++ rest ∧ env' = drop (length used) env ∧
    (sum_list used ≤ length (contents (get_pipe s p) ++ take m data))%nat ∧
    contents (get_pipe s' p) = drop (sum_list used) (contents (get_pipe s p) ++ take m data) ∧
    (r = n ∧ m = length data ∨ r = -1 ∧ (m < length data)%nat ∧ pcount (get_pipe s' p) = PIPESIZE ∧
       (pi_readopen (get_pipe s' p) = false ∨ is_killed s')).
Proof.
  intros He Hw E data. unfold pipewrite in E. inv_bind E a s1 e1 E1. kpipes E1.
  rewrite <-(get_pipe_pipes p s1 s E1) in *. by apply (pipewrite_from_stream p data n ks env s1 r s' env').
Qed.

(** One byte taken while the writer waits. *)
Definition reader_turn (s : kstate) : kstate :=
  s <| k_pipes ::= alter (λ pi, if pi_nread pi =? pi_nwrite pi then pi else get_byte pi) 4096 |>.
Lemma reader_turn_takes : takes 4096 reader_turn 1.
Proof.
  split; [lia|]. intros s Hw. unfold reader_turn. rewrite get_pipe_alter, pipe_empty by done.
  destruct (decide (pcount (get_pipe s 4096) = 0)) as [E|E].
  - rewrite bool_decide_eq_true_2 by done. by rewrite contents_nil.
  - rewrite bool_decide_eq_false_2 by done. pose proof (pcount_range (get_pipe s 4096)).
    destruct (get_byte_spec _ Hw ltac:(lia)) as [Hw' Ec]. split; [done|]. by rewrite Ec.
Qed.

(** A full pipe. *)
Definition full_pipe : kstate :=
  user_boot <| k_pipes := {[ 4096 := Pipe (replicate 512 1) 4294967290 506 true true ]} |>.

Lemma pipewrite_stream_witness :
  ∃ s', pipewrite 4096 [7; 8] 2 [reader_turn; reader_turn] full_pipe = Done 2 s' [] ∧
    contents (get_pipe s' 4096) = replicate 510 1 ++ [7; 8].
Proof.
  destruct (pipewrite 4096 [7; 8] 2 [reader_turn; reader_turn] full_pipe) as [r s' e| |] eqn:E; [|exfalso; vm_compute in E; discriminate E..].
  assert (r = 2 ∧ e = []) as [-> ->] by (vm_compute in E; injection E as <- _ <-; by split).
  exists s'. split; [reflexivity|].
  destruct (pipewrite_stream 4096 [7; 8] 2 [1; 1]%nat [reader_turn; reader_turn] full_pipe 2 s' [])
    as (_ & used & rest & m & Eu & Ee & _ & Ec & Hm).
  - repeat (constructor; [exact reader_turn_takes|]). constructor.
  - split; vm_compute; [reflexivity|by split|by split|discriminate].
  - exact E.
  - destruct Hm as [[_ ->]|[Hr _]]; [|discriminate Hr]. destruct used as [|? [|? [|? ?]]]; try discriminate Ee; [|discriminate Eu].
    injection Eu as <- <- _. rewrite Ec. vm_compute. reflexivity.
Defined.

(** ** The reader *)

(** The writers' turns during the wait for data. *)
Definition added (xs : list (list Z)) (pi pi' : pipe) : Prop :=
  pipe_wf pi → pipe_wf pi' ∧ contents pi' = contents pi ++ concat xs.

Lemma added_nil pi : added [] pi pi.
Proof. intros Hw. split; [done|]. by rewrite app_nil_r. Qed.

Lemma added_cons p f a xs s pi : adds p f a → (pipe_wf (get_pipe s p) → contents (get_pipe s p) = []) →
  added xs (get_pipe (f s) p) pi → added (a :: xs) (get_pipe s p) pi.
Proof.
  intros [Ha Hf] HQ HR Hw. destruct (Hf s Hw) as [Hw1 E1]; [rewrite HQ by done; simpl; lia|]. destruct (HR Hw1) as (Hw2 & E2). split; [done|].
  rewrite E2, E1, <-app_assoc. done.
Qed.

Lemma pipe_data_inv p xs env s b s' env' :
  Forall2 (adds p) env xs → pipe_wf (get_pipe s p) → pipe_data p env s = Done b s' env' →
  ∃ used rest, xs = used ++ rest ∧ env' = drop (length used) env ∧ added used (get_pipe s p) (get_pipe s' p) ∧
  (contents (get_pipe s' p) = [] → if b then pi_writeopen (get_pipe s' p) = false else True) ∧
  (b = false → contents (get_pipe s' p) = [] ∧ is_killed s').
Proof.
  intros He Hw E. unfold pipe_data in E.
  apply (sleep_loop_turns p (adds p) (λ pi, pipe_wf pi → contents pi = []) added added_nil (added_cons p) _ _ _ xs)
    in E as (used & rest & -> & -> & He' & HR & s1 & Hp & E); [| |done].
  - exists used, rest. split_and!; [done..| |]; rewrite bind_gets in E; destruct (HR Hw) as [Hw' _];
      rewrite <-(get_pipe_pipes p s1 s' Hp) in *; rewrite pipe_empty in E by done.
    + intros Ec. apply (f_equal length) in Ec. rewrite length_contents in Ec. pose proof (pcount_range (get_pipe s1 p)).
      rewrite bool_decide_eq_true_2 in E by (simpl in Ec; lia). cbn [andb] in E.
      destruct b; [|done]. destruct (pi_writeopen (get_pipe s1 p)); [|done]. cbn [negb] in E. inv_bind E k s2 e2 E2. by destruct k.
    + intros ->. case_bool_decide as Ec; [|discriminate E]. split; [by apply contents_nil|].
      destruct (pi_writeopen _); [|discriminate E]. cbn [andb negb] in E. inv_bind E k s2 e2 E2. destruct k; [|discriminate E].
      injection E as <- _. pose proof (mykilled_pure _ _ _ _ _ E2) as [-> _]. by apply mykilled_true in E2.
  - clear. intros env s r s' env' E. rewrite bind_gets in E. destruct (negb _) eqn:En; [by injection E as <- <- <-|].
    inv_bind E k s1 e1 E1. apply mykilled_pure in E1 as [-> ->].
    assert (k_pipes s' = k_pipes s ∧ env' = env) as [-> ->] by (destruct k; by injection E as <- <- <-). split_and!; [done..|].
    intros _ Hw. apply negb_false_iff, andb_true_iff in En as [En _]. rewrite pipe_empty in En by done.
    apply bool_decide_eq_true in En. by apply contents_nil.
Qed.

(** C16. A reader among writers.  Whenever [piperead] waits for data the other
    processes run, the [i]-th turn adding the bytes [xs !! i].  What the pipe
    held followed by what the turns it waited through added is what
    [piperead] finds: it returns the first [n] bytes of that and leaves the
    rest in order, so that it returns fewer than [n] only when that empties
    the pipe, and it returns 0 for a positive [n] only at the end of the file:
    the pipe empty and its write end closed.  The only other case is -1, with
    nothing read, from an empty pipe, when the reader was killed. *)
Theorem piperead_stream p n xs env s r l s' env' :
  Forall2 (adds p) env xs → pipe_wf (get_pipe s p) → piperead p n env s = Done (r, l) s' env' →
  pipe_wf (get_pipe s' p) ∧
  ∃ used rest, xs = used ++ rest ∧ env' = drop (length used) env ∧
    let q := contents (get_pipe s p) ++ concat used in
    (r = Z.of_nat (length l) ∧ l = take (Z.to_nat n) q ∧ contents (get_pipe s' p) = drop (Z.to_nat n) q ∧
       (r < n → contents (get_pipe s' p) = []) ∧ (r = 0 → 0 < n → pi_writeopen (get_pipe s' p) = false)
     ∨ r = -1 ∧ l = [] ∧ q = [] ∧ contents (get_pipe s' p) = [] ∧ is_killed s').
Proof.
  intros He Hw E. unfold piperead in E. inv_bind E a s1 e1 E1. kpipes E1.
  rewrite <-(get_pipe_pipes p s1 s E1) in *. inv_bind E ok s2 e2 E2.
  apply (pipe_data_inv p xs) in E2 as (used & rest & -> & -> & HR & Hend & Hk); [|done|done]. destruct (HR Hw) as [Hw2 Ha]. destruct ok.
  - cbn [negb] in E. destruct (pipe_get_ok (Z.to_nat n) p (drop (length used) env) s2 Hw2) as (g & Eg & Hw3 & Ec & Eo).
    rewrite (bind_done _ _ _ _ _ _ _ Eg) in E. inv_bind E b s3 e3 E3. apply wakeup_pipes in E3 as [E3 ->].
    inv_bind E c s4 e4 E4. kpipes E4. injection E as <- <- <- <-.
    assert (Hp : get_pipe s4 p = g (get_pipe s2 p)).
    { rewrite (get_pipe_pipes p s4 (s2 <| k_pipes ::= alter g p |>)) by (by rewrite E4). by apply get_pipe_alter. }
    rewrite Hp, Ec, Eo. split; [done|]. exists used, rest. split; [done|]. split; [done|]. cbv zeta. rewrite <-Ha. left.
    split_and!; [done..| |].
    + rewrite length_take. intros Hn. apply drop_ge. lia.
    + intros Hz Hn. apply Hend, nil_length_inv. rewrite length_take in Hz. lia.
  - cbn [negb] in E. inv_bind E b s3 e3 E3. pose proof (release_killed _ _ _ _ _ _ E3) as Hd. kpipes E3. injection E as <- <- <- <-.
    destruct (Hk eq_refl) as [Hc Hs]. apply Hd in Hs.
    rewrite (get_pipe_pipes p s3 s2) by done. split; [done|]. exists used, rest. cbv zeta. rewrite <-Ha, Hc. by split_and!; [| |right].
Qed.

(** A byte added while the reader waits. *)
Definition writer_turn (s : kstate) : kstate :=
  s <| k_pipes ::= alter (λ pi, if pi_nwrite pi =? u32 (pi_nread pi + PIPESIZE) then pi else put_byte 5 pi) 4096 |>.
Lemma writer_turn_adds : adds 4096 writer_turn [5].
Proof.
  split; [simpl; lia|]. intros s Hw Hl. unfold writer_turn. rewrite get_pipe_alter, pipe_full by done.
  rewrite length_contents in Hl. simpl in Hl. rewrite bool_decide_eq_false_2 by (change PIPESIZE with 512; lia). apply put_byte_spec; [done|].
  change PIPESIZE with 512. pose proof (pcount_range (get_pipe s 4096)). lia.
Qed.

Lemma piperead_stream_witness :
  ∃ s', piperead 4096 3 [writer_turn] wrapping = Done (1, [5]) s' [] ∧ contents (get_pipe s' 4096) = [].
Proof.
  destruct (piperead 4096 3 [writer_turn] wrapping) as [r s' e| |] eqn:E; [|exfalso; vm_compute in E; discriminate E..].
  assert (r = (1, [5]) ∧ e = []) as [-> ->] by (vm_compute in E; injection E as <- _ <-; by split).
  exists s'. split; [reflexivity|].
  destruct (piperead_stream 4096 3 [[5]] [writer_turn] wrapping 1 [5] s' []) as (_ & used & rest & _ & _ & H).
  - repeat (constructor; [exact writer_turn_adds|]). constructor.
  - exact wrapping_wf.
  - exact E.
  - destruct H as [(_ & _ & _ & Hs & _)|[Hr _]]; [|discriminate Hr]. apply Hs. reflexivity.
Defined.
