(* ===== verification/Lines.v ===== *)
(** * The console: theorems (console.c)

    The input buffer of console.c is a line editor.  Its state is a queue of
    committed bytes, which readers get, and the line being typed, which
    backspace and kill-line edit ([Editor]); the ring buffer with the counters
    [r], [w] and [e] implements it, key by key, echo included.  A read returns
    one committed line.  The screen's cursor never leaves the screen, so
    [cgaputc] never panics, and text appears where the cursor was. *)
From S2P Require Import Prelude State Ring Sync Dll Bio Cache Log CString Print Kalloc Fs Vm File Proc Console.

(** ** The abstract editor *)
Module Editor.
Record editor := Ed { committed : list Z; line : list Z }.

Definition commits (c : Z) (d : editor) : bool :=
  (c =? 10) || (c =? ctl_D) || (Z.of_nat (length (committed d) + length (line d)) =? INPUT_BUF).

(** A character that is not a command is added to the line if the buffer has
    room; a newline, an end-of-file or the last free place commits the line. *)
Definition insert (c : Z) (d : editor) : editor :=
  let d := Ed (committed d) (line d ++ [c]) in
  if commits c d then Ed (committed d ++ line d) [] else d.

Definition key (c : Z) (d : editor) : editor :=
  if c =? ctl_P then d
  else if c =? ctl_U then Ed (committed d) []
  else if (c =? ctl_H) || (c =? 127) then Ed (committed d) (removelast (line d))
  else if negb (c =? 0) && (Z.of_nat (length (committed d) + length (line d)) <? INPUT_BUF)
  then insert (if c =? 13 then 10 else c) d else d.

(** What the key shows, in order. *)
Definition echo (c : Z) (d : editor) : list Z :=
  if c =? ctl_P then []
  else if c =? ctl_U then replicate (length (line d)) BACKSPACE
  else if (c =? ctl_H) || (c =? 127) then (if line d is [] then [] else [BACKSPACE])
  else if negb (c =? 0) && (Z.of_nat (length (committed d) + length (line d)) <? INPUT_BUF)
  then [if c =? 13 then 10 else c] else [].

Fixpoint keys (cs : list Z) (d : editor) : editor * list Z :=
  match cs with
  | [] => (d, [])
  | c :: cs => let '(d', out) := keys cs (key c d) in (d', echo c d ++ out)
  end.
End Editor.
Import Editor.

(** ** The representation *)
Definition ncommitted (i : input) : Z := u32 (in_w i - in_r i).
Definition nline (i : input) : Z := u32 (in_e i - in_w i).
Definition abs (i : input) : editor :=
  Ed (ring INPUT_BUF (in_buf i) (in_r i) (Z.to_nat (ncommitted i)))
     (ring INPUT_BUF (in_buf i) (in_w i) (Z.to_nat (nline i))).

Record input_wf (i : input) : Prop := {
  iw_buf : length (in_buf i) = 128%nat;
  iw_r : is_u32 (in_r i);
  iw_w : is_u32 (in_w i);
  iw_e : is_u32 (in_e i);
  iw_size : ncommitted i + nline i ≤ INPUT_BUF;
  iw_line : 10 ∉ line (abs i) }.

Lemma ibuf_pos : 0 < INPUT_BUF.
Proof. done. Qed.
Lemma ibuf_div : (INPUT_BUF | 4294967296).
Proof. by exists 33554432. Qed.

Lemma counts_range i : 0 ≤ ncommitted i ∧ 0 ≤ nline i.
Proof. split; apply u32_range. Qed.

Lemma u32_sub_add a b c : u32 (a - b) + u32 (b - c) < 4294967296 → u32 (a - c) = u32 (a - b) + u32 (b - c).
Proof.
  intros H. pose proof (u32_range (a - b)). pose proof (u32_range (b - c)). unfold u32, is_u32 in *.
  rewrite <-(Z.mod_small (_ + _) 4294967296) by lia. rewrite <-Zplus_mod. f_equal. lia.
Qed.

Lemma total_count i : input_wf i → u32 (in_e i - in_r i) = ncommitted i + nline i.
Proof.
  intros [_ _ _ _ Hs _]. unfold ncommitted, nline in *. change INPUT_BUF with 128 in Hs.
  rewrite (u32_sub_add (in_e i) (in_w i) (in_r i)) by lia. lia.
Qed.

Lemma u32_eq_diff a b : is_u32 a → is_u32 b → (a =? b) = (u32 (a - b) =? 0).
Proof.
  intros Ha Hb. unfold u32, is_u32 in *. apply eq_true_iff_eq. rewrite !Z.eqb_eq. split.
  - intros ->. by rewrite Z.sub_diag.
  - intros E. apply Z.mod_divide in E as [k E]; lia.
Qed.

Lemma length_line i : Z.of_nat (length (line (abs i))) = nline i.
Proof. simpl. rewrite length_ring. pose proof (counts_range i). lia. Qed.
Lemma length_committed i : Z.of_nat (length (committed (abs i))) = ncommitted i.
Proof. simpl. rewrite length_ring. pose proof (counts_range i). lia. Qed.

Lemma line_nil i : nline i = 0 → line (abs i) = [].
Proof. intros E. cbn. by rewrite E. Qed.

(** The counters modulo the buffer's size. *)
Lemma slot_add a b k : u32 (a - b) = k → a `mod` INPUT_BUF = (b + k) `mod` INPUT_BUF.
Proof. intros <-. rewrite Zplus_mod, (u32_mod_ring _ ibuf_pos ibuf_div), <-Zplus_mod. f_equal. lia. Qed.

(** ** Removing the last character *)
Definition rub (i : input) : input := i <| in_e ::= λ e, u32 (e - 1) |>.

Lemma ring_removelast data start n : ring INPUT_BUF data start n = removelast (ring INPUT_BUF data start (S n)).
Proof.
  replace (S n) with (n + 1)%nat by lia. rewrite ring_app, removelast_app by (by rewrite ring_S).
  by rewrite ring_S, app_nil_r.
Qed.

Lemma nline_rub i : 0 < nline i → nline (rub i) = nline i - 1.
Proof.
  intros H. pose proof (u32_range (in_e i - in_w i)) as Hr. unfold nline, rub, u32, is_u32 in *. simpl.
  rewrite Zminus_mod_idemp_l. replace (in_e i - 1 - in_w i) with (in_e i - in_w i - 1) by lia.
  rewrite <-Zminus_mod_idemp_l, Z.mod_small; lia.
Qed.

Lemma abs_rub i : input_wf i → line (abs i) ≠ [] →
  input_wf (rub i) ∧ abs (rub i) = Ed (committed (abs i)) (removelast (line (abs i))).
Proof.
  intros Hw Hne. pose proof Hw as [Hb Hr Hwr He Hs Hl].
  assert (Hn : 0 < nline i).
  { pose proof (counts_range i). rewrite <-length_line. destruct (line (abs i)); [done|simpl; lia]. }
  assert (Ha : abs (rub i) = Ed (committed (abs i)) (removelast (line (abs i)))).
  { unfold abs. f_equal. rewrite nline_rub by done. cbn [line].
    replace (Z.to_nat (nline i)) with (S (Z.to_nat (nline i - 1))) by lia. by rewrite <-ring_removelast. }
  split; [|done]. split; try done; simpl.
  - apply u32_range.
  - change (ncommitted (rub i)) with (ncommitted i). rewrite nline_rub by done. lia.
  - fold (abs (rub i)). change (ring _ _ _ _) with (line (abs (rub i))). rewrite Ha. cbn [line].
    intros Hin. apply Hl. destruct (exists_last Hne) as (l & x & El). rewrite El in *.
    rewrite removelast_last in Hin. set_solver.
Qed.

Lemma last_char i : input_wf i → 0 < nline i →
  in_buf i !!! Z.to_nat (u32 (in_e i - 1) `mod` INPUT_BUF) ∈ line (abs i).
Proof.
  intros Hw Hn. cbn [line abs]. replace (Z.to_nat (nline i)) with (Z.to_nat (nline i - 1) + 1)%nat by lia.
  rewrite ring_app, ring_S. apply elem_of_app. right. apply list_elem_of_singleton. do 2 f_equal.
  rewrite (u32_mod_ring _ ibuf_pos ibuf_div). rewrite Z2Nat.id by lia.
  replace (in_w i + (nline i - 1)) with (in_w i + nline i - 1) by lia.
  rewrite Zminus_mod, (slot_add (in_e i) (in_w i) (nline i)) by done. by rewrite <-Zminus_mod.
Qed.

Definition typed (i : input) (out : list Z) (s : kstate) : kstate :=
  s <| k_input := i |> <| k_out ::= λ o, reverse out ++ o |>.

Lemma typed_nil s : typed (k_input s) [] s = s.
Proof. by destruct s. Qed.
Lemma typed_typed i i' o o' s : typed i' o' (typed i o s) = typed i' (o ++ o') s.
Proof. unfold typed. kext. by rewrite reverse_app, app_assoc. Qed.

Lemma rub_ok env s : 
  (upd_input (λ i, i <| in_e ::= λ e, u32 (e - 1) |>) ;; Cons.consputc BACKSPACE) env s =
    Done tt (typed (rub (k_input s)) [BACKSPACE] s) env.
Proof. unfold upd_input, Cons.consputc. rewrite bind_modify. kdone. Qed.

Lemma kill_line_ok n env s : input_wf (k_input s) → nline (k_input s) < Z.of_nat n →
  ∃ i, kill_line n env s = Done tt (typed i (replicate (length (line (abs (k_input s)))) BACKSPACE) s) env ∧
    input_wf i ∧ abs i = Ed (committed (abs (k_input s))) [].
Proof.
  revert s. induction n as [|n IH]; intros s Hw Hn; [pose proof (counts_range (k_input s)); lia|].
  cbn [kill_line]. rewrite bind_gets, u32_eq_diff by apply Hw. fold (nline (k_input s)).
  pose proof (counts_range (k_input s)) as [_ Hr]. destruct (Z.eqb_spec (nline (k_input s)) 0) as [E|E].
  - exists (k_input s). pose proof (line_nil _ E) as Hl.
    rewrite Hl. cbn [length replicate negb andb]. rewrite typed_nil. split; [done|]. split; [done|].
    destruct (abs (k_input s)); simpl in *; by subst.
  - pose proof (last_char _ Hw ltac:(lia)) as Hc.
    assert (Hc10 : (in_buf (k_input s) !!! Z.to_nat (u32 (in_e (k_input s) - 1) `mod` INPUT_BUF) =? 10) = false).
    { apply Z.eqb_neq. intros E10. rewrite E10 in Hc. by apply (iw_line _ Hw). }
    rewrite Hc10. cbn [negb andb]. rewrite <-bind_assoc, (bind_done _ _ _ _ _ _ _ (rub_ok env s)).
    destruct (abs_rub _ Hw) as [Hw' Ha]; [by intros Hnil; rewrite Hnil in Hc; apply elem_of_nil in Hc|].
    destruct (IH (typed (rub (k_input s)) [BACKSPACE] s)) as (i & Ei & Hwi & Hai).
    + done.
    + change (k_input (typed _ _ s)) with (rub (k_input s)). rewrite nline_rub; lia.
    + change (k_input (typed _ _ s)) with (rub (k_input s)) in *. exists i. rewrite Ei, typed_typed, Ha in *.
      split; [|split; [done|by rewrite Hai]]. cbn [line]. do 2 f_equal.
      rewrite <-(length_line (k_input s)) in E. destruct (exists_last (l := line (abs (k_input s)))) as (l & x & El).
      { intros Hnil. by rewrite Hnil in E. }
      rewrite El, removelast_last, length_app, Nat.add_comm. done.
Qed.

Arguments abs : simpl never.

(** ** Adding a character *)
Definition store_char (c : Z) (i : input) : input :=
  i <| in_buf ::= <[Z.to_nat (in_e i `mod` INPUT_BUF) := c]> |> <| in_e := u32 (in_e i + 1) |>.
Definition commit_line (i : input) : input := i <| in_w := in_e i |>.

Lemma nline_store c i : nline i < INPUT_BUF → nline (store_char c i) = nline i + 1.
Proof.
  intros H. pose proof (counts_range i) as [_ Hr]. unfold nline, store_char, u32 in *. simpl.
  change INPUT_BUF with 128 in H. rewrite Zminus_mod_idemp_l.
  replace (in_e i + 1 - in_w i) with (in_e i - in_w i + 1) by lia.
  rewrite <-Zplus_mod_idemp_l, Z.mod_small; lia.
Qed.

Lemma abs_store c i : input_wf i → ncommitted i + nline i < INPUT_BUF →
  abs (store_char c i) = Ed (committed (abs i)) (line (abs i) ++ [c]).
Proof.
  intros Hw Hlt. pose proof Hw as [Hb _ _ _ _ _]. pose proof (counts_range i) as [H1 H2]. unfold abs. f_equal.
  - cbn [store_char in_buf in_r]. change (ncommitted (store_char c i)) with (ncommitted i). simpl.
    rewrite (slot_add (in_e i) (in_r i) (ncommitted i + nline i)) by (by apply total_count).
    apply ring_insert_ne; [done|lia|done].
  - rewrite nline_store by lia. replace (Z.to_nat (nline i + 1)) with (S (Z.to_nat (nline i))) by lia. simpl.
    rewrite (slot_add (in_e i) (in_w i) (Z.of_nat (Z.to_nat (nline i)))) by (unfold nline in *; lia).
    apply ring_snoc; [done|done|]. change INPUT_BUF with 128 in *. lia.
Qed.

(** Counters and sizes after a character has been added. *)
Lemma store_wf c i : input_wf i → ncommitted i + nline i < INPUT_BUF → c ≠ 10 → input_wf (store_char c i).
Proof.
  intros Hw Hlt Hc. pose proof Hw as [Hb Hr Hwr He Hs Hl]. pose proof (counts_range i) as [H1 H2]. split; try done.
  - simpl. by rewrite length_insert.
  - apply u32_range.
  - change (ncommitted (store_char c i)) with (ncommitted i). rewrite nline_store by lia. lia.
  - rewrite abs_store by done. cbn [line]. set_solver.
Qed.

Lemma line_commit_spec i : length (in_buf i) = 128%nat → is_u32 (in_r i) → is_u32 (in_e i) → ncommitted i + nline i ≤ INPUT_BUF →
  input_wf (commit_line i) ∧ abs (commit_line i) = Ed (committed (abs i) ++ line (abs i)) [].
Proof.
  intros Hb Hr He Hs. pose proof (counts_range i) as [H1 H2].
  assert (Hn : nline (commit_line i) = 0) by (unfold nline, commit_line; simpl; by rewrite Z.sub_diag).
  assert (Hc : ncommitted (commit_line i) = ncommitted i + nline i).
  { unfold ncommitted, nline, commit_line in *. simpl. change INPUT_BUF with 128 in *.
    rewrite (u32_sub_add (in_e i) (in_w i) (in_r i)) by lia. lia. }
  assert (Ha : abs (commit_line i) = Ed (committed (abs i) ++ line (abs i)) []).
  { unfold abs. rewrite Hn, Hc. cbn [committed line]. f_equal.
    replace (Z.to_nat (ncommitted i + nline i)) with (Z.to_nat (ncommitted i) + Z.to_nat (nline i))%nat by lia.
    simpl. rewrite ring_app. f_equal. rewrite Z2Nat.id by done.
    rewrite <-(ring_u32 _ ibuf_pos ibuf_div _ (in_r i + ncommitted i)), <-(ring_u32 _ ibuf_pos ibuf_div _ (in_w i)).
    f_equal. unfold ncommitted, u32. rewrite Zplus_mod_idemp_r. f_equal. lia. }
  split; [|done]. split; try done.
  - rewrite Hn, Hc. lia.
  - rewrite Ha. cbn [line]. set_solver.
Qed.

Definition woken (q q' : list Z) (tab : list proc) : list proc :=
  if decide (q = q') then tab else wake1 ChInput <$> tab.

Lemma woken_same q s : s <| k_procs ::= woken q q |> = s.
Proof. kext. unfold woken. by rewrite decide_True. Qed.

Lemma full_test e r : is_u32 e → u32 (e - r) ≤ INPUT_BUF → (e =? u32 (r + INPUT_BUF)) = (u32 (e - r) =? INPUT_BUF).
Proof.
  intros He Hs. unfold u32, is_u32 in *. change INPUT_BUF with 128 in *. apply eq_true_iff_eq. rewrite !Z.eqb_eq. split.
  - intros ->. rewrite Zminus_mod_idemp_l. by replace (r + 128 - r) with 128 by lia.
  - intros E. rewrite <-(Z.mod_small e 4294967296) at 1 by done. replace e with (r + (e - r)) by lia.
    by rewrite <-Zplus_mod_idemp_r, E.
Qed.

Definition insert_body (c : Z) : KM unit :=
  upd_input (λ i, i <| in_buf ::= <[Z.to_nat (in_e i `mod` INPUT_BUF) := c]> |> <| in_e := u32 (in_e i + 1) |>) ;;
  Cons.consputc c ;;
  i <- gets k_input ;;
  when ((c =? 10) || (c =? ctl_D) || (in_e i =? u32 (in_r i + INPUT_BUF)))
    (upd_input (λ i, i <| in_w := in_e i |>) ;; wakeup ChInput).

Lemma insert_ok c env s : input_wf (k_input s) → LkPtable ∉ k_locks s →
  ncommitted (k_input s) + nline (k_input s) < INPUT_BUF →
  ∃ i, insert_body c env s = Done tt ((typed i [c] s)
        <| k_procs ::= woken (committed (abs (k_input s))) (committed (abs i)) |>) env ∧
    input_wf i ∧ abs i = insert c (abs (k_input s)).
Proof.
  intros Hw Hl Hroom. pose proof Hw as [Hb Hr Hwr He Hs _]. pose proof (counts_range (k_input s)) as [H1 H2].
  unfold insert_body, upd_input, Cons.consputc. rewrite !bind_modify, bind_gets.
  set (i := store_char c (k_input s)).
  set (s1 := s <| k_input ::= _ |> <| k_out ::= _ |>). change (k_input s1) with i.
  assert (Hs1 : s1 = typed i [c] s) by reflexivity.
  pose proof (abs_store c _ Hw Hroom) as Ha. fold i in Ha.
  assert (Hni : ncommitted i + nline i = ncommitted (k_input s) + nline (k_input s) + 1).
  { unfold i. rewrite nline_store by lia. change (ncommitted (store_char c (k_input s))) with (ncommitted (k_input s)). lia. }
  assert (Htot : u32 (in_e i - in_r i) = ncommitted i + nline i).
  { unfold ncommitted, nline in *. change INPUT_BUF with 128 in Hroom.
    rewrite (u32_sub_add (in_e i) (in_w i) (in_r i)) by lia. lia. }
  rewrite full_test, Htot by (apply u32_range || lia).
  unfold insert, commits. rewrite <-Ha, Nat2Z.inj_add, length_committed, length_line.
  destruct ((c =? 10) || (c =? ctl_D) || (ncommitted i + nline i =? INPUT_BUF)) eqn:Ec; cbn [when].
  - rewrite bind_modify. destruct (line_commit_spec i) as [Hwi Hai];
      [unfold i; simpl; by rewrite length_insert|done|apply u32_range|lia|].
    exists (commit_line i). split; [|done]. rewrite wakeup_ok by done. rewrite Hs1, Hai, Ha. f_equal. kext.
    unfold woken. rewrite decide_False; [done|]. intros E.
    apply (f_equal length) in E. rewrite !length_app in E. simpl in E. lia.
  - exists i. apply orb_false_elim in Ec as [[Ec _]%orb_false_elim _]. apply Z.eqb_neq in Ec.
    split; [|split; [by apply store_wf|done]]. rewrite Ha. cbn [committed]. by rewrite woken_same.
Qed.

Lemma consolekey_refines c env s :
  is_byte c → input_wf (k_input s) → LkPtable ∉ k_locks s →
  ∃ i, consolekey c env s =
      Done (c =? ctl_P) ((typed i (echo c (abs (k_input s))) s)
        <| k_procs ::= woken (committed (abs (k_input s))) (committed (abs i)) |>) env ∧
    input_wf i ∧ abs i = key c (abs (k_input s)).
Proof.
  intros Hc Hw Hl. pose proof (counts_range (k_input s)) as [Hcr Hlr]. unfold consolekey, key, echo.
  assert (Hsame : ∀ i o, committed (abs i) = committed (abs (k_input s)) →
    (typed i o s) <| k_procs ::= woken (committed (abs (k_input s))) (committed (abs i)) |> = typed i o s).
  { intros i o E. rewrite E. by apply woken_same. }
  destruct (c =? ctl_P). { exists (k_input s). rewrite Hsame, typed_nil by done. done. }
  destruct (c =? ctl_U).
  { rewrite bind_gets. destruct (kill_line_ok (S (Z.to_nat (u32 (in_e (k_input s) - in_w (k_input s))))) env s Hw)
      as (i & Ei & Hwi & Hai); [unfold nline in *; lia|].
    exists i. run Ei. rewrite Hsame by (by rewrite Hai). done. }
  destruct ((c =? ctl_H) || (c =? 127)).
  { rewrite bind_gets, u32_eq_diff by apply Hw. fold (nline (k_input s)).
    destruct (Z.eqb_spec (nline (k_input s)) 0) as [E|E].
    - exists (k_input s). pose proof (line_nil _ E) as Hnil.
      rewrite Hsame, Hnil by done. cbn [negb when removelast]. rewrite bind_ret, typed_nil.
      split; [done|]. split; [done|]. destruct (abs (k_input s)); simpl in *; by subst.
    - assert (Hne : line (abs (k_input s)) ≠ []).
      { intros Hnil. apply E. rewrite <-length_line, Hnil. done. }
      destruct (abs_rub _ Hw Hne) as [Hwi Hai]. exists (rub (k_input s)). cbn [negb when].
      run (rub_ok env s). rewrite Hsame by (by rewrite Hai).
      destruct (line (abs (k_input s))) as [|x l]; [done|]. done. }
  rewrite bind_gets, total_count by done.
  rewrite Nat2Z.inj_add, length_committed, length_line.
  destruct (negb (c =? 0) && _) eqn:Hroom; cbn [when].
  2:{ exists (k_input s). rewrite Hsame, bind_ret, typed_nil by done. done. }
  apply andb_prop in Hroom as [_ Hroom]. apply Z.ltb_lt in Hroom.
  set (c' := if c =? 13 then 10 else c). assert (Hc' : is_byte c') by (unfold c', is_byte; by destruct (c =? 13)).
  rewrite u8_small by done. destruct (insert_ok c' env s Hw Hl Hroom) as (i & E & Hi). exists i. split; [|done].
  unfold insert_body in E. by run E.
Qed.

Lemma consolekeys_refines cs d env s :
  Forall is_byte cs → input_wf (k_input s) → LkPtable ∉ k_locks s →
  ∃ s', consolekeys cs d env s = Done (existsb (Z.eqb ctl_P) cs || d) s' env ∧ k_locks s' = k_locks s ∧
    input_wf (k_input s') ∧ abs (k_input s') = (keys cs (abs (k_input s))).1 ∧
    k_out s' = reverse (keys cs (abs (k_input s))).2 ++ k_out s.
Proof.
  revert d s. induction cs as [|c cs IH]; intros d s Hb Hw Hl; [by exists s|].
  apply Forall_cons in Hb as [Hc Hb]. destruct (consolekey_refines c env s Hc Hw Hl) as (i & E & Hwi & Hai).
  cbn [consolekeys]. run E. set (s1 := _ <| k_procs ::= _ |>).
  destruct (IH ((c =? ctl_P) || d) s1 Hb Hwi Hl) as (s' & E' & Hl' & Hw' & Ha' & Ho').
  change (k_input s1) with i in *. rewrite Hai in *. exists s'. cbn [keys existsb]. rewrite E', Hl', Ha', Ho'.
  destruct (keys cs (key c (abs (k_input s)))) as [d' out]. cbn [fst snd]. split; [|split; [done|]].
  - f_equal. rewrite (Z.eqb_sym ctl_P c). destruct (c =? ctl_P), (existsb _ cs); done.
  - split; [done|]. split; [done|]. unfold s1, typed. simpl. by rewrite reverse_app, app_assoc.
Qed.

(** C24. The interrupt handler is the line editor.  For every sequence of keys
    (but ^P, which lists the processes) [consoleintr] leaves in the ring
    buffer exactly the queue and the line the abstract editor computes, and
    has shown exactly its echo; the buffer never overflows and a committed
    byte is never edited, wherever the three counters stand. *)
Theorem consoleintr_refines cs env s :
  Forall is_byte cs → existsb (Z.eqb ctl_P) cs = false → input_wf (k_input s) → k_locks s = [] →
  ∃ s', consoleintr cs env s = Done tt s' env ∧ k_locks s' = [] ∧ input_wf (k_input s') ∧
    abs (k_input s') = (keys cs (abs (k_input s))).1 ∧
    k_out s' = reverse (keys cs (abs (k_input s))).2 ++ k_out s.
Proof.
  intros Hb Hp Hw Hl. unfold consoleintr. step acquire_ok by (rewrite Hl; apply not_elem_of_nil).
  set (s1 := s <| k_locks ::= cons LkCons |>).
  destruct (consolekeys_refines cs false env s1 Hb Hw) as (s' & E & Hl' & H); [unfold s1; simpl; rewrite Hl; set_solver|].
  run E. rewrite Hp. cbn [orb]. erewrite bind_done by (apply release_ok; rewrite Hl'; unfold s1; simpl; by rewrite Hl).
  cbn [when]. exists (s' <| k_locks := [] |>). done.
Qed.

(** An empty buffer whose counters are about to wrap. *)
Definition console_idle : kstate :=
  user_boot <| k_input := Input (replicate 128 0) 4294967294 4294967294 4294967294 |>.
Lemma console_idle_wf : input_wf (k_input console_idle).
Proof. split; vm_compute; [reflexivity|by split..|discriminate|by intros ?%elem_of_nil]. Qed.

Lemma consoleintr_refines_witness :
  ∃ s', consoleintr [97; 98; 8; 99; 13] [] console_idle = Done tt s' [] ∧
    abs (k_input s') = Ed [97; 99; 10] [] ∧ k_out s' = [10; 99; 256; 98; 97].
Proof.
  destruct (consoleintr_refines [97; 98; 8; 99; 13] [] console_idle) as (s' & E & _ & _ & Ha & Ho).
  - repeat constructor; discriminate.
  - reflexivity.
  - exact console_idle_wf.
  - reflexivity.
  - exists s'. split; [exact E|]. split; [exact Ha|exact Ho].
Defined.

(** ** Reading a line *)

(** What a read of at most [n] bytes gets from the queue [q], and what it
    leaves; [first] when nothing has been read yet.  [None]: it waits. *)
Fixpoint take_line (n : nat) (first : bool) (q : list Z) : option (list Z * list Z) :=
  match n with
  | O => Some ([], q)
  | S n =>
      match q with
      | [] => None
      | c :: q' =>
          if c =? ctl_D then Some ([], if first then q' else q)
          else if c =? 10 then Some ([10], q')
          else match take_line n false q' with
               | Some (l, q'') => Some (c :: l, q'')
               | None => None
               end
      end
  end.

Definition fetch (i : input) : input := i <| in_r ::= λ r, u32 (r + 1) |>.
Definition unfetch (i : input) : input := i <| in_r ::= λ r, u32 (r - 1) |>.

Lemma unfetch_fetch i : is_u32 (in_r i) → unfetch (fetch i) = i.
Proof.
  intros Hr. destruct i. unfold unfetch, fetch, upd. simpl in *. f_equal. unfold u32.
  rewrite Zminus_mod_idemp_l. replace (in_r + 1 - 1) with in_r by lia. by apply u32_small.
Qed.

Lemma fetch_spec i : input_wf i → 0 < ncommitted i →
  input_wf (fetch i) ∧ committed (abs i) = in_buf i !!! Z.to_nat (in_r i `mod` INPUT_BUF) :: committed (abs (fetch i)) ∧
  line (abs (fetch i)) = line (abs i).
Proof.
  intros Hw Hn. pose proof Hw as [Hb Hr Hwr He Hs Hl].
  assert (Hc : ncommitted (fetch i) = ncommitted i - 1).
  { pose proof (u32_range (in_w i - in_r i)) as Hrr. unfold ncommitted, fetch, u32, is_u32 in *. simpl.
    rewrite Zminus_mod_idemp_r. replace (in_w i - (in_r i + 1)) with (in_w i - in_r i - 1) by lia.
    rewrite <-Zminus_mod_idemp_l, Z.mod_small; lia. }
  split; [|split; [|done]].
  - split; try done; [apply u32_range|]. rewrite Hc. change (nline (fetch i)) with (nline i). lia.
  - unfold abs. cbn [committed]. rewrite Hc. replace (Z.to_nat (ncommitted i)) with (S (Z.to_nat (ncommitted i - 1))) by lia.
    rewrite ring_S. f_equal. simpl. by rewrite (ring_u32 _ ibuf_pos ibuf_div).
Qed.

Lemma cons_wait_ok env s : input_wf (k_input s) → committed (abs (k_input s)) ≠ [] →
  cons_wait env s = Done true s env.
Proof.
  intros Hw Hne. unfold cons_wait. apply sleep_loop_exit. rewrite bind_gets.
  rewrite Z.eqb_sym, u32_eq_diff by apply Hw. fold (ncommitted (k_input s)).
  destruct (Z.eqb_spec (ncommitted (k_input s)) 0) as [E|E]; [|done].
  exfalso. apply Hne, nil_length_inv. pose proof (length_committed (k_input s)). lia.
Qed.

Lemma consoleread_from_ok n target got env s l q :
  input_wf (k_input s) → Z.of_nat n + Z.of_nat (length got) = target →
  take_line n (bool_decide (got = [])) (committed (abs (k_input s))) = Some (l, q) →
  ∃ i, consoleread_from n target got env s = Done (true, got ++ l) (s <| k_input := i |>) env ∧
    input_wf i ∧ abs i = Ed q (line (abs (k_input s))).
Proof.
  revert got s l q. induction n as [|n IH]; intros got s l q Hw Ht El.
  { injection El as <- <-. exists (k_input s). simpl. rewrite app_nil_r. split; [by destruct s|]. done. }
  cbn [take_line] in El. destruct (committed (abs (k_input s))) as [|c q1] eqn:Eq; [discriminate El|].
  assert (Hne : committed (abs (k_input s)) ≠ []) by (by rewrite Eq).
  assert (Hn : 0 < ncommitted (k_input s)).
  { rewrite <-length_committed, Eq. simpl. lia. }
  destruct (fetch_spec _ Hw Hn) as (Hwf & Hc & Hli). rewrite Eq in Hc.
  assert (Hq : q1 = committed (abs (fetch (k_input s)))) by (by injection Hc).
  assert (Hc1 : c = in_buf (k_input s) !!! Z.to_nat (in_r (k_input s) `mod` INPUT_BUF)) by (by injection Hc).
  clear Hc. rename Hc1 into Hc.
  cbn [consoleread_from]. run (cons_wait_ok env s Hw Hne). cbn [negb]. rewrite bind_gets, <-Hc.
  unfold upd_input. rewrite bind_modify. fold (fetch (k_input s)).
  destruct (c =? ctl_D) eqn:ED.
  - injection El as <- <-. rewrite app_nil_r. destruct got as [|g got].
    + exists (fetch (k_input s)). simpl in Ht. rewrite (proj2 (Z.ltb_ge _ _)) by lia. cbn [when].
      split; [kdone|]. split; [done|]. rewrite <-Hli, bool_decide_eq_true_2, Hq by done. done.
    + exists (k_input s). rewrite (proj2 (Z.ltb_lt _ _)) by (simpl in *; lia). cbn [when]. rewrite bind_modify.
      split; [|split; [done|]].
      * unfold ret. f_equal. kext. apply (unfetch_fetch (k_input s)). apply Hw.
      * destruct (abs (k_input s)). simpl in *. by subst.
  - destruct (c =? 10) eqn:E10.
    + injection El as <- <-. apply Z.eqb_eq in E10 as ->. exists (fetch (k_input s)).
      split; [kdone|]. split; [done|]. by rewrite <-Hli, Hq.
    + destruct (take_line n false q1) as [[l1 q2]|] eqn:El1; [|discriminate El]. injection El as <- <-.
      destruct (IH (got ++ [c]) (s <| k_input := fetch (k_input s) |>) l1 q2) as (i & Ei & Hwi & Hai).
      * done.
      * rewrite length_app. simpl. lia.
      * change (k_input (s <| k_input := fetch (k_input s) |>)) with (fetch (k_input s)). rewrite <-Hq.
        rewrite bool_decide_eq_false_2; [done|]. by destruct got.
      * exists i. split; [|split; [done|rewrite Hai; by rewrite <-Hli]].
        rewrite <-app_assoc in Ei. etrans; [exact Ei|]. kdone.
Qed.

(** What is typed is what is read.  After any keys, edited and committed as
    the editor says, a read of [n] bytes returns the first committed line up
    to its newline, or [n] bytes of it, or what precedes an end-of-file key
    (which is kept for the next read unless nothing was read), and leaves the
    rest of the queue and the line being typed. *)
Theorem console_read_line cs n env s l q :
  Forall is_byte cs → existsb (Z.eqb ctl_P) cs = false → input_wf (k_input s) → k_locks s = [] →
  take_line n true (committed (keys cs (abs (k_input s))).1) = Some (l, q) →
  ∃ s1 i, consoleintr cs env s = Done tt s1 env ∧
    consoleread_from n (Z.of_nat n) [] env (s1 <| k_locks := [LkCons] |>) =
      Done (true, l) (s1 <| k_locks := [LkCons] |> <| k_input := i |>) env ∧
    input_wf i ∧ abs i = Ed q (line (keys cs (abs (k_input s))).1).
Proof.
  intros Hb Hp Hw Hl Hq. unfold consoleintr. rewrite (bind_done _ _ _ _ _ _ _ (acquire_ok LkCons env s ltac:(rewrite Hl; apply not_elem_of_nil))).
  set (s0 := s <| k_locks ::= cons LkCons |>).
  destruct (consolekeys_refines cs false env s0 Hb Hw) as (s' & E & Hl' & Hw' & Ha & _); [unfold s0; simpl; rewrite Hl; set_solver|].
  change (k_input s0) with (k_input s) in Ha. rewrite <-Ha in *.
  destruct (consoleread_from_ok n (Z.of_nat n) [] env (s' <| k_locks := [] |> <| k_locks := [LkCons] |>) l q) as (i & Ei & Hi);
    [done|simpl; lia|done|].
  exists (s' <| k_locks := [] |>), i. split; [|by split].
  run E. rewrite Hp. cbn [orb].
  erewrite bind_done by (apply release_ok; rewrite Hl'; unfold s0; simpl; by rewrite Hl). done.
Qed.

Lemma console_read_line_witness :
  ∃ s1 i, consoleintr [97; 98; 8; 99; 13; 120] [] console_idle = Done tt s1 [] ∧
    consoleread_from 10 10 [] [] (s1 <| k_locks := [LkCons] |>) =
      Done (true, [97; 99; 10]) (s1 <| k_locks := [LkCons] |> <| k_input := i |>) [] ∧ abs i = Ed [] [120].
Proof.
  destruct (console_read_line [97; 98; 8; 99; 13; 120] 10 [] console_idle [97; 99; 10] []) as (s1 & i & E1 & E2 & _ & E3).
  - repeat constructor; discriminate.
  - reflexivity.
  - exact console_idle_wf.
  - reflexivity.
  - reflexivity.
  - exists s1, i. split; [exact E1|]. split; [exact E2|exact E3].
Defined.

(** ** The screen *)
Import Cga.

Record cga_ok (d : cga) : Prop := { cg_pos : 0 ≤ pos d < 1920; cg_crt : length (crt d) = 2000%nat }.

Lemma cgaputc_ok c d : cga_ok d → ∃ d', cgaputc c d = Some d' ∧ cga_ok d'.
Proof.
  intros [Hp Hl]. unfold cgaputc.
  assert (H : ∀ p l, 0 ≤ p ≤ 1920 → length l = 2000%nat →
    ∃ d', (if (p <? 0) || (25 * 80 <? p) then None else
      let '(pos, crt) := if 24 <=? p / 80 then (p - 80, blank (p - 80) (scroll l)) else (p, l) in
      Some (CGA pos (<[Z.to_nat pos := Z.lor 32 1792]> crt))) = Some d' ∧ cga_ok d').
  { intros p l Hpl Hll. rewrite (proj2 (Z.ltb_ge p 0)), (proj2 (Z.ltb_ge (25 * 80) p)) by lia. cbn [orb].
    destruct (Z.leb_spec 24 (p / 80)) as [H24|H24].
    - assert (1920 ≤ p) by (pose proof (Z.mul_div_le p 80 ltac:(lia)); lia).
      eexists. split; [reflexivity|]. split; simpl; [lia|]. unfold blank, scroll.
      by rewrite length_insert, !length_inserts.
    - assert (p < 1920) by (pose proof (Z.mod_pos_bound p 80 ltac:(lia)); pose proof (Z.div_mod p 80 ltac:(lia)); lia).
      eexists. split; [reflexivity|]. split; simpl; [lia|]. by rewrite length_insert. }
  destruct (c =? 10); [|destruct (c =? BACKSPACE)].
  - apply H; [|done]. pose proof (Z.mod_pos_bound (pos d) 80 ltac:(lia)). pose proof (Z.div_mod (pos d) 80 ltac:(lia)).
    assert (pos d / 80 ≤ 23) by (apply Z.lt_succ_r, Z.div_lt_upper_bound; lia). lia.
  - apply H; [|done]. destruct (Z.ltb_spec 0 (pos d)); lia.
  - apply H; [lia|]. by rewrite length_insert.
Qed.

(** The console never panics on output: whatever characters are written
    and in whatever order, backspaces and newlines included, the cursor stays
    on the first 24 rows and every store is inside the screen memory. *)
Theorem cga_never_panics out d : cga_ok d → ∃ d', screen d out = Some d' ∧ cga_ok d'.
Proof.
  intros Hd. induction out as [|c out IH]; [by exists d|].
  destruct IH as (d1 & E1 & H1). simpl. rewrite E1. by apply cgaputc_ok.
Qed.

Lemma cga_never_panics_witness :
  ∃ d', screen (CGA 1919 (replicate 2000 0)) [10; 256; 65; 10] = Some d' ∧ cga_ok d'.
Proof.
  apply (cga_never_panics [10; 256; 65; 10] (CGA 1919 (replicate 2000 0))).
  split; [simpl; lia|reflexivity].
Defined.
