(* ===== verification/Grep.v ===== *)
(** * grep and wc (grep.c, wc.c)

    The regular expression matcher and the two filters.  A C string is the
    list of its bytes before the terminating zero, so [re[0] == '\0'] is the
    test for the empty list.  A file being read is the list of its bytes; the
    sizes [read] returns are an argument, because a pipe or a terminal returns
    less than asked for.

    The results: the matcher decides the language of the expression it
    parses; [grep] prints exactly the matching lines of a file whose lines fit
    its buffer; and [wc] counts the same whatever [read] returns. *)
From S2P Require Import Prelude.

Definition STAR : Z := 42.
Definition DOT : Z := 46.
Definition CARET : Z := 94.
Definition DOLLAR : Z := 36.
Definition NL : Z := 10.

(** ** The matcher *)

(** [matchstar(c, re, text)], where [here] is [matchhere(re, .)]. *)
Fixpoint matchstar (here : list Z → bool) (c : Z) (text : list Z) : bool :=
  here text ||
  match text with
  | [] => false
  | t :: text => if (t =? c) || (c =? DOT) then matchstar here c text else false
  end.

Fixpoint matchhere (re text : list Z) : bool :=
  match re with
  | [] => true
  | c :: re1 =>
      match re1 with
      | [] =>
          if c =? DOLLAR then (match text with [] => true | _ => false end)
          else match text with
               | [] => false
               | t :: text => if (c =? DOT) || (c =? t) then matchhere re1 text else false
               end
      | d :: re2 =>
          if d =? STAR then matchstar (matchhere re2) c text
          else match text with
               | [] => false
               | t :: text => if (c =? DOT) || (c =? t) then matchhere re1 text else false
               end
      end
  end.

(** The loop of [match] over the suffixes of [text]. *)
Fixpoint match_from (re text : list Z) : bool :=
  matchhere re text || match text with [] => false | _ :: text => match_from re text end.

Definition match_ (re text : list Z) : bool :=
  match re with
  | c :: re1 => if c =? CARET then matchhere re1 text else match_from re text
  | [] => match_from re text
  end.

(** ** What the matcher means *)
Inductive item := One (c : Z) | Star (c : Z).

(** A character of an expression stands for itself, or for any one. *)
Definition char_ok (c x : Z) : Prop := c = DOT ∨ c = x.

(** The items of an expression and whether it ends in [$]. *)
Fixpoint parse (re : list Z) : list item * bool :=
  match re with
  | [] => ([], false)
  | c :: re1 =>
      match re1 with
      | [] => if c =? DOLLAR then ([], true) else ([One c], false)
      | d :: re2 =>
          if d =? STAR then let '(l, e) := parse re2 in (Star c :: l, e)
          else let '(l, e) := parse re1 in (One c :: l, e)
      end
  end.

Inductive lang : list item → list Z → Prop :=
| lang_nil : lang [] []
| lang_one c x l w : char_ok c x → lang l w → lang (One c :: l) (x :: w)
| lang_star_end c l w : lang l w → lang (Star c :: l) w
| lang_star c x l w : char_ok c x → lang (Star c :: l) w → lang (Star c :: l) (x :: w).

(** [text] starts with a word of the expression, or is one if the expression
    ends in [$]. *)
Definition starts_with (re text : list Z) : Prop :=
  ∃ w rest, text = w ++ rest ∧ lang (parse re).1 w ∧ ((parse re).2 = true → rest = []).

Definition matches (re text : list Z) : Prop :=
  match re with
  | c :: re1 => if c =? CARET then starts_with re1 text else ∃ pre suf, text = pre ++ suf ∧ starts_with re suf
  | [] => ∃ pre suf, text = pre ++ suf ∧ starts_with re suf
  end.

Definition starts (l : list item) (e : bool) (text : list Z) : Prop :=
  ∃ w rest, text = w ++ rest ∧ lang l w ∧ (e = true → rest = []).

Lemma starts_nil e text : starts [] e text ↔ (e = true → text = []).
Proof.
  split.
  - intros (w & rest & -> & Hl & He). inversion Hl; subst. exact He.
  - intros He. exists [], text. split; [done|]. split; [constructor|done].
Qed.

Lemma starts_one c l e text :
  starts (One c :: l) e text ↔ ∃ x text', text = x :: text' ∧ char_ok c x ∧ starts l e text'.
Proof.
  split.
  - intros (w & rest & -> & Hl & He). inversion Hl; subst. eexists x, (_ ++ rest). split; [done|]. split; [done|].
    by eexists _, rest.
  - intros (x & text' & -> & Hc & w & rest & -> & Hl & He). exists (x :: w), rest. split; [done|].
    split; [by constructor|done].
Qed.

Lemma starts_star c l e text :
  starts (Star c :: l) e text ↔
    starts l e text ∨ ∃ x text', text = x :: text' ∧ char_ok c x ∧ starts (Star c :: l) e text'.
Proof.
  split.
  - intros (w & rest & -> & Hl & He). inversion Hl; subst.
    + left. by exists w, rest.
    + right. eexists x, (_ ++ rest). split; [done|]. split; [done|]. by eexists _, rest.
  - intros [(w & rest & -> & Hl & He)|(x & text' & -> & Hc & w & rest & -> & Hl & He)].
    + exists w, rest. split; [done|]. split; [by constructor|done].
    + exists (x :: w), rest. split; [done|]. split; [by apply lang_star|done].
Qed.

Lemma char_test c t : (c =? DOT) || (c =? t) = true ↔ char_ok c t.
Proof. unfold char_ok. by rewrite orb_true_iff, !Z.eqb_eq. Qed.

Lemma matchstar_spec here c l e text :
  (∀ text, here text = true ↔ starts l e text) →
  matchstar here c text = true ↔ starts (Star c :: l) e text.
Proof.
  intros Hh. induction text as [|t text IH]; cbn [matchstar]; rewrite starts_star, orb_true_iff, Hh.
  - split; [by intros [|]; [left|]|]. intros [|(x & text' & ? & _)]; [by left|done].
  - rewrite (orb_comm (t =? c)), (Z.eqb_sym t c).
    destruct ((c =? DOT) || (c =? t)) eqn:E.
    + apply char_test in E. rewrite IH. split; (intros [|H]; [by left|right]).
      * by exists t, text.
      * by destruct H as (x & text' & [= <- <-] & _ & H).
    + split; [intros [|]; [by left|done]|]. intros [|(x & text' & [= <- <-] & Hc & _)]; [by left|].
      apply char_test in Hc. congruence.
Qed.

Lemma parse_cons2 c d re2 :
  parse (c :: d :: re2) = if d =? STAR then (Star c :: (parse re2).1, (parse re2).2)
                          else (One c :: (parse (d :: re2)).1, (parse (d :: re2)).2).
Proof.
  change (parse (c :: d :: re2)) with
    (if d =? STAR then let '(l, e) := parse re2 in (Star c :: l, e)
     else let '(l, e) := parse (d :: re2) in (One c :: l, e)).
  destruct (d =? STAR); [by destruct (parse re2)|by destruct (parse (d :: re2))].
Qed.

Lemma matchhere_spec re text : matchhere re text = true ↔ starts_with re text.
Proof.
  change (starts_with re text) with (starts (parse re).1 (parse re).2 text).
  remember (length re) as n eqn:Hn. revert re Hn text.
  induction (lt_wf n) as [n _ IH]. intros re -> text.
  assert (Hone : ∀ c re1 text, (length re1 < length re)%nat →
    match text with [] => false | t :: text => if (c =? DOT) || (c =? t) then matchhere re1 text else false end = true ↔
    starts (One c :: (parse re1).1) (parse re1).2 text).
  { intros c re1 tx Hlt. rewrite starts_one. destruct tx as [|t tx].
    - split; [done|]. by intros (x & ? & ? & _).
    - destruct (_ || _) eqn:E.
      + rewrite (IH _ Hlt re1 eq_refl tx). apply char_test in E. split; [intros; by exists t, tx|].
        by intros (x & text' & [= <- <-] & _ & H).
      + split; [done|]. intros (x & text' & [= <- <-] & Hc & _). apply char_test in Hc. congruence. }
  destruct re as [|c [|d re2]].
  - cbn. rewrite starts_nil. done.
  - cbn [matchhere parse]. destruct (c =? DOLLAR).
    + rewrite starts_nil. cbn [fst snd]. destruct text; split; try done. intros H. by specialize (H eq_refl).
    + apply (Hone c [] text). simpl. lia.
  - rewrite parse_cons2. cbn [matchhere]. destruct (d =? STAR); cbn [fst snd].
    + apply matchstar_spec. intros tx. apply (IH (length re2)); [simpl; lia|done].
    + apply (Hone c (d :: re2) text). simpl. lia.
Qed.

Lemma match_from_spec re text : match_from re text = true ↔ ∃ pre suf, text = pre ++ suf ∧ starts_with re suf.
Proof.
  induction text as [|t text IH]; cbn [match_from]; rewrite orb_true_iff, matchhere_spec.
  - split; [intros [|]; [by exists [], []|done]|]. intros ([|? ?] & [|? ?] & ? & ?); try done. by left.
  - rewrite IH. split.
    + intros [|(pre & suf & -> & H)]; [by exists [], (t :: text)|by exists (t :: pre), suf].
    + intros ([|x pre] & suf & E & H); [by left; simpl in E; subst|]. injection E as -> ->. right. by exists pre, suf.
Qed.

(** C27. The matcher is right: for every expression and every text, [match]
    returns true exactly when the text contains (or, after [^], starts with;
    before a final [$], ends with) a word of the language of the expression's
    characters, dots and starred characters. *)
Theorem match_decides_language re text : match_ re text = true ↔ matches re text.
Proof.
  unfold match_, matches. destruct re as [|c re1]; [apply match_from_spec|].
  destruct (c =? CARET); [apply matchhere_spec|apply match_from_spec].
Qed.

(** ** The filters *)

(** What [read(fd, p, n)] returns of the bytes [rest] still in the file; the
    first of [sizes] bounds this read, and a regular file has no bounds. *)
Definition read_file (sizes : list nat) (n : nat) (rest : list Z) : list Z :=
  take (match sizes with [] => n | k :: _ => Nat.min n (Nat.max 1 k) end) rest.

(** [strchr(p, '\n')]: the bytes before it and those after it. *)
Fixpoint strchr_nl (p : list Z) : option (list Z * list Z) :=
  match p with
  | [] => None
  | c :: p =>
      if c =? 0 then None
      else if c =? NL then Some ([], p)
      else match strchr_nl p with Some (a, b) => Some (c :: a, b) | None => None end
  end.

(** The loop over the lines of the buffer: what it writes and the final [p]. *)
Fixpoint grep_lines (fuel : nat) (pattern p : list Z) : list Z * list Z :=
  match fuel with
  | O => ([], p)
  | S fuel =>
      match strchr_nl p with
      | None => ([], p)
      | Some (line, p) =>
          let '(out, r) := grep_lines fuel pattern p in
          ((if match_ pattern line then line ++ [NL] else []) ++ out, r)
      end
  end.

(** [m] bytes [buf] are kept between two reads; [None] when [fuel] runs out. *)
Definition GREPBUF : nat := 1024.
Fixpoint grep_from (fuel : nat) (pattern : list Z) (sizes : list nat) (buf rest : list Z) : option (list Z) :=
  match fuel with
  | O => None
  | S fuel =>
      let got := read_file sizes (GREPBUF - length buf - 1) rest in
      match got with
      | [] => Some []
      | _ =>
          let b := buf ++ got in
          let '(out, p) := grep_lines (length b) pattern b in
          let buf := if (length p =? length b)%nat then [] else p in
          match grep_from fuel pattern (tail sizes) buf (drop (length got) rest) with
          | Some out' => Some (out ++ out')
          | None => None
          end
      end
  end.
Definition grep (pattern : list Z) (sizes : list nat) (file : list Z) : option (list Z) :=
  grep_from (S (length file)) pattern sizes [] file.

(** wc.c *)
Record counts := Counts { wl : Z; ww : Z; wch : Z; inword : bool }.
Definition is_space (c : Z) : bool := (c =? 32) || (c =? 13) || (c =? 9) || (c =? NL) || (c =? 11).

Definition wc_byte (k : counts) (c : Z) : counts :=
  let ch := s32 (wch k + 1) in
  let l := if c =? NL then s32 (wl k + 1) else wl k in
  if is_space c then Counts l (ww k) ch false
  else if negb (inword k) then Counts l (s32 (ww k + 1)) ch true
  else Counts l (ww k) ch (inword k).

Fixpoint wc_from (fuel : nat) (sizes : list nat) (k : counts) (rest : list Z) : option counts :=
  match fuel with
  | O => None
  | S fuel =>
      match read_file sizes 512 rest with
      | [] => Some k
      | got => wc_from fuel (tail sizes) (foldl wc_byte k got) (drop (length got) rest)
      end
  end.
Definition wc (sizes : list nat) (file : list Z) : option counts :=
  wc_from (S (length file)) sizes (Counts 0 0 0 false) file.

(** ** wc *)

(** The words of a text: the places where one starts. *)
Fixpoint words (prev : bool) (l : list Z) : Z :=
  match l with
  | [] => 0
  | c :: l => (if negb (is_space c) && negb prev then 1 else 0) + words (negb (is_space c)) l
  end.
Fixpoint newlines (l : list Z) : Z :=
  match l with [] => 0 | c :: l => (if c =? NL then 1 else 0) + newlines l end.

Lemma read_some sizes n rest : (0 < n)%nat → rest ≠ [] →
  ∃ k, read_file sizes n rest = take (S k) rest ∧ (S k ≤ length rest)%nat ∧ (S k ≤ n)%nat ∧ length (take (S k) rest) = S k.
Proof.
  intros Hn Hr. unfold read_file. set (m := match sizes with [] => n | k :: _ => _ end).
  assert (Hm : (1 ≤ m ≤ n)%nat) by (unfold m; destruct sizes; lia).
  destruct rest as [|c rest]; [done|]. exists (Nat.min m (S (length rest)) - 1)%nat.
  replace (S _) with (Nat.min m (S (length rest))) by lia. change (S (length rest)) with (length (c :: rest)).
  rewrite length_take. split; [|simpl; lia]. destruct (decide (m ≤ length (c :: rest))%nat).
  - by rewrite Nat.min_l.
  - by rewrite Nat.min_r, !take_ge by lia.
Qed.

Lemma s32_range z : is_s32 (s32 z).
Proof. unfold s32, is_s32. pose proof (Z.mod_pos_bound (z + 2147483648) 4294967296 ltac:(lia)). lia. Qed.

Lemma wc_bytes l k : is_s32 (wl k) → is_s32 (ww k) → is_s32 (wch k) →
  let k' := foldl wc_byte k l in
  wl k' = s32 (wl k + newlines l) ∧ ww k' = s32 (ww k + words (inword k) l) ∧ wch k' = s32 (wch k + Z.of_nat (length l)).
Proof.
  revert k. induction l as [|c l IH]; intros k H1 H2 H3; cbn zeta.
  { simpl. rewrite !Z.add_0_r, !s32_small by done. done. }
  cbn [foldl newlines words length].
  assert (E1 : wl (wc_byte k c) = s32 (wl k + (if c =? NL then 1 else 0))).
  { unfold wc_byte. destruct (c =? NL), (is_space c), (negb (inword k)); simpl; rewrite ?Z.add_0_r, ?s32_small by done; done. }
  assert (E2 : ww (wc_byte k c) = s32 (ww k + (if negb (is_space c) && negb (inword k) then 1 else 0))).
  { unfold wc_byte. destruct (is_space c), (negb (inword k)); simpl; rewrite ?Z.add_0_r, ?s32_small by done; done. }
  assert (E3 : wch (wc_byte k c) = s32 (wch k + 1)).
  { unfold wc_byte. by destruct (is_space c), (negb (inword k)). }
  assert (E4 : inword (wc_byte k c) = negb (is_space c)).
  { unfold wc_byte. by destruct (is_space c), (inword k). }
  destruct (IH (wc_byte k c)) as (F1 & F2 & F3); [rewrite ?E1, ?E2, ?E3; apply s32_range..|].
  rewrite F1, F2, F3, E1, E2, E3, E4, !s32_add. split; [f_equal; lia|]. split; f_equal; lia.
Qed.

Lemma wc_from_whole fuel sizes k rest : (length rest < fuel)%nat →
  wc_from fuel sizes k rest = Some (foldl wc_byte k rest).
Proof.
  revert sizes k rest. induction fuel as [|fuel IH]; intros sizes k rest Hf; [lia|].
  cbn [wc_from]. destruct rest as [|c rest']; [unfold read_file; by rewrite take_nil|]. set (rest := c :: rest') in *.
  destruct (read_some sizes 512 rest) as (n & -> & Hn & _ & Hl); [lia|done|].
  destruct (take (S n) rest) as [|x got] eqn:E; [done|]. rewrite <-E in *. rewrite IH by (rewrite length_drop; lia).
  rewrite <-(take_drop (S n) rest) at 4. by rewrite foldl_app, Hl.
Qed.

(** [wc] ends and counts the newlines, the words (maximal runs of
    characters that are not white space) and the bytes of the file, modulo
    2^32, no matter how [read] cuts the file into pieces: a word is counted
    once even when it spans several reads. *)
Theorem wc_counts sizes file :
  ∃ k, wc sizes file = Some k ∧ wl k = s32 (newlines file) ∧ ww k = s32 (words false file) ∧
    wch k = s32 (Z.of_nat (length file)).
Proof.
  eexists. split; [apply wc_from_whole; lia|].
  apply (wc_bytes file (Counts 0 0 0 false)); unfold is_s32; simpl; lia.
Qed.

(** ** grep *)

(** The complete lines of a text. *)
Fixpoint complete_lines (l : list Z) (cur : list Z) : list (list Z) :=
  match l with
  | [] => []
  | c :: l => if c =? NL then cur :: complete_lines l [] else complete_lines l (cur ++ [c])
  end.

(** What grep means to print. *)
Definition matching_lines (pattern file : list Z) : list Z :=
  concat ((λ l, if match_ pattern l then l ++ [NL] else []) <$> complete_lines file []).

(** The text after the last newline. *)
Fixpoint partial_line (l cur : list Z) : list Z :=
  match l with
  | [] => cur
  | c :: l => if c =? NL then partial_line l [] else partial_line l (cur ++ [c])
  end.

Lemma complete_lines_app l1 l2 cur :
  complete_lines (l1 ++ l2) cur = complete_lines l1 cur ++ complete_lines l2 (partial_line l1 cur).
Proof. revert cur. induction l1 as [|c l1 IH]; intros cur; [done|]. simpl. destruct (c =? NL); simpl; by rewrite IH. Qed.
Lemma partial_line_app l1 l2 cur : partial_line (l1 ++ l2) cur = partial_line l2 (partial_line l1 cur).
Proof. revert cur. induction l1 as [|c l1 IH]; intros cur; [done|]. simpl. destruct (c =? NL); by rewrite IH. Qed.

Lemma strchr_nl_spec p : 0 ∉ p →
  match strchr_nl p with
  | Some (line, p') => p = line ++ NL :: p' ∧ NL ∉ line
  | None => NL ∉ p
  end.
Proof.
  induction p as [|c p IH]; intros H0; simpl; [apply not_elem_of_nil|].
  apply not_elem_of_cons in H0 as [Hc H0]. rewrite (proj2 (Z.eqb_neq c 0)) by done. specialize (IH H0).
  destruct (Z.eqb_spec c NL) as [->|Hn]; [split; [done|apply not_elem_of_nil]|].
  destruct (strchr_nl p) as [[a b]|]; [|set_solver]. destruct IH as [-> ?]. split; [done|set_solver].
Qed.

(** A text without newlines is one partial line. *)
Lemma no_newline l cur : NL ∉ l → complete_lines l cur = [] ∧ partial_line l cur = cur ++ l.
Proof.
  revert cur. induction l as [|c l IH]; intros cur Hn; simpl; [by rewrite app_nil_r|].
  apply not_elem_of_cons in Hn as [Hc Hn]. rewrite (proj2 (Z.eqb_neq c NL)) by done.
  destruct (IH (cur ++ [c]) Hn) as [-> ->]. by rewrite <-app_assoc.
Qed.

Lemma grep_lines_spec fuel pattern p : 0 ∉ p → (length p ≤ fuel)%nat →
  grep_lines fuel pattern p =
    (concat ((λ l, if match_ pattern l then l ++ [NL] else []) <$> complete_lines p []), partial_line p []).
Proof.
  revert p. induction fuel as [|fuel IH]; intros p H0 Hf; [destruct p; [done|simpl in Hf; lia]|].
  cbn [grep_lines]. pose proof (strchr_nl_spec p H0) as Hs. destruct (strchr_nl p) as [[line p']|].
  - destruct Hs as [-> Hl]. rewrite length_app in Hf. simpl in Hf.
    rewrite IH; [|set_solver|lia].
    rewrite complete_lines_app, partial_line_app. destruct (no_newline line [] Hl) as [-> ->]. done.
  - by destruct (no_newline p [] Hs) as [-> ->].
Qed.

Lemma partial_line_clean l cur : NL ∉ cur → NL ∉ partial_line l cur.
Proof.
  revert cur. induction l as [|c l IH]; intros cur Hn; simpl; [done|].
  destruct (Z.eqb_spec c NL); apply IH; [apply not_elem_of_nil|set_solver].
Qed.
Lemma partial_line_le l cur : (length (partial_line l cur) ≤ length cur + length l)%nat.
Proof.
  revert cur. induction l as [|c l IH]; intros cur; simpl; [lia|].
  destruct (c =? NL); [specialize (IH [])|specialize (IH (cur ++ [c]))]; rewrite ?length_app in IH; simpl in IH; lia.
Qed.
Lemma partial_line_lt l cur : NL ∈ l → (length (partial_line l cur) < length cur + length l)%nat.
Proof.
  revert cur. induction l as [|c l IH]; intros cur Hn; [by apply elem_of_nil in Hn|]. simpl.
  destruct (Z.eqb_spec c NL).
  - pose proof (partial_line_le l []). simpl in *. lia.
  - apply elem_of_cons in Hn as [|Hn]; [done|]. specialize (IH (cur ++ [c]) Hn). rewrite length_app in IH. simpl in IH. lia.
Qed.
Lemma partial_line_sub l cur x : x ∈ partial_line l cur → x ∈ cur ∨ x ∈ l.
Proof.
  revert cur. induction l as [|c l IH]; intros cur H; simpl in H; [by left|].
  destruct (c =? NL); apply IH in H; set_solver.
Qed.
Lemma first_line_long l cur : NL ∈ l → ∃ x ls, complete_lines l cur = x :: ls ∧ (length cur ≤ length x)%nat.
Proof.
  revert cur. induction l as [|c l IH]; intros cur Hn; [by apply elem_of_nil in Hn|]. simpl.
  destruct (Z.eqb_spec c NL); [by exists cur, (complete_lines l [])|].
  apply elem_of_cons in Hn as [|Hn]; [done|]. destruct (IH (cur ++ [c]) Hn) as (x & ls & E & Hx).
  exists x, ls. split; [done|]. rewrite length_app in Hx. lia.
Qed.

Definition short (l : list Z) : Prop := (length l ≤ 1022)%nat.

Lemma grep_from_spec fuel pattern buf rest :
  0 ∉ buf ++ rest → NL ∉ buf → (length buf ≤ 1022)%nat → Forall short (complete_lines (buf ++ rest) []) →
  (length rest < fuel)%nat →
  grep_from fuel pattern [] buf rest =
    Some (concat ((λ l, if match_ pattern l then l ++ [NL] else []) <$> complete_lines (buf ++ rest) [])).
Proof.
  revert buf rest. induction fuel as [|fuel IH]; intros buf rest H0 Hn Hb Hs Hf; [lia|].
  cbn [grep_from tail]. destruct rest as [|c rest1].
  { unfold read_file. rewrite take_nil, app_nil_r. by destruct (no_newline buf [] Hn) as [-> _]. }
  set (rest := c :: rest1) in *. unfold GREPBUF.
  destruct (read_some [] (1024 - length buf - 1) rest) as (n & E & Hn1 & Hn2 & Hl); [lia|done|].
  clearbody rest.
  assert (Hfill : S n = (1024 - length buf - 1)%nat ∨ S n = length rest).
  { apply (f_equal length) in E. unfold read_file in E. rewrite Hl, length_take in E. lia. }
  rewrite E. destruct (take (S n) rest) as [|x got'] eqn:Eg; [done|]. rewrite <-Eg in *. clear x got' Eg E.
  rewrite Hl. set (b := buf ++ take (S n) rest).
  assert (Hsplit : buf ++ rest = b ++ drop (S n) rest) by (unfold b; by rewrite <-app_assoc, take_drop).
  rewrite Hsplit in *. rewrite grep_lines_spec by (done || set_solver).
  rewrite complete_lines_app in *. set (p := partial_line b []) in *.
  assert (Hp : NL ∉ p) by (apply partial_line_clean, not_elem_of_nil).
  assert (Hlen : length b = (length buf + S n)%nat) by (unfold b; by rewrite length_app, Hl).
  rewrite fmap_app, concat_app. apply Forall_app in Hs as [Hs1 Hs2].
  destruct (Nat.eqb_spec (length p) (length b)) as [El|El].
  - assert (Hnb : NL ∉ b).
    { intros Hin. pose proof (partial_line_lt b [] Hin). simpl in *. unfold p in El. lia. }
    assert (Hr : complete_lines (drop (S n) rest) p = [] ∧ NL ∉ drop (S n) rest).
    { destruct (decide (NL ∈ drop (S n) rest)) as [Hin|Hin]; [|split; [by apply no_newline|done]]. exfalso.
      destruct (first_line_long _ p Hin) as (y & ls & Ey & Hy). rewrite Ey in Hs2.
      apply Forall_cons in Hs2 as [Hs2 _]. unfold short in Hs2. destruct Hfill as [Hfi|Hfi]; [lia|].
      rewrite drop_ge in Hin by lia. by apply elem_of_nil in Hin. }
    destruct Hr as [-> Hr]. destruct (no_newline _ [] Hr) as [Ec _].
    rewrite IH; [|set_solver|apply not_elem_of_nil|simpl; lia|simpl; by rewrite Ec|rewrite length_drop; lia].
    simpl. rewrite Ec. done.
  - assert (Hlp : (length p < length b)%nat) by (pose proof (partial_line_le b []); simpl in *; unfold p in *; lia).
    assert (Hc : complete_lines (p ++ drop (S n) rest) [] = complete_lines (drop (S n) rest) p).
    { rewrite complete_lines_app. by destruct (no_newline p [] Hp) as [-> ->]. }
    rewrite IH; [by rewrite Hc| |done|lia|by rewrite Hc|rewrite length_drop; lia].
    intros H. apply elem_of_app in H as [H|H]; [|set_solver].
    apply partial_line_sub in H. set_solver.
Qed.

(** [grep] on a file whose lines are shorter than its buffer (and have no
    zero bytes) ends and prints exactly the complete lines that match, each
    with its newline, in order, although the file is read in pieces that cut
    lines in two. *)
Theorem grep_prints_matches pattern file :
  0 ∉ file → Forall short (complete_lines file []) →
  grep pattern [] file = Some (matching_lines pattern file).
Proof.
  intros H0 Hs. unfold grep. rewrite grep_from_spec; [done|done|apply not_elem_of_nil|simpl; lia|done|lia].
Qed.

Lemma grep_prints_matches_witness :
  grep [97; 42; 98; 36] [] [97; 97; 98; 10; 99; 10; 98; 10; 98] = Some [97; 97; 98; 10; 98; 10].
Proof.
  rewrite (grep_prints_matches [97; 42; 98; 36] [97; 97; 98; 10; 99; 10; 98; 10; 98]).
  - vm_compute. reflexivity.
  - rewrite list_elem_of_In. simpl. lia.
  - repeat constructor; unfold short; simpl; lia.
Defined.

(** A line that arrives in two pieces, the first without a newline (as from a
    terminal or a pipe), is lost: its first half is thrown away. *)
Lemma grep_drops_split_line : grep [97; 98] [1%nat; 2%nat] [97; 98; 10] = Some [].
Proof. reflexivity. Qed.
