(* ===== verification/Spinlock.v ===== *)
(** * Spin locks (spinlock.c)

    Two views of spinlock.c.  [Seq] has its functions as they run on one CPU
    (the configuration of param.h: [NCPU] is 1), with the interrupt flag and
    the fields [ncli] and [intena] of [struct cpu]; the theorem is that they
    implement the set of held locks of Sync, on which the model of the kernel
    is built, including every panic.  [Smp] has the same code on any number of
    CPUs as a step relation, one step per access to shared memory; the theorem
    is mutual exclusion, with interrupts off in every critical section. *)
From S2P Require Import Prelude State Sync.

Record spinlock := SpinLock { locked : Z; lcpu : option nat }.
#[global] Instance eta_spinlock : Eta spinlock := λ r, SpinLock (locked r) (lcpu r).

(** The interrupt flag of a CPU and its fields of [struct cpu]. *)
Record cpu := Cpu { ncli : Z; intena : bool; iflag : bool }.
#[global] Instance eta_cpu : Eta cpu := λ r, Cpu (ncli r) (intena r) (iflag r).

(** [pushcli] and [popcli] touch nothing but their CPU; [None] is a panic. *)
Definition pushcli (c : cpu) : cpu :=
  let eflags := iflag c in
  let c := c <| iflag := false |> in
  let c := if ncli c =? 0 then c <| intena := eflags |> else c in
  c <| ncli ::= λ n, n + 1 |>.

Definition popcli (c : cpu) : option cpu :=
  if iflag c then None else
  let c := c <| ncli ::= λ n, n - 1 |> in
  if ncli c <? 0 then None else
  Some (if (ncli c =? 0) && intena c then c <| iflag := true |> else c).

(** ** Helpers *)
Lemma elem_of_drop_lock lk held x : NoDup held → x ∈ drop_lock lk held ↔ x ∈ held ∧ x ≠ lk.
Proof.
  induction held as [|l held IH]; intros Hnd; simpl; [rewrite elem_of_nil; naive_solver|].
  apply NoDup_cons in Hnd as [Hl Hnd]. destruct (decide (l = lk)) as [->|Hne].
  - rewrite elem_of_cons. naive_solver.
  - rewrite !elem_of_cons, (IH Hnd). naive_solver.
Qed.
Lemma NoDup_drop_lock lk held : NoDup held → NoDup (drop_lock lk held).
Proof.
  induction held as [|l held IH]; intros Hnd; simpl; [done|]. apply NoDup_cons in Hnd as [Hl Hnd].
  case_decide; [done|]. apply NoDup_cons. split; [|by apply IH]. rewrite elem_of_drop_lock by done. naive_solver.
Qed.
Lemma length_drop_lock lk held : lk ∈ held → length held = S (length (drop_lock lk held)).
Proof.
  induction held as [|l held IH]; intros Hin; [by apply elem_of_nil in Hin|]. simpl.
  destruct (decide (l = lk)) as [->|Hne]; [done|]. apply elem_of_cons in Hin as [->|Hin]; [done|]. simpl. by rewrite <-IH.
Qed.

Lemma lk_insert (f : lockid → spinlock) a v x : (<[a := v]> f) x = if decide (x = a) then v else f x.
Proof. unfold insert, fn_insert. by repeat case_decide. Qed.
Lemma decide_ext {A} (P Q : Prop) `{Decision P, Decision Q} (a b : A) :
  (P ↔ Q) → (if decide P then a else b) = (if decide Q then a else b).
Proof. intros H1. repeat case_decide; naive_solver. Qed.

(** ** One CPU *)
Module Seq.
Record machine := Machine { m_locks : lockid → spinlock; m_cpu : cpu }.
#[global] Instance eta_machine : Eta machine := λ r, Machine (m_locks r) (m_cpu r).

(** The number of this CPU. *)
Definition me : nat := 0.

Definition initlock (lk : lockid) : M machine unit := modify (λ s, s <| m_locks ::= <[lk := SpinLock 0 None]> |>).

Definition push : M machine unit := modify (λ s, s <| m_cpu ::= pushcli |>).
Definition pop (env : list (machine → machine)) (s : machine) : outcome machine unit :=
  match popcli (m_cpu s) with
  | Some c => Done tt (s <| m_cpu := c |>) env
  | None => Panic "popcli"
  end.

Definition holding (lk : lockid) : M machine bool :=
  push ;;
  r <- gets (λ s, negb (locked (m_locks s lk) =? 0) && bool_decide (lcpu (m_locks s lk) = Some me)) ;;
  pop ;;
  ret r.

(** [while(xchg(&lk->locked, 1) != 0)]: with interrupts off on the only CPU a
    lock that is taken stays taken. *)
Definition spin (lk : lockid) : M machine unit := λ env s,
  if locked (m_locks s lk) =? 0 then Done tt (s <| m_locks ::= <[lk := SpinLock 1 (lcpu (m_locks s lk))]> |>) env
  else Asleep s.

Definition acquire (lk : lockid) : M machine unit :=
  push ;;
  h <- holding lk ;;
  if h : bool then panic "acquire" else
  spin lk ;;
  modify (λ s, s <| m_locks ::= <[lk := SpinLock (locked (m_locks s lk)) (Some me)]> |>).

Definition release (lk : lockid) : M machine unit :=
  h <- holding lk ;;
  if negb h then panic "release" else
  modify (λ s, s <| m_locks ::= <[lk := SpinLock (locked (m_locks s lk)) None]> |>) ;;
  modify (λ s, s <| m_locks ::= <[lk := SpinLock 0 (lcpu (m_locks s lk))]> |>) ;;
  pop.

(** *** Refinement of the set of held locks *)

(** The locks that are taken are those of the set, all by this CPU; [ncli]
    counts them, and interrupts are off while there are any; [intr] is the
    interrupt flag outside of critical sections. *)
Record represents (intr : bool) (held : list lockid) (s : machine) : Prop := {
  rp_locks lk : m_locks s lk = if decide (lk ∈ held) then SpinLock 1 (Some me) else SpinLock 0 None;
  rp_nodup : NoDup held;
  rp_ncli : ncli (m_cpu s) = Z.of_nat (length held);
  rp_iflag : iflag (m_cpu s) = if held is [] then intr else false;
  rp_intena : held ≠ [] → intena (m_cpu s) = intr }.

Lemma pop_push s : 0 ≤ ncli (m_cpu s) → (0 < ncli (m_cpu s) → iflag (m_cpu s) = false) →
  ∃ c, popcli (pushcli (m_cpu s)) = Some c ∧ ncli c = ncli (m_cpu s) ∧ iflag c = iflag (m_cpu s) ∧
    (0 < ncli (m_cpu s) → intena c = intena (m_cpu s)).
Proof.
  intros H0 H1. destruct s as [l [n ie f]]. simpl in *. unfold popcli, pushcli, upd. simpl.
  destruct (Z.eqb_spec n 0) as [->|Hn]; simpl.
  - destruct f; eexists; (split; [reflexivity|]); (split; [done|]); (split; [done|lia]).
  - rewrite (proj2 (Z.ltb_ge (n + 1 - 1) 0)), (proj2 (Z.eqb_neq (n + 1 - 1) 0)) by lia. cbn [andb].
    eexists. split; [reflexivity|]. simpl. split; [lia|]. split; [symmetry; apply H1; lia|done].
Qed.
(** [holding] looks at the lock and leaves the CPU as it was. *)
Lemma holding_run lk env s :
  0 ≤ ncli (m_cpu s) → (0 < ncli (m_cpu s) → iflag (m_cpu s) = false) →
  ∃ c, holding lk env s = Done (negb (locked (m_locks s lk) =? 0) && bool_decide (lcpu (m_locks s lk) = Some me))
         (s <| m_cpu := c |>) env ∧
    ncli c = ncli (m_cpu s) ∧ iflag c = iflag (m_cpu s) ∧ (0 < ncli (m_cpu s) → intena c = intena (m_cpu s)).
Proof.
  intros H0 H1. unfold holding, push. rewrite bind_modify, bind_gets.
  destruct (pop_push s H0 H1) as (c & Ep & Ec). exists c. split; [|done].
  unfold pop, bind. simpl m_cpu. rewrite Ep. unfold ret. by destruct s.
Qed.

Lemma held_test intr held lk s : represents intr held s →
  negb (locked (m_locks s lk) =? 0) && bool_decide (lcpu (m_locks s lk) = Some me) = bool_decide (lk ∈ held).
Proof.
  intros [Hlk _ _ _ _]. rewrite Hlk. case_decide.
  - by rewrite (bool_decide_eq_true_2 (lk ∈ held)).
  - by rewrite (bool_decide_eq_false_2 (lk ∈ held)).
Qed.

Lemma push_repr intr held s : represents intr held s →
  let c := pushcli (m_cpu s) in
  ncli c = Z.of_nat (S (length held)) ∧ iflag c = false ∧ intena c = intr.
Proof.
  intros [Hlk Hnd Hn Hi He]. unfold pushcli. simpl. rewrite Hn. destruct held as [|l held].
  - simpl. by rewrite Hn, Hi.
  - rewrite (proj2 (Z.eqb_neq _ 0)) by (simpl; lia). simpl. split; [rewrite Hn; simpl; lia|]. split; [done|]. by apply He.
Qed.

Lemma acquire_refines intr held lk env s : represents intr held s →
  if decide (lk ∈ held) then acquire lk env s = Panic "acquire"
  else ∃ s', acquire lk env s = Done tt s' env ∧ represents intr (lk :: held) s'.
Proof.
  intros Hr. destruct (push_repr _ _ _ Hr) as (Hn & Hi & He). pose proof Hr as [Hlk Hnd _ _ _].
  unfold acquire, push. rewrite bind_modify. set (s1 := s <| m_cpu ::= pushcli |>).
  destruct (holding_run lk env s1) as (c & E & Ec & Ei & Ee);
    [change (0 ≤ ncli (pushcli (m_cpu s))); lia|intros _; exact Hi|]. run E.
  change (m_cpu s1) with (pushcli (m_cpu s)) in Ec, Ei, Ee.
  change (m_locks s1) with (m_locks s). rewrite (held_test intr held) by done.
  destruct (decide (lk ∈ held)) as [Hin|Hin]; [rewrite bool_decide_eq_true_2 by done; reflexivity|].
  rewrite bool_decide_eq_false_2 by done. cbv iota.
  set (s2 := s1 <| m_cpu := c |>). eexists.
  erewrite bind_done by (unfold spin; simpl; rewrite Hlk, decide_False by done; simpl; reflexivity).
  split; [reflexivity|]. split; simpl.
  - intros x. rewrite !lk_insert. simpl. destruct (decide (x = lk)) as [->|Hne].
    + rewrite !(decide_True (P := lk = lk)) by done. by rewrite decide_True by apply list_elem_of_here.
    + rewrite Hlk. apply decide_ext. rewrite elem_of_cons. naive_solver.
  - by constructor.
  - rewrite Ec, Hn. done.
  - by rewrite Ei, Hi.
  - intros _. rewrite Ee by lia. done.
Qed.

Lemma release_refines intr held lk env s : represents intr held s →
  if decide (lk ∈ held) then ∃ s', release lk env s = Done tt s' env ∧ represents intr (drop_lock lk held) s'
  else release lk env s = Panic "release".
Proof.
  intros Hr. pose proof Hr as [Hlk Hnd Hn Hi He]. unfold release.
  destruct (holding_run lk env s) as (c & E & Ec & Ei & Ee);
    [lia|rewrite Hn, Hi; destruct held; [simpl; lia|done]|]. run E.
  rewrite (held_test intr held) by done. destruct (decide (lk ∈ held)) as [Hin|Hin]; [|by rewrite bool_decide_eq_false_2].
  rewrite bool_decide_eq_true_2 by done. cbn [negb]. rewrite !bind_modify.
  pose proof (length_drop_lock lk held Hin) as Hl.
  assert (Hne : held ≠ []) by (intros ->; by apply elem_of_nil in Hin).
  assert (Hc : popcli c = Some (c <| ncli := Z.of_nat (length (drop_lock lk held)) |>
    <| iflag := if drop_lock lk held is [] then intr else false |>)).
  { unfold popcli. rewrite Ei, Hi. destruct held as [|h held]; [done|]. rewrite Hn in *.
    rewrite Hl in *. set (d := drop_lock lk (h :: held)) in *. clearbody d.
    destruct c as [n ie f]. unfold upd. simpl in *. subst. replace (Z.of_nat (S (length d)) - 1) with (Z.of_nat (length d)) by lia.
    rewrite (proj2 (Z.ltb_ge _ 0)) by lia. f_equal. rewrite Ee, He, Hi by (done || lia). destruct d as [|x d]; [by destruct intr|].
    rewrite (proj2 (Z.eqb_neq _ 0)) by (simpl; lia). done. }
  unfold pop. simpl m_cpu. rewrite Hc. eexists. split; [reflexivity|]. split; simpl.
  - intros x. rewrite !lk_insert. simpl. destruct (decide (x = lk)) as [->|Hx].
    + rewrite !(decide_True (P := lk = lk)) by done.
      by rewrite decide_False by (rewrite elem_of_drop_lock by done; naive_solver).
    + rewrite Hlk. apply decide_ext. rewrite elem_of_drop_lock by done. naive_solver.
  - by apply NoDup_drop_lock.
  - done.
  - done.
  - intros _. rewrite Ee, He by (done || (rewrite Hn; destruct held; [done|simpl; lia])). done.
Qed.

(** C38. spinlock.c implements the set of held locks.  From a machine that
    represents the set a kernel state holds, [acquire] and [release] of
    spinlock.c do what those of the kernel model do: they return in a machine
    that represents the new set, or panic with the same message, and never
    spin for ever or panic in [popcli].  Interrupts are off while any lock is
    held and back as they were after the last release, in whatever order the
    locks are released. *)
Theorem spinlock_refines intr lk env s e k :
  represents intr (k_locks k) s →
  match Sync.acquire lk e k with
  | Done _ k' _ => ∃ s', acquire lk env s = Done tt s' env ∧ represents intr (k_locks k') s'
  | Panic msg => acquire lk env s = Panic msg
  | Asleep _ => False
  end ∧
  match Sync.release lk e k with
  | Done _ k' _ => ∃ s', release lk env s = Done tt s' env ∧ represents intr (k_locks k') s'
  | Panic msg => release lk env s = Panic msg
  | Asleep _ => False
  end.
Proof.
  intros Hr. pose proof (acquire_refines intr _ lk env s Hr) as Ha. pose proof (release_refines intr _ lk env s Hr) as Hl.
  unfold Sync.acquire, Sync.release. rewrite !bind_gets. by destruct (decide (lk ∈ k_locks k)).
Qed.

Definition boot : machine := Machine (λ _, SpinLock 0 None) (Cpu 0 false true).

Lemma spinlock_refines_witness :
  ∃ s', acquire LkLog [] boot = Done tt s' [] ∧ represents true [LkLog] s'.
Proof.
  destruct (spinlock_refines true LkLog [] boot [] mem_boot) as [H _].
  - split; [intros lk; reflexivity|constructor|reflexivity|reflexivity|intros H; by destruct H].
  - exact H.
Defined.
End Seq.

(** ** Any number of CPUs *)
Module Smp.

(** Where a CPU is in [acquire] or [release]: before the loads of
    [lk->locked] and [lk->cpu] in [holding], at the [xchg], before the stores
    and before [popcli]; [Dead] after a panic. *)
Inductive pc :=
| Idle
| AHold1 (lk : lockid) | AHold2 (lk : lockid) | ASpin (lk : lockid) | ASet (lk : lockid)
| RHold1 (lk : lockid) | RHold2 (lk : lockid) | RCpu (lk : lockid) | RLocked (lk : lockid) | RPop (lk : lockid)
| Dead.

(** [t_held] are the locks whose critical section the CPU is in: from the
    [xchg] that took the lock to the store that frees it. *)
Record thread := Thread { t_pc : pc; t_cpu : cpu; t_held : list lockid }.
Record smp := Smp { s_locks : lockid → spinlock; s_threads : nat → thread }.

Inductive call := Acquire (lk : lockid) | Release (lk : lockid).

(** Entering [acquire] or [release], up to the first load of [holding]. *)
Definition enter (o : call) (t : thread) : thread :=
  match o with
  | Acquire lk => Thread (AHold1 lk) (pushcli (pushcli (t_cpu t))) (t_held t)
  | Release lk => Thread (RHold1 lk) (pushcli (t_cpu t)) (t_held t)
  end.

(** [popcli] and on to [p]. *)
Definition popped (p : pc) (t : thread) : thread :=
  match popcli (t_cpu t) with
  | Some c => Thread p c (t_held t)
  | None => Thread Dead (t_cpu t) (t_held t)
  end.

(** One access to shared memory by CPU [i]. *)
Definition access (i : nat) (l : lockid → spinlock) (t : thread) : (lockid → spinlock) * thread :=
  match t_pc t with
  | Idle | Dead => (l, t)
  | AHold1 lk => (l, if locked (l lk) =? 0 then popped (ASpin lk) t else Thread (AHold2 lk) (t_cpu t) (t_held t))
  | AHold2 lk => (l, if decide (lcpu (l lk) = Some i) then Thread Dead (t_cpu t) (t_held t) else popped (ASpin lk) t)
  | ASpin lk =>
      (<[lk := SpinLock 1 (lcpu (l lk))]> l,
       if locked (l lk) =? 0 then Thread (ASet lk) (t_cpu t) (lk :: t_held t) else t)
  | ASet lk => (<[lk := SpinLock (locked (l lk)) (Some i)]> l, Thread Idle (t_cpu t) (t_held t))
  | RHold1 lk => (l, if locked (l lk) =? 0 then Thread Dead (t_cpu t) (t_held t) else Thread (RHold2 lk) (t_cpu t) (t_held t))
  | RHold2 lk => (l, if decide (lcpu (l lk) = Some i) then popped (RCpu lk) t else Thread Dead (t_cpu t) (t_held t))
  | RCpu lk => (<[lk := SpinLock (locked (l lk)) None]> l, Thread (RLocked lk) (t_cpu t) (t_held t))
  | RLocked lk => (<[lk := SpinLock 0 (lcpu (l lk))]> l, Thread (RPop lk) (t_cpu t) (drop_lock lk (t_held t)))
  | RPop lk => (l, popped Idle t)
  end.

Inductive step : smp → smp → Prop :=
| step_call i o s : t_pc (s_threads s i) = Idle →
    step s (Smp (s_locks s) (<[i := enter o (s_threads s i)]> (s_threads s)))
| step_access i s l t : access i (s_locks s) (s_threads s i) = (l, t) →
    step s (Smp l (<[i := t]> (s_threads s))).

(** The machine after [initlock] of every lock; [intr i] is the interrupt flag
    of CPU [i]. *)
Definition start (intr : nat → bool) : smp :=
  Smp (λ _, SpinLock 0 None) (λ i, Thread Idle (Cpu 0 false (intr i)) []).

Definition reachable (intr : nat → bool) : smp → Prop := rtc step (start intr).

(** *** The invariant *)

(** [ncli] less the number of locks held. *)
Definition extra (p : pc) : Z :=
  match p with
  | AHold1 _ | AHold2 _ => 2
  | ASpin _ | RHold1 _ | RHold2 _ | RPop _ => 1
  | _ => 0
  end.

(** What CPU [i] knows of its own state. *)
Record thread_ok (intr : bool) (t : thread) : Prop := {
  tk_nodup : NoDup (t_held t);
  tk_ncli : t_pc t ≠ Dead → ncli (t_cpu t) = Z.of_nat (length (t_held t)) + extra (t_pc t);
  tk_iflag : t_pc t ≠ Dead → iflag (t_cpu t) = if ncli (t_cpu t) =? 0 then intr else false;
  tk_intena : t_pc t ≠ Dead → 0 < ncli (t_cpu t) → intena (t_cpu t) = intr;
  tk_off : t_held t ≠ [] → iflag (t_cpu t) = false;
  tk_mine lk : t_pc t = ASet lk ∨ t_pc t = RCpu lk ∨ t_pc t = RLocked lk → lk ∈ t_held t }.

(** How CPU [i] and the locks are related. *)
Record owns_ok (i : nat) (l : lockid → spinlock) (t : thread) : Prop := {
  ow_free lk : locked (l lk) = 0 → lk ∉ t_held t;
  ow_cpu lk : lcpu (l lk) = Some i → lk ∈ t_held t;
  ow_set lk : lk ∈ t_held t → t_pc t ≠ ASet lk → t_pc t ≠ RLocked lk → lcpu (l lk) = Some i;
  ow_cleared lk : t_pc t = RLocked lk → lcpu (l lk) ≠ Some i }.

Record inv (intr : nat → bool) (s : smp) : Prop := {
  iv_thread i : thread_ok (intr i) (s_threads s i);
  iv_owns i : owns_ok i (s_locks s) (s_threads s i);
  iv_excl i j lk : i ≠ j → lk ∈ t_held (s_threads s i) → lk ∉ t_held (s_threads s j) }.

Lemma push_flags c intr : 0 ≤ ncli c → iflag c = (if ncli c =? 0 then intr else false) →
  (0 < ncli c → intena c = intr) →
  ncli (pushcli c) = ncli c + 1 ∧ iflag (pushcli c) = false ∧ intena (pushcli c) = intr.
Proof.
  destruct c as [n ie f]. unfold pushcli, upd. simpl. intros H0 Hi He. destruct (Z.eqb_spec n 0); simpl.
  - done.
  - split; [done|]. split; [done|]. apply He. lia.
Qed.

Lemma pop_flags c intr : 0 < ncli c → iflag c = false → intena c = intr →
  ∃ c', popcli c = Some c' ∧ ncli c' = ncli c - 1 ∧ iflag c' = (if ncli c' =? 0 then intr else false) ∧ intena c' = intr.
Proof.
  destruct c as [n ie f]. unfold popcli, upd. simpl. intros H0 -> ->.
  rewrite (proj2 (Z.ltb_ge (n - 1) 0)) by lia. eexists. split; [reflexivity|].
  destruct (Z.eqb_spec (n - 1) 0) as [E|E]; destruct intr; simpl; rewrite ?E; simpl; try done;
    by rewrite (proj2 (Z.eqb_neq (n - 1) 0)).
Qed.
(** *** Every step keeps the invariant *)

(** A step that writes no lock and enters or leaves no critical section. *)
Lemma owns_same i l t t' :
  owns_ok i l t → t_held t' = t_held t →
  (∀ lk, t_pc t ≠ ASet lk ∧ t_pc t ≠ RLocked lk ∧ t_pc t' ≠ RLocked lk) → owns_ok i l t'.
Proof.
  intros [Hf Hc Hs _] Eh Hp. split; rewrite ?Eh; try done.
  - intros lk Hl _ _. apply Hs; [done|apply Hp..].
  - intros lk E. by destruct (Hp lk) as (_ & _ & ?).
Qed.

(** Another CPU's view of a store to a lock it does not hold. *)
Lemma owns_other j l lk v t :
  owns_ok j l t → lk ∉ t_held t → lcpu v ≠ Some j → owns_ok j (<[lk := v]> l) t.
Proof.
  intros [Hf Hc Hs Hl] Hn Hv.
  split; intros x; rewrite lk_insert; destruct (decide (x = lk)) as [->|Hx]; try done; auto.
Qed.

Lemma thread_goto intr t p : thread_ok intr t → t_pc t ≠ Dead → extra p = extra (t_pc t) →
  (∀ lk, p = ASet lk ∨ p = RCpu lk ∨ p = RLocked lk → lk ∈ t_held t) →
  thread_ok intr (Thread p (t_cpu t) (t_held t)).
Proof.
  intros [Hn Hc Hi He Ho Hm] Hd Ex Hp. split; simpl; try done; intros _; [by rewrite Ex; apply Hc|by apply Hi|by apply He].
Qed.
Lemma thread_dead intr t : thread_ok intr t → thread_ok intr (Thread Dead (t_cpu t) (t_held t)).
Proof. intros [Hn Hc Hi He Ho Hm]. split; simpl; try done. naive_solver. Qed.

Lemma popped_ok intr t p : thread_ok intr t → t_pc t ≠ Dead → extra (t_pc t) = extra p + 1 → p ≠ Dead → 0 ≤ extra p →
  (∀ lk, p = ASet lk ∨ p = RCpu lk ∨ p = RLocked lk → lk ∈ t_held t) →
  ∃ c, popped p t = Thread p c (t_held t) ∧ thread_ok intr (popped p t).
Proof.
  intros [Hn Hc Hi He Ho Hm] Hd Ex Hpd Hp0 Hp. specialize (Hc Hd). specialize (Hi Hd).
  assert (Hpos : 0 < ncli (t_cpu t)) by lia.
  rewrite (proj2 (Z.eqb_neq _ 0)) in Hi by lia.
  destruct (pop_flags (t_cpu t) intr Hpos Hi (He Hd Hpos)) as (c & Ec & En & Ei & Ee).
  exists c. unfold popped. rewrite Ec. split; [done|]. split; simpl; try done.
  - intros _. lia.
  - intros Hne. rewrite Ei, (proj2 (Z.eqb_neq _ 0)); [done|]. destruct (t_held t); [done|]. simpl length in *. lia.
Qed.

Lemma enter_ok intr o t : thread_ok intr t → t_pc t = Idle → thread_ok intr (enter o t).
Proof.
  intros [Hn Hc Hi He Ho Hm] E. rewrite E in *. specialize (Hc ltac:(done)). specialize (Hi ltac:(done)). specialize (He ltac:(done)).
  simpl in Hc. destruct (push_flags (t_cpu t) intr) as (P1 & P2 & P3); [lia|done|done|].
  destruct o as [lk|lk]; cbn [enter].
  - destruct (push_flags (pushcli (t_cpu t)) intr) as (Q1 & Q2 & Q3); [lia|rewrite P2, (proj2 (Z.eqb_neq _ 0)) by lia; done|done|].
    split; cbn [t_pc t_cpu t_held extra]; try done; intros; [lia|rewrite Q2, (proj2 (Z.eqb_neq _ 0)) by lia; done|naive_solver].
  - split; cbn [t_pc t_cpu t_held extra]; try done; intros; [lia|rewrite P2, (proj2 (Z.eqb_neq _ 0)) by lia; done|naive_solver].
Qed.
(** What a step of CPU [i] has to keep, the others being as they are. *)
Definition step_ok (intr : nat → bool) (s : smp) (i : nat) (l : lockid → spinlock) (t : thread) : Prop :=
  thread_ok (intr i) t ∧ owns_ok i l t ∧ (∀ j, j ≠ i → owns_ok j l (s_threads s j)) ∧
  ∀ lk, lk ∈ t_held t → lk ∈ t_held (s_threads s i) ∨ ∀ j, j ≠ i → lk ∉ t_held (s_threads s j).

(** Steps that do not write: only the place changes. *)
Lemma step_quiet intr s i t :
  inv intr s → thread_ok (intr i) t → t_held t = t_held (s_threads s i) →
  (∀ lk, t_pc (s_threads s i) ≠ ASet lk ∧ t_pc (s_threads s i) ≠ RLocked lk ∧ t_pc t ≠ RLocked lk) →
  step_ok intr s i (s_locks s) t.
Proof.
  intros [Ht Ho He] Hok Eh Hp. split; [done|]. split; [by apply (owns_same i _ (s_threads s i))|].
  split; [auto|]. rewrite Eh. by left.
Qed.

Ltac pcs := intros ?; split_and!; cbn; congruence.

Section writes.
Context (intr : nat → bool) (s : smp) (i : nat) (lk : lockid) (Hinv : inv intr s).
Abbreviation l := (s_locks s).
Abbreviation t := (s_threads s i).

Lemma others_free j : j ≠ i → lk ∈ t_held t → lk ∉ t_held (s_threads s j).
Proof. intros Hj Hm. by apply (iv_excl _ _ Hinv i j). Qed.

Lemma spin_ok : t_pc t = ASpin lk →
  step_ok intr s i (<[lk := SpinLock 1 (lcpu (l lk))]> l)
    (if locked (l lk) =? 0 then Thread (ASet lk) (t_cpu t) (lk :: t_held t) else t).
Proof.
  intros Ep. pose proof (iv_thread _ _ Hinv i) as Ht. pose proof (iv_owns _ _ Hinv) as Ho.
  assert (Hold : ∀ j, owns_ok j (<[lk := SpinLock 1 (lcpu (l lk))]> l) (s_threads s j)).
  { intros j. destruct (Ho j) as [Hf Hc Hs Hl].
    split; intros x; rewrite lk_insert; destruct (decide (x = lk)) as [->|]; simpl; auto; done. }
  destruct (Z.eqb_spec (locked (l lk)) 0) as [E0|E0].
  - assert (Hn : ∀ j, lk ∉ t_held (s_threads s j)) by (intros j; by apply (ow_free _ _ _ (Ho j))).
    split; [|split; [|split; [by intros|]]].
    + destruct Ht as [Hnd Hc Hi He Hof Hm]. rewrite Ep in *. specialize (Hc ltac:(done)). simpl in Hc.
      assert (Hoff : iflag (t_cpu t) = false) by (rewrite (Hi ltac:(done)), (proj2 (Z.eqb_neq _ 0)) by lia; done).
      split; cbn [t_pc t_cpu t_held extra]; try done.
      * constructor; [apply Hn|done].
      * intros _. simpl length. lia.
      * intros _. by apply Hi.
      * intros _. by apply He.
      * intros x [[= <-]|[|]]; [left|done|done].
    + destruct (Hold i) as [Hf Hc Hs Hl]. split; cbn [t_pc t_held]; try done.
      * intros x Hx. apply not_elem_of_cons. split; [|by apply Hf]. intros ->. by rewrite lk_insert, decide_True in Hx.
      * intros x Hx. right. by apply Hc.
      * intros x Hx Hp _. apply elem_of_cons in Hx as [->|Hx]; [done|]. apply Hs; [done|by rewrite Ep..].
    + cbn [t_held]. intros x [->|Hx]%elem_of_cons; [right; by intros|by left].
  - split; [done|]. split; [apply Hold|]. split; [by intros|]. by left.
Qed.

Lemma set_ok : t_pc t = ASet lk →
  step_ok intr s i (<[lk := SpinLock (locked (l lk)) (Some i)]> l) (Thread Idle (t_cpu t) (t_held t)).
Proof.
  intros Ep. pose proof (iv_thread _ _ Hinv i) as Ht. pose proof (iv_owns _ _ Hinv i) as [Hf Hc Hs Hl].
  assert (Hm : lk ∈ t_held t) by (apply (tk_mine _ _ Ht); auto).
  split; [apply thread_goto; rewrite ?Ep; [done|done|done|by intros ? [|[|[= <-]]]]|]. split; [|split; [|by left]].
  - split; cbn [t_pc t_held]; try done; intros x; rewrite lk_insert; destruct (decide (x = lk)) as [->|Hne]; simpl; auto.
    intros Hx _ _. apply Hs; [done|rewrite Ep; congruence..].
  - intros j Hj. apply owns_other; [apply Hinv|by apply others_free|simpl; congruence].
Qed.

Lemma clear_ok : t_pc t = RCpu lk →
  step_ok intr s i (<[lk := SpinLock (locked (l lk)) None]> l) (Thread (RLocked lk) (t_cpu t) (t_held t)).
Proof.
  intros Ep. pose proof (iv_thread _ _ Hinv i) as Ht. pose proof (iv_owns _ _ Hinv i) as [Hf Hc Hs Hl].
  assert (Hm : lk ∈ t_held t) by (apply (tk_mine _ _ Ht); auto).
  split; [apply thread_goto; rewrite ?Ep; [done|done|done|by intros ? [|[|[= <-]]]]|]. split; [|split; [|by left]].
  - split; cbn [t_pc t_held]; intros x; rewrite lk_insert; destruct (decide (x = lk)) as [->|Hne]; simpl; auto; try done; try congruence.
    intros Hx _ _. apply Hs; [done|rewrite Ep; congruence..].
  - intros j Hj. apply owns_other; [apply Hinv|by apply others_free|done].
Qed.

Lemma free_ok : t_pc t = RLocked lk →
  step_ok intr s i (<[lk := SpinLock 0 (lcpu (l lk))]> l) (Thread (RPop lk) (t_cpu t) (drop_lock lk (t_held t))).
Proof.
  intros Ep. pose proof (iv_thread _ _ Hinv i) as Ht. pose proof (iv_owns _ _ Hinv i) as [Hf Hc Hs Hl].
  assert (Hm : lk ∈ t_held t) by (apply (tk_mine _ _ Ht); auto).
  pose proof (tk_nodup _ _ Ht) as Hnd. split; [|split; [|split]].
  - destruct Ht as [_ Hn Hi He Hof Hmi]. rewrite Ep in *. specialize (Hn ltac:(done)). simpl in Hn.
    pose proof (length_drop_lock _ _ Hm) as Hlen.
    split; cbn [t_pc t_cpu t_held extra]; intros.
    + by apply NoDup_drop_lock.
    + lia.
    + by apply Hi.
    + by apply He.
    + apply Hof. intros E. rewrite E in Hm. by apply elem_of_nil in Hm.
    + destruct H as [|[|]]; done.
  - split; cbn [t_pc t_held]; try done; intros x; rewrite lk_insert, ?elem_of_drop_lock by done;
      destruct (decide (x = lk)) as [->|Hne]; simpl.
    + by intros _ [_ ?].
    + intros E [Hx _]. by apply (Hf x).
    + intros E. by apply Hl in E.
    + intros E. split; [by apply Hc|done].
    + by intros [_ ?].
    + intros [Hx _] _ _. apply Hs; [done|rewrite Ep; congruence..].
  - intros j Hj. apply owns_other; [apply Hinv|by apply others_free|]. simpl. intros E.
    apply (ow_cpu _ _ _ (iv_owns _ _ Hinv j)) in E. by apply (others_free j).
  - cbn [t_held]. intros x Hx. apply elem_of_drop_lock in Hx as [Hx _]; [|done]. by left.
Qed.
End writes.

Lemma access_ok intr s i l t :
  inv intr s → access i (s_locks s) (s_threads s i) = (l, t) → step_ok intr s i l t.
Proof.
  intros Hinv E. pose proof Hinv as [Ht Ho He]. pose proof (Ht i) as Hti. pose proof (Ho i) as Hoi.
  unfold access in E. destruct (t_pc (s_threads s i)) as [|lk|lk|lk|lk|lk|lk|lk|lk|lk|] eqn:Ep; injection E as <- <-.
  - apply step_quiet; [done|done|done|rewrite Ep; pcs].
  - destruct (locked _ =? 0).
    + destruct (popped_ok (intr i) (s_threads s i) (ASpin lk)) as (c & Ec & Hok); try rewrite Ep; try done; [by intros ? [|[|]]|].
      apply step_quiet; [done|done|by rewrite Ec|rewrite Ep, Ec; pcs].
    + apply step_quiet; [done| |done|rewrite Ep; pcs].
      apply thread_goto; try rewrite Ep; try done. by intros ? [|[|]].
  - destruct (decide _).
    + apply step_quiet; [done|by apply thread_dead|done|rewrite Ep; pcs].
    + destruct (popped_ok (intr i) (s_threads s i) (ASpin lk)) as (c & Ec & Hok); try rewrite Ep; try done; [by intros ? [|[|]]|].
      apply step_quiet; [done|done|by rewrite Ec|rewrite Ep, Ec; pcs].
  - apply (spin_ok intr s i lk Hinv Ep).
  - apply (set_ok intr s i lk Hinv Ep).
  - destruct (locked _ =? 0).
    + apply step_quiet; [done|by apply thread_dead|done|rewrite Ep; pcs].
    + apply step_quiet; [done| |done|rewrite Ep; pcs].
      apply thread_goto; try rewrite Ep; try done. by intros ? [|[|]].
  - destruct (decide _) as [Hc|Hc].
    + destruct (popped_ok (intr i) (s_threads s i) (RCpu lk)) as (c & Ec & Hok); try rewrite Ep; try done.
      { intros x [|[[= <-]|]]; [done| |done]. by apply (ow_cpu _ _ _ Hoi). }
      apply step_quiet; [done|done|by rewrite Ec|rewrite Ep, Ec; pcs].
    + apply step_quiet; [done|by apply thread_dead|done|rewrite Ep; pcs].
  - apply (clear_ok intr s i lk Hinv Ep).
  - apply (free_ok intr s i lk Hinv Ep).
  - destruct (popped_ok (intr i) (s_threads s i) Idle) as (c & Ec & Hok); try rewrite Ep; try done; [by intros ? [|[|]]|].
    apply step_quiet; [done|done|by rewrite Ec|rewrite Ep, Ec; pcs].
  - apply step_quiet; [done|done|done|rewrite Ep; pcs].
Qed.
Lemma thread_insert (f : nat → thread) i t j : (<[i := t]> f) j = if decide (j = i) then t else f j.
Proof. unfold insert, fn_insert. by repeat case_decide. Qed.

Lemma step_ok_inv intr s i l t : inv intr s → step_ok intr s i l t → inv intr (Smp l (<[i := t]> (s_threads s))).
Proof.
  intros [Ht Ho He] (H1 & H2 & H3 & H4). split; cbn [s_locks s_threads].
  - intros j. rewrite thread_insert. destruct (decide (j = i)) as [->|]; [done|apply Ht].
  - intros j. rewrite thread_insert. destruct (decide (j = i)) as [->|]; [done|by apply H3].
  - intros j k lk Hjk. rewrite !thread_insert. destruct (decide (j = i)) as [->|Hj], (decide (k = i)) as [->|Hk].
    + done.
    + intros Hin. destruct (H4 lk Hin) as [Hi|Hi]; [by apply (He i k)|by apply Hi].
    + intros Hin Hin'. destruct (H4 lk Hin') as [Hi|Hi]; [by apply (He i j lk)|by apply (Hi j)].
    + by apply He.
Qed.

Lemma inv_start intr : inv intr (start intr).
Proof.
  split; cbn [start s_threads s_locks].
  - intros i. split; cbn; try done; [constructor|]. by intros lk [|[|]].
  - intros i. split; cbn; try done; intros lk; [intros _; apply not_elem_of_nil|]. by intros ?%elem_of_nil.
  - intros i j lk _ H. by apply elem_of_nil in H.
Qed.

Lemma inv_step intr s s' : inv intr s → step s s' → inv intr s'.
Proof.
  intros Hinv Hs. destruct Hs as [i o s Ep|i s l t E].
  - apply step_ok_inv; [done|]. apply step_quiet; [done|by apply enter_ok; [apply Hinv|]|by destruct o|].
    rewrite Ep. intros lk. destruct o; split_and!; cbn; congruence.
  - apply step_ok_inv; [done|]. by apply access_ok.
Qed.

Lemma inv_reachable intr s : reachable intr s → inv intr s.
Proof.
  unfold reachable. intros H. remember (start intr) as s0 eqn:E.
  assert (Hi : inv intr s0) by (subst; apply inv_start). clear E.
  induction H as [|? ? ? Hs _ IH]; [done|]. apply IH. by apply (inv_step _ x).
Qed.

(** C7. Spin locks on any number of CPUs, interleaved at every access to
    shared memory.  No two CPUs are ever in the critical section of the same
    lock; a CPU in a critical section has its interrupts off; and the only
    panics are those of a misuse: acquiring a lock the CPU already holds, or
    releasing one it does not hold ([popcli] never panics). *)
Theorem mutual_exclusion intr s :
  reachable intr s →
  (∀ i j lk, i ≠ j → lk ∈ t_held (s_threads s i) → lk ∉ t_held (s_threads s j)) ∧
  (∀ i, t_held (s_threads s i) ≠ [] → iflag (t_cpu (s_threads s i)) = false) ∧
  (∀ i l t, access i (s_locks s) (s_threads s i) = (l, t) → t_pc t = Dead → t_pc (s_threads s i) ≠ Dead →
    (∃ lk, t_pc (s_threads s i) = AHold2 lk ∧ lk ∈ t_held (s_threads s i)) ∨
    (∃ lk, (t_pc (s_threads s i) = RHold1 lk ∨ t_pc (s_threads s i) = RHold2 lk) ∧ lk ∉ t_held (s_threads s i))).
Proof.
  intros Hr. apply inv_reachable in Hr as [Ht Ho He]. split; [apply He|]. split; [intros i; apply (tk_off _ _ (Ht i))|].
  intros i l t E Ed Hnd. unfold access in E. pose proof (Ht i) as Hti. pose proof (Ho i) as [Hf Hc Hs Hl].
  assert (Hpop : ∀ p, extra (t_pc (s_threads s i)) = extra p + 1 → p ≠ Dead → 0 ≤ extra p →
    (∀ lk, p = ASet lk ∨ p = RCpu lk ∨ p = RLocked lk → lk ∈ t_held (s_threads s i)) → t_pc (popped p (s_threads s i)) = p).
  { intros p H1 H2 H3 H4. by destruct (popped_ok (intr i) (s_threads s i) p) as (c & -> & _). }
  destruct (t_pc (s_threads s i)) as [|lk|lk|lk|lk|lk|lk|lk|lk|lk|] eqn:Ep; injection E as <- <-; try done; try congruence.
  - destruct (locked _ =? 0); [|done]. rewrite Hpop in Ed; [done|done|done|done|by intros ? [|[|]]].
  - destruct (decide _) as [Hcp|]; [left; exists lk; split; [done|by apply Hc]|].
    rewrite Hpop in Ed; [done|done|done|done|by intros ? [|[|]]].
  - destruct (locked _ =? 0); [done|congruence].
  - destruct (Z.eqb_spec (locked (s_locks s lk)) 0) as [E0|]; [|done]. right. exists lk. split; [by left|by apply Hf].
  - destruct (decide _) as [Hcp|Hcp].
    { rewrite Hpop in Ed; [done|done|done|done|]. intros x [|[[= <-]|]]; [done| |done]. by apply Hc. }
    right. exists lk. split; [by right|]. intros Hin. by apply Hcp, Hs.
  - rewrite Hpop in Ed; [done|done|done|done|by intros ? [|[|]]].
Qed.

(** CPU [i] moves, or calls [acquire] on the lock of the log. *)
Definition move (i : nat) (s : smp) : smp :=
  let r := access i (s_locks s) (s_threads s i) in Smp r.1 (<[i := r.2]> (s_threads s)).
Definition locks_log (i : nat) (s : smp) : smp :=
  Smp (s_locks s) (<[i := enter (Acquire LkLog) (s_threads s i)]> (s_threads s)).
Lemma reach_move intr i s : reachable intr s → reachable intr (move i s).
Proof. intros H. eapply rtc_r; [exact H|]. unfold move. apply step_access. by destruct (access _ _ _). Qed.
Lemma reach_call intr i s : t_pc (s_threads s i) = Idle → reachable intr s → reachable intr (locks_log i s).
Proof. intros Hp H. eapply rtc_r; [exact H|]. by apply (step_call i (Acquire LkLog)). Qed.

(** CPU 0 takes the lock; CPU 1 tries and spins. *)
Definition contended : smp :=
  move 1 (move 1 (move 1 (locks_log 1 (move 0 (move 0 (move 0 (locks_log 0 (start (λ _, true))))))))).

Lemma mutual_exclusion_witness :
  t_held (s_threads contended 0%nat) = [LkLog] ∧ t_pc (s_threads contended 1%nat) = ASpin LkLog ∧
  LkLog ∉ t_held (s_threads contended 1%nat).
Proof.
  split; [reflexivity|]. split; [reflexivity|].
  apply (mutual_exclusion (λ _, true) contended) with (i := 0%nat); [|discriminate|left].
  unfold contended. do 3 apply reach_move. apply reach_call; [reflexivity|].
  do 3 apply reach_move. apply reach_call; [reflexivity|]. apply rtc_refl.
Defined.
End Smp.
