(* ===== verification/Sh.v ===== *)
(** * The shell's parser (sh.c)

    The recursive-descent parser of the shell, from [gettoken] and [peek] to
    [parsecmd] and [nulterminate].  A pointer into the command line is the
    rest of the line from there on, so [*s == 0] is the test for the empty
    list and the characters between two pointers are what is in front of the
    second one.  [panic] is the result [Fail].  Recursion takes fuel, and
    [Fuel] is the result when there is none left.

    The results: [parsecmd] always ends, and after [nulterminate] the
    pointers of the tree it returns are the C strings of its words.  The
    language it accepts is in [ShText]. *)
From S2P Require Import Prelude.

Definition MAXARGS : nat := 10.
Definition O_RDONLY : Z := 0.
Definition O_WRONLY : Z := 1.
Definition O_CREATE : Z := 512.

(** A pointer. *)
Abbreviation ptr := (list Z) (only parsing).

Inductive cmd :=
| EXEC (argv : list (ptr * ptr))     (* argv[i] and eargv[i] *)
| REDIR (c : cmd) (file efile : ptr) (mode fd : Z)
| PIPE (left right : cmd)
| LIST (left right : cmd)
| BACK (c : cmd).

(** ** Results *)
Inductive res (A : Type) := Ret (a : A) (s : ptr) | Fail (msg : string) | Fuel.
Arguments Ret {A} a s.
Arguments Fail {A} msg.
Arguments Fuel {A}.

Definition andthen {A B} (r : res A) (k : A → ptr → res B) : res B :=
  match r with Ret a s => k a s | Fail msg => Fail msg | Fuel => Fuel end.
Notation "'let*' ( x , s ) := r 'in' k" := (andthen r (λ x s, k))
  (at level 200, x name, s name, r at level 100, k at level 200).

(** ** Tokens *)
Definition whitespace : list Z := [32; 9; 13; 10; 11].
Definition symbols : list Z := [60; 124; 62; 38; 59; 40; 41].    (* <|>&;() *)
Definition memb (c : Z) (l : list Z) : bool := existsb (Z.eqb c) l.
Arguments memb : simpl never.

(** [while(s < es && strchr(whitespace, *s)) s++;] *)
Fixpoint skip (s : ptr) : ptr :=
  match s with
  | c :: s' => if memb c whitespace then skip s' else s
  | [] => []
  end.

(** [while(s < es && !strchr(whitespace, *s) && !strchr(symbols, *s)) s++;] *)
Fixpoint word (s : ptr) : ptr :=
  match s with
  | c :: s' => if negb (memb c whitespace) && negb (memb c symbols) then word s' else s
  | [] => []
  end.

Record token := Token { tk_ret : Z; tk_q : ptr; tk_eq : ptr }.

(** The [switch] of [gettoken] at the first character of a token: its kind (97
    is the letter a, 43 the plus) and its end. *)
Definition scan (s : ptr) : Z * ptr :=
  match s with
  | [] => (0, s)
  | c :: s' =>
      if memb c [124; 40; 41; 59; 38; 60] then (c, s')
      else if c =? 62 then
        match s' with
        | d :: s'' => if d =? 62 then (43, s'') else (c, s')
        | [] => (c, s')
        end
      else (97, word s)
  end.

(** The token and the new value of [*ps]. *)
Definition gettoken (s : ptr) : token * ptr :=
  let q := skip s in
  let '(ret, eq) := scan q in
  (Token ret q eq, skip eq).

Definition peek (toks : list Z) (s : ptr) : bool * ptr :=
  let s := skip s in
  (match s with c :: _ => memb c toks | [] => false end, s).

(** ** Redirections *)
Record redir := Redir_ { r_file : ptr; r_efile : ptr; r_mode : Z; r_fd : Z }.
Definition redircmd (c : cmd) (r : redir) : cmd := REDIR c (r_file r) (r_efile r) (r_mode r) (r_fd r).

Definition redir_of (tok : Z) (t : token) : option redir :=
  if tok =? 60 then Some (Redir_ (tk_q t) (tk_eq t) O_RDONLY 0)
  else if tok =? 62 then Some (Redir_ (tk_q t) (tk_eq t) (Z.lor O_WRONLY O_CREATE) 1)
  else if tok =? 43 then Some (Redir_ (tk_q t) (tk_eq t) (Z.lor O_WRONLY O_CREATE) 1)
  else None.

(** [parseredirs] wraps the command it is given in the redirections it finds;
    these are the redirections, the outermost last. *)
Fixpoint parseredirs (n : nat) (s : ptr) : res (list redir) :=
  match n with
  | O => Fuel
  | S n =>
      let '(p, s) := peek [60; 62] s in
      if p : bool then
        let '(tok, s) := gettoken s in
        let '(t, s) := gettoken s in
        if negb (tk_ret t =? 97) then Fail "missing file for redirection" else
        let* (rs, s) := parseredirs n s in
        Ret (match redir_of (tk_ret tok) t with Some r => r :: rs | None => rs end) s
      else Ret [] s
  end.
Definition redirs (s : ptr) : res (list redir) := parseredirs (S (length s)) s.
Definition wrap (c : cmd) (rs : list redir) : cmd := foldl redircmd c rs.

(** The loop of [parseexec] over the arguments after the first [argc]: the
    arguments, and the redirections among them, which wrap the command. *)
Fixpoint parseargs (n argc : nat) (s : ptr) : res (list (ptr * ptr) * list redir) :=
  match n with
  | O => Fuel
  | S n =>
      let '(p, s) := peek [124; 41; 38; 59] s in
      if p : bool then Ret ([], []) s else
      let '(t, s) := gettoken s in
      if tk_ret t =? 0 then Ret ([], []) s else
      if negb (tk_ret t =? 97) then Fail "syntax" else
      if (MAXARGS <=? S argc)%nat then Fail "too many args" else
      let* (rs, s) := redirs s in
      let* (more, s) := parseargs n (S argc) s in
      Ret ((tk_q t, tk_eq t) :: more.1, rs ++ more.2) s
  end.

(** [while(peek(ps, es, "&")) ...] *)
Fixpoint parseback (n : nat) (c : cmd) (s : ptr) : res cmd :=
  match n with
  | O => Fuel
  | S n =>
      let '(p, s) := peek [38] s in
      if p : bool then let '(_, s) := gettoken s in parseback n (BACK c) s
      else Ret c s
  end.

(** ** Commands *)
Fixpoint parseline (n : nat) (s : ptr) : res cmd :=
  match n with
  | O => Fuel
  | S n =>
      let* (c, s) := parsepipe n s in
      let* (c, s) := parseback (S (length s)) c s in
      let '(p, s) := peek [59] s in
      if p : bool then
        let '(_, s) := gettoken s in
        let* (r, s) := parseline n s in
        Ret (LIST c r) s
      else Ret c s
  end
with parsepipe (n : nat) (s : ptr) : res cmd :=
  match n with
  | O => Fuel
  | S n =>
      let* (c, s) := parseexec n s in
      let '(p, s) := peek [124] s in
      if p : bool then
        let '(_, s) := gettoken s in
        let* (r, s) := parsepipe n s in
        Ret (PIPE c r) s
      else Ret c s
  end
with parseexec (n : nat) (s : ptr) : res cmd :=
  match n with
  | O => Fuel
  | S n =>
      let '(p, s) := peek [40] s in
      if p : bool then parseblock n s else
      let* (rs, s) := redirs s in
      let* (a, s) := parseargs (S (length s)) 0 s in
      Ret (wrap (EXEC a.1) (rs ++ a.2)) s
  end
with parseblock (n : nat) (s : ptr) : res cmd :=
  match n with
  | O => Fuel
  | S n =>
      let '(p, s) := peek [40] s in
      if negb p then Fail "parseblock" else
      let '(_, s) := gettoken s in
      let* (c, s) := parseline n s in
      let '(p, s) := peek [41] s in
      if negb p then Fail "syntax - missing )" else
      let '(_, s) := gettoken s in
      let* (rs, s) := redirs s in
      Ret (wrap c rs) s
  end.

(** The recursion descends at most four calls per character. *)
Definition parse_fuel (s : ptr) : nat := 4 * length s + 4.

Definition parsecmd (s : ptr) : res cmd :=
  let* (c, s) := parseline (parse_fuel s) s in
  let '(_, s) := peek [] s in
  match s with
  | [] => Ret c s
  | _ => Fail "syntax"
  end.

(** ** Termination *)

(** The routine ended, and what is left is at most [b] characters long. *)
Definition ended {A} (b : nat) (r : res A) : Prop :=
  match r with Ret _ s => (length s ≤ b)%nat | Fail _ => True | Fuel => False end.

Lemma ended_andthen {A B} b b' (r : res A) (k : A → ptr → res B) :
  ended b r → (∀ a s, (length s ≤ b)%nat → ended b' (k a s)) → ended b' (andthen r k).
Proof. destruct r; simpl; auto. Qed.

Lemma skip_le s : (length (skip s) ≤ length s)%nat.
Proof. induction s as [|c s IH]; simpl; [done|]. destruct (memb c whitespace); simpl; lia. Qed.
Lemma word_le s : (length (word s) ≤ length s)%nat.
Proof. induction s as [|c s IH]; [done|]. cbn [word]. destruct (_ && _); cbn [length]; lia. Qed.
Lemma skip_skip s : skip (skip s) = skip s.
Proof. induction s as [|c s IH]; simpl; [done|]. destruct (memb c whitespace) eqn:E; [done|]. simpl. by rewrite E. Qed.

Lemma peek_le toks s p s' : peek toks s = (p, s') → s' = skip s ∧ (length s' ≤ length s)%nat ∧ (p = true → s' ≠ []).
Proof.
  unfold peek. intros [= <- <-]. split; [done|]. split; [apply skip_le|]. by destruct (skip s).
Qed.

Lemma skip_head s c r : skip s = c :: r → memb c whitespace = false.
Proof.
  induction s as [|d s IH]; simpl; [done|]. destruct (memb d whitespace) eqn:E; [done|]. by intros [= <- <-].
Qed.

(** A character that starts a word. *)
Definition wordchar (c : Z) : bool := negb (memb c whitespace) && negb (memb c symbols).

Lemma other_wordchar c : memb c whitespace = false → memb c [124; 40; 41; 59; 38; 60] = false → (c =? 62) = false →
  wordchar c = true.
Proof.
  unfold wordchar, memb, symbols. simpl. intros -> H1 H2. simpl.
  repeat (apply orb_false_elim in H1 as [? H1]). repeat match goal with H : _ = false |- _ => rewrite H; clear H end. done.
Qed.

(** A token other than the end consumes a character. *)
Lemma scan_le s : s ≠ [] → skip s = s → (length (scan s).2 < length s)%nat.
Proof.
  intros Hne Hs. destruct s as [|c r]; [done|]. apply skip_head in Hs. unfold scan.
  destruct (memb c [124; 40; 41; 59; 38; 60]) eqn:E1; [simpl; lia|]. destruct (c =? 62) eqn:E2.
  - destruct r as [|d r']; [simpl; lia|]. destruct (d =? 62); simpl; lia.
  - cbn [word fst snd]. fold (wordchar c). rewrite other_wordchar by done. pose proof (word_le r). simpl. lia.
Qed.

Lemma gettoken_le s t s' : gettoken s = (t, s') →
  (length s' ≤ length s)%nat ∧ (skip s ≠ [] → (length s' < length s)%nat) ∧ (tk_ret t ≠ 0 → skip s ≠ []).
Proof.
  unfold gettoken. pose proof (skip_le s) as Hs. destruct (scan (skip s)) as [ret e] eqn:E. intros [= <- <-].
  pose proof (skip_le e) as He. destruct (decide (skip s = [])) as [En|Hn].
  - rewrite En in E. injection E as <- <-. simpl in *. rewrite En in Hs. simpl in Hs. split; [lia|]. by split.
  - pose proof (scan_le (skip s) Hn (skip_skip s)) as Hl. rewrite E in Hl. simpl in Hl. split; [lia|]. split; [lia|done].
Qed.

(** Destructs the next [peek] or [gettoken] of the goal. *)
Ltac next_token :=
  lazymatch goal with
  | |- context [peek ?l ?s] =>
      let p := fresh "p" in let r := fresh "s" in let E := fresh "E" in
      destruct (peek l s) as [p r] eqn:E; apply peek_le in E as (? & ? & ?)
  | |- context [gettoken ?s] =>
      let t := fresh "t" in let r := fresh "s" in let E := fresh "E" in
      destruct (gettoken s) as [t r] eqn:E; apply gettoken_le in E as (? & ? & ?)
  end.

Lemma skip_nonempty s s' : s' = skip s → s' ≠ [] → skip s' ≠ [].
Proof. intros ->. by rewrite skip_skip. Qed.

Lemma parseredirs_ends n s : (length s < n)%nat → ended (length s) (parseredirs n s).
Proof.
  revert s. induction n as [|n IH]; intros s Hn; [lia|]. cbn [parseredirs].
  next_token. destruct p; [|simpl; lia]. assert (skip s0 ≠ []) by (eapply skip_nonempty; [eassumption|naive_solver]).
  next_token. next_token. destruct (negb _); [done|].
  eapply ended_andthen; [apply IH; naive_solver lia|]. intros rs r Hr. simpl. naive_solver lia.
Qed.
Lemma redirs_ends s : ended (length s) (redirs s).
Proof. apply parseredirs_ends. lia. Qed.

Lemma parseargs_ends n argc s : (length s < n)%nat → ended (length s) (parseargs n argc s).
Proof.
  revert argc s. induction n as [|n IH]; intros argc s Hn; [lia|]. cbn [parseargs].
  next_token. destruct p; [simpl; lia|]. next_token. destruct (Z.eqb_spec (tk_ret t) 0) as [E0|E0]; [simpl; lia|].
  destruct (negb _); [done|]. destruct (_ <=? _)%nat; [done|].
  assert (length s1 < length s0)%nat by auto.
  eapply ended_andthen; [apply redirs_ends|]. intros rs r Hr.
  eapply ended_andthen; [apply IH; lia|]. intros m r' Hr'. simpl. lia.
Qed.

Lemma parseback_ends n c s : (length s < n)%nat → ended (length s) (parseback n c s).
Proof.
  revert c s. induction n as [|n IH]; intros c s Hn; [lia|]. cbn [parseback].
  next_token. destruct p; [|simpl; lia]. assert (skip s0 ≠ []) by (eapply skip_nonempty; [eassumption|naive_solver]).
  next_token. assert (length s1 < length s0)%nat by auto.
  specialize (IH (BACK c) s1 ltac:(lia)). destruct (parseback n (BACK c) s1); simpl in *; lia || done.
Qed.

Lemma ended_le {A} b b' (r : res A) : ended b r → (b ≤ b')%nat → ended b' r.
Proof. destruct r; simpl; [lia|done|done]. Qed.

Lemma parse_ends n :
  (∀ s, (4 * length s + 4 ≤ n)%nat → ended (length s) (parseline n s)) ∧
  (∀ s, (4 * length s + 3 ≤ n)%nat → ended (length s) (parsepipe n s)) ∧
  (∀ s, (4 * length s + 2 ≤ n)%nat → ended (length s) (parseexec n s)) ∧
  (∀ s, (4 * length s + 1 ≤ n)%nat → ended (length s) (parseblock n s)).
Proof.
  induction n as [|n (IHl & IHp & IHe & IHb)]; [split_and!; intros; lia|]. split_and!; intros s Hn.
  - cbn [parseline]. eapply ended_andthen; [apply IHp; lia|]. intros c r Hr.
    eapply ended_andthen; [apply parseback_ends; lia|]. intros c' r' Hr'.
    next_token. destruct p; [|simpl; lia]. assert (skip s0 ≠ []) by (eapply skip_nonempty; [eassumption|naive_solver]).
    next_token. assert (length s1 < length s0)%nat by auto.
    eapply ended_andthen; [apply IHl; lia|]. intros. simpl. lia.
  - cbn [parsepipe]. eapply ended_andthen; [apply IHe; lia|]. intros c r Hr.
    next_token. destruct p; [|simpl; lia]. assert (skip s0 ≠ []) by (eapply skip_nonempty; [eassumption|naive_solver]).
    next_token. assert (length s1 < length s0)%nat by auto.
    eapply ended_andthen; [apply IHp; lia|]. intros. simpl. lia.
  - cbn [parseexec]. next_token. destruct p; [eapply ended_le; [apply IHb; lia|lia]|].
    eapply ended_andthen; [apply redirs_ends|]. intros rs r Hr.
    eapply ended_andthen; [apply parseargs_ends; lia|]. intros. simpl. lia.
  - cbn [parseblock]. next_token. destruct p; [|done]. cbn [negb]. assert (skip s0 ≠ []) by (eapply skip_nonempty; [eassumption|naive_solver]).
    next_token. assert (length s1 < length s0)%nat by auto.
    eapply ended_andthen; [apply IHl; lia|]. intros c r Hr. next_token. destruct p; [|done]. cbn [negb]. next_token.
    eapply ended_andthen; [apply redirs_ends|]. intros. simpl. lia.
Qed.

Lemma parsecmd_ends s : parsecmd s ≠ Fuel.
Proof.
  unfold parsecmd. pose proof (proj1 (parse_ends (parse_fuel s)) s ltac:(unfold parse_fuel; lia)) as H.
  destruct (parseline (parse_fuel s) s) as [c r| |]; simpl in *; [|done|done]. by destruct (skip r).
Qed.

(** ** The pointers of the tree *)

(** Where [nulterminate] stores a zero, in its order. *)
Fixpoint nulterminate (c : cmd) : list ptr :=
  match c with
  | EXEC argv => argv.*2
  | REDIR c _ efile _ _ => nulterminate c ++ [efile]
  | PIPE l r | LIST l r => nulterminate l ++ nulterminate r
  | BACK c => nulterminate c
  end.

(** The words of the tree as pairs of pointers. *)
Fixpoint pointers (c : cmd) : list (ptr * ptr) :=
  match c with
  | EXEC argv => argv
  | REDIR c file efile _ _ => pointers c ++ [(file, efile)]
  | PIPE l r | LIST l r => pointers l ++ pointers r
  | BACK c => pointers c
  end.

(** The line's buffer after the stores. *)
Definition offset (line p : ptr) : nat := length line - length p.
Definition terminated (line : ptr) (c : cmd) : list Z :=
  foldl (λ m p, <[offset line p := 0]> m) (line ++ [0]) (nulterminate c).

(** The C string at a place of a buffer. *)
Fixpoint until_nul (l : list Z) : list Z :=
  match l with
  | [] => []
  | c :: l => if c =? 0 then [] else c :: until_nul l
  end.
Definition string_at (m : list Z) (i : nat) : list Z := until_nul (drop i m).

(** A word of the line [s]: [eq] is where it ends. *)
Definition word_in (s : ptr) (t : ptr * ptr) : Prop :=
  t.1 `suffix_of` s ∧ ∃ w, t.1 = w ++ t.2 ∧ w ≠ [] ∧ forallb wordchar w = true ∧
    match t.2 with c :: _ => wordchar c = false | [] => True end.

Lemma word_in_suffix s s' t : s' `suffix_of` s → word_in s' t → word_in s t.
Proof. intros Hs [Ht Hw]. split; [by etrans|done]. Qed.
Lemma words_suffix s s' l : s' `suffix_of` s → Forall (word_in s') l → Forall (word_in s) l.
Proof. intros Hs Hl. eapply Forall_impl; [exact Hl|]. intros t. by apply word_in_suffix. Qed.

Lemma skip_suffix s : skip s `suffix_of` s.
Proof.
  induction s as [|c s IH]; simpl; [done|]. destruct (memb c whitespace); [|done]. by apply suffix_cons_r.
Qed.
Lemma word_spec s : ∃ w, s = w ++ word s ∧ forallb wordchar w = true ∧
  match word s with c :: _ => wordchar c = false | [] => True end.
Proof.
  induction s as [|c s (w & E & Hw & Hn)]; [by exists []|]. cbn [word]. fold (wordchar c).
  destruct (wordchar c) eqn:Ec.
  - exists (c :: w). split; [by rewrite E at 1|]. split; [simpl; by rewrite Ec|done].
  - by exists [].
Qed.

Lemma gettoken_word s t s' : gettoken s = (t, s') →
  s' `suffix_of` s ∧ (tk_ret t = 97 → word_in s (tk_q t, tk_eq t)).
Proof.
  unfold gettoken. destruct (scan (skip s)) as [ret e] eqn:E. intros [= <- <-]. cbn [tk_ret tk_q tk_eq].
  assert (H : e `suffix_of` skip s ∧ (ret = 97 → word_in s (skip s, e))).
  { pose proof (skip_suffix s) as Hs. destruct (skip s) as [|c r] eqn:Ek; [injection E as <- <-; done|].
    pose proof (skip_head _ _ _ Ek) as Hc. unfold scan in E.
    destruct (memb c [124; 40; 41; 59; 38; 60]) eqn:E1.
    { injection E as <- <-. split; [by apply suffix_cons_r|]. intros ->. discriminate E1. }
    destruct (c =? 62) eqn:E2.
    { apply Z.eqb_eq in E2 as ->. destruct r as [|d r']; [injection E as <- <-; split; [by apply suffix_nil|done]|].
      destruct (d =? 62); injection E as <- <-; (split; [|done]); [by do 2 apply suffix_cons_r|by apply suffix_cons_r]. }
    injection E as <- <-. destruct (word_spec (c :: r)) as (w & Ew & Hw & Hn). split; [by exists w|]. intros _.
    split; [done|]. exists w. split; [done|]. split; [|done]. intros ->.
    cbn [word] in Ew, Hn. fold (wordchar c) in Ew, Hn. rewrite other_wordchar in Ew, Hn by done.
    apply (f_equal length) in Ew. simpl in Ew. pose proof (word_le r). lia. }
  destruct H as [H1 H2]. split; [|done]. etrans; [apply skip_suffix|]. etrans; [exact H1|apply skip_suffix].
Qed.
Lemma peek_suffix toks s p s' : peek toks s = (p, s') → s' `suffix_of` s.
Proof. unfold peek. intros [= _ <-]. apply skip_suffix. Qed.

Definition files (rs : list redir) : list (ptr * ptr) := (λ r, (r_file r, r_efile r)) <$> rs.
Lemma pointers_wrap c rs : pointers (wrap c rs) = pointers c ++ files rs.
Proof.
  unfold wrap, files. revert c. induction rs as [|r rs IH]; intros c; simpl; [by rewrite app_nil_r|].
  rewrite IH. simpl. by rewrite <-app_assoc.
Qed.

Lemma andthen_ret {A B} (r : res A) (k : A → ptr → res B) b s' :
  andthen r k = Ret b s' → ∃ a s, r = Ret a s ∧ k a s = Ret b s'.
Proof. destruct r as [a s| |]; simpl; [by exists a, s|done|done]. Qed.

(** Every routine stays on the line and returns words of it. *)
Definition on_line {A} (ptrs : A → list (ptr * ptr)) (s : ptr) (r : res A) : Prop :=
  match r with Ret a s' => s' `suffix_of` s ∧ Forall (word_in s) (ptrs a) | _ => True end.

Lemma on_line_andthen {A B} (pa : A → list (ptr * ptr)) (pb : B → list (ptr * ptr)) s s0 (r : res A) (k : A → ptr → res B) :
  s0 `suffix_of` s → on_line pa s0 r →
  (∀ a s', s' `suffix_of` s → Forall (word_in s) (pa a) → on_line pb s (k a s')) → on_line pb s (andthen r k).
Proof.
  intros Hs. destruct r as [a s'| |]; simpl; [|done|done]. intros [H1 H2] Hk. apply Hk; [by etrans|by apply (words_suffix s s0)].
Qed.

Ltac next_suffix :=
  lazymatch goal with
  | |- context [peek ?l ?s] =>
      let p := fresh "p" in let r := fresh "s" in let E := fresh "E" in
      destruct (peek l s) as [p r] eqn:E; apply peek_suffix in E
  | |- context [gettoken ?s] =>
      let t := fresh "t" in let r := fresh "s" in let E := fresh "E" in
      destruct (gettoken s) as [t r] eqn:E; apply gettoken_word in E as [? ?]
  end.

Lemma parseredirs_words n s : on_line files s (parseredirs n s).
Proof.
  revert s. induction n as [|n IH]; intros s; [done|]. cbn [parseredirs].
  next_suffix. destruct p; [|by split]. next_suffix. next_suffix.
  destruct (Z.eqb_spec (tk_ret t0) 97) as [Et|]; [|done]. cbn [negb].
  apply (on_line_andthen files files s s2 _ _); [by etrans; [|etrans]|apply IH|].
  intros rs r Hr Hw. simpl. split; [done|].
  assert (Ht : word_in s (tk_q t0, tk_eq t0)) by (apply (word_in_suffix s s1); [by etrans|auto]).
  unfold redir_of. destruct (_ =? 60); [by constructor|]. destruct (_ =? 62); [by constructor|].
  destruct (_ =? 43); [by constructor|done].
Qed.
Lemma redirs_words s : on_line files s (redirs s).
Proof. apply parseredirs_words. Qed.

Lemma parseargs_words n argc s : on_line (λ a, a.1 ++ files a.2) s (parseargs n argc s).
Proof.
  revert argc s. induction n as [|n IH]; intros argc s; [done|]. cbn [parseargs].
  next_suffix. destruct p; [by split|]. next_suffix. destruct (tk_ret t =? 0); [split; [by etrans|done]|].
  destruct (Z.eqb_spec (tk_ret t) 97) as [Et|]; [|done]. cbn [negb]. destruct (_ <=? _)%nat; [done|].
  assert (Hs1 : s1 `suffix_of` s) by (by etrans).
  apply (on_line_andthen files _ s s1 _ _ Hs1); [apply redirs_words|]. intros rs r Hr Hw.
  apply (on_line_andthen (λ a, a.1 ++ files a.2) _ s r _ _ Hr); [apply IH|]. intros [a f] r' Hr' Hw'. simpl in *.
  split; [done|]. unfold files in *. rewrite fmap_app. apply Forall_app in Hw' as [H1 H2]. constructor.
  - apply (word_in_suffix s s0); [done|auto].
  - apply Forall_app. split; [done|]. by apply Forall_app.
Qed.

Lemma parseback_words n c s0 s : s `suffix_of` s0 → Forall (word_in s0) (pointers c) → on_line pointers s0 (parseback n c s).
Proof.
  revert c s. induction n as [|n IH]; intros c s Hs Hc; [done|]. cbn [parseback].
  next_suffix. destruct p; [|split; [by etrans|done]]. next_suffix. apply IH; [by do 2 (etrans; [eassumption|])|done].
Qed.

Lemma parse_words n : ∀ s,
  on_line pointers s (parseline n s) ∧ on_line pointers s (parsepipe n s) ∧
  on_line pointers s (parseexec n s) ∧ on_line pointers s (parseblock n s).
Proof.
  induction n as [|n IH]; intros s; [done|]. split_and!.
  - cbn [parseline]. apply (on_line_andthen pointers pointers s s _ _ ltac:(done)); [apply IH|]. intros c r Hr Hw.
    apply (on_line_andthen pointers pointers s s _ _ ltac:(done)); [by apply parseback_words|]. intros c' r' Hr' Hw'.
    next_suffix. destruct p; [|split; [by etrans|done]]. next_suffix.
    assert (Hs1 : s1 `suffix_of` s) by (by do 2 (etrans; [eassumption|])).
    apply (on_line_andthen pointers pointers s s1 _ _ Hs1); [apply IH|]. intros c2 r2 Hr2 Hw2. split; [done|]. by apply Forall_app.
  - cbn [parsepipe]. apply (on_line_andthen pointers pointers s s _ _ ltac:(done)); [apply IH|]. intros c r Hr Hw.
    next_suffix. destruct p; [|split; [by etrans|done]]. next_suffix.
    assert (Hs1 : s1 `suffix_of` s) by (by do 2 (etrans; [eassumption|])).
    apply (on_line_andthen pointers pointers s s1 _ _ Hs1); [apply IH|]. intros c2 r2 Hr2 Hw2. split; [done|]. by apply Forall_app.
  - cbn [parseexec]. next_suffix. destruct p.
    + destruct (IH s0) as (_ & _ & _ & H). destruct (parseblock n s0) as [c r| |]; [|done|done]. destruct H as [H1 H2].
      split; [by etrans|by apply (words_suffix s s0)].
    + apply (on_line_andthen files pointers s s0 _ _ E); [apply redirs_words|]. intros rs r Hr Hw.
      apply (on_line_andthen (λ a, a.1 ++ files a.2) pointers s r _ _ Hr); [apply parseargs_words|]. intros [a f] r' Hr' Hw'.
      simpl in *. split; [done|]. rewrite pointers_wrap. simpl. unfold files in *. rewrite fmap_app.
      apply Forall_app in Hw' as [H1 H2]. apply Forall_app. split; [done|]. by apply Forall_app.
  - cbn [parseblock]. next_suffix. destruct p; [|done]. cbn [negb]. next_suffix.
    assert (Hs1 : s1 `suffix_of` s) by (by etrans).
    apply (on_line_andthen pointers pointers s s1 _ _ Hs1); [apply IH|]. intros c r Hr Hw.
    next_suffix. destruct p; [|done]. cbn [negb]. next_suffix.
    assert (Hs3 : s3 `suffix_of` s) by (by do 2 (etrans; [eassumption|])).
    apply (on_line_andthen files pointers s s3 _ _ Hs3); [apply redirs_words|]. intros rs r2 Hr2 Hw2.
    split; [done|]. rewrite pointers_wrap. by apply Forall_app.
Qed.

Lemma nulterminate_pointers c : nulterminate c = (pointers c).*2.
Proof. induction c; simpl; rewrite ?fmap_app; simpl; congruence. Qed.

Lemma until_nul_lookup (w l : list Z) :
  (∀ k, (k < length w)%nat → l !! k = w !! k) → l !! length w = Some 0 → 0 ∉ w → until_nul l = w.
Proof.
  revert l. induction w as [|c w IH]; intros l Hk H0 Hn.
  - destruct l as [|d l]; [done|]. injection H0 as ->. done.
  - destruct l as [|d l]; [done|]. specialize (Hk 0%nat ltac:(simpl; lia)) as Hd. injection Hd as ->.
    apply not_elem_of_cons in Hn as [Hc Hn]. simpl. rewrite (proj2 (Z.eqb_neq c 0)) by done. f_equal.
    apply IH; [|done|done]. intros k Hlt. apply (Hk (S k)). simpl. lia.
Qed.

(** The buffer after the stores at [ps]. *)
Lemma stores_lookup line m ps j :
  (∀ p, p ∈ ps → (offset line p < length m)%nat) →
  foldl (λ m p, <[offset line p := 0]> m) m ps !! j =
    if decide (j ∈ offset line <$> ps) then Some 0 else m !! j.
Proof.
  revert m. induction ps as [|p ps IH]; intros m Hp; [done|]. cbn [foldl].
  rewrite IH by (intros q Hq; rewrite length_insert; apply Hp; by right).
  cbn [fmap list_fmap]. destruct (decide (j ∈ offset line <$> ps)) as [Hj|Hj].
  - by rewrite decide_True by (by right).
  - destruct (decide (j = offset line p)) as [->|Hne].
    + rewrite decide_True by left. apply list_lookup_insert_eq, Hp. left.
    + rewrite decide_False by (by apply not_elem_of_cons). by apply list_lookup_insert_ne.
Qed.

Lemma suffix_lookup (line p : ptr) k : p `suffix_of` line → line !! (offset line p + k)%nat = p !! k.
Proof.
  intros [pre ->]. unfold offset. rewrite length_app. replace (length pre + length p - length p)%nat with (length pre) by lia.
  rewrite lookup_app_r by lia. f_equal. lia.
Qed.
Lemma suffix_length (p line : ptr) : p `suffix_of` line → (length p ≤ length line)%nat.
Proof. intros [pre ->]. rewrite length_app. lia. Qed.

Lemma string_of_word line c t : 0 ∉ line → Forall (word_in line) (pointers c) → t ∈ pointers c →
  ∃ w, t.1 = w ++ t.2 ∧ w ≠ [] ∧ string_at (terminated line c) (offset line t.1) = w.
Proof.
  intros H0 Hall Ht. rewrite Forall_forall in Hall. destruct (Hall t Ht) as (Hs & w & Ew & Hne & Hw & _).
  exists w. split; [done|]. split; [done|].
  assert (Hst : ∀ j, terminated line c !! j = if decide (j ∈ offset line <$> nulterminate c) then Some 0 else (line ++ [0]) !! j).
  { intros j. apply stores_lookup. intros p _. rewrite length_app. unfold offset. simpl. lia. }
  pose proof (suffix_length _ _ Hs) as Hlen. rewrite Ew, length_app in Hlen.
  assert (Hq : offset line t.2 = (offset line t.1 + length w)%nat) by (unfold offset; rewrite Ew, length_app; lia).
  apply until_nul_lookup.
  - intros k Hk. rewrite lookup_drop, Hst.
    assert (Hc : line !! (offset line t.1 + k)%nat = w !! k) by (rewrite suffix_lookup, Ew by done; by apply lookup_app_l).
    rewrite decide_False; [rewrite lookup_app_l by (unfold offset; rewrite Ew, length_app; lia); done|].
    rewrite nulterminate_pointers. intros (p & Ep & Hp)%list_elem_of_fmap. apply list_elem_of_fmap in Hp as (t' & -> & Ht').
    destruct (Hall t' Ht') as (Hs' & w' & Ew' & _ & _ & Hh).
    assert (Hs2 : t'.2 `suffix_of` line) by (etrans; [|exact Hs']; rewrite Ew'; by exists w').
    pose proof (suffix_lookup line t'.2 0 Hs2) as Hl. rewrite Nat.add_0_r, <-Ep, Hc in Hl.
    destruct (lookup_lt_is_Some_2 w k Hk) as [x Hx]. rewrite Hx in Hl.
    destruct t'.2 as [|y r]; [done|]. injection Hl as <-.
    rewrite forallb_forall in Hw. rewrite Hw in Hh; [done|]. apply list_elem_of_In. by apply list_elem_of_lookup_2 in Hx.
  - rewrite lookup_drop, Hst, decide_True; [done|]. rewrite <-Hq. apply list_elem_of_fmap. exists t.2. split; [done|].
    rewrite nulterminate_pointers. by apply list_elem_of_fmap_2.
  - intros Hin. apply H0. destruct Hs as [pre ->]. rewrite Ew. set_solver.
Qed.

(** C26. The words the shell passes to [exec] and [open].  Parsing any line
    ends; when it succeeds, then after [nulterminate] has stored its zeros
    into the line, each pointer of the tree (arguments and files of
    redirections) points to a C string that is exactly the word it was
    parsed from: no zero cuts another word. *)
Theorem shell_words line :
  0 ∉ line →
  match parsecmd line with
  | Ret c _ => ∀ t, t ∈ pointers c →
      ∃ w, t.1 = w ++ t.2 ∧ w ≠ [] ∧ forallb wordchar w = true ∧ string_at (terminated line c) (offset line t.1) = w
  | Fail _ => True
  | Fuel => False
  end.
Proof.
  intros H0. pose proof (parsecmd_ends line) as Hf. destruct (parsecmd line) as [c s| |] eqn:E; [|done|done].
  intros t Ht. assert (Hall : Forall (word_in line) (pointers c)).
  { unfold parsecmd in E. apply andthen_ret in E as (c' & s' & E1 & E2).
    destruct (parse_words (parse_fuel line) line) as (H & _). rewrite E1 in H. destruct H as [_ H].
    unfold peek in E2. destruct (skip s'); [by injection E2 as <- <-|discriminate E2]. }
  destruct (string_of_word line c t H0 Hall Ht) as (w & Ew & Hne & Hs). exists w. split; [done|]. split; [done|]. split; [|done].
  rewrite Forall_forall in Hall. destruct (Hall t Ht) as (_ & w' & Ew' & _ & Hw' & _).
  rewrite Ew in Ew'. apply app_inv_tail in Ew' as ->. done.
Qed.

(** The line: ls > out & *)
Lemma shell_words_witness :
  ∃ c s, parsecmd [108; 115; 32; 62; 32; 111; 117; 116; 32; 38] = Ret c s ∧ pointers c ≠ [] ∧
  ∀ t, t ∈ pointers c → ∃ w, t.1 = w ++ t.2 ∧ w ≠ [] ∧ forallb wordchar w = true ∧
    string_at (terminated [108; 115; 32; 62; 32; 111; 117; 116; 32; 38] c)
      (offset [108; 115; 32; 62; 32; 111; 117; 116; 32; 38] t.1) = w.
Proof.
  pose proof (shell_words [108; 115; 32; 62; 32; 111; 117; 116; 32; 38] ltac:(set_solver)) as H.
  eexists _, _. split; [vm_compute; reflexivity|]. split; [done|]. exact H.
Defined.
