(* ===== verification/ShText.v ===== *)
(** * The shell's language (sh.c)

    The syntax the parser of [Sh] reads, its text and its meaning as a tree
    over words.  The result: the parser reads back the meaning of every text
    of the language. *)
From S2P Require Import Prelude Sh.


(** Command trees over words. *)
Inductive tree :=
| T_EXEC (argv : list (list Z))
| T_REDIR (c : tree) (file : list Z) (mode fd : Z)
| T_PIPE (left right : tree)
| T_LIST (left right : tree)
| T_BACK (c : tree).

(** The word between two pointers, and the tree of a parsed command. *)
Definition between (q eq : ptr) : list Z := take (length q - length eq) q.
Fixpoint resolve (c : cmd) : tree :=
  match c with
  | EXEC argv => T_EXEC ((λ t, between t.1 t.2) <$> argv)
  | REDIR c file efile mode fd => T_REDIR (resolve c) (between file efile) mode fd
  | PIPE l r => T_PIPE (resolve l) (resolve r)
  | LIST l r => T_LIST (resolve l) (resolve r)
  | BACK c => T_BACK (resolve c)
  end.

(** The syntax of the shell. *)
Inductive rkind := RIn | ROut | RAppend.
Record sredir := SRedir { sr_kind : rkind; sr_file : list Z }.
Record sarg := SArg { sa_word : list Z; sa_redirs : list sredir }.
Inductive line :=
| LEnd (p : pln) (backs : nat)
| LSeq (p : pln) (backs : nat) (l : line)
with pln :=
| PEnd (u : simple)
| PBar (u : simple) (p : pln)
with simple :=
| SExec (rs : list sredir) (args : list sarg)
| SBlock (l : line) (rs : list sredir).

Scheme line_mut := Induction for line Sort Prop
with pln_mut := Induction for pln Sort Prop
with simple_mut := Induction for simple Sort Prop.
Combined Scheme syntax_ind from line_mut, pln_mut, simple_mut.

(** Its text, a space after every token. *)
Definition show_kind (r : rkind) : list Z :=
  match r with RIn => [60; 32] | ROut => [62; 32] | RAppend => [62; 62; 32] end.
Definition show_redir (r : sredir) : list Z := show_kind (sr_kind r) ++ sr_file r ++ [32].
Definition show_redirs (rs : list sredir) : list Z := concat (show_redir <$> rs).
Definition show_arg (a : sarg) : list Z := sa_word a ++ [32] ++ show_redirs (sa_redirs a).
Definition show_backs (n : nat) : list Z := concat (replicate n [38; 32]).
Fixpoint show_line (l : line) : list Z :=
  match l with
  | LEnd p n => show_pln p ++ show_backs n
  | LSeq p n l => show_pln p ++ show_backs n ++ [59; 32] ++ show_line l
  end
with show_pln (p : pln) : list Z :=
  match p with
  | PEnd u => show_simple u
  | PBar u p => show_simple u ++ [124; 32] ++ show_pln p
  end
with show_simple (u : simple) : list Z :=
  match u with
  | SExec rs args => show_redirs rs ++ concat (show_arg <$> args)
  | SBlock l rs => [40; 32] ++ show_line l ++ [41; 32] ++ show_redirs rs
  end.

(** Its meaning. *)
Definition redir_tree (c : tree) (r : sredir) : tree :=
  match sr_kind r with
  | RIn => T_REDIR c (sr_file r) O_RDONLY 0
  | ROut | RAppend => T_REDIR c (sr_file r) (Z.lor O_WRONLY O_CREATE) 1
  end.
Fixpoint line_tree (l : line) : tree :=
  match l with
  | LEnd p n => Nat.iter n T_BACK (pln_tree p)
  | LSeq p n l => T_LIST (Nat.iter n T_BACK (pln_tree p)) (line_tree l)
  end
with pln_tree (p : pln) : tree :=
  match p with
  | PEnd u => simple_tree u
  | PBar u p => T_PIPE (simple_tree u) (pln_tree p)
  end
with simple_tree (u : simple) : tree :=
  match u with
  | SExec rs args => foldl redir_tree (T_EXEC (sa_word <$> args)) (rs ++ concat (sa_redirs <$> args))
  | SBlock l rs => foldl redir_tree (line_tree l) rs
  end.

(** Words are words, and there are at most nine arguments. *)
Definition good_word (w : list Z) : bool := match w with [] => false | _ => forallb wordchar w end.
Definition good_redirs (rs : list sredir) : bool := forallb (λ r, good_word (sr_file r)) rs.
Fixpoint good_line (l : line) : bool :=
  match l with
  | LEnd p _ => good_pln p
  | LSeq p _ l => good_pln p && good_line l
  end
with good_pln (p : pln) : bool :=
  match p with
  | PEnd u => good_simple u
  | PBar u p => good_simple u && good_pln p
  end
with good_simple (u : simple) : bool :=
  match u with
  | SExec rs args => good_redirs rs && forallb (λ a, good_word (sa_word a) && good_redirs (sa_redirs a)) args &&
                     (length args <? MAXARGS)%nat
  | SBlock l rs => good_line l && good_redirs rs
  end.

(** ** The text as the parser sees it *)

(** The first character of a text, if it has one. *)
Definition starts (P : Z → bool) (k : ptr) : Prop := match k with c :: _ => P c = true | [] => True end.
Definition fresh : ptr → Prop := starts (λ c, negb (memb c whitespace)).
Definition follow (cs : list Z) : ptr → Prop := starts (λ c, memb c cs).

Lemma starts_app P a b : starts P a → starts P b → starts P (a ++ b).
Proof. by destruct a. Qed.
Lemma starts_impl (P Q : Z → bool) k : (∀ c, P c = true → Q c = true) → starts P k → starts Q k.
Proof. destruct k as [|c k]; simpl; auto. Qed.
Lemma follow_impl cs (Q : Z → bool) k : forallb Q cs = true → follow cs k → starts Q k.
Proof.
  intros H. apply starts_impl. intros c (x & Hx & ->%Z.eqb_eq)%existsb_exists. rewrite forallb_forall in H. auto.
Qed.

Lemma fresh_app a b : fresh a → fresh b → fresh (a ++ b).
Proof. apply starts_app. Qed.
Lemma fresh_skip k : fresh k → skip k = k.
Proof. destruct k as [|c k]; [done|]. simpl. by destruct (memb c whitespace). Qed.
Lemma fresh_skip_space k : fresh k → skip (32 :: k) = k.
Proof. intros H. simpl. by apply fresh_skip. Qed.

(** [peek] fails, or succeeds, without moving. *)
Definition not_in (toks : list Z) (c : Z) : bool := negb (memb c whitespace) && negb (memb c toks).
Lemma peek_no toks k : starts (not_in toks) k → peek toks k = (false, k).
Proof.
  unfold not_in, peek. destruct k as [|c k]; [done|]. simpl. by destruct (memb c whitespace), (memb c toks).
Qed.
Lemma not_in_fresh toks k : starts (not_in toks) k → fresh k.
Proof. apply starts_impl. intros c. unfold not_in. by destruct (memb c whitespace). Qed.
Lemma peek_yes toks c k : memb c whitespace = false → memb c toks = true → peek toks (c :: k) = (true, c :: k).
Proof. intros H1 H2. unfold peek. simpl. by rewrite H1, H2. Qed.

Lemma word_stops w k : forallb wordchar w = true → word (w ++ 32 :: k) = 32 :: k.
Proof.
  induction w as [|c w IH]; intros H; [done|]. simpl in H. apply andb_prop in H as [Hc Hw].
  simpl. fold (wordchar c). rewrite Hc. by apply IH.
Qed.

Lemma wordchar_not c : wordchar c = true → memb c whitespace = false ∧ memb c symbols = false.
Proof. unfold wordchar. destruct (memb c whitespace), (memb c symbols); done. Qed.

Lemma memb_false c l : memb c l = false ↔ c ∉ l.
Proof.
  unfold memb. rewrite <-not_true_iff_false, existsb_exists. rewrite list_elem_of_In. split.
  - intros H Hc. apply H. exists c. by rewrite Z.eqb_refl.
  - intros H (x & Hx & ->%Z.eqb_eq). done.
Qed.

Lemma gettoken_good w k : good_word w = true → fresh k →
  gettoken (w ++ 32 :: k) = (Token 97 (w ++ 32 :: k) (32 :: k), k) ∧ between (w ++ 32 :: k) (32 :: k) = w.
Proof.
  intros Hg Hk. destruct w as [|c w]; [done|]. pose proof Hg as Hg'. apply andb_prop in Hg' as [Hc Hw].
  destruct (wordchar_not c Hc) as [Hws Hsy]. split.
  - unfold gettoken. rewrite (fresh_skip ((c :: w) ++ 32 :: k)) by (unfold fresh; simpl; by rewrite Hws). cbn [app scan].
    assert (H1 : memb c [124; 40; 41; 59; 38; 60] = false).
    { apply memb_false. apply memb_false in Hsy. unfold symbols in Hsy. set_solver. }
    assert (H2 : (c =? 62) = false).
    { apply Z.eqb_neq. apply memb_false in Hsy. unfold symbols in Hsy. set_solver. }
    rewrite H1, H2. change (c :: w ++ 32 :: k) with ((c :: w) ++ 32 :: k). rewrite word_stops by done.
    by rewrite fresh_skip_space.
  - unfold between. rewrite length_app, Nat.add_sub. by apply take_app_length.
Qed.

(** Tokens that are symbols. *)
Lemma gettoken_symbol c k : memb c [124; 40; 41; 59; 38; 60] = true → fresh k →
  ∃ t, gettoken (c :: 32 :: k) = (t, k) ∧ tk_ret t = c.
Proof.
  intros Hc Hk. assert (Hw : memb c whitespace = false).
  { apply existsb_exists in Hc as (x & Hx & ->%Z.eqb_eq). simpl in Hx.
    repeat (destruct Hx as [<-|Hx]; [reflexivity|]). done. }
  unfold gettoken. rewrite (fresh_skip (c :: _)) by (unfold fresh; simpl; by rewrite Hw).
  cbn [scan]. rewrite Hc, fresh_skip_space by done. by eexists.
Qed.

Definition kind_token (r : rkind) : Z := match r with RIn => 60 | ROut => 62 | RAppend => 43 end.
Lemma gettoken_redir r k : fresh k → ∃ t, gettoken (show_kind r ++ k) = (t, k) ∧ tk_ret t = kind_token r.
Proof.
  intros Hk. unfold gettoken. rewrite (fresh_skip (show_kind r ++ k)) by (by destruct r).
  destruct r; cbn [show_kind app scan]; cbn [Z.eqb Pos.eqb]; unfold memb; cbn [existsb Z.eqb Pos.eqb orb];
    rewrite fresh_skip_space by done; by eexists.
Qed.
Lemma peek_redir r k : peek [60; 62] (show_kind r ++ k) = (true, show_kind r ++ k).
Proof. destruct r; by apply peek_yes. Qed.

(** ** Redirections *)

(** Pointers that stand for the redirections [rs]. *)
Definition means (out : list redir) (rs : list sredir) : Prop :=
  ∀ c, resolve (wrap c out) = foldl redir_tree (resolve c) rs.

Lemma means_app o1 o2 r1 r2 : means o1 r1 → means o2 r2 → means (o1 ++ o2) (r1 ++ r2).
Proof.
  unfold means, wrap. intros H1 H2 c. by rewrite !foldl_app, H2, H1.
Qed.

Lemma means_cons r t out rs : between (tk_q t) (tk_eq t) = sr_file r → means out rs →
  means (match redir_of (kind_token (sr_kind r)) t with Some x => x :: out | None => out end) (r :: rs).
Proof.
  intros Hb Hm c. destruct r as [[] f]; cbn in *; rewrite <-Hb; exact (Hm (redircmd c _)).
Qed.

Lemma good_fresh w k : good_word w = true → fresh (w ++ k).
Proof.
  destruct w as [|c w]; [done|]. simpl. unfold fresh. intros [Hc _]%andb_prop. simpl.
  by rewrite (proj1 (wordchar_not c Hc)).
Qed.

Lemma parseredirs_show rs k n : good_redirs rs = true → starts (not_in [60; 62]) k → (length rs < n)%nat →
  ∃ out, parseredirs n (show_redirs rs ++ k) = Ret out k ∧ means out rs.
Proof.
  intros Hg Hk. revert n. induction rs as [|r rs IH]; intros [|n] Hn; try (simpl in Hn; lia).
  - exists []. split; [|done]. cbn [show_redirs parseredirs fmap list_fmap concat app]. by rewrite peek_no.
  - simpl in Hg. apply andb_prop in Hg as [Hw Hg]. destruct (IH Hg n ltac:(simpl in Hn; lia)) as (out & E & Hm).
    set (rest := show_redirs rs ++ k) in *.
    assert (Hrest : fresh rest).
    { apply starts_app; [destruct rs as [|[[] ?] ?]; done|]. by eapply not_in_fresh. }
    assert (Et : show_redirs (r :: rs) ++ k = show_kind (sr_kind r) ++ sr_file r ++ 32 :: rest).
    { unfold rest, show_redirs. cbn [fmap list_fmap concat]. unfold show_redir at 1. by rewrite <-!app_assoc. }
    destruct (gettoken_redir (sr_kind r) (sr_file r ++ 32 :: rest)) as (t & Eg & Ht); [by apply good_fresh|].
    destruct (gettoken_good _ rest Hw Hrest) as [Eg' Hb].
    rewrite Et. cbn [parseredirs]. rewrite peek_redir, Eg, Eg'. cbn [tk_ret negb Z.eqb Pos.eqb]. rewrite E. cbn [andthen].
    eexists. split; [done|]. rewrite Ht. by apply means_cons.
Qed.

Lemma show_redirs_le rs : (length rs ≤ length (show_redirs rs))%nat.
Proof.
  induction rs as [|r rs IH]; [done|]. unfold show_redirs in *. cbn [fmap list_fmap concat length].
  rewrite length_app. unfold show_redir at 1. rewrite length_app. destruct (sr_kind r); simpl; lia.
Qed.
Lemma redirs_show rs k : good_redirs rs = true → starts (not_in [60; 62]) k →
  ∃ out, redirs (show_redirs rs ++ k) = Ret out k ∧ means out rs.
Proof.
  intros Hg Hk. apply parseredirs_show; [done|done|]. rewrite length_app. pose proof (show_redirs_le rs). lia.
Qed.

(** ** Arguments *)

Definition good_arg (a : sarg) : bool := good_word (sa_word a) && good_redirs (sa_redirs a).
Definition show_args (args : list sarg) : list Z := concat (show_arg <$> args).

Lemma wordchar_not_in toks c : forallb (λ d, memb d symbols) toks = true → wordchar c = true → not_in toks c = true.
Proof.
  intros Ht Hc. destruct (wordchar_not c Hc) as [H1 H2]. unfold not_in. rewrite H1. simpl.
  destruct (memb c toks) eqn:E; [|done]. apply existsb_exists in E as (x & Hx & ->%Z.eqb_eq).
  rewrite forallb_forall in Ht. rewrite (Ht x Hx) in H2. done.
Qed.
Lemma word_starts w k : good_word w = true → starts wordchar (w ++ k).
Proof. destruct w as [|c w]; [done|]. simpl. by intros [Hc _]%andb_prop. Qed.
Lemma args_starts toks args k : forallb (λ d, memb d symbols) toks = true → forallb good_arg args = true →
  starts (not_in toks) k → starts (not_in toks) (show_args args ++ k).
Proof.
  intros Ht Hg Hk. destruct args as [|a args]; [done|]. simpl in Hg. apply andb_prop in Hg as [Ha _].
  apply andb_prop in Ha as [Hw _]. unfold show_args. cbn [fmap list_fmap concat]. unfold show_arg. rewrite <-!app_assoc.
  eapply starts_impl; [|by apply word_starts]. intros c. by apply wordchar_not_in.
Qed.

(** What follows a simple command. *)
Abbreviation after_simple := (follow [124; 38; 59; 41]) (only parsing).
Abbreviation after_pln := (follow [38; 59; 41]) (only parsing).
Abbreviation after_line := (follow [41]) (only parsing).

Lemma parseargs_show args argc k n : forallb good_arg args = true → after_simple k →
  (argc + length args < MAXARGS)%nat → (length args < n)%nat →
  ∃ a out, parseargs n argc (show_args args ++ k) = Ret (a, out) k ∧
    (λ t, between t.1 t.2) <$> a = sa_word <$> args ∧ means out (concat (sa_redirs <$> args)).
Proof.
  intros Hg Hk. revert argc n. induction args as [|a args IH]; intros argc [|n] Hm Hn; try (simpl in Hn; lia).
  - exists [], []. split; [|done]. cbn [show_args fmap list_fmap concat app parseargs].
    destruct k as [|c k]; [done|]. rewrite peek_yes; [done| |].
    + apply negb_true_iff. exact (follow_impl [124; 38; 59; 41] (λ c, negb (memb c whitespace)) (c :: k) eq_refl Hk).
    + exact (follow_impl [124; 38; 59; 41] (λ c, memb c [124; 41; 38; 59]) (c :: k) eq_refl Hk).
  - simpl in Hg. apply andb_prop in Hg as [Ha Hg]. unfold good_arg in Ha. apply andb_prop in Ha as [Hw Hr].
    destruct (IH Hg (S argc) n) as (l & out & E & Hl & Ho); [simpl in Hm; lia|simpl in Hn; lia|].
    set (rest := show_args args ++ k) in *.
    assert (Hrest : starts (not_in [60; 62]) rest) by (apply args_starts; [done|done|by eapply follow_impl; [|exact Hk]]).
    destruct (redirs_show (sa_redirs a) rest Hr Hrest) as (rs & Er & Hrs).
    assert (Hf : fresh (show_redirs (sa_redirs a) ++ rest)).
    { apply starts_app; [destruct (sa_redirs a) as [|[[] ?] ?]; done|]. by eapply not_in_fresh. }
    assert (Et : show_args (a :: args) ++ k = sa_word a ++ 32 :: show_redirs (sa_redirs a) ++ rest).
    { unfold rest, show_args. cbn [fmap list_fmap concat]. unfold show_arg at 1. by rewrite <-!app_assoc. }
    destruct (gettoken_good _ _ Hw Hf) as [Eg Hb].
    exists ((sa_word a ++ 32 :: show_redirs (sa_redirs a) ++ rest, 32 :: show_redirs (sa_redirs a) ++ rest) :: l), (rs ++ out).
    split; [|split].
    + rewrite Et. cbn [parseargs]. rewrite peek_no by (eapply starts_impl; [|by apply word_starts]; intros c; by apply wordchar_not_in).
      rewrite Eg. cbn [tk_ret negb Z.eqb Pos.eqb]. rewrite (proj2 (Nat.leb_gt _ _)) by (simpl in Hm; lia).
      rewrite Er. cbn [andthen]. rewrite E. done.
    + cbn [fmap list_fmap fst snd]. rewrite Hb. f_equal. exact Hl.
    + cbn [fmap list_fmap concat]. by apply means_app.
Qed.

Lemma show_args_le args : (length args ≤ length (show_args args))%nat.
Proof.
  induction args as [|a args IH]; [done|]. unfold show_args in *. cbn [fmap list_fmap concat length].
  rewrite length_app. unfold show_arg at 1. rewrite !length_app. simpl. lia.
Qed.

(** ** Background commands *)
Lemma parseback_show m c k n : starts (not_in [38]) k → (m < n)%nat →
  parseback n c (show_backs m ++ k) = Ret (Nat.iter m BACK c) k.
Proof.
  intros Hk. revert c n. induction m as [|m IH]; intros c [|n] Hn; try lia.
  - cbn [parseback show_backs replicate concat app]. by rewrite peek_no.
  - cbn [parseback show_backs replicate concat app]. rewrite peek_yes by done.
    destruct (gettoken_symbol 38 (show_backs m ++ k)) as (t & Eg & _); [done| |].
    { apply starts_app; [by destruct m|]. by eapply not_in_fresh. }
    fold (show_backs m). rewrite Eg, IH by lia. by rewrite Nat.iter_succ_r.
Qed.

Lemma show_backs_le m : (m ≤ length (show_backs m))%nat.
Proof. induction m as [|m IH]; [done|]. unfold show_backs in *. cbn [replicate concat length app]. lia. Qed.

Lemma resolve_backs m c : resolve (Nat.iter m BACK c) = Nat.iter m T_BACK (resolve c).
Proof. induction m as [|m IH]; simpl; congruence. Qed.

(** ** Commands *)

(** Nothing starts with white space. *)
Lemma show_fresh :
  (∀ l, good_line l = true → fresh (show_line l)) ∧ (∀ p, good_pln p = true → fresh (show_pln p)) ∧
  (∀ u, good_simple u = true → fresh (show_simple u)).
Proof.
  assert (Hb : ∀ n, fresh (show_backs n)) by (by intros []).
  assert (Hr : ∀ rs, fresh (show_redirs rs)) by (by intros [|[[] ?] ?]).
  apply syntax_ind; simpl.
  - intros p IH n Hg. apply fresh_app; auto.
  - intros p IHp n l IHl [Hp Hl]%andb_prop. repeat (apply fresh_app; auto); done.
  - auto.
  - intros u IHu p IHp [Hu Hp]%andb_prop. repeat (apply fresh_app; auto); done.
  - intros rs args [[_ Ha]%andb_prop _]%andb_prop. apply fresh_app; [auto|].
    rewrite <-(app_nil_r (concat _)). eapply not_in_fresh. by apply (args_starts []).
  - done.
Qed.

(** The parser on the text of a phrase with anything that may follow it. *)
Definition reads_line (l : line) : Prop := good_line l = true → ∀ k n, after_line k → (4 * length (show_line l) + 4 ≤ n)%nat →
  ∃ c, parseline n (show_line l ++ k) = Ret c k ∧ resolve c = line_tree l.
Definition reads_pln (p : pln) : Prop := good_pln p = true → ∀ k n, after_pln k → (4 * length (show_pln p) + 3 ≤ n)%nat →
  ∃ c, parsepipe n (show_pln p ++ k) = Ret c k ∧ resolve c = pln_tree p.
Definition reads_simple (u : simple) : Prop := good_simple u = true → ∀ k n, after_simple k → (4 * length (show_simple u) + 2 ≤ n)%nat →
  ∃ c, parseexec n (show_simple u ++ k) = Ret c k ∧ resolve c = simple_tree u.

Lemma read_end p m : reads_pln p → reads_line (LEnd p m).
Proof.
  intros IH Hg k [|n] Hk Hn; [lia|]. cbn [show_line good_line line_tree] in *. rewrite length_app in Hn.
  destruct (IH Hg (show_backs m ++ k) n) as (c & E & Hc); [|lia|].
  { apply starts_app; [by destruct m|]. by eapply follow_impl; [|exact Hk]. }
  exists (Nat.iter m BACK c). split; [|by rewrite resolve_backs, Hc].
  rewrite <-app_assoc. cbn [parseline]. rewrite E. cbn [andthen].
  rewrite parseback_show; [|by eapply follow_impl; [|exact Hk]|rewrite length_app; pose proof (show_backs_le m); lia].
  cbn [andthen]. by rewrite peek_no by (by eapply follow_impl; [|exact Hk]).
Qed.

Lemma read_seq p m l : reads_pln p → reads_line l → reads_line (LSeq p m l).
Proof.
  intros IH IHl Hg k [|n] Hk Hn; [lia|]. cbn [show_line good_line line_tree] in *. apply andb_prop in Hg as [Hp Hl].
  rewrite !length_app in Hn. cbn [length] in Hn.
  destruct (IHl Hl k n Hk ltac:(lia)) as (c2 & E2 & Hc2).
  destruct (IH Hp (show_backs m ++ [59; 32] ++ show_line l ++ k) n) as (c & E & Hc); [by destruct m|lia|].
  exists (LIST (Nat.iter m BACK c) c2). split; [|cbn [resolve]; by rewrite resolve_backs, Hc, Hc2].
  rewrite <-!app_assoc. cbn [parseline]. rewrite E. cbn [andthen].
  rewrite parseback_show; [|done|rewrite length_app; pose proof (show_backs_le m); lia].
  cbn [andthen app]. rewrite peek_yes by done.
  destruct (gettoken_symbol 59 (show_line l ++ k)) as (t & Eg & _); [done| |].
  { apply starts_app; [by apply show_fresh|by eapply follow_impl; [|exact Hk]]. }
  rewrite Eg, E2. done.
Qed.

Lemma read_simple u : reads_simple u → reads_pln (PEnd u).
Proof.
  intros IH Hg k [|n] Hk Hn; [lia|]. cbn [show_pln good_pln pln_tree] in *.
  destruct (IH Hg k n) as (c & E & Hc); [by eapply follow_impl; [|exact Hk]|lia|].
  exists c. split; [|done]. cbn [parsepipe]. rewrite E. cbn [andthen].
  by rewrite peek_no by (by eapply follow_impl; [|exact Hk]).
Qed.

Lemma read_bar u p : reads_simple u → reads_pln p → reads_pln (PBar u p).
Proof.
  intros IH IHp Hg k [|n] Hk Hn; [lia|]. cbn [show_pln good_pln pln_tree] in *. apply andb_prop in Hg as [Hu Hp].
  rewrite !length_app in Hn. cbn [length] in Hn.
  destruct (IHp Hp k n Hk ltac:(lia)) as (c2 & E2 & Hc2).
  destruct (IH Hu ([124; 32] ++ show_pln p ++ k) n) as (c & E & Hc); [done|lia|].
  exists (PIPE c c2). split; [|cbn [resolve]; by rewrite Hc, Hc2].
  rewrite <-!app_assoc. cbn [parsepipe]. rewrite E. cbn [andthen app]. rewrite peek_yes by done.
  destruct (gettoken_symbol 124 (show_pln p ++ k)) as (t & Eg & _); [done| |].
  { apply starts_app; [by apply show_fresh|by eapply follow_impl; [|exact Hk]]. }
  rewrite Eg, E2. done.
Qed.

Lemma read_exec rs args : reads_simple (SExec rs args).
Proof.
  intros Hg k [|n] Hk Hn; [lia|]. cbn [show_simple good_simple simple_tree] in *.
  apply andb_prop in Hg as [[Hr Ha]%andb_prop Hm%Nat.ltb_lt]. fold (show_args args) in *.
  assert (Hs : ∀ toks, forallb (λ d, memb d symbols) toks = true → forallb (not_in toks) [124; 38; 59; 41] = true →
    starts (not_in toks) (show_args args ++ k)).
  { intros toks H1 H2. apply args_starts; [done|done|]. by eapply follow_impl; [|exact Hk]. }
  destruct (redirs_show rs (show_args args ++ k) Hr) as (out & Er & Ho); [by apply Hs|].
  destruct (parseargs_show args 0 k (S (length (show_args args ++ k))) Ha Hk) as (a & o2 & E & Hl & Ho2);
    [lia|rewrite length_app; pose proof (show_args_le args); lia|].
  eexists. split.
  + rewrite <-app_assoc. cbn [parseexec]. rewrite peek_no.
    2: { apply starts_app; [by destruct rs as [|[[] ?] ?]|by apply Hs]. }
    rewrite Er. cbn [andthen]. rewrite E. reflexivity.
  + cbn [fst snd]. rewrite (means_app _ _ _ _ Ho Ho2). cbn [resolve]. by rewrite Hl.
Qed.

Lemma read_block l rs : reads_line l → reads_simple (SBlock l rs).
Proof.
  intros IH Hg k [|[|n]] Hk Hn; [lia|lia|]. cbn [show_simple good_simple simple_tree] in *. apply andb_prop in Hg as [Hl Hr].
  rewrite !length_app in Hn. cbn [length] in Hn.
  assert (Hk2 : starts (not_in [60; 62]) k) by (by eapply follow_impl; [|exact Hk]).
  destruct (redirs_show rs k Hr Hk2) as (out & Er & Ho).
  destruct (IH Hl ([41; 32] ++ show_redirs rs ++ k) n) as (c & E & Hc); [done|lia|].
  exists (wrap c out). split; [|by rewrite Ho, Hc].
  rewrite <-!app_assoc. cbn [parseexec app]. rewrite peek_yes by done. cbn [parseblock]. rewrite peek_yes by done. cbn [negb].
  destruct (gettoken_symbol 40 (show_line l ++ [41; 32] ++ show_redirs rs ++ k)) as (t & Eg & _); [done| |].
  { apply starts_app; [by apply show_fresh|done]. }
  cbn [app] in *. rewrite Eg, E. cbn [andthen]. rewrite peek_yes by done. cbn [negb].
  destruct (gettoken_symbol 41 (show_redirs rs ++ k)) as (t' & Eg' & _); [done| |].
  { apply starts_app; [by destruct rs as [|[[] ?] ?]|by eapply not_in_fresh]. }
  rewrite Eg', Er. done.
Qed.

#[local] Hint Resolve read_end read_seq read_simple read_bar read_exec read_block : core.
Lemma parse_phrases : (∀ l, reads_line l) ∧ (∀ p, reads_pln p) ∧ (∀ u, reads_simple u).
Proof. apply syntax_ind; auto. Qed.

(** C25. The shell reads what is written: for every command line of its
    syntax (lists, pipelines, blocks, redirections, background commands, at
    most nine arguments), parsing the text of the line ends, succeeds, uses
    the whole text and gives the tree the line means.  A redirection with
    [>>] means the same as one with [>]: nothing opens the file for
    appending. *)
Theorem parse_show l : good_line l = true →
  ∃ c, parsecmd (show_line l) = Ret c [] ∧ resolve c = line_tree l.
Proof.
  intros Hg. destruct (proj1 parse_phrases l Hg [] (parse_fuel (show_line l))) as (c & E & Hc); [done|unfold parse_fuel; lia|].
  rewrite app_nil_r in E. exists c. split; [|done]. unfold parsecmd. by rewrite E.
Qed.

(** ( a b > f | c & ; d ) >> g ;  with the words a b c d, files f and g *)
Definition sample_line : line :=
  LSeq (PEnd (SBlock (LSeq (PBar (SExec [] [SArg [97] []; SArg [98] [SRedir ROut [102]]]) (PEnd (SExec [] [SArg [99] []]))) 1
                        (LEnd (PEnd (SExec [] [SArg [100] []])) 0)) [SRedir RAppend [103]])) 0
       (LEnd (PEnd (SExec [] [])) 0).
Lemma parse_show_witness :
  good_line sample_line = true ∧ ∃ c, parsecmd (show_line sample_line) = Ret c [] ∧ resolve c = line_tree sample_line.
Proof. split; [reflexivity|]. apply (parse_show sample_line). reflexivity. Defined.
