(* ===== verification/ShRun.v ===== *)
(** * The shell running commands (sh.c: runcmd, main)

    A user program is a tree of the system calls it makes ([prog]); what a
    call returns selects the branch.  Processes run interleaved in any order,
    and a call that may fail may do so at any time ([step]).  A file
    descriptor table is the kernel's array: [open], [dup] and [pipe] take the
    lowest free entries ([free_fd], the search of [fdalloc] in sysfile.c).
    Processes are named by their place in the tree of forks and pipes by the
    process that made them, so names are never used twice.

    A program that has been executed runs until it exits, keeping its
    descriptors; one that reads its standard input to the end ([reader]) exits
    only at the end of the file, which for a pipe comes when no process holds
    the write end any more.

    The results: whatever the interleaving and whatever fails, the programs
    that are executed are those of the command line, each with its redirected
    input and output, its ends of the right pipes, and no other end of any
    pipe; if nothing fails all of them are executed; nobody waits for ever,
    neither for a child nor for the end of a pipe; a program runs only when
    what it had to wait for is over; and without [&] the prompt comes back
    only when all processes of the line have ended. *)
From S2P Require Import Prelude State CString Print Syscall Sh.

(** ** Programs *)
Inductive prog :=
| Exit
| Exec (argv : list (list Z)) (failed : prog)
| Close (fd : nat) (k : prog)
| Open (name : list Z) (mode : Z) (k : option nat → prog)
| Dup (fd : nat) (k : prog)
| Pipe (k : option (nat * nat) → prog)
| Fork (child parent failed : prog)
| Wait (k : prog)
| Chdir (dir : list Z) (k : bool → prog)
| Printf (fd : nat) (fmt : string) (args : list (list Z)) (k : prog)
| Run (reads : bool).     (* a program executed; it may read its input to the end *)

(** [panic] and [fork1] of sh.c. *)
Definition panic (s : string) : prog := Printf 2 (String.append s nl) [] Exit.
Definition fork1 (child parent : prog) : prog := Fork child parent (panic "fork").

(** [str] is the C string at a pointer of the tree. *)
Fixpoint runcmd (str : ptr → list Z) (c : cmd) : prog :=
  match c with
  | EXEC argv =>
      match argv with
      | [] => Exit
      | a :: _ => Exec (str <$> argv.*1) (Printf 2 (String.append "exec %s failed" nl) [str a.1] Exit)
      end
  | REDIR c file _ mode fd =>
      Close (Z.to_nat fd)
        (Open (str file) mode (λ r,
          match r with
          | None => Printf 2 (String.append "open %s failed" nl) [str file] Exit
          | Some _ => runcmd str c
          end))
  | LIST lc rc => fork1 (runcmd str lc) (Wait (runcmd str rc))
  | PIPE lc rc =>
      Pipe (λ p,
        match p with
        | None => panic "pipe"
        | Some (p0, p1) =>
            fork1 (Close 1 (Dup p1 (Close p0 (Close p1 (runcmd str lc)))))
              (fork1 (Close 0 (Dup p0 (Close p0 (Close p1 (runcmd str rc)))))
                (Close p0 (Close p1 (Wait (Wait Exit)))))
        end)
  | BACK c => fork1 (runcmd str c) Exit
  end.

(** ** Descriptors *)

(** A pipe is named by the process that made it and the numbers of pipes and of
    children that process had made before. *)
Abbreviation pipe_id := (list nat * nat * nat)%type.
Inductive obj := File (name : list Z) (mode : Z) | PipeR (p : pipe_id) | PipeW (p : pipe_id).
Abbreviation fdt := (list (option obj)).

Definition dup (f : fdt) (fd : nat) : fdt :=
  match f !! fd, free_fd f 0 with
  | Some (Some o), Some i => <[i := Some o]> f
  | _, _ => f
  end.
Definition pipe_fds (f : fdt) (id : pipe_id) : option (nat * nat * fdt) :=
  match free_fd f 0 with
  | None => None
  | Some i =>
      let f := <[i := Some (PipeR id)]> f in
      match free_fd f 0 with
      | None => None
      | Some j => Some (i, j, <[j := Some (PipeW id)]> f)
      end
  end.

(** ** Processes *)
Record process := Process {
  u_pid : list nat; u_prog : prog; u_fds : fdt; u_forks : nat; u_pipes : nat; u_zombies : nat }.
#[global] Instance eta_process : Eta process := λ r,
  Process (u_pid r) (u_prog r) (u_fds r) (u_forks r) (u_pipes r) (u_zombies r).

(** A program executed: by whom, its arguments, its descriptors. *)
Abbreviation event := (list nat * list (list Z) * fdt)%type.

Section semantics.
(** The programs, by their arguments, that read their input to the end. *)
Context (reader : list (list Z) → bool).

(** The calls a process makes by itself.  The flag is false when the call
    fails. *)
Inductive call : process → bool → list process → list event → Prop :=
| call_exec p argv k : u_prog p = Exec argv k → call p true [p <| u_prog := Run (reader argv) |>] [(u_pid p, argv, u_fds p)]
| call_exec_failed p argv k : u_prog p = Exec argv k → call p false [p <| u_prog := k |>] []
| call_close p fd k : u_prog p = Close fd k → call p true [p <| u_prog := k |> <| u_fds ::= <[fd := None]> |>] []
| call_open p name mode k i : u_prog p = Open name mode k → free_fd (u_fds p) 0 = Some i →
    call p true [p <| u_prog := k (Some i) |> <| u_fds ::= <[i := Some (File name mode)]> |>] []
| call_open_failed p name mode k : u_prog p = Open name mode k → call p false [p <| u_prog := k None |>] []
| call_dup p fd k : u_prog p = Dup fd k → call p true [p <| u_prog := k |> <| u_fds ::= λ f, dup f fd |>] []
| call_pipe p k i j f : u_prog p = Pipe k → pipe_fds (u_fds p) (u_pid p, u_pipes p, u_forks p) = Some (i, j, f) →
    call p true [p <| u_prog := k (Some (i, j)) |> <| u_fds := f |> <| u_pipes ::= S |>] []
| call_pipe_failed p k : u_prog p = Pipe k → call p false [p <| u_prog := k None |>] []
| call_fork p c k failed : u_prog p = Fork c k failed →
    call p true [Process (u_forks p :: u_pid p) c (u_fds p) 0 0 0; p <| u_prog := k |> <| u_forks ::= S |>] []
| call_fork_failed p c k failed : u_prog p = Fork c k failed → call p false [p <| u_prog := failed |>] []
| call_chdir p dir k b : u_prog p = Chdir dir k → call p true [p <| u_prog := k b |>] []
| call_printf p fd fmt args k : u_prog p = Printf fd fmt args k → call p true [p <| u_prog := k |>] [].

(** [exit] leaves a zombie for the parent; [wait] takes one, or returns when
    there is no child. *)
Definition notify (pid : list nat) (q : process) : process :=
  match pid with
  | _ :: parent => if decide (u_pid q = parent) then q <| u_zombies ::= S |> else q
  | [] => q
  end.
Definition child_of (p q : process) : Prop := ∃ i, u_pid q = i :: u_pid p.

(** The standard input of [p] is at its end: if it is a pipe, no process, [p]
    included, can write to it. *)
Definition at_eof (l : list process) (p : process) : Prop :=
  ∀ id q i, u_fds p !! 0%nat = Some (Some (PipeR id)) → q ∈ l → u_fds q !! i ≠ Some (Some (PipeW id)).

Inductive step : list process * list event → bool → list process * list event → Prop :=
| step_call l p l' ok ps es t : call p ok ps es → step (l ++ p :: l', t) ok (l ++ ps ++ l', t ++ es)
| step_exit l p l' t : u_prog p = Exit → step (l ++ p :: l', t) true (notify (u_pid p) <$> (l ++ l'), t)
| step_done l p l' t reads : u_prog p = Run reads → (reads = true → at_eof (l ++ p :: l') p) →
    step (l ++ p :: l', t) true (notify (u_pid p) <$> (l ++ l'), t)
| step_wait l p l' t k z : u_prog p = Wait k → u_zombies p = S z →
    step (l ++ p :: l', t) true (l ++ p <| u_prog := k |> <| u_zombies := z |> :: l', t)
| step_wait_none l p l' t k : u_prog p = Wait k → u_zombies p = 0%nat → Forall (λ q, ¬ child_of p q) (l ++ l') →
    step (l ++ p :: l', t) true (l ++ p <| u_prog := k |> :: l', t).

(** Runs; the flag says that no call has failed. *)
Inductive steps : list process * list event → bool → list process * list event → Prop :=
| steps_refl s : steps s true s
| steps_step s s' s'' ok ok' : steps s ok s' → step s' ok' s'' → steps s (ok && ok') s''.

(** ** What a process is going to execute *)
Fixpoint todo (p : prog) (f : fdt) (pid : list nat) (forks pipes : nat) : list event :=
  match p with
  | Exit | Run _ => []
  | Exec argv _ => [(pid, argv, f)]
  | Close fd k => todo k (<[fd := None]> f) pid forks pipes
  | Open name mode k =>
      match free_fd f 0 with
      | Some i => todo (k (Some i)) (<[i := Some (File name mode)]> f) pid forks pipes
      | None => []
      end
  | Dup fd k => todo k (dup f fd) pid forks pipes
  | Pipe k =>
      match pipe_fds f (pid, pipes, forks) with
      | Some (i, j, f) => todo (k (Some (i, j))) f pid forks (S pipes)
      | None => []
      end
  | Fork c k _ => todo c f (forks :: pid) 0 0 ++ todo k f pid (S forks) pipes
  | Wait k | Printf _ _ _ k => todo k f pid forks pipes
  | Chdir _ k => todo (k true) f pid forks pipes
  end.
Definition plan_of (p : process) : list event := todo (u_prog p) (u_fds p) (u_pid p) (u_forks p) (u_pipes p).
Definition plans (l : list process) : list event := l ≫= plan_of.

(** Programs that give up when a call fails: what follows executes nothing. *)
Fixpoint silent (p : prog) : Prop :=
  match p with Exit => True | Printf _ _ _ k => silent k | _ => False end.
Fixpoint tame (p : prog) : Prop :=
  match p with
  | Exit | Run _ => True
  | Exec _ k => silent k
  | Close _ k | Dup _ k | Wait k | Printf _ _ _ k => tame k
  | Open _ _ k => silent (k None) ∧ ∀ i, tame (k (Some i))
  | Pipe k => silent (k None) ∧ ∀ ij, tame (k (Some ij))
  | Fork c k failed => tame c ∧ tame k ∧ silent failed
  | Chdir _ k => (∀ b, tame (k b)) ∧ ∀ f pid forks pipes, todo (k false) f pid forks pipes = todo (k true) f pid forks pipes
  end.

Lemma silent_todo p f pid forks pipes : silent p → todo p f pid forks pipes = [].
Proof. induction p; intros Hs; simpl in *; try done. by apply IHp. Qed.
Lemma silent_tame p : silent p → tame p.
Proof. induction p; intros Hs; simpl in *; try done. by apply IHp. Qed.
#[local] Hint Resolve silent_tame : core.

Lemma runcmd_tame str c : tame (runcmd str c).
Proof.
  induction c as [[|a argv]|c IH file efile mode fd|l IHl r IHr|l IHl r IHr|c IH]; cbn [runcmd tame]; try done.
  split; [done|]. by intros [p0 p1].
Qed.

(** ** Steps keep to the plan *)
Lemma plan_silent p k : silent k → plan_of (p <| u_prog := k |>) = [].
Proof. intros H. by apply silent_todo. Qed.

Lemma call_plan p ok ps es : call p ok ps es → tame (u_prog p) →
  Forall (λ q, tame (u_prog q)) ps ∧ es ++ plans ps ⊆+ plan_of p ∧ (ok = true → es ++ plans ps ≡ₚ plan_of p).
Proof.
  intros H T. assert (G : ∀ ps' es', Forall (λ q, tame (u_prog q)) ps' → es' ++ plans ps' ≡ₚ plan_of p →
    Forall (λ q, tame (u_prog q)) ps' ∧ es' ++ plans ps' ⊆+ plan_of p ∧ (true = true → es' ++ plans ps' ≡ₚ plan_of p)).
  { intros ps' es' Hp He. split; [done|]. split; [by rewrite He|done]. }
  assert (S : ∀ k, silent k → Forall (λ q, tame (u_prog q)) [p <| u_prog := k |>] ∧ [] ++ plans [p <| u_prog := k |>] ⊆+ plan_of p ∧
    (false = true → [] ++ plans [p <| u_prog := k |>] ≡ₚ plan_of p)).
  { intros k Hk. split; [by repeat constructor; apply silent_tame|]. split; [|done]. simpl. rewrite app_nil_r, plan_silent by done.
    apply submseteq_nil_l. }
  destruct H as [p argv k E|p argv k E|p fd k E|p name mode k i E Ei|p name mode k E|p fd k E|p k i j f E Ef|p k E|p c k fl E|p c k fl E|p dir k b E|p fd fmt args k E];
    rewrite E in T; simpl in T; destruct_and?; try (by apply S); apply G.
  all: try (repeat constructor; simpl; by auto).
  all: unfold plans, plan_of; simpl; rewrite ?app_nil_r, E; simpl; rewrite ?Ei, ?Ef; try done.
  destruct b; [done|]. by rewrite H0.
Qed.

Lemma notify_fields pid q : u_prog (notify pid q) = u_prog q ∧ plan_of (notify pid q) = plan_of q ∧ u_pid (notify pid q) = u_pid q ∧
  u_forks (notify pid q) = u_forks q.
Proof. unfold notify. destruct pid as [|i parent]; [done|]. by case_decide. Qed.
Lemma plans_app l l' : plans (l ++ l') = plans l ++ plans l'.
Proof. apply bind_app. Qed.
Lemma plans_cons p l : plans (p :: l) = plan_of p ++ plans l.
Proof. done. Qed.
Lemma plans_notify pid l : plans (notify pid <$> l) = plans l.
Proof. induction l as [|q l IH]; [done|]. cbn [fmap list_fmap]. rewrite !plans_cons, IH. by rewrite (proj1 (proj2 (notify_fields pid q))). Qed.
Lemma plan_wait p k : u_prog p = Wait k → plan_of (p <| u_prog := k |>) = plan_of p.
Proof. intros E. unfold plan_of. rewrite E. done. Qed.

Definition all_tame (l : list process) : Prop := Forall (λ q, tame (u_prog q)) l.
Lemma tame_notify pid l l' : all_tame l → all_tame l' → all_tame (notify pid <$> l ++ l').
Proof.
  intros Hl Hl'. apply Forall_fmap, Forall_app. split; (eapply Forall_impl; [eassumption|]); intros q Hq; simpl; by rewrite (proj1 (notify_fields _ q)).
Qed.

Lemma step_plan l t ok l' t' : step (l, t) ok (l', t') → all_tame l →
  all_tame l' ∧ t' ++ plans l' ⊆+ t ++ plans l ∧ (ok = true → t' ++ plans l' ≡ₚ t ++ plans l).
Proof.
  intros H T. assert (K : all_tame l' → t' ++ plans l' ≡ₚ t ++ plans l →
    all_tame l' ∧ t' ++ plans l' ⊆+ t ++ plans l ∧ (ok = true → t' ++ plans l' ≡ₚ t ++ plans l)).
  { intros H1 H2. split; [done|]. split; [by rewrite H2|done]. }
  unfold all_tame in *. inversion H as [a p b ? ps es ? Hc|a p b ? E|a p b ? rd E Eof|a p b ? k z E Ez|a p b ? k E Ez Hn]; subst;
    apply Forall_app in T as [Ta T]; apply Forall_cons in T as [Tp Tb].
  - destruct (call_plan p ok ps es Hc Tp) as (Tps & Hs & He). rewrite !plans_app, plans_cons in *.
    assert (R : t ++ plans a ++ plan_of p ++ plans b ≡ₚ (t ++ plans a ++ plans b) ++ plan_of p) by solve_Permutation.
    assert (R' : (t ++ es) ++ plans a ++ plans ps ++ plans b ≡ₚ (t ++ plans a ++ plans b) ++ es ++ plans ps) by solve_Permutation.
    split; [by rewrite !Forall_app|]. rewrite R, R'. split; [by apply submseteq_app|]. intros Ho. by rewrite (He Ho).
  - apply K; [by apply tame_notify|]. rewrite plans_notify, !plans_app, plans_cons.
    replace (plan_of p) with (@nil event) by (unfold plan_of; by rewrite E). done.
  - apply K; [by apply tame_notify|]. rewrite plans_notify, !plans_app, plans_cons.
    replace (plan_of p) with (@nil event) by (unfold plan_of; by rewrite E). done.
  - rewrite E in Tp. apply K.
    + apply Forall_app. split; [done|]. by constructor.
    + rewrite !plans_app, !plans_cons. change (plan_of (p <| u_prog := k |> <| u_zombies := z |>)) with (plan_of (p <| u_prog := k |>)).
      by rewrite plan_wait.
  - rewrite E in Tp. apply K.
    + apply Forall_app. split; [done|]. by constructor.
    + rewrite !plans_app, !plans_cons. by rewrite plan_wait.
Qed.

Lemma steps_plan s ok s' : steps s ok s' → all_tame s.1 →
  all_tame s'.1 ∧ s'.2 ++ plans s'.1 ⊆+ s.2 ++ plans s.1 ∧ (ok = true → s'.2 ++ plans s'.1 ≡ₚ s.2 ++ plans s.1).
Proof.
  induction 1 as [s|s [l t] [l' t'] ok ok' _ IH H]; intros T; [done|]. destruct (IH T) as (T1 & S1 & E1). simpl in *.
  destruct (step_plan _ _ _ _ _ H T1) as (T2 & S2 & E2). split; [done|]. split; [by etrans|].
  intros [Ho Ho']%andb_true_iff. by rewrite E2, E1.
Qed.

(** ** Names are used once *)

(** The names in use, with the number of forks of each process. *)
Definition names (l : list process) : list (list nat * nat) := (λ p, (u_pid p, u_forks p)) <$> l.

(** No name is used twice, and the processes below [pid] are below one of the
    children it has forked. *)
Definition well_named (l : list (list nat * nat)) : Prop :=
  NoDup l.*1 ∧ ∀ pid n x i m, (pid, n) ∈ l → (x ++ i :: pid, m) ∈ l → (i < n)%nat.

Lemma well_named_perm l l' : l ≡ₚ l' → well_named l → well_named l'.
Proof.
  intros E [H1 H2]. split; [by rewrite <-E|]. intros pid n x i m. rewrite <-E. apply H2.
Qed.
Lemma well_named_drop p l : well_named (p :: l) → well_named l.
Proof.
  intros [H1 H2]. split; [by apply NoDup_cons in H1 as [_ H1]|]. intros pid n x i m Hp Hq. eapply H2; right; eassumption.
Qed.
Lemma well_named_fork pid n l : well_named ((pid, n) :: l) → well_named ((n :: pid, 0%nat) :: (pid, S n) :: l).
Proof.
  intros [H1 H2]. assert (Hf : ∀ x m, (x ++ n :: pid, m) ∉ (pid, n) :: l).
  { intros x m Hx. pose proof (H2 pid n x n m (list_elem_of_here _ _) Hx). lia. }
  assert (Hlen : ∀ (x : list nat) i y, x ++ i :: y ≠ y) by (intros x i y E; apply (f_equal length) in E; rewrite length_app in E; simpl in E; lia).
  cbn [fmap list_fmap] in H1. apply NoDup_cons in H1 as [Hn H1]. split.
  - cbn [fmap list_fmap]. apply NoDup_cons. split; [|by apply NoDup_cons]. cbn [fst]. rewrite elem_of_cons. intros [E|Hx].
    + by apply (Hlen [] n pid).
    + apply list_elem_of_fmap in Hx as ([y m] & E & Hx). cbn [fst] in E. subst y. by apply (Hf [] m); right.
  - intros p k x i m Hp Hq. rewrite !elem_of_cons in Hp, Hq. destruct Hp as [[= -> ->]|[[= -> ->]|Hp]].
    + exfalso. destruct Hq as [[= E _]|[[= E _]|Hq]].
      * by apply (Hlen x i (n :: pid)).
      * apply (Hlen (x ++ [i]) n pid). by rewrite <-app_assoc.
      * apply (Hf (x ++ [i]) m). right. by rewrite <-app_assoc.
    + destruct Hq as [[= E _]|[[= E _]|Hq]].
      * destruct x as [|y x]; [injection E; lia|]. injection E as _ E. exfalso. by apply (Hlen x i pid).
      * exfalso. by apply (Hlen x i pid).
      * pose proof (H2 pid n x i m ltac:(left) ltac:(by right)). lia.
    + destruct Hq as [[= E _]|[[= E _]|Hq]].
      * destruct x as [|y x].
        { injection E as -> ->. exfalso. apply Hn. apply list_elem_of_fmap. by exists (pid, k). }
        injection E as -> E. apply (H2 p k x i n); [by right|]. rewrite E. left.
      * apply (H2 p k x i n); [by right|]. rewrite E. left.
      * apply (H2 p k x i m); by right.
Qed.

Lemma names_app l l' : names (l ++ l') = names l ++ names l'.
Proof. apply fmap_app. Qed.
Lemma names_notify pid l : names (notify pid <$> l) = names l.
Proof.
  induction l as [|q l IH]; [done|]. unfold names in *. cbn [fmap list_fmap] in *. rewrite IH.
  by destruct (notify_fields pid q) as (_ & _ & -> & ->).
Qed.
Lemma step_named l t ok l' t' : step (l, t) ok (l', t') → well_named (names l) → well_named (names l').
Proof.
  intros H W. inversion H as [a p b ? ps es ? Hc|a p b ? E|a p b ? rd E Eof|a p b ? k z E Ez|a p b ? k E Ez Hn]; subst;
    rewrite names_app in W; pose proof (well_named_perm _ _ ltac:(symmetry; apply Permutation_middle) W) as W'.
  - rewrite !names_app. destruct Hc; try done. eapply well_named_perm; [|apply well_named_fork, W']. simpl. solve_Permutation.
  - rewrite names_notify, names_app. by eapply well_named_drop.
  - rewrite names_notify, names_app. by eapply well_named_drop.
  - by rewrite names_app.
  - by rewrite names_app.
Qed.
Lemma steps_named s ok s' : steps s ok s' → well_named (names s.1) → well_named (names s'.1).
Proof. induction 1 as [s|s [l t] [l' t'] ok ok' _ IH H]; intros W; [done|]. eapply step_named; [exact H|]. by apply IH. Qed.
Lemma named_nodup l : well_named (names l) → NoDup (u_pid <$> l).
Proof. intros [H _]. unfold names in H. by rewrite <-list_fmap_compose in H. Qed.

(** ** Where the ends of pipes are *)

(** [pid] is the process [i :: parent] or one of its descendants. *)
Definition below (i : nat) (parent pid : list nat) : Prop := ∃ x, pid = x ++ i :: parent.

Lemma below_child i parent pid n : below i parent pid → below i parent (n :: pid).
Proof. intros [x ->]. by exists (n :: x). Qed.

(** The write end of a pipe only on its left, the read end only on its right. *)
Definition at_rest (f : fdt) (pid : list nat) : Prop :=
  ∀ k P n i, (f !! k = Some (Some (PipeW (P, n, i))) → below i P pid) ∧ (f !! k = Some (Some (PipeR (P, n, i))) → below (S i) P pid).

(** A process that will hold its pipe ends so whenever it waits and when it
    executes a program. *)
Fixpoint safe (p : prog) (f : fdt) (pid : list nat) (forks pipes : nat) : Prop :=
  match p with
  | Exit => True
  | Run _ => at_rest f pid
  | Exec _ k => at_rest f pid ∧ silent k
  | Close fd k => safe k (<[fd := None]> f) pid forks pipes
  | Open name mode k =>
      safe (k None) f pid forks pipes ∧
      ∀ i, free_fd f 0 = Some i → safe (k (Some i)) (<[i := Some (File name mode)]> f) pid forks pipes
  | Dup fd k => safe k (dup f fd) pid forks pipes
  | Pipe k =>
      safe (k None) f pid forks pipes ∧
      ∀ i j f', pipe_fds f (pid, pipes, forks) = Some (i, j, f') → safe (k (Some (i, j))) f' pid forks (S pipes)
  | Fork c k failed => safe c f (forks :: pid) 0 0 ∧ safe k f pid (S forks) pipes ∧ safe failed f pid forks pipes
  | Wait k => at_rest f pid ∧ safe k f pid forks pipes
  | Chdir _ k => ∀ b, safe (k b) f pid forks pipes
  | Printf _ _ _ k => safe k f pid forks pipes
  end.
Definition is_safe (p : process) : Prop := safe (u_prog p) (u_fds p) (u_pid p) (u_forks p) (u_pipes p).

Lemma silent_safe p f pid forks pipes : silent p → safe p f pid forks pipes.
Proof. induction p; intros Hs; simpl in *; try done. by apply IHp. Qed.

Lemma call_safe p ok ps es : call p ok ps es → is_safe p → Forall is_safe ps.
Proof.
  intros H S. unfold is_safe in *. destruct H as [p argv k E|p argv k E|p fd k E|p name mode k i E Ei|p name mode k E|p fd k E|p k i j f E Ef|p k E|p c k fl E|p c k fl E|p dir k b E|p fd fmt args k E];
    rewrite E in S; simpl in S; destruct_and?; rewrite ?Forall_cons, ?Forall_nil; simpl; auto using silent_safe.
Qed.
Lemma notify_safe pid q : is_safe q → is_safe (notify pid q).
Proof. unfold is_safe, notify. destruct pid; [done|]. by case_decide. Qed.

Lemma step_safe l t ok l' t' : step (l, t) ok (l', t') → Forall is_safe l → Forall is_safe l'.
Proof.
  intros H S. assert (N : ∀ pid a b, Forall is_safe a → Forall is_safe b → Forall is_safe (notify pid <$> a ++ b)).
  { intros pid a b Ha Hb. apply Forall_fmap, Forall_app. split; (eapply Forall_impl; [eassumption|]); intros q; apply notify_safe. }
  inversion H as [a p b ? ps es ? Hc|a p b ? E|a p b ? rd E Eof|a p b ? k z E Ez|a p b ? k E Ez Hn]; subst;
    apply Forall_app in S as [Sa S]; apply Forall_cons in S as [Sp Sb].
  - rewrite !Forall_app. by pose proof (call_safe _ _ _ _ Hc Sp).
  - by apply N.
  - by apply N.
  - unfold is_safe in Sp. rewrite E in Sp. destruct Sp as [_ Sp]. apply Forall_app. split; [done|]. by constructor.
  - unfold is_safe in Sp. rewrite E in Sp. destruct Sp as [_ Sp]. apply Forall_app. split; [done|]. by constructor.
Qed.
Lemma steps_safe s ok s' : steps s ok s' → Forall is_safe s.1 → Forall is_safe s'.1.
Proof. induction 1 as [s|s [l t] [l' t'] ok ok' _ IH H]; intros W; [done|]. eapply step_safe; [exact H|]. by apply IH. Qed.

(** ** Nobody waits for ever *)

(** The order in which processes end when everyone waits: descendants before
    ancestors, older children and all below them first; on names read from
    the root. *)
Fixpoint sooner (a b : list nat) : bool :=
  match a, b with
  | [], _ => false
  | _ :: _, [] => true
  | x :: a, y :: b => (x <? y)%nat || (x =? y)%nat && sooner a b
  end.

Lemma sooner_trans a b c : sooner a b = true → sooner b c = true → sooner a c = true.
Proof.
  revert b c. induction a as [|x a IH]; intros [|y b] [|z c]; simpl; try done.
  rewrite !orb_true_iff, !andb_true_iff, !Nat.ltb_lt, !Nat.eqb_eq. intros [H1|[-> H1]] [H2|[-> H2]].
  - left. lia.
  - by left.
  - by left.
  - right. split; [done|]. by eapply IH.
Qed.
Lemma sooner_irrefl a : sooner a a = false.
Proof. induction a as [|x a IH]; [done|]. simpl. by rewrite IH, Nat.ltb_irrefl, Nat.eqb_refl. Qed.
Lemma sooner_app p a b : sooner (p ++ a) (p ++ b) = sooner a b.
Proof. induction p as [|x p IH]; [done|]. simpl. by rewrite Nat.ltb_irrefl, Nat.eqb_refl. Qed.

Lemma sooner_child i pid : sooner (rev (i :: pid)) (rev pid) = true.
Proof. simpl. rewrite <-(app_nil_r (rev pid)) at 2. by rewrite sooner_app. Qed.
Lemma sooner_left i parent a b : below i parent a → below (S i) parent b → sooner (rev a) (rev b) = true.
Proof.
  intros [x ->] [y ->]. rewrite !rev_app_distr. simpl. rewrite <-!app_assoc, sooner_app. simpl.
  by rewrite (proj2 (Nat.ltb_lt _ _)) by lia.
Qed.

(** A process that no other one comes before. *)
Lemma first_process (l : list process) : l ≠ [] →
  ∃ a p b, l = a ++ p :: b ∧ ∀ q, q ∈ l → sooner (rev (u_pid q)) (rev (u_pid p)) = false.
Proof.
  induction l as [|p l IH]; [done|]. intros _. destruct (decide (l = [])) as [->|Hne].
  - exists [], p, []. split; [done|]. intros q ->%list_elem_of_singleton. apply sooner_irrefl.
  - destruct (IH Hne) as (a & m & b & E & Hm). destruct (sooner (rev (u_pid p)) (rev (u_pid m))) eqn:Ep.
    + exists [], p, l. split; [done|]. intros q [->|Hq]%elem_of_cons; [apply sooner_irrefl|].
      destruct (sooner (rev (u_pid q)) (rev (u_pid p))) eqn:Eq; [|done]. rewrite <-(Hm q Hq). symmetry. by eapply sooner_trans.
    + exists (p :: a), m, b. split; [by rewrite E|]. intros q [->|Hq]%elem_of_cons; [done|by apply Hm].
Qed.

(** A process that is neither waiting nor reading can go on. *)
Lemma call_exists p : u_prog p = Exit ∨ (∃ k, u_prog p = Wait k) ∨ (∃ b, u_prog p = Run b) ∨ ∃ ok ps es, call p ok ps es.
Proof.
  destruct (u_prog p) as [|argv k|fd k|name mode k|fd k|k|c k fl|k|dir k|fd fmt args k|b] eqn:E; [by left|..]; right.
  7: by left; exists k.
  9: by right; left; exists b.
  all: right; right; do 3 eexists.
  - exact (call_exec p argv k E).
  - exact (call_close p fd k E).
  - exact (call_open_failed p name mode k E).
  - exact (call_dup p fd k E).
  - exact (call_pipe_failed p k E).
  - exact (call_fork p c k fl E).
  - exact (call_chdir p dir k true E).
  - exact (call_printf p fd fmt args k E).
Qed.

(** Either somebody makes a call or exits, or everybody waits or runs a
    program. *)
Lemma calls_or_rests l t : (∃ ok s', step (l, t) ok s') ∨ ∀ q, q ∈ l → (∃ k, u_prog q = Wait k) ∨ ∃ b, u_prog q = Run b.
Proof.
  assert (G : ∀ a b, l = a ++ b → (∃ ok s', step (l, t) ok s') ∨ ∀ q, q ∈ b → (∃ k, u_prog q = Wait k) ∨ ∃ b, u_prog q = Run b).
  { intros a b. revert a. induction b as [|p b IH]; intros a E; [right; intros q Hq; by apply not_elem_of_nil in Hq|].
    destruct (call_exists p) as [E1|[E1|[E1|(ok & ps & es & Hc)]]].
    - left. rewrite E. eexists _, _. by apply step_exit.
    - destruct (IH (a ++ [p])) as [?|Hr]; [by rewrite <-app_assoc|by left|right]. intros q [->|Hq]%elem_of_cons; [by left|by apply Hr].
    - destruct (IH (a ++ [p])) as [?|Hr]; [by rewrite <-app_assoc|by left|right]. intros q [->|Hq]%elem_of_cons; [by right|by apply Hr].
    - left. rewrite E. eexists _, _. by eapply step_call. }
  exact (G [] l eq_refl).
Qed.

Lemma resting p : is_safe p → (∃ k, u_prog p = Wait k) ∨ (∃ b, u_prog p = Run b) → at_rest (u_fds p) (u_pid p).
Proof. unfold is_safe. intros S [[k E]|[b E]]; rewrite E in S; [apply S|exact S]. Qed.

Lemma progress l t : Forall is_safe l → l ≠ [] → ∃ ok s', step (l, t) ok s'.
Proof.
  intros S Hne. destruct (calls_or_rests l t) as [?|R]; [done|]. rewrite Forall_forall in S.
  destruct (first_process l Hne) as (a & p & b & E & Hf). assert (Hp : p ∈ l) by (rewrite E; apply elem_of_app; right; left).
  destruct (R p Hp) as [[k Ek]|[rd Er]].
  - rewrite E. destruct (u_zombies p) as [|z] eqn:Ez; [|eexists _, _; by eapply step_wait].
    eexists _, _. apply (step_wait_none _ _ _ _ k); [done|done|]. apply Forall_forall. intros q Hq [i Hi].
    specialize (Hf q). rewrite Hi, sooner_child in Hf. discriminate Hf. rewrite E. apply elem_of_app in Hq as [?|?]; apply elem_of_app; [by left|right; by right].
  - assert (Eof : at_eof l p).
    { intros [[P n] i] q j Hr Hq Hw. pose proof (resting p (S p Hp) (R p Hp) 0%nat P n i) as [_ Rp].
      pose proof (resting q (S q Hq) (R q Hq) j P n i) as [Rq _]. specialize (Hf q Hq).
      rewrite (sooner_left i P) in Hf; [discriminate Hf|by apply Rq|by apply Rp]. }
    rewrite E in Eof |- *. eexists _, _. by eapply step_done.
Qed.

(** ** Children that have not been waited for *)

(** [disc fg n p]: with [n] children not waited for, [p] executes a program
    or prompts only when there is none, and, for [fg], exits only when there
    is none, unless a call has failed. *)
Fixpoint disc (fg : bool) (n : nat) (p : prog) : Prop :=
  match p with
  | Exit => fg = true → n = 0%nat
  | Run _ => n = 0%nat
  | Exec _ k => n = 0%nat ∧ disc false n k
  | Close _ k | Dup _ k => disc fg n k
  | Open _ _ k => disc false n (k None) ∧ ∀ i, disc fg n (k (Some i))
  | Pipe k => disc false n (k None) ∧ ∀ ij, disc fg n (k (Some ij))
  | Fork c k failed => disc fg 0 c ∧ disc fg (S n) k ∧ disc false n failed
  | Wait k => disc fg (pred n) k
  | Chdir _ k => ∀ b, disc fg n (k b)
  | Printf _ fmt _ k => (fmt = "$ "%string → n = 0%nat) ∧ disc fg n k
  end.

Lemma disc_weaken fg n p : disc fg n p → disc false n p.
Proof.
  revert n. induction p; intros n0 D; simpl in *; try done; try (by auto); destruct_and?; split_and?; auto.
Qed.

Definition kid_of (pid x : list nat) : bool := match x with _ :: y => bool_decide (y = pid) | [] => false end.
Definition kids (l : list process) (pid : list nat) : nat := length (filter (λ x, kid_of pid x = true) (u_pid <$> l)).

Definition tended (fg : bool) (l : list process) (p : process) : Prop :=
  ∃ n, (kids l (u_pid p) + u_zombies p ≤ n)%nat ∧ disc fg n (u_prog p).

(** Every process but the first has its parent. *)
Definition rooted (l : list process) : Prop := ∀ q i P, q ∈ l → u_pid q = i :: P → ∃ r, r ∈ l ∧ u_pid r = P.

Lemma kids_cons p l pid : kids (p :: l) pid = (Nat.b2n (kid_of pid (u_pid p)) + kids l pid)%nat.
Proof. unfold kids. cbn [fmap list_fmap]. rewrite filter_cons. by destruct (kid_of pid (u_pid p)). Qed.
Lemma kids_perm l l' pid : l ≡ₚ l' → kids l pid = kids l' pid.
Proof. intros E. unfold kids. by rewrite E. Qed.
Lemma kids_zero l pid : kids l pid = 0%nat ↔ ∀ q i, q ∈ l → u_pid q ≠ i :: pid.
Proof.
  induction l as [|p l IH]; [split; [intros _ q i Hq; by apply not_elem_of_nil in Hq|done]|]. rewrite kids_cons. split.
  - intros E q i [->|Hq]%elem_of_cons Hi.
    + rewrite Hi in E. simpl in E. by rewrite bool_decide_true in E.
    + destruct (proj1 IH ltac:(lia) q i Hq Hi).
  - intros H. rewrite (proj2 IH) by (intros q i Hq; apply H; by right). rewrite Nat.add_0_r.
    destruct (u_pid p) as [|i y] eqn:Ep; [done|]. simpl. rewrite bool_decide_false; [done|]. intros ->. by apply (H p i); [left|].
Qed.
Lemma kids_notify x l pid : kids (notify x <$> l) pid = kids l pid.
Proof.
  induction l as [|q l IH]; [done|]. cbn [fmap list_fmap]. rewrite !kids_cons, IH. by rewrite (proj1 (proj2 (proj2 (notify_fields x q)))).
Qed.
Lemma notify_zombies x q : u_zombies (notify x q) = (u_zombies q + Nat.b2n (kid_of (u_pid q) x))%nat.
Proof.
  unfold notify, kid_of. destruct x as [|i y]; [simpl; lia|]. case_decide as E; simpl.
  - rewrite bool_decide_true by done. simpl. lia.
  - rewrite bool_decide_false by (intros ->; by apply E). simpl. lia.
Qed.

(** What a call does to the discipline. *)
Lemma call_disc p ok ps es : call p ok ps es →
  (∃ p', ps = [p'] ∧ u_pid p' = u_pid p ∧ u_zombies p' = u_zombies p ∧ ∀ g n, disc g n (u_prog p) → disc (g && ok) n (u_prog p')) ∨
  (∃ c p', ps = [c; p'] ∧ u_pid c = u_forks p :: u_pid p ∧ u_zombies c = 0%nat ∧ u_pid p' = u_pid p ∧ u_zombies p' = u_zombies p ∧
     ok = true ∧ ∀ g n, disc g n (u_prog p) → disc g 0 (u_prog c) ∧ disc g (S n) (u_prog p')).
Proof.
  intros H. destruct H as [p argv k E|p argv k E|p fd k E|p name mode k i E Ei|p name mode k E|p fd k E|p k i j f E Ef|p k E|p c k fl E|p c k fl E|p dir k b E|p fd fmt args k E].
  9: right; do 2 eexists; split_and!; [done..|]; rewrite E; simpl; by intros g n (? & ? & ?).
  all: left; eexists; split_and!; [done..|]; rewrite E; simpl; intros g n D; rewrite ?andb_true_r, ?andb_false_r; destruct_and?; auto.
Qed.

Lemma exit_tended g a p b : Forall (tended g (a ++ p :: b)) (a ++ p :: b) → (g = true → rooted (a ++ p :: b)) →
  (∀ n, disc g n (u_prog p) → g = true → n = 0%nat) →
  let l' := notify (u_pid p) <$> (a ++ b) in Forall (tended g l') l' ∧ (g = true → rooted l').
Proof.
  intros T R Hx l'. assert (Ep : a ++ p :: b ≡ₚ p :: (a ++ b)) by (symmetry; apply Permutation_middle). split.
  - apply Forall_fmap, Forall_forall. intros q Hq. rewrite Forall_forall in T.
    destruct (T q) as (n & Hn & D); [rewrite Ep; by right|]. exists n. destruct (notify_fields (u_pid p) q) as (-> & _ & -> & _). split; [|done].
    unfold l'. rewrite kids_notify, notify_zombies. rewrite (kids_perm _ _ _ Ep), kids_cons in Hn. lia.
  - intros Hg q i P Hq Hi. unfold l' in Hq. apply list_elem_of_fmap in Hq as (q0 & -> & Hq).
    rewrite (proj1 (proj2 (proj2 (notify_fields _ q0)))) in Hi.
    destruct (R Hg q0 i P) as (r & Hr & Er); [rewrite Ep; by right|done|]. rewrite Ep in Hr. apply elem_of_cons in Hr as [->|Hr].
    + exfalso. rewrite Forall_forall in T. destruct (T p) as (n & Hn & D); [rewrite Ep; left|]. rewrite (Hx n D Hg) in Hn.
      apply (proj1 (kids_zero (a ++ p :: b) (u_pid p)) ltac:(lia) q0 i); [rewrite Ep; by right|congruence].
    + exists (notify (u_pid p) r). split; [unfold l'; by apply list_elem_of_fmap_2|]. by rewrite (proj1 (proj2 (proj2 (notify_fields _ r)))).
Qed.

(** One process replaced by another of the same name. *)
Lemma replace_tended g g' a p p' b : u_pid p' = u_pid p → (g' = true → g = true) →
  Forall (tended g (a ++ p :: b)) (a ++ p :: b) → (g = true → rooted (a ++ p :: b)) →
  (∀ n, (kids (a ++ p :: b) (u_pid p) + u_zombies p ≤ n)%nat → disc g n (u_prog p) →
    ∃ n', (kids (a ++ p :: b) (u_pid p) + u_zombies p' ≤ n')%nat ∧ disc g' n' (u_prog p')) →
  Forall (tended g' (a ++ p' :: b)) (a ++ p' :: b) ∧ (g' = true → rooted (a ++ p' :: b)).
Proof.
  intros Hp Hg T R Hd. assert (K : ∀ pid, kids (a ++ p' :: b) pid = kids (a ++ p :: b) pid).
  { intros pid. rewrite !(kids_perm (a ++ _ :: b) (_ :: (a ++ b))) by (symmetry; apply Permutation_middle). by rewrite !kids_cons, Hp. }
  assert (W : ∀ q, tended g (a ++ p :: b) q → tended g' (a ++ p' :: b) q).
  { intros q (n & Hn & D). exists n. rewrite K. split; [done|]. destruct g'; [by rewrite Hg in D|by eapply disc_weaken]. }
  split.
  - rewrite Forall_app, Forall_cons in T |- *. destruct T as (Ta & (n & Hn & D) & Tb). split; [by eapply Forall_impl|]. split; [|by eapply Forall_impl].
    destruct (Hd n Hn D) as (n' & Hn' & D'). exists n'. by rewrite K, Hp.
  - intros G q i P Hq Hi. assert (∃ q0, q0 ∈ a ++ p :: b ∧ u_pid q0 = u_pid q) as (q0 & Hq0 & E0).
    { apply elem_of_app in Hq as [Hq|[->|Hq]%elem_of_cons]; [exists q|exists p|exists q]; rewrite elem_of_app, elem_of_cons; auto. }
    destruct (R (Hg G) q0 i P Hq0 ltac:(congruence)) as (r & Hr & Er).
    apply elem_of_app in Hr as [Hr|[->|Hr]%elem_of_cons]; [exists r|exists p'|exists r]; rewrite elem_of_app, elem_of_cons; split; auto; congruence.
Qed.

Lemma fork_tended g a c p p' b : u_pid p' = u_pid p → u_zombies p' = u_zombies p → u_pid c = u_forks p :: u_pid p → u_zombies c = 0%nat →
  well_named (names (a ++ p :: b)) → Forall (tended g (a ++ p :: b)) (a ++ p :: b) → (g = true → rooted (a ++ p :: b)) →
  (∀ n, disc g n (u_prog p) → disc g 0 (u_prog c) ∧ disc g (S n) (u_prog p')) →
  let l' := a ++ [c; p'] ++ b in Forall (tended g l') l' ∧ (g = true → rooted l').
Proof.
  intros Ep Ez Ec Ezc W T R Hd l'. set (l := a ++ p :: b) in *.
  assert (Pl : l ≡ₚ p :: (a ++ b)) by (symmetry; apply Permutation_middle).
  assert (Pl' : l' ≡ₚ c :: p' :: (a ++ b)) by (unfold l'; simpl; by rewrite <-!Permutation_middle).
  assert (K : ∀ pid, kids l' pid = (Nat.b2n (kid_of pid (u_pid c)) + kids l pid)%nat).
  { intros pid. rewrite (kids_perm _ _ _ Pl'), (kids_perm _ _ _ Pl), !kids_cons, Ep. done. }
  assert (Hp : p ∈ l) by (rewrite Pl; left). rewrite Forall_forall in T.
  assert (New : kids l (u_pid c) = 0%nat).
  { apply kids_zero. intros q i Hq Hi. destruct W as [_ W]. rewrite Ec in Hi.
    pose proof (W (u_pid p) (u_forks p) [i] (u_forks p) (u_forks q)) as X. apply Nat.lt_irrefl with (u_forks p), X.
    - unfold names. by apply (list_elem_of_fmap_2 (λ p, (u_pid p, u_forks p)) l p).
    - replace ([i] ++ u_forks p :: u_pid p) with (u_pid q). by apply (list_elem_of_fmap_2 (λ p, (u_pid p, u_forks p)) l q). }
  split.
  - apply Forall_forall. intros q Hq. rewrite Pl' in Hq. apply elem_of_cons in Hq as [->|[->|Hq]%elem_of_cons].
    + destruct (T p Hp) as (n & Hn & D). exists 0%nat. destruct (Hd n D) as [D0 _]. split; [|done]. rewrite K, New, Ezc, Ec. simpl.
      rewrite bool_decide_false; [done|]. intros E. apply (f_equal length) in E. simpl in E. lia.
    + destruct (T p Hp) as (n & Hn & D). exists (S n). destruct (Hd n D) as [_ D1]. split; [|done]. rewrite K, Ep, Ez, Ec. simpl.
      rewrite bool_decide_true by done. simpl. lia.
    + destruct (T q) as (n & Hn & D); [rewrite Pl; by right|]. destruct (decide (u_pid q = u_pid p)) as [Eq|Eq].
      * exfalso. pose proof (named_nodup _ W) as N. rewrite Pl in N. cbn [fmap list_fmap] in N. apply NoDup_cons in N as [N _].
        apply N. rewrite <-Eq. by apply list_elem_of_fmap_2.
      * exists n. split; [|done]. rewrite K, Ec. simpl. rewrite bool_decide_false by congruence. done.
  - intros G q i P Hq Hi. rewrite Pl' in Hq. assert (∃ r, r ∈ l ∧ u_pid r = P) as (r & Hr & Er).
    { apply elem_of_cons in Hq as [->|[->|Hq]%elem_of_cons].
      - exists p. split; [done|]. congruence.
      - apply (R G p i P Hp). congruence.
      - apply (R G q i P); [rewrite Pl; by right|done]. }
    rewrite Pl in Hr. apply elem_of_cons in Hr as [->|Hr]; [exists p'|exists r]; rewrite Pl', !elem_of_cons; split; auto; congruence.
Qed.

Lemma step_tended g l t ok l' t' : step (l, t) ok (l', t') → well_named (names l) →
  Forall (tended g l) l → (g = true → rooted l) → Forall (tended (g && ok) l') l' ∧ (g && ok = true → rooted l').
Proof.
  intros H W T R. inversion H as [a p b ? ps es ? Hc|a p b ? E|a p b ? rd E Eof|a p b ? k z E Ez|a p b ? k E Ez Hn]; subst.
  - destruct (call_disc _ _ _ _ Hc) as [(p' & -> & Ep & Ezo & D)|(c & p' & -> & Ec & Ezc & Ep & Ezo & -> & D)].
    + apply (replace_tended g _ a p p' b Ep); [by intros [? _]%andb_true_iff|done|done|]. intros n Hn Dn. exists n. rewrite Ezo. auto.
    + rewrite andb_true_r. apply (fork_tended g a c p p' b); try done. intros n. apply D.
  - rewrite andb_true_r. apply exit_tended; [done|done|]. intros n D. rewrite E in D. exact D.
  - rewrite andb_true_r. apply exit_tended; [done|done|]. intros n D _. rewrite E in D. exact D.
  - rewrite andb_true_r. apply (replace_tended g g a p _ b); [done|done|done|done|]. intros n Hn D. rewrite E in D. exists (pred n). simpl in *.
    split; [lia|done].
  - rewrite andb_true_r. apply (replace_tended g g a p _ b); [done|done|done|done|]. intros n Hn' D. rewrite E in D. exists (pred n). simpl in *.
    split; [|done]. rewrite (proj2 (kids_zero (a ++ p :: b) (u_pid p))); [lia|]. intros q i Hq Hi. rewrite Forall_forall in Hn.
    apply elem_of_app in Hq as [Hq|[->|Hq]%elem_of_cons].
    + apply (Hn q); [apply elem_of_app; by left|by exists i].
    + apply (f_equal length) in Hi. simpl in Hi. lia.
    + apply (Hn q); [apply elem_of_app; by right|by exists i].
Qed.

Lemma steps_tended g s ok s' : steps s ok s' → well_named (names s.1) → Forall (tended g s.1) s.1 → (g = true → rooted s.1) →
  Forall (tended (g && ok) s'.1) s'.1 ∧ (g && ok = true → rooted s'.1).
Proof.
  intros H W T R. induction H as [s|s [l t] [l' t'] ok ok' Hs IH H]; [by rewrite andb_true_r|].
  destruct (IH W T R) as [T1 R1]. rewrite andb_assoc. eapply step_tended; [exact H| |done|done]. by apply (steps_named _ _ _ Hs).
Qed.

(** Whoever executes or has executed a program, or prompts, has no child. *)
Definition prompting (p : process) : Prop := ∃ k, u_prog p = Printf 2 "$ " [] k.
Definition settled (p : process) : Prop := (∃ argv k, u_prog p = Exec argv k) ∨ (∃ b, u_prog p = Run b) ∨ prompting p.

Lemma settled_childless g l p : tended g l p → settled p → ∀ q, q ∈ l → ¬ child_of p q.
Proof.
  intros (n & Hn & D) S q Hq [i Hi]. assert (n = 0%nat) as ->.
  { destruct S as [(argv & k & E)|[[b E]|[k E]]]; rewrite E in D; simpl in D; [apply D|done|by apply D]. }
  by apply (proj1 (kids_zero l (u_pid p)) ltac:(lia) q i).
Qed.

(** If every process has its parent and the first one no child, it is alone. *)
Lemma rooted_alone l p : rooted l → NoDup (u_pid <$> l) → p ∈ l → u_pid p = [] → (∀ q, q ∈ l → ¬ child_of p q) → l = [p].
Proof.
  intros R N Hp Ep Hc. assert (A : ∀ q, q ∈ l → u_pid q = []).
  { intros q Hq. destruct (u_pid q) as [|i P] eqn:Eq; [done|exfalso]. revert i q Hq Eq. induction P as [|j P IH]; intros i q Hq Eq.
    - apply (Hc q Hq). exists i. by rewrite Ep.
    - destruct (R q i (j :: P) Hq Eq) as (r & Hr & Er). by apply (IH j r). }
  apply elem_of_Permutation in Hp as [l0 E]. rewrite E in N. cbn [fmap list_fmap] in N. apply NoDup_cons in N as [N _].
  destruct l0 as [|q l0]; [by apply Permutation_singleton_r in E|exfalso]. apply N. rewrite Ep, <-(A q); [left|]. rewrite E. right. left.
Qed.
End semantics.

(** ** The plan of a command *)
Fixpoint plan (str : ptr → list Z) (c : cmd) (f : fdt) (pid : list nat) (forks pipes : nat) : list event :=
  match c with
  | EXEC argv => if decide (argv = []) then [] else [(pid, str <$> argv.*1, f)]
  | REDIR c file _ mode fd => plan str c (<[Z.to_nat fd := Some (File (str file) mode)]> f) pid forks pipes
  | LIST lc rc => plan str lc f (forks :: pid) 0 0 ++ plan str rc f pid (S forks) pipes
  | PIPE lc rc =>
      plan str lc (<[1%nat := Some (PipeW (pid, pipes, forks))]> f) (forks :: pid) 0 0 ++
      plan str rc (<[0%nat := Some (PipeR (pid, pipes, forks))]> f) (S forks :: pid) 0 0
  | BACK c => plan str c f (forks :: pid) 0 0
  end.

(** The parser redirects standard input and output only. *)
Fixpoint redirs_std (c : cmd) : Prop :=
  match c with
  | EXEC _ => True
  | REDIR c _ _ _ fd => (fd = 0 ∨ fd = 1) ∧ redirs_std c
  | LIST l r | PIPE l r => redirs_std l ∧ redirs_std r
  | BACK c => redirs_std c
  end.

(** Descriptors 0, 1 and 2 are open, and two others are free. *)
Definition opened (f : fdt) (i : nat) : Prop := ∃ o, f !! i = Some (Some o).
Record std_fds (f : fdt) : Prop := {
  sf_open i : (i < 3)%nat → opened f i;
  sf_room : ∃ i j, (i < j)%nat ∧ f !! i = Some None ∧ f !! j = Some None }.

Lemma free_fd_spec {A} (l : list (option A)) n i : free_fd l n = Some i ↔
  (n ≤ i)%nat ∧ l !! (i - n)%nat = Some None ∧ ∀ k, (k < i - n)%nat → ∃ o, l !! k = Some (Some o).
Proof.
  revert n. induction l as [|[o|] l IH]; intros n; cbn [free_fd].
  - split; [done|]. by intros (_ & H & _).
  - rewrite IH. split.
    + intros (H1 & H2 & H3). split; [lia|]. replace (i - n)%nat with (S (i - S n)) by lia. split; [done|].
      intros [|k] Hk; [by exists o|]. apply H3. lia.
    + intros (H1 & H2 & H3). destruct (decide (i = n)) as [->|Hne]; [by rewrite Nat.sub_diag in H2|].
      replace (i - n)%nat with (S (i - S n)) in H2 by lia. split; [lia|]. split; [done|]. intros k Hk. apply (H3 (S k)). lia.
  - split.
    + intros [= ->]. rewrite Nat.sub_diag. split; [lia|]. split; [done|]. intros k Hk. lia.
    + intros (H1 & H2 & H3). f_equal. destruct (decide (i = n)) as [->|Hne]; [done|].
      destruct (H3 0%nat ltac:(lia)) as [o Ho]. done.
Qed.
Lemma free_fd_first (f : fdt) i : f !! i = Some None → (∀ k, (k < i)%nat → opened f k) → free_fd f 0 = Some i.
Proof. intros H1 H2. apply free_fd_spec. rewrite Nat.sub_0_r. split; [lia|done]. Qed.
Lemma free_fd_exists (f : fdt) i : f !! i = Some None → ∃ j, free_fd f 0 = Some j ∧ (j ≤ i)%nat ∧ f !! j = Some None.
Proof.
  intros Hi. assert (∃ j, free_fd f 0 = Some j ∧ (j ≤ i)%nat) as (j & Hj & Hle).
  { cut (∀ (g : fdt) n k, g !! k = Some None → ∃ j, free_fd g n = Some j ∧ (j ≤ n + k)%nat); [intros H; apply (H f 0%nat i Hi)|].
    induction g as [|[o|] g IH]; intros n k Hk; cbn [free_fd]; [done| |exists n; split; [done|lia]].
    destruct k as [|k]; [done|]. destruct (IH (S n) k Hk) as (j & Hj & Hle). exists j. split; [done|lia]. }
  exists j. split; [done|]. split; [done|]. apply free_fd_spec in Hj as (_ & Hj & _). by rewrite Nat.sub_0_r in Hj.
Qed.

(** Closing and opening again a standard descriptor. *)
Lemma reopen f i o : std_fds f → (i < 2)%nat → free_fd (<[i := None]> f) 0 = Some i ∧
  <[i := Some o]> (<[i := None]> f) = <[i := Some o]> f ∧ std_fds (<[i := Some o]> f).
Proof.
  intros [H1 (a & b & Hab & Ha & Hb)] Hi. destruct (H1 i ltac:(lia)) as [o' Ho]. pose proof (lookup_lt_Some _ _ _ Ho) as Hlt.
  split; [|split; [apply list_insert_insert_eq|]].
  - apply free_fd_first; [by apply list_lookup_insert_eq|]. intros k Hk. unfold opened. rewrite list_lookup_insert_ne by lia. apply H1. lia.
  - split.
    + intros k Hk. unfold opened. destruct (decide (k = i)) as [->|Hne]; [exists o; by apply list_lookup_insert_eq|].
      rewrite list_lookup_insert_ne by done. by apply H1.
    + exists a, b. split; [done|]. rewrite !list_lookup_insert_ne by (intros ->; congruence). done.
Qed.

(** A pipe takes two descriptors above the standard ones. *)
Lemma pipe_ok f id : std_fds f → ∃ i j, pipe_fds f id = Some (i, j, <[j := Some (PipeW id)]> (<[i := Some (PipeR id)]> f)) ∧
  (2 < i < j)%nat ∧ f !! i = Some None ∧ f !! j = Some None.
Proof.
  intros [H1 (a & b & Hab & Ha & Hb)]. destruct (free_fd_exists f a Ha) as (i & Ei & Hi & Fi).
  assert (Hi2 : (2 < i)%nat).
  { destruct (decide (i < 3)%nat) as [Hlt|]; [|lia]. destruct (H1 i Hlt) as [o Ho]. congruence. }
  pose proof (lookup_lt_Some _ _ _ Fi) as Li. set (g := <[i := Some (PipeR id)]> f).
  assert (Hb' : g !! b = Some None) by (unfold g; by rewrite list_lookup_insert_ne by lia).
  destruct (free_fd_exists g b Hb') as (j & Ej & Hj & Fj). unfold pipe_fds. rewrite Ei. fold g. rewrite Ej.
  assert (Hne : i ≠ j) by (intros <-; unfold g in Fj; rewrite list_lookup_insert_eq in Fj by done; done).
  exists i, j. split; [done|]. unfold g in Fj. rewrite list_lookup_insert_ne in Fj by done. split; [|done].
  apply free_fd_spec in Ei as (_ & _ & Hlow). split; [done|]. destruct (decide (j < i)%nat) as [Hlt|]; [|lia].
  destruct (Hlow j ltac:(lia)) as [o Ho]. congruence.
Qed.

(** A child of a pipeline takes its end, the descriptor [e], as descriptor
    [k], and closes both. *)
Lemma pipe_child f i j k e o r w : std_fds f → (k < 2)%nat → (2 < i < j)%nat → f !! i = Some None → f !! j = Some None →
  <[j := Some w]> (<[i := Some r]> f) !! e = Some (Some o) → (2 < e)%nat →
  <[j := None]> (<[i := None]> (dup (<[k := None]> (<[j := Some w]> (<[i := Some r]> f))) e)) = <[k := Some o]> f.
Proof.
  intros [H1 _] Hk Hij Hi Hj He H2. destruct (H1 k ltac:(lia)) as [ok Hok].
  pose proof (lookup_lt_Some _ _ _ Hi). pose proof (lookup_lt_Some _ _ _ Hj). pose proof (lookup_lt_Some _ _ _ Hok).
  set (g := <[j := Some w]> (<[i := Some r]> f)) in *. assert (Hg : length g = length f) by (unfold g; by rewrite !length_insert).
  assert (Ef : free_fd (<[k := None]> g) 0 = Some k).
  { apply free_fd_first; [apply list_lookup_insert_eq; lia|]. intros n Hn. unfold opened, g. rewrite !list_lookup_insert_ne by lia. apply H1. lia. }
  unfold dup. rewrite list_lookup_insert_ne, He, Ef, list_insert_insert_eq by lia. apply list_eq. intros n.
  destruct (decide (n = j)) as [->|Hnj].
  { rewrite list_lookup_insert_eq, list_lookup_insert_ne by (rewrite ?length_insert; lia). done. }
  rewrite list_lookup_insert_ne by done. destruct (decide (n = i)) as [->|Hni].
  { rewrite list_lookup_insert_eq, list_lookup_insert_ne by (rewrite ?length_insert; lia). done. }
  rewrite list_lookup_insert_ne by done. destruct (decide (n = k)) as [->|Hnk].
  { by rewrite !list_lookup_insert_eq by lia. }
  unfold g. by rewrite !list_lookup_insert_ne by done.
Qed.

Lemma todo_runcmd str c : redirs_std c → ∀ f pid forks pipes, std_fds f →
  todo (runcmd str c) f pid forks pipes = plan str c f pid forks pipes.
Proof.
  induction c as [[|a argv]|c IH file efile mode fd|lc IHl rc IHr|lc IHl rc IHr|c IH]; cbn [redirs_std]; intros Hr f pid forks pipes Hf;
    cbn [runcmd plan todo fork1].
  - done.
  - by rewrite decide_False.
  - destruct Hr as [Hfd Hr]. destruct (reopen f (Z.to_nat fd) (File (str file) mode) Hf) as (-> & -> & Hf'); [lia|]. by apply IH.
  - destruct Hr as [Hl Hr]. destruct (pipe_ok f (pid, pipes, forks) Hf) as (i & j & -> & Hij & Hi & Hj).
    pose proof (lookup_lt_Some _ _ _ Hi). pose proof (lookup_lt_Some _ _ _ Hj). unfold fork1. cbn [todo]. rewrite app_nil_r.
    rewrite (pipe_child f i j 1 j (PipeW (pid, pipes, forks))) by (done || lia || (apply list_lookup_insert_eq; by rewrite length_insert)).
    rewrite (pipe_child f i j 0 i (PipeR (pid, pipes, forks))) by (done || lia || (rewrite list_lookup_insert_ne by lia; by apply list_lookup_insert_eq)).
    rewrite IHl, IHr; [done|done| |done|]; by apply reopen; [|lia].
  - destruct Hr as [Hl Hr]. by rewrite IHl, IHr.
  - rewrite app_nil_r. by apply IH.
Qed.

(** The ends of its pipes are where they belong. *)
Lemma at_rest_insert f pid k o : at_rest f pid →
  (∀ P n i, (o = PipeW (P, n, i) → below i P pid) ∧ (o = PipeR (P, n, i) → below (S i) P pid)) → at_rest (<[k := Some o]> f) pid.
Proof.
  intros R Ho k' P n i. destruct (decide (k' = k)) as [->|Hne]; [|by rewrite list_lookup_insert_ne].
  destruct (decide (k < length f)%nat); [|rewrite list_insert_ge by lia; apply R].
  rewrite list_lookup_insert_eq by done. split; intros [= E]; by eapply Ho.
Qed.
Lemma at_rest_child f pid n : at_rest f pid → at_rest f (n :: pid).
Proof. intros R k P m i. split; intros E; by apply below_child, (R k P m i). Qed.

Lemma runcmd_safe str c : redirs_std c → ∀ f pid forks pipes, std_fds f → at_rest f pid → safe (runcmd str c) f pid forks pipes.
Proof.
  induction c as [[|a argv]|c IH file efile mode fd|lc IHl rc IHr|lc IHl rc IHr|c IH]; cbn [redirs_std]; intros Hr f pid forks pipes Hf R;
    cbn [runcmd safe]; unfold fork1, panic; cbn [safe silent].
  - done.
  - done.
  - destruct Hr as [Hfd Hr]. destruct (reopen f (Z.to_nat fd) (File (str file) mode) Hf) as (E & Ei & Hf'); [lia|].
    split; [done|]. intros i. rewrite E. intros [= <-]. rewrite Ei. apply IH; [done|done|]. by apply at_rest_insert.
  - destruct Hr as [Hl Hr]. split; [done|]. intros i j f'. destruct (pipe_ok f (pid, pipes, forks) Hf) as (i' & j' & -> & Hij & Hi & Hj).
    intros [= -> -> <-]. pose proof (lookup_lt_Some _ _ _ Hi). pose proof (lookup_lt_Some _ _ _ Hj). cbn [safe].
    rewrite (pipe_child f i j 1 j (PipeW (pid, pipes, forks))) by (done || lia || (apply list_lookup_insert_eq; by rewrite length_insert)).
    rewrite (pipe_child f i j 0 i (PipeR (pid, pipes, forks))) by (done || lia || (rewrite list_lookup_insert_ne by lia; by apply list_lookup_insert_eq)).
    assert (Ef : <[j := None]> (<[i := None]> (<[j := Some (PipeW (pid, pipes, forks))]> (<[i := Some (PipeR (pid, pipes, forks))]> f))) = f).
    { rewrite (list_insert_insert_ne _ j i None None) by lia. rewrite !list_insert_insert_eq, (list_insert_insert_ne _ i j) by lia.
      rewrite list_insert_insert_eq. by rewrite (list_insert_id f i), (list_insert_id f j). }
    rewrite Ef. split_and!; try done.
    + apply IHl; [done|by apply reopen; [|lia]|]. apply at_rest_insert; [by apply at_rest_child|].
      intros P n k. split; [|done]. intros [= <- _ <-]. by exists [].
    + apply IHr; [done|by apply reopen; [|lia]|]. apply at_rest_insert; [by apply at_rest_child|].
      intros P n k. split; [done|]. intros [= <- _ <-]. by exists [].
  - destruct Hr as [Hl Hr]. split_and!; [apply IHl|done|apply IHr|done]; try done. by apply at_rest_child.
  - split_and!; [|done|done]. apply IH; [done|done|]. by apply at_rest_child.
Qed.

(** Commands without [&]. *)
Fixpoint waited (c : cmd) : bool :=
  match c with
  | EXEC _ => true
  | REDIR c _ _ _ _ => waited c
  | LIST l r | PIPE l r => waited l && waited r
  | BACK _ => false
  end.

Lemma runcmd_disc str c g : (g = true → waited c = true) → disc g 0 (runcmd str c).
Proof.
  induction c as [[|a argv]|c IH file efile mode fd|lc IHl rc IHr|lc IHl rc IHr|c IH]; cbn [waited runcmd]; unfold fork1, panic; intros Hw.
  - done.
  - by split_and!.
  - cbn [disc]. split; [by split|]. intros _. by apply IH.
  - cbn [disc]. split; [by split|]. intros [p0 p1]. cbn [disc pred].
    split_and!; [apply IHl|apply IHr|..]; try done; intros G; specialize (Hw G); by apply andb_true_iff in Hw as [? ?].
  - cbn [disc pred]. split_and!; [apply IHl|apply IHr|..]; try done; intros G; specialize (Hw G); by apply andb_true_iff in Hw as [? ?].
  - cbn [disc]. split_and!; [apply IH| |done|done]; intros G; discriminate (Hw G).
Qed.

(** ** The parser's trees *)
Definition yields {A} (P : A → Prop) (r : res A) : Prop := match r with Ret a _ => P a | _ => True end.
Lemma yields_andthen {A B} (P : A → Prop) (Q : B → Prop) (r : res A) (k : A → ptr → res B) :
  yields P r → (∀ a s, P a → yields Q (k a s)) → yields Q (andthen r k).
Proof. destruct r; simpl; auto. Qed.

Definition std_redir (r : redir) : Prop := r_fd r = 0 ∨ r_fd r = 1.
Lemma parseredirs_std n s : yields (Forall std_redir) (parseredirs n s).
Proof.
  revert s. induction n as [|n IH]; intros s; [done|]. cbn [parseredirs]. destruct (peek _ s) as [[] s0]; [|by constructor].
  destruct (gettoken s0) as [tok s1], (gettoken s1) as [t s2]. destruct (negb _); [done|].
  eapply yields_andthen; [apply IH|]. intros rs r Hrs. simpl. unfold redir_of.
  destruct (_ =? 60); [by constructor; [left|]|]. destruct (_ =? 62); [by constructor; [right|]|].
  destruct (_ =? 43); [by constructor; [right|]|done].
Qed.
Lemma parseargs_std n argc s : yields (λ a, Forall std_redir a.2) (parseargs n argc s).
Proof.
  revert argc s. induction n as [|n IH]; intros argc s; [done|]. cbn [parseargs]. destruct (peek _ s) as [[] s0]; [by constructor|].
  destruct (gettoken s0) as [t s1]. destruct (_ =? 0); [by constructor|]. destruct (negb _); [done|]. destruct (_ <=? _)%nat; [done|].
  eapply yields_andthen; [apply parseredirs_std|]. intros rs r Hrs. eapply yields_andthen; [apply IH|]. intros more r' Hm.
  by apply Forall_app.
Qed.
Lemma wrap_std c rs : redirs_std c → Forall std_redir rs → redirs_std (wrap c rs).
Proof.
  intros Hc Hrs. revert c Hc. induction Hrs as [|r rs Hr _ IH]; intros c Hc; [done|]. by apply IH.
Qed.
Lemma parseback_std n c s : redirs_std c → yields redirs_std (parseback n c s).
Proof.
  revert c s. induction n as [|n IH]; intros c s Hc; [done|]. cbn [parseback]. destruct (peek _ s) as [[] s0]; [|done].
  destruct (gettoken s0) as [t s1]. by apply IH.
Qed.
Lemma parse_std n : ∀ s, yields redirs_std (parseline n s) ∧ yields redirs_std (parsepipe n s) ∧
  yields redirs_std (parseexec n s) ∧ yields redirs_std (parseblock n s).
Proof.
  induction n as [|n IH]; intros s; [done|]. cbn [parseline parsepipe parseexec parseblock]. split_and!.
  - eapply yields_andthen; [apply IH|]. intros c r Hc. eapply yields_andthen; [by apply parseback_std|]. intros c' r' Hc'.
    destruct (peek _ r') as [[] s0]; [|done]. destruct (gettoken s0) as [t s1]. eapply yields_andthen; [apply IH|]. done.
  - eapply yields_andthen; [apply IH|]. intros c r Hc. destruct (peek _ r) as [[] s0]; [|done]. destruct (gettoken s0) as [t s1].
    eapply yields_andthen; [apply IH|]. done.
  - destruct (peek _ s) as [[] s0]; [apply IH|]. eapply yields_andthen; [apply parseredirs_std|]. intros rs r Hrs.
    eapply yields_andthen; [apply parseargs_std|]. intros a r' Ha. apply wrap_std; [done|]. by apply Forall_app.
  - destruct (peek _ s) as [[] s0]; [|done]. cbn [negb]. destruct (gettoken s0) as [t s1]. eapply yields_andthen; [apply IH|]. intros c r Hc.
    destruct (peek _ r) as [[] s2]; [|done]. cbn [negb]. destruct (gettoken s2) as [t' s3].
    eapply yields_andthen; [apply parseredirs_std|]. intros rs r' Hrs. by apply wrap_std.
Qed.
Lemma parsecmd_std s c s' : parsecmd s = Ret c s' → redirs_std c.
Proof.
  unfold parsecmd. destruct (parse_std (parse_fuel s) s) as [H _]. destruct (parseline _ s) as [c0 r| |]; [|done|done].
  simpl in *. destruct (skip r); [|done]. by intros [= <- <-].
Qed.

(** ** main *)

(** The string at a pointer, once [nulterminate] has run. *)
Definition str_of (line : list Z) (c : cmd) (p : ptr) : list Z := string_at (terminated line c) (offset line p).
(** [runcmd(parsecmd(buf))] *)
Definition run_line (buf : list Z) : prog :=
  match parsecmd buf with
  | Ret c _ => runcmd (str_of buf c) c
  | Fail msg => panic msg
  | Fuel => Exit
  end.

(** [getcmd]: the C string read from standard input, and the input left. *)
Definition getcmd (inp : list Z) : list Z * list Z :=
  let '(line, rest) := ULib.gets inp 100 in (until_nul line, rest).

Definition is_cd (buf : list Z) : bool :=
  match buf with a :: b :: c :: _ => (a =? 99) && (b =? 100) && (c =? 32) | _ => false end.

(** The loop of [main] on the bytes of standard input, at most one command
    for each. *)
Fixpoint main_loop (n : nat) (inp : list Z) : prog :=
  match n with
  | O => Exit
  | S n =>
      let '(buf, rest) := getcmd inp in
      Printf 2 "$ " []
        (if decide (buf = []) then Exit
         else if is_cd buf then
           let dir := drop 3 (take (length buf - 1) buf) in
           Chdir dir (λ ok, if ok : bool then main_loop n rest
                            else Printf 2 (String.append "cannot cd %s" nl) [dir] (main_loop n rest))
         else fork1 (run_line buf) (Wait (main_loop n rest)))
  end.

(** [while((fd = open("console", O_RDWR)) >= 0) if(fd >= 3) { close(fd); break; }]:
    at the latest the fourth round ends it. *)
Definition console_name : list Z := [99; 111; 110; 115; 111; 108; 101].
Fixpoint open_console (n : nat) (k : prog) : prog :=
  match n with
  | O => k
  | S n => Open console_name O_RDWR (λ r,
      match r with
      | Some fd => if (3 <=? fd)%nat then Close fd k else open_console n k
      | None => k
      end)
  end.
Definition main (inp : list Z) : prog := open_console 4 (main_loop (S (length inp)) inp).

(** What the command lines of the input say, each in a child of the shell. *)
Fixpoint lines_plan (n : nat) (inp : list Z) (f : fdt) (forks : nat) : list event :=
  match n with
  | O => []
  | S n =>
      let '(buf, rest) := getcmd inp in
      if decide (buf = []) then []
      else if is_cd buf then lines_plan n rest f forks
      else match parsecmd buf with Ret c _ => plan (str_of buf c) c f [forks] 0 0 | _ => [] end ++ lines_plan n rest f (S forks)
  end.

(** No command line has an [&]. *)
Fixpoint foreground (n : nat) (inp : list Z) : bool :=
  match n with
  | O => true
  | S n =>
      let '(buf, rest) := getcmd inp in
      bool_decide (buf = []) ||
      ((is_cd buf || match parsecmd buf with Ret c _ => waited c | _ => true end) && foreground n rest)
  end.

Lemma run_line_safe buf f pid : std_fds f → at_rest f pid → safe (run_line buf) f pid 0 0.
Proof.
  intros Hf R. unfold run_line. destruct (parsecmd buf) as [c s'| |] eqn:E; [|done|done]. apply runcmd_safe; [|done|done]. by apply (parsecmd_std buf _ s').
Qed.
Lemma main_loop_safe n inp f forks pipes : std_fds f → at_rest f [] → safe (main_loop n inp) f [] forks pipes.
Proof.
  intros Hf R. revert inp forks. induction n as [|n IH]; intros inp forks; [done|]. cbn [main_loop]. destruct (getcmd inp) as [buf rest].
  cbn [safe]. case_decide; [done|]. destruct (is_cd buf); [intros []; apply IH|]. unfold fork1. cbn [safe].
  split_and!; [|done|apply IH|done]. apply run_line_safe; [done|]. by apply at_rest_child.
Qed.
Lemma main_loop_disc n inp g : (g = true → foreground n inp = true) → disc g 0 (main_loop n inp).
Proof.
  revert inp. induction n as [|n IH]; intros inp Hg; [done|]. cbn [main_loop foreground] in *. destruct (getcmd inp) as [buf rest].
  cbn [disc]. split; [done|]. case_decide; [done|]. rewrite bool_decide_false in Hg by done. cbn [orb] in Hg.
  assert (Hr : g = true → foreground n rest = true) by (intros G; by apply andb_true_iff in Hg as [_ ?]).
  destruct (is_cd buf) eqn:Ec; [by intros []; [apply IH|split; [done|apply IH]]|]. unfold fork1, panic. cbn [disc pred].
  split_and!; [|by apply IH|done|done]. unfold run_line. destruct (parsecmd buf); [|by split|done].
  apply runcmd_disc. intros G. by apply andb_true_iff in Hg as [? _].
Qed.

Lemma run_line_tame buf : tame (run_line buf).
Proof. unfold run_line. destruct (parsecmd buf); [apply runcmd_tame|done|done]. Qed.
Lemma run_line_todo buf f pid : std_fds f →
  todo (run_line buf) f pid 0 0 = match parsecmd buf with Ret c _ => plan (str_of buf c) c f pid 0 0 | _ => [] end.
Proof.
  intros Hf. unfold run_line. destruct (parsecmd buf) as [c s'| |] eqn:E; [|done|done]. apply todo_runcmd; [|done]. by apply (parsecmd_std buf _ s').
Qed.

Lemma main_loop_tame n inp : tame (main_loop n inp).
Proof.
  revert inp. induction n as [|n IH]; intros inp; [done|]. cbn [main_loop]. destruct (getcmd inp) as [buf rest]. cbn [tame].
  case_decide; [done|]. destruct (is_cd buf).
  - split; [by intros []; apply IH|done].
  - split; [apply run_line_tame|]. by split; [apply IH|].
Qed.
Lemma main_loop_todo n inp f forks pipes : std_fds f → todo (main_loop n inp) f [] forks pipes = lines_plan n inp f forks.
Proof.
  intros Hf. revert inp forks. induction n as [|n IH]; intros inp forks; [done|]. cbn [main_loop lines_plan].
  destruct (getcmd inp) as [buf rest]. cbn [todo]. case_decide; [done|]. destruct (is_cd buf); [apply IH|].
  unfold fork1. cbn [todo]. by rewrite run_line_todo, IH.
Qed.

(** Reading the input takes a round for each line, and one for its end. *)
Lemma gets_from_shorter inp room l rest : ULib.gets_from inp room = (l, rest) → (length l + length rest = length inp)%nat.
Proof.
  revert inp l rest. induction room as [|room IH]; intros [|c inp] l rest; cbn [ULib.gets_from]; try by intros [= <- <-].
  destruct (_ || _); [by intros [= <- <-]|]. destruct (ULib.gets_from inp room) as [l' r'] eqn:E. intros [= <- <-].
  simpl. by rewrite (IH _ _ _ E).
Qed.
Lemma getcmd_shorter inp buf rest : getcmd inp = (buf, rest) → buf ≠ [] → (length rest < length inp)%nat.
Proof.
  unfold getcmd, ULib.gets. destruct (ULib.gets_from inp _) as [l r] eqn:E. intros [= <- <-] Hne.
  pose proof (gets_from_shorter _ _ _ _ E). destruct l; [done|]. simpl in *. lia.
Qed.
Lemma lines_plan_fuel n m inp f forks : (length inp < n)%nat → (length inp < m)%nat → lines_plan n inp f forks = lines_plan m inp f forks.
Proof.
  revert m inp forks. induction n as [|n IH]; intros [|m] inp forks Hn Hm; [lia..|]. cbn [lines_plan].
  destruct (getcmd inp) as [buf rest] eqn:E. case_decide as Hb; [done|]. pose proof (getcmd_shorter _ _ _ E Hb).
  destruct (is_cd buf); [apply IH; lia|]. f_equal. apply IH; lia.
Qed.

(** The first loop of [main] leaves descriptors 0, 1 and 2 open, whatever was
    open before.  Each round opens the lowest descriptor that is free, so the
    ones below [4 - n] are open when [n] rounds are left. *)
Lemma console_rounds k pid forks pipes n : (n ≤ 4)%nat → ∀ f, (∀ i, (i < 4 - n)%nat → opened f i) →
  (∃ a b, (2 < a < b)%nat ∧ f !! a = Some None ∧ f !! b = Some None) →
  ∃ f', std_fds f' ∧ todo (open_console n k) f pid forks pipes = todo k f' pid forks pipes ∧ ∀ i, opened f i → f' !! i = f !! i.
Proof.
  induction n as [|n IH]; intros Hn f Ho (a & b & Hab & Ha & Hb).
  - exists f. split; [|done]. split; [intros i Hi; apply Ho; lia|]. exists a, b. by split; [lia|].
  - cbn [open_console todo]. destruct (free_fd_exists f a Ha) as (i & Ei & Hi & Fi). rewrite Ei.
    pose proof (lookup_lt_Some _ _ _ Fi). apply free_fd_spec in Ei as (_ & _ & Hlow). rewrite Nat.sub_0_r in Hlow.
    destruct (Nat.leb_spec 3 i) as [H3|H3].
    + cbn [todo]. rewrite list_insert_insert_eq, list_insert_id by done. exists f. split; [|done].
      split; [intros j Hj; apply Hlow; lia|]. exists a, b. by split; [lia|].
    + assert (H4 : (4 - S n ≤ i)%nat).
      { destruct (decide (i < 4 - S n)%nat) as [Hlt|]; [|lia]. destruct (Ho i Hlt) as [o E]. congruence. }
      destruct (IH ltac:(lia) (<[i := Some (File console_name O_RDWR)]> f)) as (f' & Hs & Et & Hk).
      * intros j Hj. unfold opened. destruct (decide (j = i)) as [->|Hne]; [eexists; by apply list_lookup_insert_eq|].
        rewrite list_lookup_insert_ne by done. apply Hlow. lia.
      * exists a, b. by rewrite !list_lookup_insert_ne by lia.
      * exists f'. split; [done|]. split; [done|]. intros j [o Hj]. assert (j ≠ i) by congruence.
        rewrite Hk by (exists o; by rewrite list_lookup_insert_ne by done). by rewrite list_lookup_insert_ne by done.
Qed.
Lemma console_std inp f : (∃ a b, (2 < a < b)%nat ∧ f !! a = Some None ∧ f !! b = Some None) →
  ∃ f', std_fds f' ∧ todo (main inp) f [] 0 0 = lines_plan (S (length inp)) inp f' 0 ∧ ∀ i, opened f i → f' !! i = f !! i.
Proof.
  intros H. destruct (console_rounds (main_loop (S (length inp)) inp) [] 0 0 4 ltac:(lia) f) as (f' & Hs & Et & Hk); [lia|done|].
  exists f'. split; [done|]. split; [|done]. unfold main. rewrite Et. by apply main_loop_todo.
Qed.

(** Descriptors without pipes. *)
Definition no_pipes (f : fdt) : Prop := ∀ k id, f !! k ≠ Some (Some (PipeR id)) ∧ f !! k ≠ Some (Some (PipeW id)).

(** C5. The shell, reading commands from its standard input, runs what the
    lines say.  Whatever the order in which its processes run, whichever
    system calls fail, and whichever programs read their input to the end,
    each program executed is one of the command lines', executed once, in
    its own process, with standard input and output redirected as the line
    says, its own ends of the pipes it is connected to, and every other
    descriptor as the shell had it.  If no call fails and all processes have
    ended, all of them have been executed.  As long as a process is left, one
    can go on, so nobody waits for ever for a child or for the end of a pipe:
    a process that waits, or that runs a program, holds the write end of a
    pipe only if it is on its left and the read end only if it is on its
    right.  A process with a program to execute has no child left that it
    should have waited for, nor has the shell when it prompts; and when no
    call fails and no line has an [&], the prompt comes back only when all
    processes of the line before have ended.  The names that tell processes
    and pipes apart are never shared. *)
Theorem shell_executes reader inp f ok l t :
  std_fds f → no_pipes f → steps reader ([Process [] (main_loop (S (length inp)) inp) f 0 0 0], []) ok (l, t) →
  t ⊆+ lines_plan (S (length inp)) inp f 0 ∧
  (ok = true → l = [] → t ≡ₚ lines_plan (S (length inp)) inp f 0) ∧
  (l ≠ [] → ∃ ok' s, step reader (l, t) ok' s) ∧
  (∀ p, p ∈ l → (∃ k, u_prog p = Wait k) ∨ (∃ b, u_prog p = Run b) → at_rest (u_fds p) (u_pid p)) ∧
  (∀ p q, p ∈ l → settled p → q ∈ l → ¬ child_of p q) ∧
  (∀ p, p ∈ l → u_pid p = [] → prompting p → ok = true → foreground (S (length inp)) inp = true → l = [p]) ∧
  NoDup (u_pid <$> l).
Proof.
  intros Hf Hn H. set (sh := Process [] (main_loop (S (length inp)) inp) f 0 0 0) in *.
  assert (W0 : well_named (names [sh])).
  { split; [apply NoDup_singleton|]. cbn. intros pid n x i m Hp Hq. apply list_elem_of_singleton in Hp, Hq. simplify_eq. by destruct x. }
  assert (W : NoDup (u_pid <$> l)) by apply named_nodup, (steps_named _ _ _ _ H W0).
  assert (Safe : Forall is_safe l).
  { apply (steps_safe _ _ _ _ H). constructor; [|constructor]. apply main_loop_safe; [done|].
    intros k P n i. split; intros E; by apply Hn in E. }
  destruct (steps_tended reader (foreground (S (length inp)) inp) _ _ _ H W0) as [T R].
  { constructor; [|constructor]. exists 0%nat. split; [done|]. by apply main_loop_disc. }
  { intros _ q i P ->%list_elem_of_singleton. done. }
  destruct (steps_plan _ _ _ _ H) as (_ & Hs & E); [constructor; [apply main_loop_tame|constructor]|].
  assert (P : plans [sh] = lines_plan (S (length inp)) inp f 0) by (rewrite plans_cons, app_nil_r; by apply main_loop_todo).
  cbn [fst snd app] in Hs, E, T, R. rewrite P in Hs, E. rewrite Forall_forall in T. split_and!; [..|done].
  - etrans; [|exact Hs]. apply submseteq_inserts_r. done.
  - intros Ho ->. specialize (E Ho). by rewrite app_nil_r in E.
  - by apply progress.
  - intros p Hp. apply resting. rewrite Forall_forall in Safe. by apply Safe.
  - intros p q Hp Hset Hq. by eapply settled_childless; [apply T|..].
  - intros p Hp Ep Hpr -> Hfg. rewrite Hfg in R. apply rooted_alone; [by apply R|done|done|done|].
    intros q Hq. eapply settled_childless; [by apply T|by right; right|done].
Qed.

(** [cat < a | wc ; ls] from a terminal, where [cat] and [wc] read their input
    to the end. *)
Definition sample_line : list Z := [99; 97; 116; 60; 97; 124; 119; 99; 59; 108; 115; 10].
Definition terminal : fdt := [Some (File console_name 2); Some (File console_name 2); Some (File console_name 2)] ++ replicate 13 None.

Lemma shell_executes_witness :
  lines_plan (S (length sample_line)) sample_line terminal 0 =
    [([0; 0; 0]%nat, [[99; 97; 116]], <[0%nat := Some (File [97] 0)]> (<[1%nat := Some (PipeW ([0; 0]%nat, 0%nat, 0%nat))]> terminal));
     ([1; 0; 0]%nat, [[119; 99]], <[0%nat := Some (PipeR ([0; 0]%nat, 0%nat, 0%nat))]> terminal);
     ([0]%nat, [[108; 115]], terminal)] ∧
  foreground (S (length sample_line)) sample_line = true ∧
  ∃ ok s, step (λ argv, bool_decide (argv ≠ [[108; 115]])) ([Process [] (main_loop (S (length sample_line)) sample_line) terminal 0 0 0], []) ok s.
Proof.
  split; [vm_compute; reflexivity|]. split; [vm_compute; reflexivity|].
  destruct (shell_executes (λ argv, bool_decide (argv ≠ [[108; 115]])) sample_line terminal true
    [Process [] (main_loop (S (length sample_line)) sample_line) terminal 0 0 0] []) as (_ & _ & H & _).
  - split.
    + intros i Hi. destruct i as [|[|[|i]]]; [eexists; reflexivity|eexists; reflexivity|eexists; reflexivity|lia].
    + exists 3%nat, 4%nat. split; [lia|]. split; reflexivity.
  - intros k id. do 16 (destruct k as [|k]; [split; discriminate|]). split; discriminate.
  - constructor.
  - apply H. discriminate.
Defined.
