(* ===== verification/Boot.v ===== *)
(** * The boot loader (bootmain.c)

    The loader runs before the kernel, on physical memory, and reads the
    kernel from the disk one sector at a time, with the registers of the same
    controller ([IdeDevice], see [Ide]).  A fresh [bstate] is memory and the
    controller.

    The result: a kernel whose segments are loaded in increasing order is in
    memory, byte for byte and with its zeroed part, when the loader jumps to
    its entry point; a disk without a kernel is left alone. *)
From S2P Require Import Prelude State Sync CString Kalloc Bio Ide.

Definition SECTSIZE : Z := 512.
Definition ELF_MAGIC : Z := 1179403647.  (* 0x464C457F, "\x7FELF" in little endian *)
Definition scratch : Z := 65536.         (* 0x10000 *)

(** Fields of [struct elfhdr] and [struct proghdr] at an address. *)
Definition elf_magic (m : mem) (a : Z) : Z := ld4 m a.
Definition elf_entry (m : mem) (a : Z) : Z := ld4 m (a + 24).
Definition elf_phoff (m : mem) (a : Z) : Z := ld4 m (a + 28).
Definition elf_phnum (m : mem) (a : Z) : Z := ld2 m (a + 44).
Definition ph_off (m : mem) (a : Z) : Z := ld4 m (a + 4).
Definition ph_paddr (m : mem) (a : Z) : Z := ld4 m (a + 12).
Definition ph_filesz (m : mem) (a : Z) : Z := ld4 m (a + 16).
Definition ph_memsz (m : mem) (a : Z) : Z := ld4 m (a + 20).

Record bstate (D : Type) := BState { b_mem : mem; b_disk : D }.
Arguments BState {D} _ _.
Arguments b_mem {D} _.
Arguments b_disk {D} _.
#[global] Instance eta_bstate D : Eta (bstate D) := λ r, BState (b_mem r) (b_disk r).

Section boot.
Context {D : Type} `{!IdeDevice D}.
Abbreviation BM A := (M (bstate D) A) (only parsing).

Definition inb : BM Z := λ env s, Done (dev_inb (b_disk s)).1 (s <| b_disk := (dev_inb (b_disk s)).2 |>) env.
(** [outb] takes a byte. *)
Definition outb (port v : Z) : BM unit := modify (λ s, s <| b_disk ::= dev_outb port (u8 v) |>).
Definition insl (dst : Z) : BM unit := λ env s,
  let '(l, d) := dev_insl (b_disk s) in
  Done tt (BState (λ x, if in_area dst (Z.of_nat (length l)) x then l !!! Z.to_nat (x - dst) else b_mem s x) d) env.

Fixpoint waitdisk_from (n : nat) : BM unit :=
  r <- inb ;;
  if Z.land r 192 =? 64 then ret tt else
  match n with
  | O => λ _ s, Asleep s
  | S n => waitdisk_from n
  end.
Definition waitdisk : BM unit :=
  n <- gets (λ s, dev_busy (b_disk s)) ;;
  waitdisk_from n.

Definition readsect (dst offset : Z) : BM unit :=
  waitdisk ;;
  outb 498 1 ;;
  outb 499 offset ;;
  outb 500 (Z.shiftr offset 8) ;;
  outb 501 (Z.shiftr offset 16) ;;
  outb 502 (Z.lor (Z.shiftr offset 24) 224) ;;
  outb 503 32 ;;
  waitdisk ;;
  insl dst.

(** [n] bounds the rounds: one for each started sector. *)
Fixpoint readseg_from (n : nat) (pa epa offset : Z) : BM unit :=
  if pa <? epa then
    match n with
    | O => λ _ s, Asleep s
    | S n => readsect pa offset ;; readseg_from n (u32 (pa + SECTSIZE)) epa (u32 (offset + 1))
    end
  else ret tt.
Definition readseg (pa count offset : Z) : BM unit :=
  let epa := u32 (pa + count) in
  let pa := u32 (pa - offset `mod` SECTSIZE) in
  let offset := u32 (offset / SECTSIZE + 1) in
  readseg_from (Z.to_nat ((epa - pa + SECTSIZE - 1) / SECTSIZE)) pa epa offset.

(** The segments from [ph] on; their headers are read as the loop reaches
    them. *)
Fixpoint load_segments (n : nat) (ph : Z) : BM unit :=
  match n with
  | O => ret tt
  | S n =>
      m <- gets b_mem ;;
      let pa := ph_paddr m ph in
      readseg pa (ph_filesz m ph) (ph_off m ph) ;;
      m <- gets b_mem ;;
      when (ph_filesz m ph <? ph_memsz m ph)
        (modify (λ s, s <| b_mem := KString.stosb (b_mem s) (u32 (pa + ph_filesz m ph)) 0
                                      (Z.to_nat (ph_memsz m ph - ph_filesz m ph)) |>)) ;;
      load_segments n (ph + 32)
  end.

(** The address it jumps to, if any. *)
Definition bootmain : BM (option Z) :=
  let elf := scratch in
  readseg elf 4096 0 ;;
  m <- gets b_mem ;;
  if negb (elf_magic m elf =? ELF_MAGIC) then ret None else
  load_segments (Z.to_nat (elf_phnum m elf)) (u32 (elf + elf_phoff m elf)) ;;
  m <- gets b_mem ;;
  ret (Some (elf_entry m elf)).

(** ** Reading sectors *)

(** The file the kernel is in: the disk from sector 1 on. *)
Definition kernel_file (d : D) : mem := λ o, dev_sector d 0 (o / SECTSIZE + 1) !!! Z.to_nat (o `mod` SECTSIZE).

Record disk_ready (d : D) : Prop := {
  dk_idle : dev_phase d = Idle;
  dk_sectors k n : length (dev_sector d k n) = 512%nat }.

Lemma waitdisk_from_ok n env s : (dev_busy (b_disk s) ≤ n)%nat →
  ∃ d, waitdisk_from n env s = Done tt (s <| b_disk := d |>) env ∧ polled (b_disk s) d.
Proof.
  revert s. induction n as [|n IH]; intros s Hn; cbn [waitdisk_from]; rewrite (bind_done _ _ _ _ _ _ _ eq_refl).
  - change 192 with (Z.lor IDE_BSY IDE_DRDY). rewrite inb_ready by lia. eexists. split; [done|]. apply polled_inb.
  - destruct (_ =? _); [eexists; split; [done|]; apply polled_inb|].
    destruct (IH (s <| b_disk := (dev_inb (b_disk s)).2 |>)) as (d & E & Hp); [cbn; rewrite inb_busy; lia|].
    exists d. split; [exact E|]. by eapply polled_trans; [apply polled_inb|].
Qed.
Lemma waitdisk_ok env s : ∃ d, waitdisk env s = Done tt (s <| b_disk := d |>) env ∧ polled (b_disk s) d.
Proof. unfold waitdisk. rewrite bind_gets. by apply waitdisk_from_ok. Qed.

Lemma boot_registers o (reg : Z → Z) : 0 ≤ o < 268435456 →
  reg 499 = u8 o → reg 500 = u8 (Z.shiftr o 8) → reg 501 = u8 (Z.shiftr o 16) → reg 502 = u8 (Z.lor (Z.shiftr o 24) 224) →
  lba_of reg = o ∧ drive_of reg = 0.
Proof.
  intros Ho R1 R2 R3 R4. unfold lba_of, drive_of. rewrite R1, R2, R3, R4. rewrite !Z.shiftr_div_pow2 by lia.
  set (k := o / 2 ^ 24). assert (Hk : 0 ≤ k < 16) by (unfold k; Z.to_euclidean_division_equations; lia).
  assert (A : Z.land (u8 (Z.lor k 224)) 15 = k ∧ Z.land (u8 (Z.lor k 224) / 2 ^ 4) 1 = 0).
  { assert (B : forallb (λ k, (Z.land (u8 (Z.lor k 224)) 15 =? k) && (Z.land (u8 (Z.lor k 224) / 2 ^ 4) 1 =? 0)) (seqZ 0 16) = true) by (vm_compute; reflexivity).
    rewrite forallb_forall in B. specialize (B k). rewrite andb_true_iff, !Z.eqb_eq in B. apply B.
    apply list_elem_of_In, elem_of_seqZ. lia. }
  destruct A as [-> ->]. split; [|done]. unfold k, u8. clear. Z.to_euclidean_division_equations. lia.
Qed.

(** The controller once the registers have been written, and given the
    command. *)
Definition asked (o : Z) (d : D) : D :=
  dev_outb 503 32 (dev_outb 502 (u8 (Z.lor (Z.shiftr o 24) 224)) (dev_outb 501 (u8 (Z.shiftr o 16))
    (dev_outb 500 (u8 (Z.shiftr o 8)) (dev_outb 499 (u8 o) (dev_outb 498 (u8 1) d))))).

Lemma asked_ok o d : 0 ≤ o < 268435456 → dev_phase d = Idle →
  dev_sector (asked o d) = dev_sector d ∧ dev_phase (asked o d) = Reading 0 o.
Proof.
  intros Ho Hp. unfold asked. set (d' := dev_outb 502 _ _).
  assert (K : dev_sector d' = dev_sector d ∧ dev_phase d' = dev_phase d).
  { unfold d'. repeat match goal with |- context [dev_sector (dev_outb ?p ?v ?x)] =>
      destruct (outb_keeps x p v ltac:(lia)) as (-> & -> & _) end. done. }
  destruct K as [Ks Kp]. split; [by rewrite (proj1 (outb_command d' 32))|].
  destruct (boot_registers o (dev_reg d')) as [El Ed]; [done|..].
  1-4: unfold d'; rewrite !outb_reg by lia; rewrite ?fn_lookup_insert_ne by lia; by rewrite fn_lookup_insert.
  change 32 with IDE_CMD_READ. rewrite (outb_read d'); [by rewrite El, Ed|congruence|].
  unfold d'. rewrite !outb_reg by lia. rewrite !fn_lookup_insert_ne by lia. by rewrite fn_lookup_insert.
Qed.

(** The memory after a sector of the file has been read. *)
Lemma readsect_ok dst o env s : disk_ready (b_disk s) → 0 ≤ o < 268435456 →
  ∃ s', readsect dst o env s = Done tt s' env ∧ disk_ready (b_disk s') ∧ dev_sector (b_disk s') = dev_sector (b_disk s) ∧
    ∀ x, b_mem s' x = if in_area dst SECTSIZE x then dev_sector (b_disk s) 0 o !!! Z.to_nat (x - dst) else b_mem s x.
Proof.
  intros [Hi Hl] Ho. unfold readsect. destruct (waitdisk_ok env s) as (d & E & [_ Hs Hp _]). run E. unfold outb.
  rewrite !bind_modify. change (u8 32) with 32.
  change (s <| b_disk := d |> <| b_disk ::= _ |> <| b_disk ::= _ |> <| b_disk ::= _ |> <| b_disk ::= _ |> <| b_disk ::= _ |> <| b_disk ::= _ |>)
    with (s <| b_disk := asked o d |>).
  destruct (asked_ok o d Ho ltac:(congruence)) as [As Ap].
  destruct (waitdisk_ok env (s <| b_disk := asked o d |>)) as (d2 & E2 & [_ Hs2 Hp2 _]). run E2.
  change (b_disk (s <| b_disk := asked o d |>)) with (asked o d) in *.
  destruct (insl_reads d2 0 o) as (I1 & I2 & I3 & _); [congruence|].
  unfold insl. change (b_disk (_ <| b_disk := d2 |>)) with d2. destruct (dev_insl d2) as [l d3]. cbn [fst snd] in *.
  eexists. split; [reflexivity|]. cbn [b_disk b_mem]. subst l. assert (Es : dev_sector d2 = dev_sector (b_disk s)) by congruence.
  rewrite I3, Es. split; [split; [done|]|split; [done|]].
  - intros k n. by rewrite I3, Es, Hl.
  - intros x. by rewrite Hl.
Qed.

(** ** Reading segments *)
Definition loaded (f m m' : mem) (a n delta : Z) : Prop := ∀ x, m' x = if in_area a n x then f (x + delta) else m x.

Lemma readseg_from_ok n : ∀ pa epa o env s, disk_ready (b_disk s) →
  0 ≤ pa → 0 < o → o + Z.of_nat n < 268435456 → pa + SECTSIZE * Z.of_nat n < 4294967296 →
  epa ≤ pa + SECTSIZE * Z.of_nat n < epa + SECTSIZE →
  ∃ s', readseg_from n pa epa o env s = Done tt s' env ∧ disk_ready (b_disk s') ∧ dev_sector (b_disk s') = dev_sector (b_disk s) ∧
    loaded (kernel_file (b_disk s)) (b_mem s) (b_mem s') pa (SECTSIZE * Z.of_nat n) (SECTSIZE * (o - 1) - pa).
Proof.
  assert (S5 : SECTSIZE = 512) by done. induction n as [|n IH]; intros pa epa o env s Hd H0 Ho Ho' Hp He.
  - exists s. cbn [readseg_from]. rewrite (proj2 (Z.ltb_ge _ _)) by lia. split; [done|]. split; [done|]. split; [done|].
    intros x. area; [lia|done].
  - cbn [readseg_from]. rewrite (proj2 (Z.ltb_lt _ _)) by lia.
    destruct (readsect_ok pa o env s Hd ltac:(lia)) as (s1 & E1 & D1 & S1 & M1). run E1.
    rewrite !u32_small by (unfold is_u32; lia).
    destruct (IH (pa + SECTSIZE) epa (o + 1) env s1) as (s2 & E2 & D2 & S2 & M2); [done|lia..|].
    exists s2. split; [done|]. split; [done|]. split; [congruence|].
    intros x. rewrite M2, M1. unfold kernel_file. rewrite S1.
    replace (SECTSIZE * (o + 1 - 1) - (pa + SECTSIZE)) with (SECTSIZE * (o - 1) - pa) by lia. area; try lia; try done.
    + replace ((x + (SECTSIZE * (o - 1) - pa)) / SECTSIZE + 1) with o
        by (rewrite S5 in *; Z.to_euclidean_division_equations; lia).
      replace ((x + (SECTSIZE * (o - 1) - pa)) `mod` SECTSIZE) with (x - pa); [done|].
      rewrite S5 in *. Z.to_euclidean_division_equations. lia.
Qed.

(** The area a segment is read into: from the sector boundary on. *)
Definition seg_start (pa off : Z) : Z := pa - off `mod` SECTSIZE.
Definition seg_size (count off : Z) : Z := SECTSIZE * ((count + off `mod` SECTSIZE + SECTSIZE - 1) / SECTSIZE).

Lemma readseg_ok pa count off env s : disk_ready (b_disk s) → 0 ≤ off < 4294967296 → 0 ≤ count →
  0 ≤ seg_start pa off → seg_start pa off + seg_size count off < 4294967296 →
  ∃ s', readseg pa count off env s = Done tt s' env ∧ disk_ready (b_disk s') ∧ dev_sector (b_disk s') = dev_sector (b_disk s) ∧
    loaded (kernel_file (b_disk s)) (b_mem s) (b_mem s') (seg_start pa off) (seg_size count off) (off - pa).
Proof.
  unfold seg_start, seg_size. intros Hd Ho Hc Hs Hz. assert (S5 : SECTSIZE = 512) by done. unfold readseg.
  pose proof (Z.mod_pos_bound off SECTSIZE ltac:(lia)) as Hm. pose proof (Z.div_mod off SECTSIZE ltac:(lia)) as Hdm.
  set (k := (count + off `mod` SECTSIZE + SECTSIZE - 1) / SECTSIZE) in *.
  assert (Hk : SECTSIZE * k < count + off `mod` SECTSIZE + SECTSIZE ∧ count + off `mod` SECTSIZE ≤ SECTSIZE * k ∧ 0 ≤ k).
  { unfold k. rewrite S5 in *. Z.to_euclidean_division_equations. lia. }
  assert (Hdiv : 0 ≤ off / SECTSIZE < 8388608) by (rewrite S5 in *; Z.to_euclidean_division_equations; lia).
  clearbody k. rewrite (u32_small (pa + count)), (u32_small (pa - off `mod` SECTSIZE)), (u32_small (off / SECTSIZE + 1))
    by (unfold is_u32; lia).
  replace (Z.to_nat _) with (Z.to_nat k).
  2: { f_equal. rewrite S5 in *. Z.to_euclidean_division_equations. lia. }
  destruct (readseg_from_ok (Z.to_nat k) (pa - off `mod` SECTSIZE) (pa + count) (off / SECTSIZE + 1) env s)
    as (s' & E & D' & S' & M'); rewrite ?Z2Nat.id in * by lia; try done; try lia.
  exists s'. split; [done|]. split; [done|]. split; [done|]. intros x. rewrite M'. area; [f_equal; lia|done].
Qed.

(** ** The kernel's segments *)
Definition phdr (f : mem) (i : Z) : Z := elf_phoff f 0 + 32 * i.

(** A kernel the loader can load: its headers are in the first page, its
    segments above the scratch space, in increasing order, so that the
    sectors read for one do not cover an earlier one. *)
Record kernel_ok (f : mem) : Prop := {
  ko_bytes x : is_byte (f x);
  ko_headers : elf_phoff f 0 + 32 * elf_phnum f 0 ≤ 4096;
  ko_above i : 0 ≤ i < elf_phnum f 0 → scratch + 4096 ≤ seg_start (ph_paddr f (phdr f i)) (ph_off f (phdr f i));
  ko_fits i : 0 ≤ i < elf_phnum f 0 →
    seg_start (ph_paddr f (phdr f i)) (ph_off f (phdr f i)) + seg_size (ph_filesz f (phdr f i)) (ph_off f (phdr f i)) < 4294967296 ∧
    ph_paddr f (phdr f i) + ph_memsz f (phdr f i) < 4294967296;
  ko_order i j : 0 ≤ i < j → j < elf_phnum f 0 →
    ph_paddr f (phdr f i) + Z.max (ph_filesz f (phdr f i)) (ph_memsz f (phdr f i)) ≤
      seg_start (ph_paddr f (phdr f j)) (ph_off f (phdr f j)) }.

(** Segment [i] is in memory. *)
Definition in_place (f m : mem) (i : Z) : Prop :=
  ∀ k, 0 ≤ k < Z.max (ph_filesz f (phdr f i)) (ph_memsz f (phdr f i)) →
    m (ph_paddr f (phdr f i) + k) = if k <? ph_filesz f (phdr f i) then f (ph_off f (phdr f i) + k) else 0.
(** The first page of the file is in the scratch space. *)
Definition headed (f m : mem) : Prop := ∀ x, 0 ≤ x < 4096 → m (scratch + x) = f x.

Lemma headed_ld4 f m a : headed f m → 0 ≤ a → a + 4 ≤ 4096 → ld4 m (scratch + a) = ld4 f a.
Proof. intros H H0 H1. unfold ld4. rewrite <-!Z.add_assoc, !H by lia. done. Qed.
Lemma headed_ph f m a : headed f m → 0 ≤ a → a + 32 ≤ 4096 →
  ph_off m (scratch + a) = ph_off f a ∧ ph_paddr m (scratch + a) = ph_paddr f a ∧
  ph_filesz m (scratch + a) = ph_filesz f a ∧ ph_memsz m (scratch + a) = ph_memsz f a.
Proof. intros H H0 H1. unfold ph_off, ph_paddr, ph_filesz, ph_memsz. rewrite <-!Z.add_assoc, !(headed_ld4 f m) by (done || lia). done. Qed.
Lemma ld4_u32 f a : (∀ x, is_byte (f x)) → is_u32 (ld4 f a).
Proof.
  intros H. unfold ld4, is_u32. pose proof (H a). pose proof (H (a + 1)). pose proof (H (a + 2)). pose proof (H (a + 3)).
  unfold is_byte in *. lia.
Qed.

(** The sectors of a segment cover its bytes. *)
Lemma seg_covers pa count off : 0 ≤ off → 0 ≤ count → seg_start pa off ≤ pa ∧ pa + count ≤ seg_start pa off + seg_size count off ∧
  (0 < count → 0 < seg_size count off).
Proof. unfold seg_start, seg_size. change SECTSIZE with 512. intros. Z.to_euclidean_division_equations. lia. Qed.

(** One round of the loop. *)
Lemma load_segment n i env s (f := kernel_file (b_disk s)) : disk_ready (b_disk s) → kernel_ok f → headed f (b_mem s) →
  0 ≤ i < elf_phnum f 0 → (∀ j, 0 ≤ j < i → in_place f (b_mem s) j) →
  ∃ s', load_segments (S n) (scratch + phdr f i) env s = load_segments n (scratch + phdr f (i + 1)) env s' ∧
    disk_ready (b_disk s') ∧ dev_sector (b_disk s') = dev_sector (b_disk s) ∧ headed f (b_mem s') ∧
    ∀ j, 0 ≤ j < i + 1 → in_place f (b_mem s') j.
Proof.
  intros Hd [K1 K2 K3 K4 K5] Hh Hi Hin. destruct (K4 i Hi) as [K4a K4b]. pose proof (K3 i Hi) as K3i.
  assert (Hph : 0 ≤ phdr f i ∧ phdr f i + 32 ≤ 4096).
  { unfold phdr. pose proof (ld4_u32 f (0 + 28) K1). fold (elf_phoff f 0) in *. unfold is_u32 in *. lia. }
  destruct Hph as [Hp0 Hp1]. destruct (headed_ph f (b_mem s) (phdr f i) Hh Hp0 Hp1) as (E1 & E2 & E3 & E4).
  pose proof (ld4_u32 f (phdr f i + 4) K1) as U1. fold (ph_off f (phdr f i)) in U1.
  pose proof (ld4_u32 f (phdr f i + 16) K1) as U2. fold (ph_filesz f (phdr f i)) in U2.
  pose proof (ld4_u32 f (phdr f i + 20) K1) as U3. fold (ph_memsz f (phdr f i)) in U3.
  assert (K5' : ∀ j, 0 ≤ j < i → ph_paddr f (phdr f j) + Z.max (ph_filesz f (phdr f j)) (ph_memsz f (phdr f j)) ≤
    seg_start (ph_paddr f (phdr f i)) (ph_off f (phdr f i))) by (intros j Hj; apply K5; lia).
  set (pa := ph_paddr f (phdr f i)) in *. set (off := ph_off f (phdr f i)) in *. set (fsz := ph_filesz f (phdr f i)) in *.
  set (msz := ph_memsz f (phdr f i)) in *.
  destruct (seg_covers pa fsz off ltac:(apply U1) ltac:(apply U2)) as (C1 & C2 & C3). unfold is_u32 in *.
  cbn [load_segments]. rewrite bind_gets, E1, E2, E3.
  destruct (readseg_ok pa fsz off env s) as (s1 & R & D1 & S1 & M1); [done|lia|lia|unfold scratch in *; lia|lia|].
  fold f in M1. run R. rewrite bind_gets.
  assert (Hh1 : headed f (b_mem s1)) by (intros x Hx; rewrite M1; area; [unfold scratch in *; lia|by apply Hh]).
  destruct (headed_ph f (b_mem s1) (phdr f i) Hh1 Hp0 Hp1) as (_ & _ & E3' & E4'). rewrite E3', E4'. fold fsz msz.
  set (m2 := if fsz <? msz then KString.stosb (b_mem s1) (pa + fsz) 0 (Z.to_nat (msz - fsz)) else b_mem s1).
  assert (M2 : ∀ x, m2 x = if (fsz <? msz) && in_area (pa + fsz) (msz - fsz) x then 0 else b_mem s1 x).
  { intros x. unfold m2. destruct (Z.ltb_spec fsz msz); [|done]. rewrite stosb_spec, Z2Nat.id by lia. done. }
  exists (s1 <| b_mem := m2 |>). split; [|split; [done|split; [done|split]]].
  - replace (scratch + phdr f i + 32) with (scratch + phdr f (i + 1)) by (unfold phdr; lia). unfold m2.
    destruct (Z.ltb_spec fsz msz); cbn [when]; [|by rewrite bind_ret; destruct s1]. rewrite bind_modify.
    by rewrite u32_small by (unfold is_u32, scratch in *; lia).
  - intros x Hx. change (b_mem (s1 <| b_mem := m2 |>)) with m2. rewrite M2.
    destruct (_ && _) eqn:B; [|by apply Hh1]. apply andb_true_iff in B as [_ B]. apply in_area_true in B.
    unfold scratch in *. lia.
  - intros j Hj. change (b_mem (s1 <| b_mem := m2 |>)) with m2. destruct (decide (j = i)) as [->|Hne].
    + intros k Hk. fold fsz msz pa off. fold fsz msz in Hk. rewrite M2, M1. destruct (Z.ltb_spec k fsz).
      * destruct (Z.ltb_spec fsz msz); cbn [andb]; area; try lia; f_equal; lia.
      * destruct (Z.ltb_spec fsz msz); cbn [andb]; area; try lia; done.
    + intros k Hk. pose proof (K5' j ltac:(lia)). rewrite M2, M1. rewrite <-(Hin j ltac:(lia) k Hk).
      destruct (Z.ltb_spec fsz msz); cbn [andb]; area; try lia; done.
Qed.

Lemma load_segments_ok n : ∀ i env s (f := kernel_file (b_disk s)), disk_ready (b_disk s) → kernel_ok f → headed f (b_mem s) →
  0 ≤ i → i + Z.of_nat n = elf_phnum f 0 → (∀ j, 0 ≤ j < i → in_place f (b_mem s) j) →
  ∃ s', load_segments n (scratch + phdr f i) env s = Done tt s' env ∧ headed f (b_mem s') ∧
    ∀ j, 0 ≤ j < elf_phnum f 0 → in_place f (b_mem s') j.
Proof.
  induction n as [|n IH]; intros i env s f Hd Hk Hh Hi Hn Hin.
  - exists s. split; [done|]. split; [done|]. intros j Hj. apply Hin. lia.
  - destruct (load_segment n i env s) as (s1 & E & D1 & S1 & H1 & I1); [done..|fold f; lia|done|]. fold f in E, H1, I1. rewrite E.
    assert (Ef : kernel_file (b_disk s1) = f) by (unfold f, kernel_file; by rewrite S1).
    destruct (IH (i + 1) env s1) as (s2 & E2 & H2 & I2); rewrite ?Ef in *; [done..|lia|lia|done|]. by exists s2.
Qed.

(** C32. The loader, started with a disk that holds an ELF kernel from sector
    1 on, ends: it jumps to the kernel's entry point with every segment at
    its physical address, byte for byte what the file has, followed by the
    zeroes its memory size asks for.  Without the ELF magic number it
    returns. *)
Theorem bootmain_loads env s (f := kernel_file (b_disk s)) :
  disk_ready (b_disk s) → kernel_ok f →
  ∃ s', if elf_magic f 0 =? ELF_MAGIC
        then bootmain env s = Done (Some (elf_entry f 0)) s' env ∧ ∀ i, 0 ≤ i < elf_phnum f 0 → in_place f (b_mem s') i
        else bootmain env s = Done None s' env.
Proof.
  intros Hd Hk. unfold bootmain.
  destruct (readseg_ok scratch 4096 0 env s Hd) as (s1 & R & D1 & S1 & M1); [lia|lia|done|done|]. run R. rewrite bind_gets.
  change (seg_start scratch 0) with scratch in M1. change (seg_size 4096 0) with 4096 in M1. fold f in M1.
  assert (Hh : headed f (b_mem s1)).
  { intros x Hx. rewrite M1. area; [f_equal; lia|lia]. }
  assert (Ef : kernel_file (b_disk s1) = f) by (unfold f, kernel_file; by rewrite S1).
  assert (Eh : elf_magic (b_mem s1) scratch = elf_magic f 0) by (apply (headed_ld4 f (b_mem s1) 0 Hh); lia).
  rewrite Eh. destruct (elf_magic f 0 =? ELF_MAGIC); cbn [negb]; [|by exists s1].
  assert (En : elf_phnum (b_mem s1) scratch = elf_phnum f 0).
  { unfold elf_phnum, ld2. rewrite <-!Z.add_assoc, !Hh by lia. done. }
  assert (Eo : elf_phoff (b_mem s1) scratch = elf_phoff f 0) by (apply (headed_ld4 f (b_mem s1) 28 Hh); lia).
  pose proof Hk as [K1 K2 _ _ _]. pose proof (ld4_u32 f (0 + 28) K1) as U. fold (elf_phoff f 0) in U.
  assert (Hn : 0 ≤ elf_phnum f 0).
  { unfold elf_phnum, ld2. pose proof (K1 (0 + 44)). pose proof (K1 (0 + 44 + 1)). unfold is_byte in *. lia. }
  rewrite En, Eo, u32_small by (unfold is_u32, scratch in *; lia).
  destruct (load_segments_ok (Z.to_nat (elf_phnum f 0)) 0 env s1) as (s2 & E2 & H2 & I2); rewrite ?Ef; [done|done|done|lia|lia|lia|].
  rewrite Ef in *. unfold phdr in E2 at 1. rewrite Z.mul_0_r, Z.add_0_r in E2. run E2. rewrite bind_gets.
  exists s2. split; [|done]. unfold ret. f_equal. f_equal. apply (headed_ld4 f (b_mem s2) 24 H2); lia.
Qed.
End boot.

(** A kernel of one segment: 100 bytes from sector 2, at 1 MB, and as many
    zeroes. *)
Definition one_segment : list Z :=
  [127; 69; 76; 70; 1; 1; 1; 0; 0; 0; 0; 0; 0; 0; 0; 0; 2; 0; 3; 0; 1; 0; 0; 0; 12; 0; 16; 0; 52; 0; 0; 0; 0; 0; 0; 0; 0; 0; 0; 0; 52; 0; 32; 0; 1; 0; 0; 0; 0; 0; 0; 0; 1; 0; 0; 0; 0; 2; 0; 0; 0; 0; 16; 128; 0; 0; 16; 0; 100; 0; 0; 0; 200; 0; 0; 0; 5; 0; 0; 0; 0; 16; 0; 0].
Definition kernel_disk : drive :=
  Drive (λ _, 0) (λ _ n, if n =? 1 then one_segment ++ replicate 428 0 else if n =? 2 then replicate 512 9 else replicate 512 0) Idle 2.

Lemma kernel_disk_ready : disk_ready kernel_disk.
Proof. split; [done|]. intros k n. cbn. by destruct (n =? 1), (n =? 2). Qed.
Lemma kernel_disk_ok : kernel_ok (kernel_file kernel_disk).
Proof.
  assert (B : Forall is_byte (one_segment ++ replicate 428 0)).
  { apply Forall_app. split; [|apply Forall_replicate; split; lia]. repeat constructor; lia. }
  assert (N : elf_phnum (kernel_file kernel_disk) 0 = 1) by (vm_compute; reflexivity).
  assert (R : ∀ c, is_byte c → Forall is_byte (replicate 512 c)) by (intros; by apply Forall_replicate).
  split.
  - intros x. assert (F : Forall is_byte (dev_sector kernel_disk 0 (x / SECTSIZE + 1)) ∧
      length (dev_sector kernel_disk 0 (x / SECTSIZE + 1)) = 512%nat).
    { split; [|apply kernel_disk_ready]. cbn. destruct (_ =? 1); [done|]. destruct (_ =? 2); apply R; split; lia. }
    destruct F as [F Hl]. unfold kernel_file. rewrite Forall_forall in F. apply F, list_elem_of_lookup_total_2.
    rewrite Hl. pose proof (Z.mod_pos_bound x SECTSIZE ltac:(done)). change SECTSIZE with 512 in *. lia.
  - vm_compute. discriminate.
  - intros i Hi. rewrite N in Hi. replace i with 0 by lia. vm_compute. discriminate.
  - intros i Hi. rewrite N in Hi. replace i with 0 by lia. split; vm_compute; reflexivity.
  - intros i j Hi Hj. lia.
Qed.

Lemma bootmain_loads_witness :
  ∃ s', bootmain [] (BState (λ _, 5) kernel_disk) = Done (Some 1048588) s' [] ∧ b_mem s' 1048675 = 9 ∧ b_mem s' 1048676 = 0.
Proof.
  destruct (bootmain_loads [] (BState (λ _, 5) kernel_disk)) as (s' & H).
  - exact kernel_disk_ready.
  - exact kernel_disk_ok.
  - exists s'. change (b_disk (BState (λ _, 5) kernel_disk)) with kernel_disk in H.
    assert (elf_magic (kernel_file kernel_disk) 0 =? ELF_MAGIC = true) as E by (vm_compute; reflexivity). rewrite E in H.
    destruct H as [H P]. split; [exact H|].
    assert (N : elf_phnum (kernel_file kernel_disk) 0 = 1) by (vm_compute; reflexivity).
    specialize (P 0 ltac:(lia)). split.
    + apply (P 99). split; [lia|vm_compute; reflexivity].
    + apply (P 100). split; [lia|vm_compute; reflexivity].
Defined.
