(* ===== verification/Umalloc.v ===== *)
(** * The user-level allocator (umalloc.c)

    Kernighan and Ritchie's [malloc] and [free] on the memory of a process,
    a function from addresses to bytes.  A [Header] is two words, [ptr] at
    its address and [size] (in headers, itself included) four bytes on.  The
    free blocks form a circular list in the order of their addresses, which
    starts at the static [base].  The result of each [sbrk] (granted or not)
    comes from a list.

    The result: over any sequence of calls of a client that stays inside its
    blocks and frees each one once, the free list stays well formed, every
    block [malloc] returns is as large as asked for and apart from all
    others, no call touches the contents of a block in use, and all memory
    obtained from [sbrk] is either free or in use. *)
From S2P Require Import Prelude State CString Kalloc.

Definition HDR : Z := 8.        (* sizeof(Header) *)
Definition h_ptr (m : mem) (p : Z) : Z := ld4 m p.
Definition h_size (m : mem) (p : Z) : Z := ld4 m (p + 4).
Definition set_ptr (p v : Z) (m : mem) : mem := KString.store4 m p v.
Definition set_size (p v : Z) (m : mem) : mem := KString.store4 m (p + 4) v.

Record heap := Heap { u_mem : mem; freep : Z; u_brk : Z; u_grants : list bool }.
#[global] Instance eta_heap : Eta heap := λ r, Heap (u_mem r) (freep r) (u_brk r) (u_grants r).

(** [sbrk]: the old end of memory, or -1.  Growing is refused at [KERNBASE],
    or for lack of memory, as the list says. *)
Definition sbrk (n : Z) (h : heap) : Z * heap :=
  let new := u32 (u_brk h + n) in
  if 0 <? n then
    if KERNBASE <=? new then (-1, h)
    else if new <? u_brk h then (u_brk h, h)
    else match u_grants h with
         | true :: g => (u_brk h, h <| u_brk := new |> <| u_grants := g |>)
         | false :: g => (-1, h <| u_grants := g |>)
         | [] => (-1, h)
         end
  else if n <? 0 then
    if u_brk h <=? new then (u_brk h, h)
    else if new =? 0 then (-1, h) else (u_brk h, h <| u_brk := new |>)
  else (u_brk h, h).

(** Rounds for the loops: there are no more blocks than headers below the end
    of memory. *)
Definition rounds (h : heap) : nat := Z.to_nat (u_brk h / HDR).

(** The loop of [free]: the free block after which [bp] belongs. *)
Fixpoint free_place (n : nat) (m : mem) (bp p : Z) : option Z :=
  let q := h_ptr m p in
  if (p <? bp) && (bp <? q) then Some p
  else if (q <=? p) && ((p <? bp) || (bp <? q)) then Some p
  else match n with O => None | S n => free_place n m bp q end.

(** Joining [bp] to the block after it, and to the one before it. *)
Definition join_next (m : mem) (bp p : Z) : mem :=
  if u32 (bp + HDR * h_size m bp) =? h_ptr m p then
    let m := set_size bp (u32 (h_size m bp + h_size m (h_ptr m p))) m in
    set_ptr bp (h_ptr m (h_ptr m p)) m
  else set_ptr bp (h_ptr m p) m.
Definition join_prev (m : mem) (bp p : Z) : mem :=
  if u32 (p + HDR * h_size m p) =? bp then
    let m := set_size p (u32 (h_size m p + h_size m bp)) m in
    set_ptr p (h_ptr m bp) m
  else set_ptr p bp m.

Definition free (ap : Z) (h : heap) : option heap :=
  let bp := u32 (ap - HDR) in
  p ← free_place (rounds h) (u_mem h) bp (freep h);
  Some (h <| u_mem ::= λ m, join_prev (join_next m bp p) bp p |> <| freep := p |>).

Definition morecore (nu : Z) (h : heap) : option (Z * heap) :=
  let nu := if nu <? 4096 then 4096 else nu in
  let '(p, h) := sbrk (s32 (u32 (nu * HDR))) h in
  if p =? -1 then Some (0, h) else
  h ← free (u32 (p + HDR)) (h <| u_mem ::= set_size p nu |>);
  Some (freep h, h).

(** The search of [malloc] from [p] to [freep]: the block found and the one
    before it, [inr] when [freep] is reached. *)
Fixpoint malloc_scan (n : nat) (m : mem) (stop nunits prevp p : Z) : option (Z * Z + unit) :=
  if nunits <=? h_size m p then Some (inl (prevp, p))
  else if p =? stop then Some (inr tt)
  else match n with O => None | S n => malloc_scan n m stop nunits p (h_ptr m p) end.

Definition malloc_take (m : mem) (nunits prevp p : Z) : Z * mem :=
  if h_size m p =? nunits then (p, set_ptr prevp (h_ptr m p) m)
  else
    let m := set_size p (u32 (h_size m p - nunits)) m in
    let p := u32 (p + HDR * h_size m p) in
    (p, set_size p nunits m).

(** The loop of [malloc]; [calls] bounds the calls of [morecore]. *)
Fixpoint malloc_loop (calls : nat) (nunits prevp : Z) (h : heap) : option (Z * heap) :=
  r ← malloc_scan (rounds h) (u_mem h) (freep h) nunits prevp (h_ptr (u_mem h) prevp);
  match r with
  | inl (prevp, p) =>
      let '(p, m) := malloc_take (u_mem h) nunits prevp p in
      Some (u32 (p + HDR), h <| u_mem := m |> <| freep := prevp |>)
  | inr _ =>
      match calls with
      | O => None
      | S calls =>
          '(p, h) ← morecore nunits h;
          if p =? 0 then Some (0, h) else malloc_loop calls nunits p h
      end
  end.

Definition units (nbytes : Z) : Z := u32 (u32 (nbytes + HDR - 1) / HDR + 1).

Definition malloc (base nbytes : Z) (h : heap) : option (Z * heap) :=
  let nunits := units nbytes in
  let h := if freep h =? 0 then
             h <| u_mem ::= λ m, set_size base 0 (set_ptr base base m) |> <| freep := base |>
           else h in
  malloc_loop 1 nunits (freep h) h.

(** ** Headers in memory *)

(** The bytes [p, p+8) are not those of another header at [q]. *)
Definition far (p q : Z) : Prop := p + HDR ≤ q ∨ q + HDR ≤ p.

Lemma set_ptr_other p v m x : x < p ∨ p + HDR ≤ x → set_ptr p v m x = m x.
Proof. unfold HDR. intros H. apply store4_other. lia. Qed.
Lemma set_size_other p v m x : x < p ∨ p + HDR ≤ x → set_size p v m x = m x.
Proof. unfold HDR. intros H. apply store4_other. lia. Qed.
Lemma ptr_set_ptr p v m : is_u32 v → h_ptr (set_ptr p v m) p = v.
Proof. apply ld4_store4. Qed.
Lemma size_set_size p v m : is_u32 v → h_size (set_size p v m) p = v.
Proof. apply ld4_store4. Qed.
Lemma size_set_ptr p v m : h_size (set_ptr p v m) p = h_size m p.
Proof. apply ld4_ext. intros x Hx. apply store4_other. lia. Qed.
Lemma ptr_set_size p v m : h_ptr (set_size p v m) p = h_ptr m p.
Proof. apply ld4_ext. intros x Hx. apply store4_other. lia. Qed.

(** Two memories with the same header at [p]. *)
Definition same_hdr (m m' : mem) (p : Z) : Prop := h_ptr m' p = h_ptr m p ∧ h_size m' p = h_size m p.
(** Memories that differ in the headers at [ps] only. *)
Definition differ (ps : list Z) (m m' : mem) : Prop := ∀ x, (∀ p, p ∈ ps → x < p ∨ p + HDR ≤ x) → m' x = m x.

Lemma differ_hdr ps m m' q : differ ps m m' → (∀ p, p ∈ ps → far p q) → same_hdr m m' q.
Proof.
  intros H Hf. unfold far, HDR in Hf. split; apply ld4_ext; intros x Hx; apply H; intros p Hp; specialize (Hf p Hp); unfold HDR; lia.
Qed.
Lemma differ_set_ptr p v m : differ [p] m (set_ptr p v m).
Proof. intros x H. apply set_ptr_other, H. left. Qed.
Lemma differ_set_size p v m : differ [p] m (set_size p v m).
Proof. intros x H. apply set_size_other, H. left. Qed.
Lemma differ_trans ps qs m m' m'' : differ ps m m' → differ qs m' m'' → differ (ps ++ qs) m m''.
Proof. intros H1 H2 x H. rewrite H2 by set_solver. apply H1. set_solver. Qed.
Lemma differ_sub ps qs m m' : differ ps m m' → ps ⊆ qs → differ qs m m'.
Proof. intros H Hs x Hx. apply H. set_solver. Qed.

(** ** Blocks *)

(** A block is an address and a size in headers; [base] has size 0 but its
    header is there. *)
Definition hi (b : Z * Z) : Z := b.1 + HDR * Z.max 1 b.2.
Definition disj (x y : Z * Z) : Prop := hi x ≤ y.1 ∨ hi y ≤ x.1.
Fixpoint apart (l : list (Z * Z)) : Prop :=
  match l with
  | [] => True
  | x :: l => Forall (disj x) l ∧ apart l
  end.
#[global] Instance disj_sym : Symmetric disj.
Proof. unfold disj. intros x y. tauto. Qed.

#[global] Instance apart_perm : Proper ((≡ₚ) ==> iff) apart.
Proof.
  assert (H : ∀ l l', l ≡ₚ l' → apart l → apart l').
  { induction 1 as [|x l l' Hp IH|x y l|l l' l'' _ IH1 _ IH2]; simpl.
    - done.
    - intros [H1 H2]. split; [by rewrite <-Hp|auto].
    - rewrite !Forall_cons. intros ([H1 H2] & H3 & H4). split_and!; [by symmetry|done|done|done].
    - auto. }
  intros l l' Hp. split; by apply H.
Qed.

Lemma apart_app l l' : apart (l ++ l') ↔ apart l ∧ apart l' ∧ ∀ x y, x ∈ l → y ∈ l' → disj x y.
Proof.
  induction l as [|z l IH]; simpl.
  - split; [|tauto]. intros H. split_and!; [done|done|]. intros x y Hx. by apply not_elem_of_nil in Hx.
  - rewrite IH, Forall_app, !Forall_forall. set_solver.
Qed.

(** Splitting and joining adjacent blocks. *)
Lemma disj_split a s t y : 0 < s → 0 < t → disj (a, s + t) y ↔ disj (a, s) y ∧ disj (a + HDR * s, t) y.
Proof. unfold disj, hi, HDR. cbn [fst snd]. lia. Qed.
Lemma apart_split a s t l : 0 < s → 0 < t → apart ((a, s + t) :: l) ↔ apart ((a, s) :: (a + HDR * s, t) :: l).
Proof.
  intros Hs Ht. simpl. rewrite Forall_cons, !Forall_forall. setoid_rewrite (disj_split a s t); [|done|done]. split.
  - intros [H1 H2]. split_and!; [|naive_solver..]. left. unfold hi, HDR. cbn [fst snd]. lia.
  - intros [[H1 H2] [H3 H4]]. split; [|done]. intros x Hx. split; auto.
Qed.

(** ** The free list *)

(** The first address of [F], or [e]. *)
Definition first (F : list (Z * Z)) (e : Z) : Z := match F with [] => e | b :: _ => b.1 end.
(** The blocks of [F] are linked in memory, the last one to [e]. *)
Fixpoint seg (m : mem) (F : list (Z * Z)) (e : Z) : Prop :=
  match F with
  | [] => True
  | b :: F => h_ptr m b.1 = first F e ∧ h_size m b.1 = b.2 ∧ seg m F e
  end.
(** Their addresses ascend. *)
Fixpoint asc (F : list (Z * Z)) : Prop :=
  match F with
  | [] => True
  | b :: F => Forall (λ c, b.1 < c.1) F ∧ asc F
  end.

Lemma first_app F G e : first (F ++ G) e = first F (first G e).
Proof. by destruct F. Qed.
Lemma seg_app m F G e : seg m (F ++ G) e ↔ seg m F (first G e) ∧ seg m G e.
Proof. induction F as [|b F IH]; simpl; [tauto|]. rewrite IH, first_app. tauto. Qed.
Lemma asc_app F G : asc (F ++ G) ↔ asc F ∧ asc G ∧ ∀ x y, x ∈ F → y ∈ G → x.1 < y.1.
Proof.
  induction F as [|b F IH]; simpl.
  - split; [|tauto]. intros H. split_and!; [done|done|]. intros x y Hx. by apply not_elem_of_nil in Hx.
  - rewrite IH, Forall_app, !Forall_forall. set_solver.
Qed.
Lemma seg_frame m m' F e : (∀ b, b ∈ F → same_hdr m m' b.1) → seg m F e → seg m' F e.
Proof.
  induction F as [|b F IH]; simpl; [done|]. intros H (H1 & H2 & H3). destruct (H b ltac:(left)) as [E1 E2].
  split_and!; [congruence..|]. apply IH; [|done]. intros c Hc. apply H. by right.
Qed.

(** The blocks fit below the end of memory, so there are few of them. *)
Lemma few_blocks F lo e : asc F → apart F → (∀ b, b ∈ F → lo ≤ b.1 ∧ hi b ≤ e) → lo ≤ e → HDR * Z.of_nat (length F) ≤ e - lo.
Proof.
  revert lo. induction F as [|b F IH]; intros lo Ha Hp Hr Hlo; [simpl; lia|].
  destruct Ha as [Ha1 Ha2], Hp as [Hp1 Hp2]. rewrite Forall_forall in Ha1, Hp1.
  destruct (Hr b ltac:(left)) as [Hb1 Hb2].
  assert (HDR * Z.of_nat (length F) ≤ e - hi b).
  { apply IH; [done|done| |done]. intros c Hc. destruct (Hr c ltac:(by right)). specialize (Ha1 c Hc). specialize (Hp1 c Hc).
    unfold disj, hi, HDR in *. lia. }
  unfold hi, HDR in *. simpl length. lia.
Qed.

(** ** Finding the place of a block *)

(** The blocks before it. *)
Lemma place_forward n m bp p s F2 base Y :
  (∀ b, b ∈ Y ++ [(p, s)] → b.1 < bp) → asc (Y ++ (p, s) :: F2) → (∀ b, b ∈ F2 → bp < b.1) → base < bp →
  seg m (Y ++ (p, s) :: F2) base → base ≤ p → (length Y ≤ n)%nat →
  free_place n m bp (first (Y ++ [(p, s)]) base) = Some p.
Proof.
  revert n. induction Y as [|c Y IH]; intros n Hlt Ha Hgt Hb Hs Hf Hn.
  - cbn [app first fst] in *. destruct Hs as (Ep & _ & _). specialize (Hlt (p, s) ltac:(left)). cbn in Hlt, Ep, Hf.
    assert (E : free_place n m bp p = Some p).
    { assert (Hq : (p <? bp) && (bp <? h_ptr m p) = true ∨ (h_ptr m p <=? p) && ((p <? bp) || (bp <? h_ptr m p)) = true).
      { rewrite Ep. destruct F2 as [|q F2]; cbn [first].
        - right. rewrite (proj2 (Z.leb_le _ _)), (proj2 (Z.ltb_lt _ _)) by lia. done.
        - left. specialize (Hgt q ltac:(left)). rewrite !(proj2 (Z.ltb_lt _ _)) by lia. done. }
      destruct n; cbn [free_place]; destruct Hq as [->| ->]; try done; by destruct (_ && _). }
    exact E.
  - destruct n as [|n]; [simpl in Hn; lia|]. cbn [app first] in *. destruct Hs as (Ec & _ & Hs). destruct Ha as [Ha1 Ha2].
    rewrite Forall_forall in Ha1. rewrite first_app in Ec.
    assert (Eq : h_ptr m c.1 = first (Y ++ [(p, s)]) base) by (rewrite Ec, first_app; by destruct Y).
    assert (Hq : c.1 < first (Y ++ [(p, s)]) base < bp).
    { destruct Y as [|d Y]; cbn.
      - split; [apply (Ha1 (p, s)); set_solver|apply (Hlt (p, s)); set_solver].
      - split; [apply (Ha1 d); set_solver|apply (Hlt d); set_solver]. }
    cbn [free_place]. rewrite Eq. rewrite (proj2 (Z.ltb_ge bp _)), andb_false_r by lia.
    rewrite (proj2 (Z.leb_gt _ c.1)) by lia. cbn [andb]. apply IH; [|done|done|done|done|done|simpl in Hn; lia].
    intros b Hbin. apply Hlt. set_solver.
Qed.

(** The blocks after it: round to the start of the list. *)
Lemma place_around n m bp base X r : base < bp → (∀ b, b ∈ X → bp < b.1) → asc X → seg m X base →
  free_place n m bp base = Some r → X ≠ [] → free_place (length X + n) m bp (first X base) = Some r.
Proof.
  intros Hb. induction X as [|c X IH]; intros Hgt Ha Hs Hr Hne; [done|]. destruct Hs as (Ec & _ & Hs), Ha as [Ha1 Ha2].
  rewrite Forall_forall in Ha1. specialize (Hgt c ltac:(left)) as Hc. cbn [length Nat.add first free_place]. rewrite Ec.
  rewrite (proj2 (Z.ltb_ge c.1 bp)) by lia. cbn [andb orb]. destruct X as [|d X].
  - cbn [first] in *. rewrite (proj2 (Z.leb_le base c.1)), (proj2 (Z.ltb_ge bp base)) by lia. exact Hr.
  - cbn [first] in *. rewrite (proj2 (Z.leb_gt d.1 c.1)) by (apply (Ha1 d); left). cbn [andb].
    apply IH; [|done|done|done|done]. intros b Hbin. apply Hgt. by right.
Qed.

(** From anywhere in the list. *)
Lemma free_place_ok n m bp p s F1 F2 base c :
  (∀ b, b ∈ F1 ++ [(p, s)] → base ≤ b.1 < bp) → (∀ b, b ∈ F2 → bp < b.1) → first (F1 ++ [(p, s)]) base = base →
  asc (F1 ++ (p, s) :: F2) → seg m (F1 ++ (p, s) :: F2) base → c ∈ (F1 ++ (p, s) :: F2).*1 →
  (length (F1 ++ (p, s) :: F2) ≤ n)%nat → free_place n m bp c = Some p.
Proof.
  intros Hlt Hgt Hbase Ha Hs Hc Hn. rewrite length_app in Hn. simpl in Hn.
  assert (Hb : base < bp) by (pose proof (Hlt (p, s) ltac:(set_solver)); cbn in *; lia).
  assert (Hfwd : ∀ X Y k, F1 = X ++ Y → (length Y ≤ k)%nat → free_place k m bp (first (Y ++ [(p, s)]) base) = Some p).
  { intros X Y k E Hk. subst F1. rewrite <-app_assoc in Ha, Hs. apply asc_app in Ha as (_ & Ha & _). apply seg_app in Hs as [_ Hs].
    apply (place_forward k m bp p s F2 base Y); [|done|done|done|done| |done].
    - intros b Hbin. apply Hlt. set_solver.
    - pose proof (Hlt (p, s) ltac:(set_solver)). cbn in *. lia. }
  apply list_elem_of_fmap in Hc as (b & -> & Hc). apply elem_of_app in Hc as [Hc|Hc].
  - apply list_elem_of_split in Hc as (X & Y & ->). apply (Hfwd X (b :: Y)); [done|]. rewrite length_app in Hn. simpl in *. lia.
  - apply elem_of_cons in Hc as [->|Hc]; [apply (Hfwd F1 []); [by rewrite app_nil_r|simpl; lia]|].
    apply list_elem_of_split in Hc as (X & Y & ->).
    apply asc_app in Ha as (_ & [_ Ha] & _). apply asc_app in Ha as (_ & Ha & _).
    apply seg_app in Hs as [_ (_ & _ & Hs)]. apply seg_app in Hs as [_ Hs].
    assert (E : free_place (n - length (b :: Y)) m bp base = Some p).
    { rewrite <-Hbase at 1. apply (Hfwd []); [done|]. rewrite length_app in Hn. simpl in *. lia. }
    rewrite length_app in Hn. replace n with (length (b :: Y) + (n - length (b :: Y)))%nat by (simpl in *; lia).
    apply (place_around _ m bp base (b :: Y)); [done| |done|done|done|done]. intros d Hd. apply Hgt. set_solver.
Qed.

(** ** The heap *)

(** [b] is the sentinel or holds memory. *)
Definition real (base : Z) (b : Z * Z) : Prop := b = (base, 0) ∨ 0 < b.2.
(** Some block of [l] holds the byte at [x]. *)
Definition covers (l : list (Z * Z)) (x : Z) : Prop := ∃ b, b ∈ l ∧ b.1 ≤ x < b.1 + HDR * b.2.

(** The free blocks [G] and the blocks in use [A], as lists. *)
Record layout (base e : Z) (G A : list (Z * Z)) : Prop := {
  la_first : head G = Some (base, 0);
  la_asc : asc G;
  la_apart : apart (G ++ A);
  la_real b : b ∈ G ++ A → real base b;
  la_range b : b ∈ G ++ A → base ≤ b.1 ∧ hi b ≤ e }.

Record heap_ok (base start : Z) (h : heap) (G A : list (Z * Z)) : Prop := {
  ho_layout : layout base (u_brk h) G A;
  ho_seg : seg (u_mem h) G base;
  ho_freep : freep h ∈ G.*1;
  ho_used b : b ∈ A → h_size (u_mem h) b.1 = b.2 ∧ b.1 ≠ base;
  ho_brk : 0 < base ∧ u_brk h < KERNBASE;
  ho_start : base + HDR ≤ start ≤ u_brk h;
  ho_low b : b ∈ G ++ A → b.1 = base ∨ start ≤ b.1;
  ho_all x : start ≤ x < u_brk h → covers (G ++ A) x }.

Lemma perm_third {A} (x y : A) G R : G ++ x :: y :: R ≡ₚ y :: G ++ x :: R.
Proof.
  change (x :: y :: R) with ([x] ++ y :: R). change (x :: R) with ([x] ++ R). rewrite !app_assoc. by rewrite Permutation_middle.
Qed.

Lemma apart_disj l x y : apart l → x ∈ l → y ∈ l → x.1 ≠ y.1 → disj x y.
Proof.
  induction l as [|z l IH]; [by intros _ ?%not_elem_of_nil|]. intros [H1 H2] Hx Hy Hne. rewrite Forall_forall in H1.
  apply elem_of_cons in Hx as [->|Hx]; apply elem_of_cons in Hy as [->|Hy]; [done|auto|symmetry; auto|auto].
Qed.

(** Adding a block between its neighbours. *)
Lemma layout_insert base e G1 p G2 bp k A :
  layout base e (G1 ++ p :: G2) ((bp, k) :: A) → 0 < k → p.1 < bp → (∀ b, b ∈ G1 → b.1 < bp) → (∀ b, b ∈ G2 → bp < b.1) →
  layout base e (G1 ++ p :: (bp, k) :: G2) A.
Proof.
  intros [Hf Ha Hp Hr Hg] Hk Hpb H1 H2. constructor.
  - by destruct G1.
  - rewrite asc_app in *. destruct Ha as (Ha1 & [Hb1 Hb2] & Ha3). rewrite Forall_forall in Hb1. cbn [asc].
    rewrite !Forall_forall. split_and!; [done|..|done|].
    + intros x [->|Hx]%elem_of_cons; auto.
    + auto.
    + intros x y Hx Hy. apply elem_of_cons in Hy as [->|[->|Hy]%elem_of_cons]; [apply Ha3; set_solver|auto|apply Ha3; set_solver].
  - eapply apart_perm; [|exact Hp]. rewrite <-app_assoc. cbn. rewrite perm_third.
    rewrite <-(Permutation_middle (G1 ++ p :: G2)), <-app_assoc. done.
  - intros b Hb. apply Hr. set_solver.
  - intros b Hb. apply Hg. set_solver.
Qed.

(** Joining two neighbours. *)
Lemma layout_join base e G1 a s t G2 A :
  layout base e (G1 ++ (a, s) :: (a + HDR * s, t) :: G2) A → 0 < s → 0 < t → layout base e (G1 ++ (a, s + t) :: G2) A.
Proof.
  intros [Hf Ha Hp Hr Hg] Hs Ht. constructor.
  - destruct G1; [|done]. injection Hf. lia.
  - rewrite asc_app in *. destruct Ha as (Ha1 & [Hb1 [Hb2 Hb3]] & Ha3). rewrite !Forall_forall in *. cbn [asc fst]. split_and!; [done| |done|].
    + rewrite Forall_forall. intros x Hx. apply (Hb1 x). by right.
    + intros x y Hx Hy. apply elem_of_cons in Hy as [->|Hy]; [apply (Ha3 x (a, s)); set_solver|apply Ha3; set_solver].
  - rewrite <-app_assoc in *. cbn in *. rewrite <-Permutation_middle in Hp |- *. apply apart_split; [done|done|].
    eapply apart_perm; [|exact Hp]. constructor. by rewrite <-Permutation_middle.
  - intros b Hb. rewrite <-app_assoc in Hb. cbn in Hb. apply elem_of_app in Hb as [Hb|[->|Hb]%elem_of_cons].
    + apply Hr. set_solver.
    + right. cbn. lia.
    + apply Hr. set_solver.
  - intros b Hb. rewrite <-app_assoc in Hb. cbn in Hb. apply elem_of_app in Hb as [Hb|[->|Hb]%elem_of_cons].
    + apply Hg. set_solver.
    + destruct (Hg (a, s)) as [? _]; [set_solver|]. destruct (Hg (a + HDR * s, t)) as [_ ?]; [set_solver|].
      unfold hi, HDR in *. cbn in *. lia.
    + apply Hg. set_solver.
Qed.

Lemma covers_join G1 a s t G2 A x : 0 < s → 0 < t →
  covers ((G1 ++ (a, s) :: (a + HDR * s, t) :: G2) ++ A) x → covers ((G1 ++ (a, s + t) :: G2) ++ A) x.
Proof.
  intros Hs Ht (b & Hb & Hx). rewrite <-app_assoc in Hb. cbn in Hb.
  apply elem_of_app in Hb as [Hb|[->|[->|Hb]%elem_of_cons]%elem_of_cons].
  - exists b. split; [set_solver|done].
  - exists (a, s + t). split; [set_solver|]. unfold HDR in *. cbn in *. lia.
  - exists (a, s + t). split; [set_solver|]. unfold HDR in *. cbn in *. lia.
  - exists b. split; [set_solver|done].
Qed.

(** ** [free] *)
Lemma asc_split G bp : asc G → (∀ b, b ∈ G → b.1 ≠ bp) → G ≠ [] → first G bp < bp →
  ∃ G1 p G2, G = G1 ++ p :: G2 ∧ p.1 < bp ∧ (∀ b, b ∈ G1 → b.1 < bp) ∧ ∀ b, b ∈ G2 → bp < b.1.
Proof.
  induction G as [|c G IH]; [done|]. intros [Ha1 Ha2] Hne _ Hf. cbn in Hf. rewrite Forall_forall in Ha1.
  destruct G as [|d G].
  { exists [], c, []. split; [done|]. split; [done|]. split; intros b Hb; by apply not_elem_of_nil in Hb. }
  destruct (decide (d.1 < bp)) as [Hd|Hd].
  - destruct IH as (G1 & p & G2 & E & Hp & H1 & H2); [done|intros b Hb; apply Hne; by right|done|done|].
    exists (c :: G1), p, G2. rewrite E. split; [done|]. split; [done|]. split; [|done]. intros b [->|Hb]%elem_of_cons; auto.
  - exists [], c, (d :: G). split; [done|]. split; [done|]. split; [intros b Hb; by apply not_elem_of_nil in Hb|].
    intros b Hb. pose proof (Hne d ltac:(set_solver)). destruct Ha2 as [Ha2 _]. rewrite Forall_forall in Ha2.
    apply elem_of_cons in Hb as [->|Hb]; [lia|]. specialize (Ha2 b Hb). lia.
Qed.

Lemma join_next_ok m bp k p G2 e : h_size m bp = k → h_ptr m p = first G2 e → seg m G2 e →
  0 < k → 0 < bp → bp + HDR * k < KERNBASE → far bp p → e < bp + HDR * k → is_u32 e →
  (∀ b, b ∈ G2 → far bp b.1 ∧ 0 < b.2 ∧ 0 < b.1 ∧ hi b < KERNBASE) →
  differ [bp] m (join_next m bp p) ∧
  ((h_ptr (join_next m bp p) bp = first G2 e ∧ h_size (join_next m bp p) bp = k) ∨
   ∃ t G3, G2 = (bp + HDR * k, t) :: G3 ∧ h_ptr (join_next m bp p) bp = first G3 e ∧ h_size (join_next m bp p) bp = k + t).
Proof.
  unfold KERNBASE, HDR. intros Hk Hp Hs Hk0 Hb0 Hbk Hfar He Heu H2. unfold join_next. rewrite Hk, Hp.
  assert (Hfu : is_u32 (first G2 e)).
  { destruct G2 as [|b G2]; [done|]. destruct (H2 b ltac:(left)) as (_ & ? & ? & ?). unfold is_u32, hi, HDR, KERNBASE in *. cbn. lia. }
  rewrite u32_small by (unfold is_u32, HDR; lia). destruct (Z.eqb_spec (bp + HDR * k) (first G2 e)) as [E|E].
  - destruct G2 as [|[q t] G2]; cbn in E; [unfold HDR in E; lia|]. subst q. cbn [first fst].
    destruct Hs as (Eq & Et & Hs). cbn [fst snd] in *. destruct (H2 _ ltac:(left)) as (Hq & Ht & _ & Hhi). cbn [fst snd] in *.
    rewrite Et. assert (Hsz : is_u32 (k + t)) by (unfold hi, HDR, KERNBASE, is_u32 in *; cbn in *; lia).
    rewrite (u32_small (k + t)) by done.
    assert (Hh : ∀ x, far bp x → same_hdr m (set_size bp (k + t) m) x).
    { intros x Hx. apply (differ_hdr [bp]); [apply differ_set_size|]. by intros y ->%list_elem_of_singleton. }
    destruct (Hh p Hfar) as [Ep _]. rewrite Ep, Hp. cbn [first fst]. destruct (Hh _ Hq) as [Eq' _]. rewrite Eq', Eq.
    assert (Hfu2 : is_u32 (first G2 e)).
    { destruct G2 as [|b G2]; [done|]. destruct (H2 b ltac:(right; left)) as (_ & ? & ? & ?). unfold is_u32, hi, HDR, KERNBASE in *. cbn. lia. }
    split.
    + apply (differ_sub ([bp] ++ [bp])); [|set_solver]. eapply differ_trans; [apply differ_set_size|apply differ_set_ptr].
    + right. exists t, G2. split; [done|]. rewrite ptr_set_ptr, size_set_ptr, size_set_size by done. done.
  - split; [apply differ_set_ptr|]. left. by rewrite ptr_set_ptr, size_set_ptr.
Qed.

Lemma join_prev_ok m bp k p s e : h_size m bp = k → h_ptr m bp = e → h_size m p = s → far p bp →
  is_u32 e → is_u32 bp → 0 ≤ s → 0 < k → is_u32 (s + k) → is_u32 (p + HDR * s) →
  differ [p] m (join_prev m bp p) ∧
  if decide (p + HDR * s = bp) then h_ptr (join_prev m bp p) p = e ∧ h_size (join_prev m bp p) p = s + k
  else h_ptr (join_prev m bp p) p = bp ∧ h_size (join_prev m bp p) p = s.
Proof.
  intros Hk He Hs Hfar Heu Hbu Hs0 Hk0 Hsk Hps. unfold join_prev. rewrite Hs, u32_small by done.
  destruct (Z.eqb_spec (p + HDR * s) bp) as [E|E].
  - rewrite decide_True by done. rewrite Hk, (u32_small (s + k)) by done.
    destruct (differ_hdr [p] m (set_size p (s + k) m) bp) as [Eb _]; [apply differ_set_size|by intros y ->%list_elem_of_singleton|].
    rewrite Eb, He. split.
    + apply (differ_sub ([p] ++ [p])); [|set_solver]. eapply differ_trans; [apply differ_set_size|apply differ_set_ptr].
    + by rewrite ptr_set_ptr, size_set_ptr, size_set_size.
  - rewrite decide_False by done. split; [apply differ_set_ptr|]. by rewrite ptr_set_ptr, size_set_ptr.
Qed.

Lemma hi_ge b : b.1 + HDR ≤ hi b.
Proof. unfold hi, HDR. lia. Qed.
Lemma disj_far x y : disj x y → far x.1 y.1.
Proof. unfold disj, far. pose proof (hi_ge x). pose proof (hi_ge y). lia. Qed.

(** The block [bp] between [p] and the rest, joined to the next one if they
    touch. *)
Lemma free_next base e m G1 p G2 bp k A :
  layout base e (G1 ++ p :: (bp, k) :: G2) A → seg m (G1 ++ p :: G2) base → h_size m bp = k → 0 < k → base < bp →
  0 < base → e < KERNBASE →
  ∃ k' G2', layout base e (G1 ++ p :: (bp, k') :: G2') A ∧ differ [bp] m (join_next m bp p.1) ∧ k ≤ k' ∧
    seg (join_next m bp p.1) ((bp, k') :: G2') base ∧ G2' ⊆ G2 ∧
    ∀ x, covers ((G1 ++ p :: (bp, k) :: G2) ++ A) x → covers ((G1 ++ p :: (bp, k') :: G2') ++ A) x.
Proof.
  intros L Hs Hk Hk0 Hbp Hb0 He. apply seg_app in Hs as [_ (Hp & _ & Hs)].
  assert (Hin : ∀ b, b ∈ p :: G2 → far bp b.1 ∧ 0 < b.1 ∧ hi b < KERNBASE).
  { intros b Hb. destruct (la_range _ _ _ _ L b ltac:(set_solver)) as [? ?]. split; [|lia].
    pose proof (la_apart _ _ _ _ L) as Ha. rewrite <-app_assoc in Ha. cbn in Ha. rewrite perm_third in Ha. destruct Ha as [Ha _].
    rewrite Forall_forall in Ha. apply (disj_far (bp, k)), Ha. set_solver. }
  assert (Hreal : ∀ b, b ∈ G2 → 0 < b.2 ∧ bp < b.1).
  { intros b Hb. pose proof (la_asc _ _ _ _ L) as Ha. apply asc_app in Ha as (_ & [_ [Ha _]] & _). rewrite Forall_forall in Ha.
    specialize (Ha b Hb). cbn in Ha. destruct (la_real _ _ _ _ L b ltac:(set_solver)) as [->|?]; [cbn in Ha; lia|done]. }
  destruct (la_range _ _ _ _ L (bp, k) ltac:(set_solver)) as [_ Hhi]. unfold hi in Hhi. cbn in Hhi.
  destruct (join_next_ok m bp k p.1 G2 base) as [Hd Hj]; [done|done|done|done|lia|unfold HDR in *; lia|apply Hin; left|
    unfold HDR in *; lia|unfold is_u32, KERNBASE, HDR in *; lia| |].
  { intros b Hb. destruct (Hin b) as (? & ? & ?); [by right|]. destruct (Hreal b Hb). done. }
  assert (Hseg : ∀ X, X ⊆ G2 → seg m X base → seg (join_next m bp p.1) X base).
  { intros X HX. apply seg_frame. intros b Hb. apply (differ_hdr [bp]); [done|]. intros y ->%list_elem_of_singleton. apply Hin. set_solver. }
  destruct Hj as [[E1 E2]|(t & G3 & -> & E1 & E2)].
  - exists k, G2. split; [done|]. split; [done|]. split; [lia|]. split; [|done]. cbn. split_and!; [done|done|]. by apply Hseg.
  - destruct (Hreal _ ltac:(left)) as [Ht _]. cbn in Ht. exists (k + t), G3. split; [|split; [done|split; [lia|split; [|split; [set_solver|]]]]].
    + replace (G1 ++ p :: (bp, k + t) :: G3) with ((G1 ++ [p]) ++ (bp, k + t) :: G3) by (by rewrite <-app_assoc).
      apply layout_join; [by rewrite <-app_assoc|done|done].
    + cbn. split_and!; [done|done|]. apply Hseg; [set_solver|apply Hs].
    + intros x Hx. replace (G1 ++ p :: (bp, k + t) :: G3) with ((G1 ++ [p]) ++ (bp, k + t) :: G3) by (by rewrite <-app_assoc).
      apply covers_join; [done|done|by rewrite <-(app_assoc G1 [p])].
Qed.

Lemma layout_few base e G A : layout base e G A → 0 < base ≤ e → (length G ≤ Z.to_nat (e / HDR))%nat.
Proof.
  intros L He. pose proof (few_blocks G base e) as Hf.
  assert (HDR * Z.of_nat (length G) ≤ e - base).
  { pose proof (la_apart _ _ _ _ L) as (? & _)%apart_app. apply Hf; [by destruct L|done| |lia].
    intros b Hb. apply (la_range _ _ _ _ L). set_solver. }
  assert (Z.of_nat (length G) ≤ e / HDR) by (apply Z.div_le_lower_bound; unfold HDR in *; lia). lia.
Qed.

Lemma layout_far base e G A x y : layout base e G A → x ∈ G ++ A → y ∈ G ++ A → x.1 ≠ y.1 → far x.1 y.1.
Proof. intros L Hx Hy Hne. apply disj_far. by eapply apart_disj; [apply (la_apart _ _ _ _ L)|..]. Qed.

Lemma layout_order base e G1 p q G2 A : layout base e (G1 ++ p :: q :: G2) A →
  (∀ b, b ∈ G1 → b.1 < p.1) ∧ p.1 < q.1 ∧ ∀ b, b ∈ G2 → q.1 < b.1.
Proof.
  intros L. pose proof (la_asc _ _ _ _ L) as (_ & [Ha [Hb _]] & Hc)%asc_app. rewrite Forall_forall in Ha, Hb.
  split_and!; [|apply Ha; left|auto]. intros b Hb'. apply Hc; [done|left].
Qed.

(** The block [bp] after [p], joined to it if they touch. *)
Lemma free_prev base e m m1 G1 p X G2 bp k A :
  layout base e (G1 ++ p :: (bp, k) :: G2) A → differ [bp] m m1 → seg m (G1 ++ p :: X) base →
  seg m1 ((bp, k) :: G2) base → 0 < k → 0 < base → e < KERNBASE →
  ∃ G', layout base e G' A ∧ differ [p.1] m1 (join_prev m1 bp p.1) ∧ p.1 ∈ G'.*1 ∧ (∃ b, b ∈ G' ∧ k ≤ b.2) ∧
    seg (join_prev m1 bp p.1) G' base ∧ (∀ b, b ∈ G' → b.1 ∈ (G1 ++ p :: (bp, k) :: G2).*1) ∧
    ∀ x, covers ((G1 ++ p :: (bp, k) :: G2) ++ A) x → covers (G' ++ A) x.
Proof.
  intros L D1 Hs Hs1 Hk Hb0 He. destruct (layout_order _ _ _ _ _ _ _ L) as (O1 & O2 & O3). cbn in O2, O3.
  assert (Hfar : ∀ x y, x ∈ G1 ++ p :: (bp, k) :: G2 → y ∈ G1 ++ p :: (bp, k) :: G2 → x.1 ≠ y.1 → far x.1 y.1).
  { intros x y Hx Hy. apply (layout_far base e _ A x y L); set_solver. }
  apply seg_app in Hs as [HsG (_ & Hps & _)]. cbn [first] in HsG. pose proof Hs1 as (Ebp & Ebs & Hs2). cbn in Ebp, Ebs.
  assert (Hfar1 : far p.1 bp) by (apply (Hfar p (bp, k)); [set_solver..|cbn; lia]).
  assert (Hp1 : same_hdr m m1 p.1).
  { apply (differ_hdr [bp]); [done|]. intros y ->%list_elem_of_singleton. unfold far in *. lia. }
  pose proof (la_range _ _ _ _ L p ltac:(set_solver)) as [Hpb Hpe].
  pose proof (la_range _ _ _ _ L (bp, k) ltac:(set_solver)) as [_ Hke].
  assert (Hpr : real base p) by (apply (la_real _ _ _ _ L); set_solver).
  assert (Hs0 : 0 ≤ p.2) by (destruct Hpr as [->|?]; cbn; lia).
  assert (Hapart : hi p ≤ bp).
  { pose proof (apart_disj _ p (bp, k) (la_apart _ _ _ _ L) ltac:(set_solver) ltac:(set_solver) ltac:(cbn; lia)) as [?|Hx]; [done|].
    pose proof (hi_ge (bp, k)). unfold HDR in *. cbn in *. lia. }
  unfold hi, HDR, KERNBASE in Hpe, Hke, He, Hapart. cbn in Hke, Hapart.
  destruct (join_prev_ok m1 bp k p.1 p.2 (first G2 base)) as [D2 Hj]; [done|done|destruct Hp1 as [_ ->]; done|done| |
    unfold is_u32; lia|done|done|unfold is_u32; lia|unfold is_u32, HDR; lia|].
  { destruct G2 as [|b G2]; cbn; [unfold is_u32; lia|]. pose proof (la_range _ _ _ _ L b ltac:(set_solver)) as [? ?].
    pose proof (hi_ge b). unfold is_u32, HDR in *. lia. }
  set (m2 := join_prev m1 bp p.1) in *.
  assert (Hframe : ∀ Y e', (∀ b, b ∈ Y → b ∈ (bp, k) :: G2) → seg m1 Y e' → seg m2 Y e').
  { intros Y e' HY. apply seg_frame. intros b Hb. apply (differ_hdr [p.1]); [done|]. intros y ->%list_elem_of_singleton.
    specialize (HY b Hb). apply Hfar; [set_solver..|]. apply elem_of_cons in HY as [->|HY]; [cbn; lia|]. specialize (O3 b HY). lia. }
  assert (HG1 : seg m2 G1 p.1).
  { revert HsG. apply seg_frame. intros b Hb. specialize (O1 b Hb).
    apply (differ_hdr ([bp] ++ [p.1])); [by eapply differ_trans|]. intros y [->%list_elem_of_singleton| ->%list_elem_of_singleton]%elem_of_app.
    - apply (Hfar (bp, k) b); [set_solver..|cbn; lia].
    - apply (Hfar p b); [set_solver..|lia]. }
  destruct (decide (p.1 + HDR * p.2 = bp)) as [E|E].
  - assert (Hps0 : 0 < p.2) by (destruct Hpr as [Ep|?]; [|done]; rewrite Ep in *; cbn in *; unfold HDR in *; lia).
    destruct p as [p s]. cbn in *. subst bp. exists (G1 ++ (p, s + k) :: G2).
    split; [by apply layout_join|]. split; [done|]. split; [apply list_elem_of_fmap; exists (p, s + k); set_solver|].
    split; [exists (p, s + k); split; [set_solver|cbn; lia]|]. split; [|split; [|intros x; by apply covers_join]].
    2: { intros b Hb. rewrite fmap_app. apply elem_of_app in Hb as [Hb|[->|Hb]%elem_of_cons].
         - apply elem_of_app. left. by apply list_elem_of_fmap_2.
         - set_solver.
         - apply elem_of_app. right. cbn. do 2 right. by apply list_elem_of_fmap_2. }
    apply seg_app. split; [done|]. cbn. destruct Hj. split_and!; [done|done|]. apply Hframe; [set_solver|done].
  - exists (G1 ++ p :: (bp, k) :: G2). split; [done|]. split; [done|]. split; [apply list_elem_of_fmap; exists p; set_solver|].
    split; [exists (bp, k); split; [set_solver|done]|]. split; [|split; [intros b Hb; by apply list_elem_of_fmap_2|done]]. apply seg_app. split; [done|]. cbn [seg first fst]. destruct Hj.
    split; [done|]. split; [done|]. exact (Hframe ((bp, k) :: G2) base ltac:(done) Hs1).
Qed.

(** [free]: the block joins the free memory; nothing else changes. *)
Lemma free_heap_ok base start h G A bp k : heap_ok base start h G ((bp, k) :: A) → 0 < k →
  ∃ h' G', free (u32 (bp + HDR)) h = Some h' ∧ heap_ok base start h' G' A ∧ (∃ b, b ∈ G' ∧ k ≤ b.2) ∧
    u_brk h' = u_brk h ∧ u_grants h' = u_grants h ∧
    ∀ b x, b ∈ A → b.1 ≤ x < hi b → u_mem h' x = u_mem h x.
Proof.
  intros [L Hs Hf Hu [Hb0 Hbrk] Hst Hlow Hall] Hk. destruct (Hu (bp, k) ltac:(left)) as [Hsz Hne]. cbn in Hsz, Hne.
  pose proof (la_range _ _ _ _ L (bp, k) ltac:(set_solver)) as [Hbp Hhi]. unfold hi, HDR in Hhi. cbn in Hhi, Hbp.
  assert (Hap : ∀ b, b ∈ G ++ A → disj (bp, k) b).
  { pose proof (la_apart _ _ _ _ L) as Ha. rewrite <-Permutation_middle in Ha. destruct Ha as [Ha _]. by rewrite Forall_forall in Ha. }
  destruct (asc_split G bp) as (G1 & p & G2 & -> & Hp & H1 & H2).
  { by destruct L. }
  { intros b Hb Eb. pose proof (Hap b ltac:(set_solver)) as [?|?]; [pose proof (hi_ge (bp, k))|pose proof (hi_ge b)]; unfold HDR in *; cbn in *; lia. }
  { intros ->. by pose proof (la_first _ _ _ _ L). }
  { pose proof (la_first _ _ _ _ L) as Hfi. destruct G as [|d G]; [done|]. injection Hfi as ->. cbn in *. lia. }
  assert (Hplace : free_place (rounds h) (u_mem h) bp (freep h) = Some p.1).
  { destruct p as [p s]. apply (free_place_ok _ _ _ _ s G1 G2 base); [| | | |done|done|].
    - intros b Hb. split; [apply (la_range _ _ _ _ L); set_solver|]. apply elem_of_app in Hb as [Hb| ->%list_elem_of_singleton]; auto.
    - done.
    - pose proof (la_first _ _ _ _ L) as Hfi. destruct G1; cbn in *; by injection Hfi as ->.
    - by destruct L.
    - eapply layout_few; [exact L|lia]. }
  pose proof (layout_insert _ _ _ _ _ _ _ _ L Hk Hp H1 H2) as L1.
  destruct (free_next base _ _ G1 p G2 bp k A L1 Hs Hsz Hk ltac:(lia) Hb0 Hbrk) as (k' & G3 & L2 & D1 & Hk' & Hs1 & Hsub & Hc1).
  destruct (free_prev base _ _ _ G1 p G2 G3 bp k' A L2 D1 Hs Hs1 ltac:(lia) Hb0 Hbrk) as (G' & L3 & D2 & Hin & (c & Hc & Hck) & Hs2 & Hadr & Hc2).
  assert (Hfree : free (u32 (bp + HDR)) h = Some (h <| u_mem ::= λ m, join_prev (join_next m bp p.1) bp p.1 |> <| freep := p.1 |>)).
  { unfold free. rewrite (u32_small (bp + HDR)), (u32_small (bp + HDR - HDR)) by (unfold is_u32, KERNBASE, HDR in *; lia).
    replace (bp + HDR - HDR) with bp by lia. rewrite Hplace. done. }
  eexists _, G'. split; [exact Hfree|].
  assert (Hkeep : ∀ b x, b ∈ A → b.1 ≤ x < hi b → join_prev (join_next (u_mem h) bp p.1) bp p.1 x = u_mem h x).
  { intros b x Hb Hx. pose proof (differ_trans _ _ _ _ _ D1 D2) as D. apply D. intros y Hy.
    assert (Hd : ∃ z, z.1 = y ∧ disj z b).
    { apply elem_of_app in Hy as [->%list_elem_of_singleton| ->%list_elem_of_singleton]; [exists (bp, k); split; [done|]; apply Hap; set_solver|].
      exists p. split; [done|]. pose proof (la_apart _ _ _ _ L1) as (_ & _ & Hd)%apart_app. apply Hd; set_solver. }
    destruct Hd as (z & <- & [Hd|Hd]); pose proof (hi_ge z); lia. }
  split; [|split; [by exists c; split; [|lia]|split; [done|split; [done|exact Hkeep]]]].
  constructor; cbn; [done|done|done| |done|done| |].
  - intros b Hb. destruct (Hu b ltac:(by right)) as [<- ?]. split; [|done]. apply ld4_ext. intros x Hx. apply (Hkeep b); [done|].
    pose proof (hi_ge b). unfold HDR in *. lia.
  - intros b [Hb|Hb]%elem_of_app; [|apply Hlow; set_solver]. apply Hadr, list_elem_of_fmap in Hb as (d & -> & Hd).
    destruct (decide (d = (bp, k'))) as [->|Hnd]; [right; destruct (Hlow (bp, k) ltac:(set_solver)); cbn in *; lia|]. apply Hlow. set_solver.
  - intros x Hx. apply Hc2, Hc1. destruct (Hall x Hx) as (b & Hb & Hbx). exists b. split; [|done]. set_solver.
Qed.

(** ** [malloc] *)

(** The last address of [Y], or [prev]. *)
Fixpoint final (prev : Z) (Y : list (Z * Z)) : Z := match Y with [] => prev | b :: Y => final b.1 Y end.

Lemma final_app prev X Y : final prev (X ++ Y) = final (final prev X) Y.
Proof. revert prev. induction X as [|c X IH]; intros prev; [done|]. apply IH. Qed.
Lemma final_snoc prev Y b : final prev (Y ++ [b]) = b.1.
Proof. revert prev. induction Y as [|c Y IH]; intros prev; [done|]. apply IH. Qed.

(** Searching a piece of the list. *)
Lemma scan_piece n m stop nu prev Y e : seg m Y e → (∀ b, b ∈ Y → b.1 ≠ stop) →
  (∃ Y1 b Y2, Y = Y1 ++ b :: Y2 ∧ nu ≤ b.2 ∧
     malloc_scan (length Y + n) m stop nu prev (first Y e) = Some (inl (final prev Y1, b.1))) ∨
  (∀ b, b ∈ Y → b.2 < nu) ∧
     malloc_scan (length Y + n) m stop nu prev (first Y e) = malloc_scan n m stop nu (final prev Y) e.
Proof.
  revert prev. induction Y as [|c Y IH]; intros prev Hs Hne.
  { right. split; [|done]. intros b Hb. by apply not_elem_of_nil in Hb. }
  destruct Hs as (Ec & Es & Hs). cbn [length Nat.add first malloc_scan]. rewrite Es.
  destruct (Z.leb_spec nu c.2) as [Hnu|Hnu].
  { left. by exists [], c, Y. }
  rewrite (proj2 (Z.eqb_neq c.1 stop)) by (apply Hne; left). rewrite Ec.
  destruct (IH c.1 Hs) as [(Y1 & b & Y2 & -> & Hb & E)|[Hall E]]; [intros b Hb; apply Hne; by right|..].
  - left. exists (c :: Y1), b, Y2. done.
  - right. split; [|done]. intros b [->|Hb]%elem_of_cons; auto.
Qed.

(** Searching the whole circle from [freep]. *)
Lemma scan_circle base e m G A c nu n : layout base e G A → seg m G base → c ∈ G.*1 → 0 < nu → (length G ≤ n)%nat →
  (∃ X q b Y, G = X ++ q :: b :: Y ∧ nu ≤ b.2 ∧ malloc_scan n m c nu c (h_ptr m c) = Some (inl (q.1, b.1))) ∨
  (∀ b, b ∈ G → b.2 < nu) ∧ malloc_scan n m c nu c (h_ptr m c) = Some (inr tt).
Proof.
  intros L Hs Hc Hnu Hn. apply list_elem_of_fmap in Hc as (c' & -> & Hc). apply list_elem_of_split in Hc as (G1 & G2 & ->).
  rename c' into c. rewrite length_app in Hn. cbn in Hn. apply seg_app in Hs as [Hs1 (Ec & Es & Hs2)]. cbn [first] in Hs1.
  pose proof (la_asc _ _ _ _ L) as (_ & [Ha1 _] & Ha2)%asc_app. rewrite Forall_forall in Ha1.
  pose proof (la_first _ _ _ _ L) as Hf.
  assert (Hlast : ∀ X b Y, nu ≤ b.2 → X ++ b :: Y = G1 ++ c :: G2 → ∃ X' q, X = X' ++ [q] ∧ ∀ prev, final prev X = q.1).
  { intros X b Y Hb E. destruct X as [|q X _] using rev_ind.
    - rewrite <-E in Hf. injection Hf as ->. cbn in Hb. lia.
    - exists X, q. split; [done|]. intros prev. apply final_snoc. }
  assert (Hfirst : base = first G1 c.1) by (destruct G1; cbn in *; by injection Hf as ->).
  replace n with (length G2 + (length G1 + (n - length G2 - length G1)))%nat by lia. rewrite Ec.
  destruct (scan_piece (length G1 + (n - length G2 - length G1)) m c.1 nu c.1 G2 base Hs2) as [(Y1 & b & Y2 & -> & Hb & E)|[H2 E]].
  { intros b Hb. specialize (Ha1 b Hb). lia. }
  { left. destruct (Hlast (G1 ++ c :: Y1) b Y2 Hb) as (X & q & EX & Eq); [by rewrite <-app_assoc|].
    exists X, q, b, Y2. split; [change (q :: b :: Y2) with ([q] ++ b :: Y2); rewrite app_assoc, <-EX, <-app_assoc; done|].
    split; [done|]. rewrite E, <-(Eq c.1), final_app. done. }
  rewrite E, Hfirst.
  destruct (scan_piece (n - length G2 - length G1) m c.1 nu (final c.1 G2) G1 c.1 Hs1) as [(Y1 & b & Y2 & -> & Hb & E')|[H1 E']].
  { intros b Hb. specialize (Ha2 b c Hb ltac:(left)). lia. }
  { left. destruct (Hlast Y1 b (Y2 ++ c :: G2) Hb) as (X & q & -> & Eq); [by rewrite <-app_assoc|].
    exists X, q, b, (Y2 ++ c :: G2). split; [by rewrite <-!app_assoc|]. split; [done|]. by rewrite E', Eq. }
  rewrite E'. assert (Es' : malloc_scan (n - length G2 - length G1) m c.1 nu (final (final c.1 G2) G1) c.1 =
    Some (if nu <=? c.2 then inl (final (final c.1 G2) G1, c.1) else inr tt)).
  { destruct (n - length G2 - length G1)%nat; cbn [malloc_scan]; rewrite Es, Z.eqb_refl; by destruct (_ <=? _). }
  rewrite Es'. destruct (Z.leb_spec nu c.2) as [Hcn|Hcn].
  - left. destruct (Hlast G1 c G2 Hcn eq_refl) as (X & q & -> & Eq). exists X, q, c, G2.
    split; [by rewrite <-app_assoc|]. split; [done|]. by rewrite Eq.
  - right. split; [|done]. intros b [Hb|[->|Hb]%elem_of_cons]%elem_of_app; auto.
Qed.

(** Taking a whole block. *)
Lemma layout_remove base e X q b Y A : layout base e (X ++ q :: b :: Y) A → layout base e (X ++ q :: Y) (b :: A).
Proof.
  intros [Hf Ha Hp Hr Hg]. constructor.
  - by destruct X.
  - rewrite asc_app in *. destruct Ha as (Ha1 & [Hb1 [_ Hb2]] & Ha3). rewrite Forall_forall in Hb1. cbn [asc].
    rewrite Forall_forall. split_and!; [done| |done|].
    + intros x Hx. apply Hb1. by right.
    + intros x y Hx Hy. apply Ha3; [done|]. apply elem_of_cons in Hy as [->|Hy]; [left|by right; right].
  - eapply apart_perm; [|exact Hp]. rewrite <-(Permutation_middle (X ++ q :: Y)), <-!app_assoc. cbn. by rewrite perm_third.
  - intros c Hc. apply Hr. set_solver.
  - intros c Hc. apply Hg. set_solver.
Qed.

(** Taking the end of a block. *)
Lemma layout_carve base e X a s t Y A : layout base e (X ++ (a, s + t) :: Y) A → 0 < s → 0 < t →
  layout base e (X ++ (a, s) :: Y) ((a + HDR * s, t) :: A).
Proof.
  intros [Hf Ha Hp Hr Hg] Hs Ht. constructor.
  - destruct X; [|done]. injection Hf. lia.
  - rewrite asc_app in *. destruct Ha as (Ha1 & [Hb1 Hb2] & Ha3). split; [done|]. split; [by split|].
    intros x y Hx Hy. apply elem_of_cons in Hy as [->|Hy]; [apply (Ha3 x (a, s + t)); [done|left]|apply Ha3; [done|by right]].
  - rewrite <-app_assoc in Hp. cbn in Hp. rewrite <-Permutation_middle in Hp. rewrite apart_split in Hp by done.
    eapply apart_perm; [|exact Hp]. rewrite <-app_assoc. cbn. rewrite <-!Permutation_middle. by constructor.
  - intros b Hb. rewrite <-app_assoc in Hb. cbn in Hb. apply elem_of_app in Hb as [Hb|[->|Hb]%elem_of_cons].
    + apply Hr. set_solver.
    + by right.
    + apply elem_of_app in Hb as [Hb|[->|Hb]%elem_of_cons]; [apply Hr; set_solver|by right|apply Hr; set_solver].
  - assert (Hat := Hg (a, s + t) ltac:(set_solver)). unfold hi, HDR in Hat. cbn in Hat.
    intros b Hb. rewrite <-app_assoc in Hb. cbn in Hb. apply elem_of_app in Hb as [Hb|[->|Hb]%elem_of_cons].
    + apply Hg. set_solver.
    + unfold hi, HDR. cbn. lia.
    + apply elem_of_app in Hb as [Hb|[->|Hb]%elem_of_cons]; [apply Hg; set_solver| |apply Hg; set_solver]. unfold hi, HDR. cbn. lia.
Qed.

(** What a call of [malloc] that found a block leaves: the block in use, the
    others untouched. *)
Definition taken (base start : Z) (h : heap) (A : list (Z * Z)) (nu r : Z) (h' : heap) : Prop :=
  ∃ b G', r = b + HDR ∧ heap_ok base start h' G' ((b, nu) :: A) ∧
    ∀ c x, c ∈ A → c.1 ≤ x < hi c → u_mem h' x = u_mem h x.

(** Headers written inside blocks leave other blocks alone. *)
Lemma outside ps m m' (Z0 : list (Z * Z)) c :
  differ ps m m' → (∀ p, p ∈ ps → ∃ z, z ∈ Z0 ∧ z.1 ≤ p ∧ p + HDR ≤ hi z) → (∀ z, z ∈ Z0 → disj z c) →
  same_hdr m m' c.1 ∧ ∀ x, c.1 ≤ x < hi c → m' x = m x.
Proof.
  intros D Hp Hz.
  assert (H : ∀ p, p ∈ ps → p + HDR ≤ c.1 ∨ hi c ≤ p).
  { intros p (z & Hin & H1 & H2)%Hp. destruct (Hz z Hin); unfold HDR in *; lia. }
  split.
  - apply (differ_hdr ps); [done|]. intros p Hin. unfold far. pose proof (hi_ge c). specialize (H p Hin). lia.
  - intros x Hx. apply D. intros p Hin. specialize (H p Hin). lia.
Qed.

Lemma take_all base start h X q b Y A : heap_ok base start h (X ++ q :: b :: Y) A → 0 < b.2 →
  taken base start h A b.2 (b.1 + HDR) (h <| u_mem ::= set_ptr q.1 (h_ptr (u_mem h) b.1) |> <| freep := q.1 |>).
Proof.
  intros [L Hs Hf Hu [Hb0 Hbrk] Hst Hlow Hall] Hb. apply seg_app in Hs as [Hs1 (Eq & Eqs & Eb & Ebs & Hs2)]. cbn [first fst] in *.
  destruct (layout_order _ _ _ _ _ _ _ L) as (O1 & O2 & O3).
  assert (Hqr := la_range _ _ _ _ L q ltac:(set_solver)). pose proof (layout_remove _ _ _ _ _ _ _ L) as L'.
  assert (HY : is_u32 (first Y base)).
  { destruct Y as [|y Y]; cbn; [unfold is_u32, hi, HDR, KERNBASE in *; lia|]. assert (Hy := la_range _ _ _ _ L y ltac:(set_solver)).
    pose proof (hi_ge y). unfold is_u32, HDR, KERNBASE in *. lia. }
  set (m' := set_ptr q.1 (h_ptr (u_mem h) b.1) (u_mem h)).
  assert (Hout : ∀ c, c ∈ X ++ b :: Y ++ A → same_hdr (u_mem h) m' c.1 ∧ ∀ x, c.1 ≤ x < hi c → m' x = u_mem h x).
  { intros c Hc. apply (outside [q.1] _ _ [q]); [apply differ_set_ptr| |].
    - intros p ->%list_elem_of_singleton. exists q. split; [left|]. split; [lia|apply hi_ge].
    - intros z ->%list_elem_of_singleton. pose proof (la_apart _ _ _ _ L) as Ha. rewrite <-app_assoc in Ha. cbn in Ha.
      rewrite <-Permutation_middle in Ha. destruct Ha as [Ha _]. rewrite Forall_forall in Ha. apply Ha. set_solver. }
  exists b.1, (X ++ q :: Y). split; [done|]. rewrite <-surjective_pairing. split; [|intros c x Hc; apply Hout; set_solver].
  constructor; cbn; [done| | | |done|done| |].
  - apply seg_app. split; [revert Hs1; apply seg_frame; intros c Hc; apply Hout; set_solver|]. cbn.
    split; [rewrite <-Eb; apply ptr_set_ptr; by rewrite Eb|]. split; [by unfold m'; rewrite size_set_ptr|].
    revert Hs2. apply seg_frame. intros c Hc. apply Hout. set_solver.
  - apply list_elem_of_fmap. exists q. set_solver.
  - intros c [->|Hc]%elem_of_cons.
    + destruct (Hout b ltac:(set_solver)) as [[_ Es] _]. split; [by etransitivity; [exact Es|]|lia].
    + destruct (Hout c ltac:(set_solver)) as [[_ Es] _]. destruct (Hu c Hc) as [? ?]. split; [by etransitivity; [exact Es|]|done].
  - intros c Hc. apply Hlow. set_solver.
  - intros x Hx. destruct (Hall x Hx) as (c & Hc & Hcx). exists c. split; [set_solver|done].
Qed.

Lemma take_end base start h X q a s t Y A : heap_ok base start h (X ++ q :: (a, s + t) :: Y) A → 0 < s → 0 < t →
  taken base start h A t (a + HDR * s + HDR)
    (h <| u_mem ::= λ m, set_size (a + HDR * s) t (set_size a s m) |> <| freep := q.1 |>).
Proof.
  intros [L Hs Hf Hu [Hb0 Hbrk] Hst Hlow Hall] Hs0 Ht0. apply seg_app in Hs as [Hs1 (Eq & Eqs & Eb & Ebs & Hs2)]. cbn [first fst snd] in *.
  destruct (layout_order _ _ _ _ _ _ _ L) as (O1 & O2 & O3). cbn in O2.
  assert (Hqr := la_range _ _ _ _ L q ltac:(set_solver)). assert (Hbr := la_range _ _ _ _ L (a, s + t) ltac:(set_solver)).
  unfold hi, HDR, KERNBASE in Hbr, Hbrk. cbn in Hbr.
  assert (L' : layout base (u_brk h) (X ++ q :: (a, s) :: Y) ((a + HDR * s, t) :: A)).
  { change (q :: (a, s) :: Y) with ([q] ++ (a, s) :: Y). rewrite app_assoc. apply layout_carve; [by rewrite <-app_assoc|done|done]. }
  set (m' := set_size (a + HDR * s) t (set_size a s (u_mem h))).
  assert (D : differ [a; a + HDR * s] (u_mem h) m') by (eapply (differ_trans [_] [_]); [apply differ_set_size|apply differ_set_size]).
  assert (Hout : ∀ c, c ∈ X ++ q :: Y ++ A → same_hdr (u_mem h) m' c.1 ∧ ∀ x, c.1 ≤ x < hi c → m' x = u_mem h x).
  { intros c Hc. apply (outside [a; a + HDR * s] _ _ [(a, s + t)]); [done| |].
    - intros p Hp. exists (a, s + t). split; [left|]. unfold hi, HDR in *. cbn.
      apply elem_of_cons in Hp as [->| ->%list_elem_of_singleton]; lia.
    - intros z ->%list_elem_of_singleton. pose proof (la_apart _ _ _ _ L) as Ha. rewrite <-app_assoc in Ha. cbn in Ha.
      rewrite perm_third in Ha. destruct Ha as [Ha _]. rewrite Forall_forall in Ha. apply Ha. set_solver. }
  assert (Hfar : far (a + HDR * s) a) by (unfold far, HDR; lia).
  assert (Ha' : same_hdr (set_size a s (u_mem h)) m' a).
  { apply (differ_hdr [a + HDR * s]); [apply differ_set_size|]. by intros p ->%list_elem_of_singleton. }
  exists (a + HDR * s), (X ++ q :: (a, s) :: Y). split; [done|]. split; [|intros c x Hc; apply Hout; set_solver].
  constructor; cbn; [done| | | |done|done| |].
  - change (seg m' (X ++ q :: (a, s) :: Y) base).
    apply seg_app. split; [revert Hs1; apply seg_frame; intros c Hc; apply Hout; set_solver|]. cbn [seg first fst snd].
    destruct (Hout q ltac:(set_solver)) as [[-> ->] _]. split; [done|]. split; [done|]. destruct Ha' as [-> ->].
    rewrite ptr_set_size, size_set_size by (unfold is_u32; lia). split; [done|]. split; [done|].
    revert Hs2. apply seg_frame. intros c Hc. apply Hout. set_solver.
  - apply list_elem_of_fmap. exists q. set_solver.
  - intros c [->|Hc]%elem_of_cons.
    + cbn. split; [apply size_set_size; unfold is_u32; lia|]. unfold HDR. lia.
    + destruct (Hout c ltac:(set_solver)) as [[_ Es] _]. destruct (Hu c Hc) as [? ?]. split; [by etransitivity; [exact Es|]|done].
  - assert (Hlo := Hlow (a, s + t) ltac:(set_solver)). cbn in Hlo. intros c Hc. rewrite <-app_assoc in Hc. cbn in Hc.
    destruct (decide (c = (a, s))) as [->|]; [done|]. destruct (decide (c = (a + HDR * s, t))) as [->|]; [|apply Hlow; set_solver].
    right. cbn. unfold HDR in *. lia.
  - intros x Hx. destruct (Hall x Hx) as (c & Hc & Hcx). rewrite <-app_assoc in Hc. cbn in Hc.
    destruct (decide (c = (a, s + t))) as [->|Hne].
    + unfold HDR in *. cbn in Hcx. destruct (decide (x < a + 8 * s)).
      * exists (a, s). split; [set_solver|]. cbn. unfold HDR. lia.
      * exists (a + 8 * s, t). split; [set_solver|]. cbn. unfold HDR. lia.
    + exists c. split; [set_solver|done].
Qed.

Lemma malloc_take_ok base start h X q b Y A nu : heap_ok base start h (X ++ q :: b :: Y) A → 0 < nu ≤ b.2 →
  let r := malloc_take (u_mem h) nu q.1 b.1 in
  taken base start h A nu (u32 (r.1 + HDR)) (h <| u_mem := r.2 |> <| freep := q.1 |>).
Proof.
  intros H Hnu. pose proof H as [L Hs _ _ [Hb0 Hbrk] _ _ _]. apply seg_app in Hs as [_ (_ & _ & Eb & Ebs & _)]. cbn [first fst] in *.
  assert (Hbr := la_range _ _ _ _ L b ltac:(set_solver)). unfold hi, HDR, KERNBASE in *.
  unfold malloc_take. rewrite Ebs. destruct (Z.eqb_spec b.2 nu) as [<-|E]; cbv zeta; cbn [fst snd].
  - rewrite u32_small by (unfold is_u32, HDR; lia). apply (take_all _ _ _ _ _ _ _ _ H). lia.
  - rewrite (u32_small (b.2 - nu)) by (unfold is_u32; lia). rewrite size_set_size by (unfold is_u32; lia).
    rewrite (u32_small (b.1 + HDR * (b.2 - nu))) by (unfold is_u32, HDR; lia). rewrite u32_small by (unfold is_u32, HDR; lia).
    apply (take_end base start h X q b.1 (b.2 - nu) nu Y A); [|lia|lia].
    replace (b.1, b.2 - nu + nu) with b; [done|]. destruct b as [b1 b2]. cbn. f_equal. lia.
Qed.

(** ** Growing the heap *)
Lemma sbrk_ok n h : 0 < n < KERNBASE → 0 < u_brk h < KERNBASE →
  (sbrk n h).1 = -1 ∧ (∃ g, (sbrk n h).2 = h <| u_grants := g |>) ∨
  (sbrk n h).1 = u_brk h ∧ u_brk h + n < KERNBASE ∧ ∃ g, (sbrk n h).2 = h <| u_brk := u_brk h + n |> <| u_grants := g |>.
Proof.
  intros Hn Hb. unfold sbrk, KERNBASE in *. rewrite (proj2 (Z.ltb_lt 0 n)) by lia.
  rewrite u32_small by (unfold is_u32; lia). destruct (Z.leb_spec 2147483648 (u_brk h + n)).
  { left. split; [done|]. exists (u_grants h). by destruct h. }
  rewrite (proj2 (Z.ltb_ge _ (u_brk h))) by lia. destruct (u_grants h) as [|[] g] eqn:Eg.
  - left. split; [done|]. exists []. destruct h. cbn in *. by subst.
  - right. split; [done|]. split; [done|]. by exists g.
  - left. split; [done|]. by exists g.
Qed.

(** New memory is one more block in use. *)
Lemma heap_grow base start h G A nu g : heap_ok base start h G A → 0 < nu → u_brk h + HDR * nu < KERNBASE →
  heap_ok base start (h <| u_brk := u_brk h + HDR * nu |> <| u_grants := g |> <| u_mem ::= set_size (u_brk h) nu |>)
    G ((u_brk h, nu) :: A).
Proof.
  intros [L Hs Hf Hu [Hb0 Hbrk] Hst Hlow Hall] Hnu Hk. unfold HDR, KERNBASE in *.
  assert (Hout : ∀ b, b ∈ G ++ A → same_hdr (u_mem h) (set_size (u_brk h) nu (u_mem h)) b.1).
  { intros b Hb. apply (differ_hdr [u_brk h]); [apply differ_set_size|]. intros p ->%list_elem_of_singleton.
    destruct (la_range _ _ _ _ L b Hb). pose proof (hi_ge b). right. unfold HDR in *. lia. }
  constructor; cbn.
  - constructor; [by destruct L..| | |].
    + rewrite <-Permutation_middle. split; [|by destruct L]. rewrite Forall_forall. intros b Hb.
      destruct (la_range _ _ _ _ L b Hb). by right.
    + intros b Hb. rewrite <-Permutation_middle in Hb. apply elem_of_cons in Hb as [->|Hb]; [by right|by apply (la_real _ _ _ _ L)].
    + intros b Hb. rewrite <-Permutation_middle in Hb. apply elem_of_cons in Hb as [->|Hb].
      * unfold hi, HDR. cbn. lia.
      * destruct (la_range _ _ _ _ L b Hb). lia.
  - revert Hs. apply seg_frame. intros b Hb. apply Hout. set_solver.
  - done.
  - intros b [->|Hb]%elem_of_cons; cbn.
    + split; [apply size_set_size; unfold is_u32; lia|lia].
    + destruct (Hu b Hb) as [Es ?]. split; [|done]. destruct (Hout b ltac:(set_solver)) as [_ E2]. by etransitivity; [exact E2|].
  - unfold KERNBASE. lia.
  - unfold HDR. lia.
  - intros b Hb. rewrite <-Permutation_middle in Hb. apply elem_of_cons in Hb as [->|Hb]; [right; cbn; lia|by apply Hlow].
  - intros x Hx. destruct (decide (x < u_brk h)) as [Hlt|Hge].
    + destruct (Hall x ltac:(lia)) as (b & Hb & Hbx). exists b. split; [set_solver|done].
    + exists (u_brk h, nu). split; [set_solver|]. cbn. unfold HDR. lia.
Qed.

Lemma morecore_ok base start h G A nu : heap_ok base start h G A → 0 < nu ≤ 134217728 →
  ∃ p h', morecore nu h = Some (p, h') ∧
    ((p = 0 ∧ ∃ g, h' = h <| u_grants := g |>) ∨
     (p = freep h' ∧ p ≠ 0 ∧ ∃ G', heap_ok base start h' G' A ∧ (∃ b, b ∈ G' ∧ nu ≤ b.2) ∧
        ∀ c x, c ∈ A → c.1 ≤ x < hi c → u_mem h' x = u_mem h x)).
Proof.
  intros H Hnu. unfold morecore. set (nu' := if nu <? 4096 then 4096 else nu).
  assert (Hnu' : nu ≤ nu' ≤ 134217728) by (unfold nu'; destruct (Z.ltb_spec nu 4096); lia). clearbody nu'.
  rewrite (u32_small (nu' * HDR)) by (unfold is_u32, HDR; lia). rewrite s32_small by (unfold HDR; lia).
  pose proof (ho_brk _ _ _ _ _ H) as [Hb0 Hbrk]. pose proof (ho_start _ _ _ _ _ H) as Hst.
  destruct (sbrk_ok (nu' * HDR) h) as [[E1 [g E2]]|(E1 & Hlt & g & E2)]; [unfold HDR, KERNBASE in *; lia|unfold HDR in *; lia|..];
    destruct (sbrk (nu' * HDR) h) as [p h1]; cbn in E1, E2; subst p h1.
  - cbn. eexists _, _. split; [done|]. left. split; [done|]. by exists g.
  - rewrite (proj2 (Z.eqb_neq _ _)) by (unfold HDR in *; lia). rewrite (Z.mul_comm nu') in *.
    pose proof (heap_grow base start h G A nu' g H ltac:(lia) Hlt) as Hg.
    destruct (free_heap_ok _ _ _ _ _ _ _ Hg ltac:(lia)) as (h' & G' & Ef & Hok & (b & Hb & Hbk) & Hbrk' & _ & Hkeep).
    rewrite Ef. cbn. eexists _, _. split; [done|]. right. split; [done|].
    pose proof (ho_freep _ _ _ _ _ Hok) as (c & Ec & Hc)%list_elem_of_fmap.
    split; [rewrite Ec; pose proof (la_range _ _ _ _ (ho_layout _ _ _ _ _ Hok) c ltac:(set_solver)); lia|].
    exists G'. split; [done|]. split; [exists b; split; [done|lia]|].
    intros d x Hd Hx. rewrite (Hkeep d x Hd Hx). cbn. apply set_size_other.
    pose proof (la_range _ _ _ _ (ho_layout _ _ _ _ _ H) d ltac:(set_solver)). lia.
Qed.

(** ** The loop *)
Lemma malloc_round base start h G A nu calls : heap_ok base start h G A → 0 < nu →
  (∃ r h', malloc_loop calls nu (freep h) h = Some (r, h') ∧ taken base start h A nu r h') ∨
  (∀ b, b ∈ G → b.2 < nu) ∧
    malloc_loop calls nu (freep h) h =
      match calls with
      | O => None
      | S calls => '(p, h) ← morecore nu h; if p =? 0 then Some (0, h) else malloc_loop calls nu p h
      end.
Proof.
  intros H Hnu. pose proof H as [L Hs Hf _ [Hb0 Hbrk] Hst _ _].
  destruct (scan_circle base _ _ G A (freep h) nu (rounds h) L Hs Hf Hnu) as [(X & q & b & Y & -> & Hb & E)|[Hall E]].
  - eapply layout_few; [exact L|unfold HDR in *; lia].
  - left. pose proof (malloc_take_ok base start h X q b Y A nu H ltac:(lia)) as Ht. cbv zeta in Ht.
    destruct calls; cbn [malloc_loop]; rewrite E; cbn; destruct (malloc_take (u_mem h) nu q.1 b.1) as [p m]; eexists _, _;
      (split; [reflexivity|exact Ht]).
  - right. split; [done|]. destruct calls; cbn [malloc_loop]; by rewrite E.
Qed.

Lemma malloc_loop_ok base start h G A nu : heap_ok base start h G A → 0 < nu ≤ 134217728 →
  ∃ r h', malloc_loop 1 nu (freep h) h = Some (r, h') ∧
    ((r = 0 ∧ ∃ g, h' = h <| u_grants := g |>) ∨ taken base start h A nu r h').
Proof.
  intros H Hnu. destruct (malloc_round base start h G A nu 1 H ltac:(lia)) as [(r & h' & E & Ht)|[_ E]].
  { exists r, h'. split; [done|]. by right. }
  destruct (morecore_ok base start h G A nu H Hnu) as (p & h1 & Em & Hm). rewrite E, Em. cbn [mbind option_bind].
  destruct Hm as [[-> [g ->]]|(-> & Hp & G' & H' & (b & Hb & Hbn) & Hkeep)].
  { cbn. eexists _, _. split; [done|]. left. split; [done|]. by exists g. }
  rewrite (proj2 (Z.eqb_neq _ _)) by done.
  destruct (malloc_round base start h1 G' A nu 0 H' ltac:(lia)) as [(r & h' & E' & c & G2 & Er & Hok & Hk)|[Hall _]].
  - exists r, h'. split; [done|]. right. exists c, G2. split; [done|]. split; [done|].
    intros d x Hd Hx. rewrite (Hk d x Hd Hx). by apply (Hkeep d).
  - specialize (Hall b Hb). lia.
Qed.

(** ** A client *)

(** A block in use: the pointer, the length asked for, and what the client
    has stored in it. *)
Record owned := Own { o_ptr : Z; o_len : Z; o_val : Z → Z }.

Inductive op := Malloc (nbytes : Z) | Free (i : nat) | Store (i : nat) (off v : Z).

Definition client_step (base : Z) (o : op) (hl : heap * list owned) : option (heap * list owned) :=
  let '(h, l) := hl in
  match o with
  | Malloc n =>
      '(r, h) ← malloc base n h;
      Some (h, if r =? 0 then l else Own r n (λ off, u_mem h (r + off)) :: l)
  | Free i =>
      match l !! i with
      | Some b => h ← free (o_ptr b) h; Some (h, delete i l)
      | None => Some (h, l)
      end
  | Store i off v =>
      match l !! i with
      | Some b =>
          if (0 <=? off) && (off <? o_len b) then
            Some (h <| u_mem ::= <[o_ptr b + off := v]> |>,
                  alter (λ b, Own (o_ptr b) (o_len b) (<[off := v]> (o_val b))) i l)
          else Some (h, l)
      | None => Some (h, l)
      end
  end.
Fixpoint client (base : Z) (os : list op) (hl : heap * list owned) : option (heap * list owned) :=
  match os with
  | [] => Some hl
  | o :: os => hl ← client_step base o hl; client base os hl
  end.

Definition op_ok (o : op) : Prop := match o with Malloc n => 0 ≤ n ≤ 1073741816 | _ => True end.

(** The headers and sizes of the client's blocks. *)
Definition in_use (l : list owned) : list (Z * Z) := (λ b, (o_ptr b - HDR, units (o_len b))) <$> l.

Record client_ok (base start : Z) (h : heap) (G : list (Z * Z)) (l : list owned) : Prop := {
  cl_heap : heap_ok base start h G (in_use l);
  cl_len b : b ∈ l → 0 ≤ o_len b ≤ 1073741816;
  cl_val b off : b ∈ l → 0 ≤ off < o_len b → u_mem h (o_ptr b + off) = o_val b off }.

(** Before the first call. *)
Definition untouched (base start : Z) (h : heap) : Prop :=
  freep h = 0 ∧ u_brk h = start ∧ 0 < base ∧ base + HDR ≤ start < KERNBASE.

Lemma units_ok n : 0 ≤ n ≤ 1073741816 → 0 < units n ≤ 134217728 ∧ n + HDR ≤ HDR * units n.
Proof.
  intros Hn. unfold units, HDR. rewrite (u32_small (n + 8 - 1)) by (unfold is_u32; lia).
  pose proof (Z.div_mod (n + 8 - 1) 8 ltac:(lia)). pose proof (Z.mod_pos_bound (n + 8 - 1) 8 ltac:(lia)).
  rewrite u32_small by (unfold is_u32; lia). lia.
Qed.

(** The bytes of a block lie inside it. *)
Lemma owned_inside b off : 0 ≤ o_len b ≤ 1073741816 → 0 ≤ off < o_len b →
  o_ptr b - HDR ≤ o_ptr b + off < hi (o_ptr b - HDR, units (o_len b)).
Proof.
  intros Hl Hoff. destruct (units_ok (o_len b) Hl). unfold hi, HDR in *. cbn. lia.
Qed.

Lemma first_call base start h : untouched base start h →
  heap_ok base start (h <| u_mem ::= λ m, set_size base 0 (set_ptr base base m) |> <| freep := base |>) [(base, 0)] [].
Proof.
  intros (Hf & Hb & H0 & Hs). unfold HDR, KERNBASE in *. constructor; cbn.
  - constructor; cbn; [done|done|done| |].
    + intros b ->%list_elem_of_singleton. by left.
    + intros b ->%list_elem_of_singleton. unfold hi, HDR. cbn. lia.
  - rewrite ptr_set_size, ptr_set_ptr, size_set_size by (unfold is_u32; lia). done.
  - left.
  - intros b Hb'. by apply not_elem_of_nil in Hb'.
  - unfold KERNBASE. lia.
  - unfold HDR. lia.
  - intros b ->%list_elem_of_singleton. by left.
  - lia.
Qed.

Lemma malloc_step base start h G l n : heap_ok base start h G (in_use l) → (∀ b, b ∈ l → 0 ≤ o_len b ≤ 1073741816) →
  (∀ b off, b ∈ l → 0 ≤ off < o_len b → u_mem h (o_ptr b + off) = o_val b off) → 0 ≤ n ≤ 1073741816 →
  ∃ h' l' G', ('(r, h) ← malloc_loop 1 (units n) (freep h) h;
      Some (h, if r =? 0 then l else Own r n (λ off, u_mem h (r + off)) :: l)) = Some (h', l') ∧ client_ok base start h' G' l'.
Proof.
  intros H Hl Hv Hn. destruct (units_ok n Hn) as [Hu Hun].
  destruct (malloc_loop_ok base start h G (in_use l) (units n) H Hu) as (r & h' & -> & Hr). cbn.
  destruct Hr as [[-> [g ->]]|(b & G' & -> & Hok & Hk)].
  - cbn. eexists _, _, G. split; [done|]. constructor; [|done|done]. destruct H. by constructor.
  - pose proof (la_range _ _ _ _ (ho_layout _ _ _ _ _ Hok) (b, units n) ltac:(set_solver)) as [Hb _].
    pose proof (ho_brk _ _ _ _ _ Hok) as [Hb0 _]. cbn in Hb. rewrite (proj2 (Z.eqb_neq _ _)) by (unfold HDR; lia).
    eexists _, _, G'. split; [done|]. constructor.
    + cbn. replace (b + HDR - HDR) with b by lia. done.
    + intros c [->|Hc]%elem_of_cons; [done|auto].
    + intros c off [->|Hc]%elem_of_cons Ho; [done|]. rewrite <-(Hv c off Hc Ho).
      apply (Hk (o_ptr c - HDR, units (o_len c))); [by apply (list_elem_of_fmap_2 (λ b, (o_ptr b - HDR, units (o_len b))))|].
      by apply owned_inside; [apply Hl|].
Qed.

Lemma apart_lookup l i j x y : apart l → l !! i = Some x → l !! j = Some y → i ≠ j → disj x y.
Proof.
  revert i j. induction l as [|z l IH]; intros i j; [done|]. intros [H1 H2]. rewrite Forall_forall in H1.
  destruct i as [|i], j as [|j]; cbn; [done|..].
  - intros [= ->] Hj _. apply H1. by eapply list_elem_of_lookup_2.
  - intros Hi [= ->] _. symmetry. apply H1. by eapply list_elem_of_lookup_2.
  - intros Hi Hj Hne. apply (IH i j); [done|done|done|congruence].
Qed.

Lemma heap_ok_perm base start h G A A' : A ≡ₚ A' → heap_ok base start h G A → heap_ok base start h G A'.
Proof.
  intros Hp [[Lf La Lp Lr Lg] Hs Hf Hu Hb Hst Hlow Hall].
  assert (Hin : ∀ b, b ∈ G ++ A' → b ∈ G ++ A) by (intros b; by rewrite Hp).
  constructor; [constructor; [done|done|by rewrite <-Hp|auto|auto]|done|done| |done|done|auto|].
  - intros b Hb'. apply Hu. by rewrite Hp.
  - intros x Hx. destruct (Hall x Hx) as (b & Hb' & Hbx). exists b. split; [by rewrite <-Hp|done].
Qed.

(** Writing inside a block keeps the headers. *)
Lemma heap_ok_mem base start h G A m : (∀ b, b ∈ G ++ A → same_hdr (u_mem h) m b.1) → heap_ok base start h G A →
  heap_ok base start (h <| u_mem := m |>) G A.
Proof.
  intros Hm [L Hs Hf Hu Hb Hst Hlow Hall]. constructor; cbn; [done| |done| |done|done|done|done].
  - revert Hs. apply seg_frame. intros b Hb'. apply Hm. set_solver.
  - intros b Hb'. destruct (Hm b ltac:(set_solver)) as [_ ->]. auto.
Qed.

Lemma in_use_lookup l i b : l !! i = Some b → in_use l !! i = Some (o_ptr b - HDR, units (o_len b)).
Proof. unfold in_use. rewrite list_lookup_fmap. by intros ->. Qed.

Lemma in_use_delete l i b : l !! i = Some b → in_use l ≡ₚ (o_ptr b - HDR, units (o_len b)) :: in_use (delete i l).
Proof. intros Hi. unfold in_use. by rewrite (delete_Permutation l i b Hi) at 1. Qed.

Lemma free_step base start h G l i b : client_ok base start h G l → l !! i = Some b →
  ∃ h' G', free (o_ptr b) h = Some h' ∧ client_ok base start h' G' (delete i l).
Proof.
  intros [H Hl Hv] Hi. assert (Hb : b ∈ l) by (by eapply list_elem_of_lookup_2). destruct (units_ok _ (Hl b Hb)) as [Hu _].
  eapply heap_ok_perm in H; [|by apply in_use_delete].
  destruct (free_heap_ok _ _ _ _ _ _ _ H ltac:(lia)) as (h' & G' & E & Hok & _ & _ & _ & Hk).
  assert (Ep : u32 (o_ptr b - HDR + HDR) = o_ptr b).
  { replace (o_ptr b - HDR + HDR) with (o_ptr b) by lia.
    pose proof (la_range _ _ _ _ (ho_layout _ _ _ _ _ H) (o_ptr b - HDR, units (o_len b)) ltac:(set_solver)) as [? ?].
    pose proof (ho_brk _ _ _ _ _ H). apply u32_small. unfold is_u32, hi, HDR, KERNBASE in *. cbn in *. lia. }
  rewrite Ep in E. exists h', G'. split; [done|].
  assert (Hsub : ∀ c, c ∈ delete i l → c ∈ l).
  { intros c Hc. rewrite (delete_Permutation l i b Hi). by right. }
  constructor; [done|auto|]. intros c off Hc Ho. rewrite <-(Hv c off (Hsub c Hc) Ho).
  apply (Hk (o_ptr c - HDR, units (o_len c))); [by apply (list_elem_of_fmap_2 (λ b, (o_ptr b - HDR, units (o_len b))))|].
  apply owned_inside; [by apply Hl, Hsub|done].
Qed.

Lemma store_step base start h G l i b off v : client_ok base start h G l → l !! i = Some b → 0 ≤ off < o_len b →
  client_ok base start (h <| u_mem ::= <[o_ptr b + off := v]> |>) G
    (alter (λ b, Own (o_ptr b) (o_len b) (<[off := v]> (o_val b))) i l).
Proof.
  intros [H Hl Hv] Hi Ho. assert (Hb : b ∈ l) by (by eapply list_elem_of_lookup_2).
  pose proof (owned_inside b off (Hl b Hb) Ho) as Hin. pose proof (la_apart _ _ _ _ (ho_layout _ _ _ _ _ H)) as Hap.
  assert (Hother : ∀ k c, (G ++ in_use l) !! k = Some c → k ≠ (length G + i)%nat → o_ptr b + off < c.1 ∨ hi c ≤ o_ptr b + off).
  { intros k c Hc Hk.
    assert (Hbl : (G ++ in_use l) !! (length G + i)%nat = Some (o_ptr b - HDR, units (o_len b))).
    { rewrite lookup_app_r by lia. replace (length G + i - length G)%nat with i by lia. by apply in_use_lookup. }
    destruct (apart_lookup _ _ _ _ _ Hap Hc Hbl Hk) as [?|?]; cbn in *; lia. }
  assert (Euse : in_use (alter (λ b, Own (o_ptr b) (o_len b) (<[off := v]> (o_val b))) i l) = in_use l).
  { unfold in_use. apply list_eq. intros k. rewrite !list_lookup_fmap, list_lookup_alter. case_decide as E; [subst k|done].
    by destruct (l !! i). }
  constructor.
  - rewrite Euse. apply heap_ok_mem; [|done]. intros c (k & Hk)%list_elem_of_lookup.
    assert (Hx : o_ptr b + off < c.1 ∨ c.1 + HDR ≤ o_ptr b + off).
    { destruct (decide (k = length G + i)%nat) as [->|Hne]; [|pose proof (hi_ge c); destruct (Hother k c Hk Hne); lia].
      rewrite lookup_app_r in Hk by lia. replace (length G + i - length G)%nat with i in Hk by lia.
      rewrite (in_use_lookup l i b Hi) in Hk. injection Hk as <-. right. unfold HDR. cbn. lia. }
    unfold HDR in Hx. split; apply ld4_ext; intros x Hxr; rewrite fn_lookup_insert_ne by lia; done.
  - intros c (k & Hk)%list_elem_of_lookup. rewrite list_lookup_alter in Hk. case_decide as E; [subst k|by apply Hl; eapply list_elem_of_lookup_2].
    rewrite Hi in Hk. injection Hk as <-. cbn. by apply Hl.
  - intros c off' (k & Hk)%list_elem_of_lookup Ho'. rewrite list_lookup_alter in Hk. cbn [u_mem upd]. case_decide as E.
    + subst k. rewrite Hi in Hk. injection Hk as <-. cbn in *. unfold insert, fn_insert.
      destruct (decide (off = off')) as [->|Hne]; [by rewrite decide_True|]. rewrite decide_False by lia. by apply Hv.
    + assert (Hc : c ∈ l) by (by eapply list_elem_of_lookup_2). rewrite <-(Hv c off' Hc Ho').
      cbn. apply fn_lookup_insert_ne.
      assert (Hcl : (G ++ in_use l) !! (length G + k)%nat = Some (o_ptr c - HDR, units (o_len c))).
      { rewrite lookup_app_r by lia. replace (length G + k - length G)%nat with k by lia. by apply in_use_lookup. }
      pose proof (owned_inside c off' (Hl c Hc) Ho'). destruct (Hother _ _ Hcl ltac:(lia)); cbn in *; lia.
Qed.

(** The client's state: before the first call, or with a free list. *)
Definition client_inv (base start : Z) (h : heap) (l : list owned) : Prop :=
  (untouched base start h ∧ l = []) ∨ ∃ G, client_ok base start h G l.

Lemma client_step_ok base start o h l : client_inv base start h l → op_ok o →
  ∃ h' l', client_step base o (h, l) = Some (h', l') ∧ client_inv base start h' l'.
Proof.
  intros Hi Ho. destruct o as [n|i|i off v]; cbn [client_step].
  - unfold malloc. destruct Hi as [[Hun ->]|[G [H Hl Hv]]].
    + pose proof (first_call base start h Hun) as H. destruct Hun as [Hf _]. rewrite Hf. cbn [Z.eqb].
      destruct (malloc_step base start _ _ [] n H) as (h' & l' & G' & E & Hok); [by intros b ?%not_elem_of_nil|by intros b off ?%not_elem_of_nil|done|].
      exists h', l'. split; [exact E|]. right. by exists G'.
    + pose proof (ho_freep _ _ _ _ _ H) as (c & Ec & Hc)%list_elem_of_fmap.
      pose proof (la_range _ _ _ _ (ho_layout _ _ _ _ _ H) c ltac:(set_solver)) as [? _]. pose proof (ho_brk _ _ _ _ _ H) as [? _].
      rewrite (proj2 (Z.eqb_neq _ 0)) by lia.
      destruct (malloc_step base start h G l n H Hl Hv Ho) as (h' & l' & G' & E & Hok).
      exists h', l'. split; [exact E|]. right. by exists G'.
  - destruct (l !! i) as [b|] eqn:Hb; [|by exists h, l]. destruct Hi as [[_ ->]|[G H]]; [done|].
    destruct (free_step base start h G l i b H Hb) as (h' & G' & E & Hok). rewrite E. cbn. eexists _, _. split; [done|].
    right. by exists G'.
  - destruct (l !! i) as [b|] eqn:Hb; [|by exists h, l]. destruct Hi as [[_ ->]|[G H]]; [done|].
    destruct (Z.leb_spec 0 off); [|cbn; exists h, l; split; [done|right; by exists G]].
    destruct (Z.ltb_spec off (o_len b)); [|cbn; exists h, l; split; [done|right; by exists G]].
    cbn. eexists _, _. split; [done|]. right. exists G. by apply store_step.
Qed.

Lemma client_run_ok base start os h l : client_inv base start h l → Forall op_ok os →
  ∃ h' l', client base os (h, l) = Some (h', l') ∧ client_inv base start h' l'.
Proof.
  revert h l. induction os as [|o os IH]; intros h l Hi Ho; [by exists h, l|]. apply Forall_cons in Ho as [Ho Hos].
  destruct (client_step_ok base start o h l Hi Ho) as (h1 & l1 & E & Hi1). cbn [client]. rewrite E. cbn. by apply IH.
Qed.

(** C9. The allocator is safe.  A process whose heap starts at [start] calls
    [malloc] (up to 1 GB at a time) and [free], each block freed at most
    once, and stores into the blocks it has, in any order; [sbrk] is granted
    or refused as it may be.  Every call returns; every block it gets lies
    in the heap, holds the bytes asked for and overlaps no other; every
    block still holds what was stored in it; and every byte of the heap
    belongs to a free block or to a block in use. *)
Theorem malloc_safe base start os h :
  untouched base start h → Forall op_ok os →
  ∃ h' l, client base os (h, []) = Some (h', l) ∧
    (∀ b, b ∈ l → start ≤ o_ptr b ∧ o_ptr b + o_len b ≤ u_brk h' ∧
       ∀ off, 0 ≤ off < o_len b → u_mem h' (o_ptr b + off) = o_val b off) ∧
    (∀ i j b c, l !! i = Some b → l !! j = Some c → i ≠ j →
       o_ptr b + o_len b ≤ o_ptr c ∨ o_ptr c + o_len c ≤ o_ptr b) ∧
    (freep h' ≠ 0 → ∃ G, seg (u_mem h') G base ∧ asc G ∧ apart (G ++ in_use l) ∧
       ∀ x, start ≤ x < u_brk h' → covers (G ++ in_use l) x).
Proof.
  intros Hun Ho. destruct (client_run_ok base start os h [] (or_introl (conj Hun eq_refl)) Ho) as (h' & l & E & Hi).
  exists h', l. split; [done|]. destruct Hi as [[(Hf & _) ->]|[G [H Hl Hv]]].
  { split; [by intros b ?%not_elem_of_nil|]. split; [done|]. by rewrite Hf. }
  pose proof (ho_layout _ _ _ _ _ H) as L.
  assert (Hin : ∀ b, b ∈ l → (o_ptr b - HDR, units (o_len b)) ∈ G ++ in_use l).
  { intros b Hb. apply elem_of_app. right. by apply (list_elem_of_fmap_2 (λ b, (o_ptr b - HDR, units (o_len b)))). }
  split; [|split].
  - intros b Hb. destruct (units_ok _ (Hl b Hb)) as [? ?]. destruct (la_range _ _ _ _ L _ (Hin b Hb)) as [_ Hhi].
    destruct (ho_low _ _ _ _ _ H _ (Hin b Hb)) as [Elo|Hlo].
    { destruct (ho_used _ _ _ _ _ H (o_ptr b - HDR, units (o_len b))) as [_ Hnb]; [|done].
      by apply (list_elem_of_fmap_2 (λ b, (o_ptr b - HDR, units (o_len b)))). }
    unfold hi, HDR in *. cbn in *. split; [lia|]. split; [lia|]. intros off Ho'. by apply Hv.
  - intros i j b c Hb Hc Hne. pose proof (la_apart _ _ _ _ L) as (_ & Ha & _)%apart_app.
    pose proof (apart_lookup _ _ _ _ _ Ha (in_use_lookup l i b Hb) (in_use_lookup l j c Hc) Hne) as Hd.
    destruct (units_ok _ (Hl b ltac:(by eapply list_elem_of_lookup_2))) as [? ?].
    destruct (units_ok _ (Hl c ltac:(by eapply list_elem_of_lookup_2))) as [? ?]. unfold disj, hi, HDR in *. cbn in *. lia.
  - intros _. exists G. split; [by destruct H|]. split; [by destruct L|]. split; [by destruct L|by destruct H].
Qed.

(** Two blocks, a store, the first one freed and reused. *)
Definition sample_ops : list op := [Malloc 10; Malloc 100; Store 0 99 7; Free 1; Malloc 8].
Definition fresh_heap : heap := Heap (λ _, 0) 0 16384 [true; false].

Lemma malloc_safe_witness :
  ∃ h' l, client 8192 sample_ops (fresh_heap, []) = Some (h', l) ∧
    (∀ b, b ∈ l → 16384 ≤ o_ptr b ∧ o_ptr b + o_len b ≤ u_brk h' ∧
       ∀ off, 0 ≤ off < o_len b → u_mem h' (o_ptr b + off) = o_val b off) ∧
    (∀ i j b c, l !! i = Some b → l !! j = Some c → i ≠ j →
       o_ptr b + o_len b ≤ o_ptr c ∨ o_ptr c + o_len c ≤ o_ptr b) ∧
    (freep h' ≠ 0 → ∃ G, seg (u_mem h') G 8192 ∧ asc G ∧ apart (G ++ in_use l) ∧
       ∀ x, 16384 ≤ x < u_brk h' → covers (G ++ in_use l) x).
Proof.
  apply (malloc_safe 8192 16384 sample_ops fresh_heap).
  - unfold untouched, HDR, KERNBASE. cbn. lia.
  - repeat constructor; cbn; lia.
Defined.

(** A length near the top of the range wraps: [malloc] sets aside one header
    and returns a block with no room at all. *)
Lemma units_wrap n : 4294967289 ≤ n < 4294967296 → units n = 1.
Proof.
  intros Hn. unfold units, HDR. assert (E : u32 (n + 8 - 1) = n - 4294967289).
  { unfold u32. replace (n + 8 - 1) with (n - 4294967289 + 1 * 4294967296) by lia. rewrite Z_mod_plus_full. apply Z.mod_small. lia. }
  rewrite E. rewrite Z.div_small by lia. done.
Qed.
