(* ===== verification/Mp.v ===== *)
(** * Finding the processors (mp.c, mp.h)

    The BIOS leaves a floating pointer structure in low memory; it leads to a
    table with an entry for each processor, bus, I/O APIC and interrupt.
    Structures are read from the bytes of memory at the offsets of mp.h.

    The results: [mpsearch1] finds the first structure of its area with the
    right signature and checksum; on a table of the entries mp.h names,
    [mpinit] ends and has the first [NCPU] processors, in order, and the last
    I/O APIC; on a table with another entry it never ends, so its last panic
    is dead code. *)
From S2P Require Import Prelude State CString Kalloc.

Definition NCPU : nat := 1.
(** Table entry types. *)
Definition MPPROC : Z := 0.
Definition MPBUS : Z := 1.
Definition MPIOAPIC : Z := 2.
Definition MPIOINTR : Z := 3.
Definition MPLINTR : Z := 4.
(** Sizes of [struct mp], [mpconf], [mpproc] and [mpioapic]. *)
Definition sizeof_mp : nat := 16.
Definition sizeof_mpconf : nat := 44.
Definition sizeof_mpproc : nat := 20.
Definition sizeof_mpioapic : nat := 8.

Definition mp_physaddr (m : mem) (p : Z) : Z := ld4 m (p + 4).
Definition mp_imcrp (m : mem) (p : Z) : Z := m (p + 12).
Definition conf_length (m : mem) (p : Z) : Z := ld2 m (p + 4).
Definition conf_version (m : mem) (p : Z) : Z := m (p + 6).
Definition conf_lapicaddr (m : mem) (p : Z) : Z := ld4 m (p + 36).

(** Memory, the variables [cpus] (their [apicid] fields), [ncpu], [ioapicid]
    and [lapic], and the bytes written to ports. *)
Record mpstate := MPState {
  x_mem : mem; cpus : list Z; ncpu : nat; ioapicid : Z; lapic : Z; x_out : list (Z * Z) }.
#[global] Instance eta_mpstate : Eta mpstate := λ r,
  MPState (x_mem r) (cpus r) (ncpu r) (ioapicid r) (lapic r) (x_out r).
Abbreviation MM := (M mpstate).
Definition outb (port v : Z) : MM unit := modify (λ s, s <| x_out ::= (.++ [(port, v)]) |>).

(** ** Searching *)
Fixpoint sum_from (m : mem) (addr : Z) (len : nat) : Z :=
  match len with
  | O => 0
  | S len => m addr + sum_from m (addr + 1) len
  end.
Definition sum (m : mem) (addr : Z) (len : nat) : Z := u8 (sum_from m addr len).

(** [n] is the number of rounds: one for each started 16 bytes. *)
Fixpoint mpsearch_from (n : nat) (m : mem) (p : Z) : Z :=
  match n with
  | O => 0
  | S n =>
      if (KString.memcmp (at_ m p) (rd [95; 77; 80; 95]) 4 =? 0) && (sum m p sizeof_mp =? 0) then p
      else mpsearch_from n m (p + Z.of_nat sizeof_mp)
  end.
Definition mpsearch1 (m : mem) (a : Z) (len : nat) : Z :=
  mpsearch_from ((len + sizeof_mp - 1) / sizeof_mp) m (P2V a).

Definition mpsearch (m : mem) : Z :=
  let bda := P2V 1024 in
  let p := Z.shiftl (Z.lor (Z.shiftl (m (bda + 15)) 8) (m (bda + 14))) 4 in
  let mp := if negb (p =? 0) then mpsearch1 m p 1024
            else mpsearch1 m (u32 (Z.lor (Z.shiftl (m (bda + 20)) 8) (m (bda + 19)) * 1024 - 1024)) 1024 in
  if negb (mp =? 0) then mp else mpsearch1 m 983040 65536.

(** The floating pointer and the table. *)
Definition mpconfig (m : mem) : option (Z * Z) :=
  let mp := mpsearch m in
  if (mp =? 0) || (mp_physaddr m mp =? 0) then None else
  let conf := P2V (mp_physaddr m mp) in
  if negb (KString.memcmp (at_ m conf) (rd [80; 67; 77; 80]) 4 =? 0) then None else
  if negb (conf_version m conf =? 1) && negb (conf_version m conf =? 4) then None else
  if negb (sum m conf (Z.to_nat (conf_length m conf)) =? 0) then None else
  Some (mp, conf).

(** ** mpinit *)
Definition add_cpu (apicid : Z) (s : mpstate) : mpstate :=
  if (ncpu s <? NCPU)%nat then s <| cpus ::= <[ncpu s := apicid]> |> <| ncpu ::= S |> else s.

(** The loop over the entries.  The [break] of the last case leaves the
    switch, not the loop, and [p] stays.  Without rounds left the loop goes
    on. *)
Fixpoint mp_entries (n : nat) (p e : Z) (ismp : bool) : MM bool :=
  if p <? e then
    match n with
    | O => λ _ s, Asleep s
    | S n =>
        m <- gets x_mem ;;
        if m p =? MPPROC then
          modify (add_cpu (m (p + 1))) ;;
          mp_entries n (p + Z.of_nat sizeof_mpproc) e ismp
        else if m p =? MPIOAPIC then
          modify (λ s, s <| ioapicid := m (p + 1) |>) ;;
          mp_entries n (p + Z.of_nat sizeof_mpioapic) e ismp
        else if (m p =? MPBUS) || (m p =? MPIOINTR) || (m p =? MPLINTR) then
          mp_entries n (p + 8) e ismp
        else mp_entries n p e false
    end
  else ret ismp.

Section mpinit.
(** What the interrupt mode configuration register reads. *)
Context (imcr : Z).

(** [rounds]: the rounds the loop is given. *)
Definition mpinit_with (rounds : nat) : MM unit :=
  m <- gets x_mem ;;
  match mpconfig m with
  | None => panic "Expect to run on an SMP"
  | Some (mp, conf) =>
      modify (λ s, s <| lapic := conf_lapicaddr m conf |>) ;;
      ismp <- mp_entries rounds (conf + Z.of_nat sizeof_mpconf) (conf + conf_length m conf) true ;;
      if negb ismp then panic "Didn't find a suitable machine" else
      when (negb (mp_imcrp m mp =? 0))
        (outb 34 112 ;; outb 35 (Z.lor imcr 1))
  end.
(** An entry has 8 bytes or more, and a table at most 65535. *)
Definition mpinit : MM unit := mpinit_with (Z.to_nat 8192).

(** ** The search finds the first structure *)
Definition mp_valid (m : mem) (p : Z) : bool :=
  (KString.memcmp (at_ m p) (rd [95; 77; 80; 95]) 4 =? 0) && (sum m p sizeof_mp =? 0).

Lemma mpsearch_from_spec n m p : 0 < p →
  (∃ i, (i < n)%nat ∧ mpsearch_from n m p = p + 16 * Z.of_nat i ∧ mp_valid m (p + 16 * Z.of_nat i) = true ∧
     ∀ j, (j < i)%nat → mp_valid m (p + 16 * Z.of_nat j) = false) ∨
  mpsearch_from n m p = 0 ∧ ∀ j, (j < n)%nat → mp_valid m (p + 16 * Z.of_nat j) = false.
Proof.
  revert p. induction n as [|n IH]; intros p Hp; [right; split; [done|lia]|].
  cbn [mpsearch_from]. fold (mp_valid m p). destruct (mp_valid m p) eqn:V.
  - left. exists 0%nat. rewrite Z.mul_0_r, Z.add_0_r. split; [lia|]. split; [done|]. split; [done|lia].
  - change (Z.of_nat sizeof_mp) with 16.
    assert (Hs : ∀ j, (∀ k, (k < j)%nat → mp_valid m (p + 16 + 16 * Z.of_nat k) = false) →
                 ∀ k, (k < S j)%nat → mp_valid m (p + 16 * Z.of_nat k) = false).
    { intros j H [|k] Hk; [by rewrite Z.mul_0_r, Z.add_0_r|].
      replace (p + 16 * Z.of_nat (S k)) with (p + 16 + 16 * Z.of_nat k) by lia. apply H. lia. }
    destruct (IH (p + 16) ltac:(lia)) as [(i & Hi & E & Vi & Hb)|[E Hb]].
    + left. exists (S i). replace (p + 16 * Z.of_nat (S i)) with (p + 16 + 16 * Z.of_nat i) by lia.
      split; [lia|]. split; [done|]. split; [done|]. by apply Hs.
    + right. split; [done|]. by apply Hs.
Qed.

(** ** Tables of known entries *)
Inductive item := Proc (apicid : Z) (rest : list Z) | Ioapic (apicno : Z) (rest : list Z) | Other (type : Z) (rest : list Z).

Definition bytes_of (it : item) : list Z :=
  match it with
  | Proc id rest => MPPROC :: id :: rest
  | Ioapic id rest => MPIOAPIC :: id :: rest
  | Other t rest => t :: rest
  end.
Definition item_ok (it : item) : Prop :=
  match it with
  | Proc _ rest => length rest = 18%nat
  | Ioapic _ rest => length rest = 6%nat
  | Other t rest => t ∈ [MPBUS; MPIOINTR; MPLINTR] ∧ length rest = 7%nat
  end.
Definition holds (m : mem) (a : Z) (l : list Z) : Prop := ∀ i, (i < length l)%nat → m (a + Z.of_nat i) = l !!! i.

(** What a table says: its processors, and its last I/O APIC. *)
Definition procs_of (its : list item) : list Z := omap (λ it, match it with Proc id _ => Some id | _ => None end) its.
Definition ioapics_of (its : list item) : list Z := omap (λ it, match it with Ioapic id _ => Some id | _ => None end) its.

Definition scan_item (it : item) (s : mpstate) : mpstate :=
  match it with
  | Proc id _ => add_cpu id s
  | Ioapic id _ => s <| ioapicid := id |>
  | Other _ _ => s
  end.
Fixpoint scan (its : list item) (s : mpstate) : mpstate :=
  match its with
  | [] => s
  | it :: its => scan its (scan_item it s)
  end.

Lemma holds_app m a l l' : holds m a (l ++ l') → holds m a l ∧ holds m (a + Z.of_nat (length l)) l'.
Proof.
  intros H. split; intros i Hi.
  - rewrite H by (rewrite length_app; lia). by rewrite lookup_total_app_l.
  - replace (a + Z.of_nat (length l) + Z.of_nat i) with (a + Z.of_nat (length l + i)) by lia.
    rewrite H by (rewrite length_app; lia). rewrite lookup_total_app_r by lia. f_equal. lia.
Qed.
Lemma add_cpu_fields id s : x_mem (add_cpu id s) = x_mem s ∧ ioapicid (add_cpu id s) = ioapicid s ∧
  x_out (add_cpu id s) = x_out s ∧ lapic (add_cpu id s) = lapic s.
Proof. unfold add_cpu. by destruct (ncpu s <? NCPU)%nat. Qed.
Lemma scan_fields its s : x_mem (scan its s) = x_mem s ∧ x_out (scan its s) = x_out s ∧ lapic (scan its s) = lapic s.
Proof.
  revert s. induction its as [|it its IH]; intros s; [done|]. cbn [scan]. destruct (IH (scan_item it s)) as (-> & -> & ->).
  destruct it; [|done..]. cbn [scan_item]. by destruct (add_cpu_fields apicid s) as (-> & _ & -> & ->).
Qed.
Lemma item_size it : item_ok it → (8 ≤ length (bytes_of it))%nat ∧
  length (bytes_of it) = match it with Proc _ _ => 20%nat | _ => 8%nat end.
Proof. destruct it; simpl; lia. Qed.

(** The loop over known entries, up to what follows them. *)
Lemma mp_entries_scan its n p e env s :
  Forall item_ok its → holds (x_mem s) p (its ≫= bytes_of) → p + Z.of_nat (length (its ≫= bytes_of)) ≤ e →
  mp_entries (length its + n) p e true env s =
    mp_entries n (p + Z.of_nat (length (its ≫= bytes_of))) e true env (scan its s).
Proof.
  revert p s. induction its as [|it its IH]; intros p s Hok Hh He; [cbn; by rewrite Z.add_0_r|].
  apply Forall_cons in Hok as [Ho Hok]. cbn [mbind list_bind] in *. apply holds_app in Hh as [Hh Ht].
  rewrite length_app in *. destruct (item_size it Ho) as [Hs Hs'].
  assert (B : ∀ i, (i < 2)%nat → x_mem s (p + Z.of_nat i) = bytes_of it !!! i) by (intros i Hi; apply Hh; lia).
  pose proof (B 0%nat ltac:(lia)) as B0. pose proof (B 1%nat ltac:(lia)) as B1. change (Z.of_nat 0) with 0 in B0.
  change (Z.of_nat 1) with 1 in B1. rewrite Z.add_0_r in B0. clear B.
  cbn [length plus mp_entries]. rewrite (proj2 (Z.ltb_lt _ _)) by lia. rewrite bind_gets, B0.
  rewrite Nat2Z.inj_add, Z.add_assoc in *. cbn [scan].
  destruct it as [id rest|id rest|t rest]; cbn [bytes_of lookup_total list_lookup_total] in *.
  - change (MPPROC =? MPPROC) with true. cbv iota. rewrite bind_modify, B1.
    change (Z.of_nat sizeof_mpproc) with 20. rewrite Hs' in *. change (Z.of_nat 20) with 20 in *.
    rewrite <-IH; [done|done| |done]. cbn [scan_item]. by rewrite (proj1 (add_cpu_fields id s)).
  - change (MPIOAPIC =? MPPROC) with false. change (MPIOAPIC =? MPIOAPIC) with true. cbv iota.
    rewrite bind_modify, B1. change (Z.of_nat sizeof_mpioapic) with 8. rewrite Hs' in *. change (Z.of_nat 8) with 8 in *.
    by rewrite <-IH.
  - destruct Ho as [Ho _]. rewrite Hs' in *. change (Z.of_nat 8) with 8 in *.
    rewrite !elem_of_cons, elem_of_nil in Ho. destruct Ho as [->|[->|[->|[]]]]; cbv iota; by rewrite <-IH.
Qed.

#[local] Opaque NCPU.
Lemma last_cons_default (l : list Z) a d : List.last (a :: l) d = List.last l a.
Proof. revert a d. induction l as [|b l IH]; intros a d; [done|]. change (List.last (a :: b :: l) d) with (List.last (b :: l) d). by rewrite !IH. Qed.
Lemma add_cpu_known id s : length (cpus s) = NCPU → (ncpu s ≤ NCPU)%nat →
  length (cpus (add_cpu id s)) = NCPU ∧ ncpu (add_cpu id s) = (S (ncpu s) `min` NCPU)%nat ∧
  take (ncpu (add_cpu id s)) (cpus (add_cpu id s)) = take NCPU (take (ncpu s) (cpus s) ++ [id]).
Proof.
  intros Hl Hn. unfold add_cpu. destruct (Nat.ltb_spec (ncpu s) NCPU) as [H|H].
  - cbn -[Nat.min take]. rewrite length_insert. split; [done|]. split; [lia|].
    rewrite (take_ge (_ ++ _)) by (rewrite length_app, length_take; cbn [length]; lia).
    rewrite (take_S_r _ _ id) by (apply list_lookup_insert_eq; lia). f_equal. rewrite take_insert. by rewrite decide_False by lia.
  - split; [done|]. split; [lia|]. replace (ncpu s) with NCPU by lia. by rewrite (take_ge (cpus s)), take_app_length' by lia.
Qed.

Lemma take_take_app {A} n (l k : list A) : take n (take n l ++ k) = take n (l ++ k).
Proof.
  destruct (decide (length l ≤ n)%nat) as [H|H]; [by rewrite (take_ge l)|].
  rewrite take_app_length', take_app_le by (rewrite ?length_take; lia). done.
Qed.
Lemma scan_known its s : length (cpus s) = NCPU → (ncpu s ≤ NCPU)%nat →
  take (ncpu (scan its s)) (cpus (scan its s)) = take NCPU (take (ncpu s) (cpus s) ++ procs_of its) ∧
  ncpu (scan its s) = ((ncpu s + length (procs_of its)) `min` NCPU)%nat ∧
  ioapicid (scan its s) = List.last (ioapics_of its) (ioapicid s).
Proof.
  revert s. induction its as [|it its IH]; intros s Hl Hn; cbn [scan].
  - change (procs_of []) with (@nil Z). rewrite app_nil_r, (take_ge (take _ _)) by (rewrite length_take; lia).
    split; [done|]. split; [cbn [length]; lia|done].
  - destruct it as [id rest|id rest|t rest]; cbn [scan_item].
    + destruct (add_cpu_known id s Hl Hn) as (L & N & K). destruct (IH (add_cpu id s)) as (-> & -> & ->); [done|lia|].
      rewrite N, <-N, K. rewrite (proj1 (proj2 (add_cpu_fields id s))).
      split; [|split; [|done]].
      * change (procs_of (Proc id rest :: its)) with ([id] ++ procs_of its). rewrite app_assoc.
        apply take_take_app.
      * change (procs_of (Proc id rest :: its)) with ([id] ++ procs_of its). rewrite length_app. cbn [length]. lia.
    + destruct (IH (s <| ioapicid := id |>)) as (-> & -> & ->); [done..|]. split; [done|]. split; [done|].
      change (ioapics_of (Ioapic id rest :: its)) with (id :: ioapics_of its). by rewrite last_cons_default.
    + by apply IH.
Qed.

Lemma few_items its : Forall item_ok its → (8 * length its ≤ length (its ≫= bytes_of))%nat.
Proof.
  induction 1 as [|it its Ho _ IH]; [done|]. change ((it :: its) ≫= bytes_of) with (bytes_of it ++ (its ≫= bytes_of)).
  rewrite length_app. destruct (item_size it Ho). cbn [length]. lia.
Qed.

(** The memory that [mpconfig] accepts, with the entries of the table. *)
Record table_at (m : mem) (mp conf : Z) (its : list item) (more : Z) : Prop := {
  tl_conf : mpconfig m = Some (mp, conf);
  tl_bytes : ∀ i, is_byte (m i);
  tl_items : Forall item_ok its;
  tl_holds : holds m (conf + 44) (its ≫= bytes_of);
  tl_length : conf_length m conf = 44 + Z.of_nat (length (its ≫= bytes_of)) + more }.

Lemma table_rounds m mp conf its more : table_at m mp conf its more → 0 ≤ more → (length its ≤ Z.to_nat 8192)%nat.
Proof.
  intros [_ Hb Hok _ Hl] Hm. pose proof (few_items its Hok). unfold conf_length, ld2 in Hl.
  pose proof (Hb (conf + 4)). pose proof (Hb (conf + 4 + 1)). unfold is_byte in *. lia.
Qed.

Lemma mpinit_with_scan n mp conf its more env s : table_at (x_mem s) mp conf its more → 0 ≤ more →
  mpinit_with (length its + n) env s =
    bind (mp_entries n (conf + 44 + Z.of_nat (length (its ≫= bytes_of))) (conf + conf_length (x_mem s) conf) true)
      (λ ismp, if negb ismp then panic "Didn't find a suitable machine" else
        when (negb (mp_imcrp (x_mem s) mp =? 0)) (outb 34 112 ;; outb 35 (Z.lor imcr 1)))
      env (scan its (s <| lapic := conf_lapicaddr (x_mem s) conf |>)).
Proof.
  intros [Hc _ Hok Hh Hl] Hm. unfold mpinit_with. rewrite bind_gets, Hc, bind_modify. change (Z.of_nat sizeof_mpconf) with 44.
  unfold bind at 1 3. rewrite mp_entries_scan; [done|done|done|]. lia.
Qed.

(** On a table of processors, I/O APICs, buses and interrupts, in any
    order and number, [mpinit] ends.  It has counted the processors up to
    [NCPU], recorded their identifiers in the order of the table, and kept
    the last I/O APIC; and it has masked the external interrupts exactly when
    the floating pointer structure asks for it. *)
Theorem mpinit_reads_table mp conf its env s :
  table_at (x_mem s) mp conf its 0 → length (cpus s) = NCPU → ncpu s = 0%nat →
  ∃ s', mpinit env s = Done tt s' env ∧
    take (ncpu s') (cpus s') = take NCPU (procs_of its) ∧
    ncpu s' = (length (procs_of its) `min` NCPU)%nat ∧
    ioapicid s' = List.last (ioapics_of its) (ioapicid s) ∧
    lapic s' = conf_lapicaddr (x_mem s) conf ∧
    x_out s' = x_out s ++ (if mp_imcrp (x_mem s) mp =? 0 then [] else [(34, 112); (35, Z.lor imcr 1)]).
Proof.
  intros T Hc Hn. pose proof (table_rounds _ _ _ _ _ T ltac:(lia)) as Hr. unfold mpinit.
  replace (Z.to_nat 8192) with (length its + (Z.to_nat 8192 - length its))%nat by lia. rewrite (mpinit_with_scan _ mp conf its 0) by done.
  set (s1 := s <| lapic := conf_lapicaddr (x_mem s) conf |>).
  assert (E : ∀ n, mp_entries n (conf + 44 + Z.of_nat (length (its ≫= bytes_of))) (conf + conf_length (x_mem s) conf) true env (scan its s1)
    = Done true (scan its s1) env).
  { intros n. destruct T as [_ _ _ _ ->]. destruct n; cbn [mp_entries]; rewrite (proj2 (Z.ltb_ge _ _)) by lia; done. }
  rewrite (bind_done _ _ _ _ _ _ _ (E _)). cbn [negb].
  destruct (scan_known its s1) as (K1 & K2 & K3); [done|change (ncpu s1) with (ncpu s); lia|]. destruct (scan_fields its s1) as (_ & F2 & F3).
  change (ncpu s1) with (ncpu s) in *. rewrite Hn in *. cbn [take app] in K1.
  destruct (mp_imcrp (x_mem s) mp =? 0); cbn [negb when].
  - exists (scan its s1). rewrite F2, F3, app_nil_r. done.
  - eexists. split; [reflexivity|]. cbn -[take Nat.min]. rewrite F2, F3, <-app_assoc. done.
Qed.

Lemma stuck_entry n p e b env m s : p < e → x_mem s = m → 5 ≤ m p → ∃ s', mp_entries n p e b env s = Asleep s'.
Proof.
  intros He Em H5. revert b. induction n as [|n IH]; intros b; cbn [mp_entries]; rewrite (proj2 (Z.ltb_lt _ _)) by lia.
  - by exists s.
  - rewrite bind_gets, Em. unfold MPPROC, MPIOAPIC, MPBUS, MPIOINTR, MPLINTR.
    rewrite !(proj2 (Z.eqb_neq _ _)) by lia. apply IH.
Qed.

(** C40. On a table with an entry of any other type [mpinit] never ends: no
    number of rounds of its loop is enough, and the panic that is to report
    the machine is not reached. *)
Theorem mpinit_unknown_entry mp conf its more env s rounds :
  table_at (x_mem s) mp conf its more → 0 < more →
  5 ≤ x_mem s (conf + 44 + Z.of_nat (length (its ≫= bytes_of))) →
  ∃ s', mpinit_with rounds env s = Asleep s'.
Proof.
  intros [Hc _ Hok Hh Hl] Hm H5. unfold mpinit_with. rewrite bind_gets, Hc, bind_modify.
  change (Z.of_nat sizeof_mpconf) with 44. set (s1 := s <| lapic := _ |>).
  assert (∃ s', mp_entries rounds (conf + 44) (conf + conf_length (x_mem s) conf) true env s1 = Asleep s') as [s' E];
    [|exists s'; unfold bind at 1; by rewrite E].
  rewrite Hl. clear Hl. destruct (decide (length its ≤ rounds)%nat) as [Hr|Hr].
  - replace rounds with (length its + (rounds - length its))%nat by lia.
    rewrite mp_entries_scan by (done || lia). apply (stuck_entry _ _ _ _ _ (x_mem s)); [lia|apply (scan_fields its s1)|done].
  - rewrite <-(take_drop rounds its) in Hok, Hh. apply Forall_app in Hok as [Hok _].
    rewrite bind_app in Hh. apply holds_app in Hh as [Hh _].
    assert (Hlen : (length (take rounds its ≫= bytes_of) ≤ length (its ≫= bytes_of))%nat).
    { rewrite <-(take_drop rounds its) at 2. rewrite bind_app, length_app. lia. }
    epose proof (mp_entries_scan (take rounds its) 0 (conf + 44) (conf + (44 + Z.of_nat (length (its ≫= bytes_of)) + more))
      env s1 Hok Hh _) as E. rewrite length_take, Nat.min_l, Nat.add_0_r in E by lia. rewrite E. cbn [mp_entries]. rewrite (proj2 (Z.ltb_lt _ _)) by lia. by eexists.
    Unshelve. lia.
Qed.
End mpinit.

(** A processor, a bus and an I/O APIC; and a processor followed by an entry
    of type 5. *)
Definition image (l : list Z) : mem := λ a, if (2148466688 <=? a) && (a <? 2148467200) then nth (Z.to_nat (a - 2148466688)) l 0 else 0.
Definition floating : list Z := [95; 77; 80; 95; 16; 0; 15; 0; 1; 4; 1; 0; 128; 0; 0; 0].
Definition known_items : list item := [Proc 7 (replicate 18 0); Other 1 (replicate 7 0); Ioapic 9 (replicate 6 0)].
Definition known_table : list Z := [80; 67; 77; 80; 80; 0; 4; 136; 0; 0; 0; 0; 0; 0; 0; 0; 0; 0; 0; 0; 0; 0; 0; 0; 0; 0; 0; 0; 0; 0; 0; 0; 0; 0; 3; 0; 0; 0; 224; 254; 0; 0; 0; 0].
Definition odd_table : list Z := [80; 67; 77; 80; 72; 0; 4; 153; 0; 0; 0; 0; 0; 0; 0; 0; 0; 0; 0; 0; 0; 0; 0; 0; 0; 0; 0; 0; 0; 0; 0; 0; 0; 0; 1; 0; 0; 0; 224; 254; 0; 0; 0; 0].
Definition mp_start (l : list Z) : mpstate := MPState (image l) [0] 0 0 0 [].

Lemma image_bytes l : Forall is_byte l → ∀ i, is_byte (image l i).
Proof.
  intros H i. unfold image. destruct (_ && _); [|split; lia].
  destruct (nth_in_or_default (Z.to_nat (i - 2148466688)) l 0) as [Hin| -> ]; [|split; lia].
  rewrite Forall_forall in H. apply H. by apply list_elem_of_In.
Qed.

Definition holds_b (m : mem) (a : Z) (l : list Z) : bool := forallb (λ i, m (a + Z.of_nat i) =? l !!! i) (seq 0 (length l)).
Lemma holds_b_true m a l : holds_b m a l = true → holds m a l.
Proof.
  unfold holds_b. rewrite forallb_forall. intros H i Hi. apply Z.eqb_eq, H. apply list_elem_of_In, elem_of_seq. lia.
Qed.
Definition bytes_b (l : list Z) : bool := forallb (λ b, (0 <=? b) && (b <? 256)) l.
Lemma bytes_b_true l : bytes_b l = true → Forall is_byte l.
Proof.
  unfold bytes_b. rewrite forallb_forall, Forall_forall. intros H b Hb. apply list_elem_of_In in Hb. specialize (H b Hb).
  apply andb_true_iff in H as [H1 H2]. apply Z.leb_le in H1. apply Z.ltb_lt in H2. by split.
Qed.

Lemma mpinit_reads_table_witness :
  ∃ s', mpinit 3 [] (mp_start (floating ++ known_table ++ (known_items ≫= bytes_of))) = Done tt s' [] ∧
    ncpu s' = 1%nat ∧ take 1 (cpus s') = [7] ∧ ioapicid s' = 9 ∧ x_out s' = [(34, 112); (35, 3)].
Proof.
  destruct (mpinit_reads_table 3 2148466688 2148466704 known_items [] (mp_start (floating ++ known_table ++ (known_items ≫= bytes_of))))
    as (s' & E & E1 & E2 & E3 & _ & E5).
  - split.
    + vm_compute. reflexivity.
    + apply image_bytes, bytes_b_true. vm_compute. reflexivity.
    + repeat constructor.
    + apply holds_b_true. vm_compute. reflexivity.
    + vm_compute. reflexivity.
  - reflexivity.
  - reflexivity.
  - exists s'. rewrite E2 in E1. split; [exact E|]. split; [exact E2|]. split; [exact E1|]. split; [exact E3|].
    rewrite E5. vm_compute. reflexivity.
Defined.

Lemma mpinit_unknown_entry_witness :
  ∃ s', mpinit_with 3 (Z.to_nat 1000000) [] (mp_start (floating ++ odd_table ++ bytes_of (Proc 7 (replicate 18 0)) ++ 5 :: replicate 7 0)) = Asleep s'.
Proof.
  apply (mpinit_unknown_entry 3 2148466688 2148466704 [Proc 7 (replicate 18 0)] 8).
  - split.
    + vm_compute. reflexivity.
    + apply image_bytes, bytes_b_true. vm_compute. reflexivity.
    + repeat constructor.
    + apply holds_b_true. vm_compute. reflexivity.
    + vm_compute. reflexivity.
  - reflexivity.
  - vm_compute. discriminate.
Defined.
