(* ===== verification/Clock.v ===== *)
(** * The real-time clock (lapic.c: cmos_read, fill_rtcdate, cmostime; date.h)

    The clock chip is read through an index port and a data port while it
    keeps running.  The state counts the port accesses, and [clock t r] is
    what register [r] holds at access [t], so the chip may change its
    registers between any two accesses.  While the chip announces an update
    (bit 7 of status register A) nothing is known of the time registers; when
    it does not, they hold one time for the next accesses.

    The result: [cmostime] ends, and what it returns is a time that the chip
    showed at one moment of the call at which no update was announced; it is
    never a reading of registers in the middle of an update, nor put together
    from the registers before and after one. *)
From S2P Require Import Prelude.

Record rtcdate := RtcDate { second : Z; minute : Z; hour : Z; day : Z; month : Z; year : Z }.
#[global] Instance eta_rtcdate : Eta rtcdate := λ r, RtcDate (second r) (minute r) (hour r) (day r) (month r) (year r).
#[global] Instance rtcdate_eq_dec : EqDecision rtcdate.
Proof. solve_decision. Defined.

Definition CMOS_PORT : Z := 112.
Definition CMOS_RETURN : Z := 113.
Definition CMOS_STATA : Z := 10.
Definition CMOS_STATB : Z := 11.
Definition CMOS_UIP : Z := Z.shiftl 1 7.
Definition SECS : Z := 0.
Definition MINS : Z := 2.
Definition HOURS : Z := 4.
Definition DAY : Z := 7.
Definition MONTH : Z := 8.
Definition YEAR : Z := 9.

(** The register selected, and the number of port accesses so far. *)
Record cmos := Cmos { c_sel : Z; c_time : nat }.

Section rtc.
Context (clock : nat → Z → Z).

Definition outb (port data : Z) : M cmos unit :=
  modify (λ s, Cmos (if port =? CMOS_PORT then data else c_sel s) (S (c_time s))).
Definition inb (port : Z) : M cmos Z := λ env s,
  Done (if port =? CMOS_RETURN then clock (c_time s) (c_sel s) else 255) (Cmos (c_sel s) (S (c_time s))) env.
Definition microdelay (us : Z) : M cmos unit := ret tt.

Definition cmos_read (reg : Z) : M cmos Z :=
  outb CMOS_PORT reg ;;
  microdelay 200 ;;
  inb CMOS_RETURN.

Definition fill_rtcdate : M cmos rtcdate :=
  s <- cmos_read SECS ;;
  m <- cmos_read MINS ;;
  h <- cmos_read HOURS ;;
  d <- cmos_read DAY ;;
  mo <- cmos_read MONTH ;;
  y <- cmos_read YEAR ;;
  ret (RtcDate s m h d mo y).

(** The loop of [cmostime]; it ends when two readings agree. *)
Fixpoint cmostime_loop (fuel : nat) : M cmos rtcdate :=
  match fuel with
  | O => λ _ s, Asleep s
  | S fuel =>
      t1 <- fill_rtcdate ;;
      a <- cmos_read CMOS_STATA ;;
      if negb (Z.land a CMOS_UIP =? 0) then cmostime_loop fuel else
      t2 <- fill_rtcdate ;;
      if bool_decide (t1 = t2) then ret t1 else cmostime_loop fuel
  end.

Definition CONV (x : Z) : Z := u32 (Z.shiftr x 4 * 10 + Z.land x 15).

Definition cmostime (fuel : nat) : M cmos rtcdate :=
  sb <- cmos_read CMOS_STATB ;;
  let bcd := Z.land sb (Z.shiftl 1 2) =? 0 in
  t1 <- cmostime_loop fuel ;;
  let t1 := if bcd then RtcDate (CONV (second t1)) (CONV (minute t1)) (CONV (hour t1)) (CONV (day t1)) (CONV (month t1)) (CONV (year t1))
            else t1 in
  ret (t1 <| year ::= λ y, u32 (y + 2000) |>).

(** ** One reading *)

(** The registers of the time at access [t]. *)
Definition regs (t : nat) : rtcdate :=
  RtcDate (clock t SECS) (clock t MINS) (clock t HOURS) (clock t DAY) (clock t MONTH) (clock t YEAR).

Lemma cmos_read_ok env s r : cmos_read r env s = Done (clock (S (c_time s)) r) (Cmos r (c_time s + 2)) env.
Proof. unfold cmos_read, outb, microdelay, inb, modify, bind, ret. simpl. do 2 f_equal. lia. Qed.

Lemma fill_ok env s (t := c_time s) : fill_rtcdate env s =
  Done (RtcDate (second (regs (t + 1))) (minute (regs (t + 3))) (hour (regs (t + 5))) (day (regs (t + 7))) (month (regs (t + 9))) (year (regs (t + 11))))
    (Cmos YEAR (t + 12)) env.
Proof.
  unfold fill_rtcdate. do 6 (rewrite (bind_done _ _ _ _ _ _ _ (cmos_read_ok _ _ _)); cbn [c_time]).
  unfold ret. unfold regs. cbn [second minute hour day month year].
  replace (S (t + 2)) with (t + 3)%nat by lia.
  repeat match goal with |- context [clock (S ?n) ?r] => progress replace (clock (S n) r) with (clock (n + 1) r) by (f_equal; lia) end.
  rewrite <-!Nat.add_assoc. done.
Qed.

(** ** The chip *)

(** An update is in progress, or about to begin. *)
Definition uip (t : nat) : bool := negb (Z.land (clock t CMOS_STATA) CMOS_UIP =? 0).

(** The registers for a time, in binary or in decimal digits. *)
Definition enc (binary : bool) (d : rtcdate) : rtcdate :=
  let e := λ x, if binary then x else 16 * (x / 10) + x `mod` 10 in
  RtcDate (e (second d)) (e (minute d)) (e (hour d)) (e (day d)) (e (month d)) (e (year d)).

(** What the data sheet promises of a chip that shows the time [shows t] at
    access [t].  The format bit is fixed.  If the update bit is clear,
    the registers hold the time, and go on holding it for 12 accesses (the 244
    microseconds that an update is announced in advance); while it is set the
    registers may hold anything.  Every [quiet] accesses there begins a
    stretch of two rounds without an announcement (an update takes 2
    milliseconds of every second). *)
Record chip (binary : bool) (shows : nat → rtcdate) (quiet : nat) : Prop := {
  ch_mode t : (Z.land (clock t CMOS_STATB) (Z.shiftl 1 2) =? 0) = negb binary;
  ch_regs t : uip t = false → ∀ u, (t ≤ u ≤ t + 12)%nat → regs u = enc binary (shows t);
  ch_range t : uip t = false → 0 ≤ second (shows t) < 100 ∧ 0 ≤ minute (shows t) < 100 ∧ 0 ≤ hour (shows t) < 100 ∧
    0 ≤ day (shows t) < 100 ∧ 0 ≤ month (shows t) < 100 ∧ 0 ≤ year (shows t) < 100;
  ch_quiet t : ∃ u, (t ≤ u ≤ t + quiet)%nat ∧ ∀ v, (u ≤ v < u + 52)%nat → uip v = false }.

Context (binary : bool) (shows : nat → rtcdate) (quiet : nat) (C : chip binary shows quiet).

(** Two readings of the registers in a stretch without an announcement agree. *)
Lemma quiet_regs u : (∀ v, (u ≤ v < u + 52)%nat → uip v = false) → ∀ n, (n < 52)%nat → regs (u + n) = regs u.
Proof.
  intros Q n. induction n as [|n IH]; intros Hn; [by rewrite Nat.add_0_r|].
  assert (U : uip (u + n) = false) by (apply Q; lia). rewrite <-IH by lia. rewrite !(ch_regs _ _ _ C _ U) by lia. done.
Qed.

(** The reading that begins at access [t]. *)
Definition reading (t : nat) : rtcdate :=
  RtcDate (second (regs (t + 1))) (minute (regs (t + 3))) (hour (regs (t + 5))) (day (regs (t + 7))) (month (regs (t + 9))) (year (regs (t + 11))).

Lemma reading_regs t R : (∀ n, (n ≤ 11)%nat → regs (t + n) = R) → reading t = R.
Proof. intros A. unfold reading. rewrite !A by lia. by destruct R. Qed.

(** A round ends with a time of the chip, or goes on; a quiet one ends. *)
Lemma loop_ends env u : (∀ v, (u ≤ v < u + 52)%nat → uip v = false) →
  ∀ fuel s, (c_time s ≤ u + 26)%nat → (u - c_time s < fuel)%nat →
  ∃ t s', cmostime_loop fuel env s = Done (enc binary (shows t)) s' env ∧ (c_time s ≤ t < c_time s')%nat ∧ uip t = false.
Proof.
  intros Q fuel. induction fuel as [|fuel IH]; intros s Hu Hf; [lia|]. set (t := c_time s) in *. cbn [cmostime_loop].
  rewrite (bind_done _ _ _ _ _ _ _ (fill_ok env s)), (bind_done _ _ _ _ _ _ _ (cmos_read_ok env _ _)). cbn [c_time]. fold t. fold (reading t).
  fold (uip (S (t + 12))).
  assert (Next : ∀ n, (n = t + 14 ∨ n = t + 26)%nat → (t < u)%nat → ∀ x,
    ∃ t' s', cmostime_loop fuel env (Cmos x n) = Done (enc binary (shows t')) s' env ∧ (t ≤ t' < c_time s')%nat ∧ uip t' = false).
  { intros n Hn Ht x. destruct (IH (Cmos x n)) as (t' & s' & E' & Ht' & Hu'); [cbn [c_time]; lia..|]. exists t', s'. split; [done|]. cbn [c_time] in Ht'. split; [lia|done]. }
  destruct (uip (S (t + 12))) eqn:Eu.
  - destruct (decide (u ≤ t)%nat) as [Hq|Hq]; [rewrite Q in Eu by lia; done|]. apply Next; lia.
  - rewrite (bind_done _ _ _ _ _ _ _ (fill_ok env _)). cbn [c_time]. fold (reading (t + 12 + 2)).
    assert (R2 : reading (t + 12 + 2) = enc binary (shows (S (t + 12)))).
    { apply reading_regs. intros n Hn. apply (ch_regs _ _ _ C _ Eu). lia. }
    rewrite R2. case_bool_decide as Eb.
    + rewrite Eb. exists (S (t + 12)). eexists. split; [done|]. cbn [c_time]. split; [lia|done].
    + destruct (decide (u ≤ t)%nat) as [Hq|Hq]; [|apply Next; lia]. destruct Eb. rewrite <-R2.
      rewrite (reading_regs t (regs u)), (reading_regs (t + 12 + 2) (regs u)); [done|..]; intros n Hn.
      * replace (t + 12 + 2 + n)%nat with (u + (t - u + 14 + n))%nat by lia. apply quiet_regs; [done|lia].
      * replace (t + n)%nat with (u + (t - u + n))%nat by lia. apply quiet_regs; [done|lia].
Qed.

Lemma CONV_digits x : 0 ≤ x < 100 → CONV (16 * (x / 10) + x `mod` 10) = x.
Proof.
  intros Hx. unfold CONV. rewrite Z.shiftr_div_pow2 by lia. change (2 ^ 4) with 16. change 15 with (Z.ones 4).
  rewrite Z.land_ones by lia. change (2 ^ 4) with 16. rewrite u32_small; [|unfold is_u32]; Z.to_euclidean_division_equations; lia.
Qed.
End rtc.

(** C34. [cmostime] returns a time the clock showed during the call.  The chip
    keeps running between the port accesses and may store its values in binary
    or in decimal digits; its registers may hold anything, even the same
    wrong values twice, while it announces an update.  The call ends after at
    most one round per access of the longest wait for two rounds without an
    announcement, and its result is the whole time of one moment of the call
    at which no update was announced, with 2000 added to the year. *)
Theorem cmostime_whole clock binary shows quiet env s : chip clock binary shows quiet →
  ∃ t s', cmostime clock (S quiet) env s = Done ((shows t) <| year ::= λ y, y + 2000 |>) s' env ∧
    (c_time s ≤ t < c_time s')%nat ∧ uip clock t = false.
Proof.
  intros C. unfold cmostime. rewrite (bind_done _ _ _ _ _ _ _ (cmos_read_ok clock env s _)). cbv zeta. rewrite (ch_mode _ _ _ _ C).
  destruct (ch_quiet _ _ _ _ C (c_time s + 2)) as (u & Hu & Q).
  destruct (loop_ends clock binary shows quiet C env u Q (S quiet) (Cmos CMOS_STATB (c_time s + 2))) as (t & s' & E & Ht & U); [cbn [c_time]; lia..|].
  rewrite (bind_done _ _ _ _ _ _ _ E). exists t, s'. cbn [c_time] in Ht. split; [|split; [lia|done]]. unfold ret. f_equal.
  pose proof (ch_range _ _ _ _ C t U) as (R1 & R2 & R3 & R4 & R5 & R6). unfold enc.
  destruct (shows t) as [a b c d e y]. cbn [second minute hour day month year] in *.
  destruct binary; cbn [negb]; unfold upd; cbn [second minute hour day month year]; rewrite ?CONV_digits by done; rewrite u32_small by (unfold is_u32; lia); done.
Qed.

(** A chip in decimal digits that is in the middle of an update when the call
    begins: the registers hold garbage up to access 9. *)
Definition demo_shows (t : nat) : rtcdate := RtcDate 0 0 0 1 1 20.
Definition demo_clock (t : nat) (r : Z) : Z :=
  if (t <? 9)%nat then if r =? CMOS_STATA then 128 else if r =? CMOS_STATB then 0 else 119
  else if r =? DAY then 1 else if r =? MONTH then 1 else if r =? YEAR then 32 else 0.

Lemma demo_uip t : uip demo_clock t = (t <? 9)%nat.
Proof. unfold uip, demo_clock. by destruct (t <? 9)%nat. Qed.

Lemma demo_chip : chip demo_clock false demo_shows 9.
Proof.
  split.
  - intros t. unfold demo_clock. by destruct (t <? 9)%nat.
  - intros t. rewrite demo_uip. intros Ht u Hu. apply Nat.ltb_ge in Ht. unfold regs, demo_clock. by rewrite (proj2 (Nat.ltb_ge u 9)) by lia.
  - intros t _. unfold demo_shows. simpl. lia.
  - intros t. exists (Nat.max t 9). split; [lia|]. intros v Hv. rewrite demo_uip. apply Nat.ltb_ge. lia.
Qed.

Lemma cmostime_whole_witness :
  chip demo_clock false demo_shows 9 ∧
  ∃ s', cmostime demo_clock 10 [] (Cmos 0 0) = Done (RtcDate 0 0 0 1 1 2020) s' [] ∧ (c_time s' > 28)%nat.
Proof.
  split; [exact demo_chip|].
  destruct (cmostime_whole demo_clock false demo_shows 9 [] (Cmos 0 0) demo_chip) as (t & s' & E & _). exists s'. split; [exact E|].
  vm_compute in E. injection E as <-. cbn. lia.
Defined.
