(* ===== verification/Devices.v ===== *)
(** * Interrupt controllers and serial port (lapic.c, ioapic.c, picirq.c, uart.c)

    Each driver runs on a device whose documented behaviour is an interface:
    [IoApicDev] (index and data window of the I/O APIC), [LocalApicDev] (the
    registers of the local APIC and the interrupts it sends) and [SerialDev]
    (the 8250 serial port).  The theorems are proved against the interface;
    each has a small device that implements it.

    The results: after [ioapicinit] and any calls of [ioapicenable] exactly
    the interrupts asked for are enabled, each with its own vector and CPU;
    [lapicstartap] sends the INIT and start-up interrupts of the start-up
    protocol to the CPU given, in order; the serial port sends what it is
    given, with a bounded wait, and its interrupt handler passes every byte
    received to the console. *)
From S2P Require Import Prelude State Sync Crash CString Print Kalloc Console Trap.

(** ** The I/O APIC *)
Module IoApic.
Definition REG_ID : Z := 0.
Definition REG_VER : Z := 1.
Definition REG_TABLE : Z := 16.
Definition INT_DISABLED : Z := 65536.

Class IoApicDev (H : Type) := {
  set_reg : Z → H → H;         (* ioapic->reg = r *)
  set_data : Z → H → H;        (* ioapic->data = v *)
  get_data : H → Z;            (* ioapic->data *)
  selected : H → Z;
  register : H → Z → Z;
  set_reg_sel r h : selected (set_reg r h) = r;
  set_reg_keeps r h : register (set_reg r h) = register h;
  set_data_sel v h : selected (set_data v h) = selected h;
  set_data_table v h : REG_TABLE ≤ selected h → register (set_data v h) = <[selected h := v]> (register h);
  get_data_selected h : get_data h = register h (selected h) }.

Section driver.
Context {H : Type} `{!IoApicDev H}.

Definition ioapicread (reg : Z) (h : H) : Z * H := let h := set_reg reg h in (get_data h, h).
Definition ioapicwrite (reg data : Z) (h : H) : H := set_data data (set_reg reg h).

(** [for(i = 0; i <= maxintr; i++)], [n] rounds from [i]. *)
Fixpoint disable_from (n : nat) (i : Z) (h : H) : H :=
  match n with
  | O => h
  | S n => disable_from n (i + 1)
             (ioapicwrite (REG_TABLE + 2 * i + 1) 0 (ioapicwrite (REG_TABLE + 2 * i) (Z.lor INT_DISABLED (T_IRQ0 + i)) h))
  end.

(** The result says whether the warning is printed. *)
Definition ioapicinit (ioapicid : Z) (h : H) : bool * H :=
  let '(ver, h) := ioapicread REG_VER h in
  let maxintr := Z.land (Z.shiftr ver 16) 255 in
  let '(r, h) := ioapicread REG_ID h in
  let id := Z.shiftr r 24 in
  (negb (id =? ioapicid), disable_from (S (Z.to_nat maxintr)) 0 h).

Definition ioapicenable (irq cpunum : Z) (h : H) : H :=
  ioapicwrite (REG_TABLE + 2 * irq + 1) (u32 (Z.shiftl cpunum 24)) (ioapicwrite (REG_TABLE + 2 * irq) (T_IRQ0 + irq) h).

(** *** What the table says *)
Definition low (h : H) (i : Z) : Z := register h (REG_TABLE + 2 * i).
Definition high (h : H) (i : Z) : Z := register h (REG_TABLE + 2 * i + 1).

Lemma ioapicwrite_reg r v h x : REG_TABLE ≤ r → register (ioapicwrite r v h) x = if decide (x = r) then v else register h x.
Proof.
  intros Hr. unfold ioapicwrite. rewrite set_data_table by (by rewrite set_reg_sel). by rewrite set_reg_sel, set_reg_keeps, fn_insert_dec.
Qed.

Lemma entry_write i a b h j : 0 ≤ i → 0 ≤ j →
  let h' := ioapicwrite (REG_TABLE + 2 * i + 1) b (ioapicwrite (REG_TABLE + 2 * i) a h) in
  low h' j = (if decide (j = i) then a else low h j) ∧ high h' j = (if decide (j = i) then b else high h j).
Proof.
  intros Hi Hj. cbv zeta. unfold low, high. change REG_TABLE with 16. rewrite !ioapicwrite_reg by (change REG_TABLE with 16; lia).
  destruct (decide (j = i)) as [->|]; repeat case_decide; try lia; done.
Qed.

Lemma disable_from_ok n : ∀ i h j, 0 ≤ i → 0 ≤ j →
  low (disable_from n i h) j = (if decide (i ≤ j < i + Z.of_nat n) then Z.lor INT_DISABLED (T_IRQ0 + j) else low h j) ∧
  high (disable_from n i h) j = (if decide (i ≤ j < i + Z.of_nat n) then 0 else high h j).
Proof.
  induction n as [|n IH]; intros i h j Hi Hj; cbn [disable_from].
  - by rewrite !decide_False by lia.
  - destruct (IH (i + 1) (ioapicwrite (REG_TABLE + 2 * i + 1) 0 (ioapicwrite (REG_TABLE + 2 * i) (Z.lor INT_DISABLED (T_IRQ0 + i)) h)) j) as [-> ->]; [lia..|].
    destruct (entry_write i (Z.lor INT_DISABLED (T_IRQ0 + i)) 0 h j Hi Hj) as [-> ->].
    destruct (decide (j = i)) as [->|]; repeat case_decide; try lia; done.
Qed.

(** A sequence of calls of [ioapicenable]: interrupt and CPU. *)
Definition enable_all (es : list (Z * Z)) (h : H) : H := foldl (λ h e, ioapicenable e.1 e.2 h) h es.

(** The CPU of the last call for interrupt [i]. *)
Fixpoint routed (i : Z) (es : list (Z * Z)) : option Z :=
  match es with
  | [] => None
  | e :: es => match routed i es with Some c => Some c | None => if e.1 =? i then Some e.2 else None end
  end.

Lemma routed_snoc i es e : routed i (es ++ [e]) = if e.1 =? i then Some e.2 else routed i es.
Proof.
  induction es as [|d es IH]; cbn [app routed]; [done|]. rewrite IH. by destruct (e.1 =? i).
Qed.

Lemma enable_all_ok es h j : Forall (λ e, 0 ≤ e.1) es → 0 ≤ j →
  low (enable_all es h) j = match routed j es with Some _ => T_IRQ0 + j | None => low h j end ∧
  high (enable_all es h) j = match routed j es with Some c => u32 (Z.shiftl c 24) | None => high h j end.
Proof.
  intros He Hj. unfold enable_all. induction es as [|e es IH] using rev_ind; [done|]. apply Forall_app in He as [He He1]. rewrite Forall_singleton in He1.
  rewrite foldl_app. cbn [foldl]. destruct (IH He) as [IH1 IH2]. unfold ioapicenable at 1 3.
  destruct (entry_write e.1 (T_IRQ0 + e.1) (u32 (Z.shiftl e.2 24)) (foldl (λ h e, ioapicenable e.1 e.2 h) h es) j He1 Hj) as [-> ->].
  rewrite IH1, IH2, routed_snoc. destruct (Z.eqb_spec e.1 j) as [->|]; [by rewrite !decide_True|by rewrite !decide_False by done].
Qed.
End driver.

Lemma vector_bits i : 0 ≤ i < 256 →
  Z.land (Z.lor INT_DISABLED (T_IRQ0 + i)) 255 = Z.land (T_IRQ0 + i) 255 ∧ Z.land (T_IRQ0 + i) INT_DISABLED = 0 ∧
  Z.land (Z.lor INT_DISABLED (T_IRQ0 + i)) INT_DISABLED = INT_DISABLED.
Proof.
  intros Hi. assert (A : forallb (λ i, (Z.land (Z.lor INT_DISABLED (T_IRQ0 + i)) 255 =? Z.land (T_IRQ0 + i) 255) &&
    (Z.land (T_IRQ0 + i) INT_DISABLED =? 0) && (Z.land (Z.lor INT_DISABLED (T_IRQ0 + i)) INT_DISABLED =? INT_DISABLED)) (seqZ 0 256) = true)
    by (vm_compute; reflexivity).
  rewrite forallb_forall in A. specialize (A i). rewrite !andb_true_iff, !Z.eqb_eq in A.
  destruct A as [[A1 A2] A3]; [|done]. apply list_elem_of_In, elem_of_seqZ. lia.
Qed.

(** C36. The I/O APIC serves exactly the interrupts that were asked for: after
    [ioapicinit] and any sequence of calls of [ioapicenable], every entry of
    the table has the vector of its interrupt, is enabled exactly when some
    call named it, and then goes to the CPU of the last such call. *)
Theorem ioapic_routes {H} `{!IoApicDev H} id h es i (n := Z.land (Z.shiftr (register h REG_VER) 16) 255) (h' := enable_all es (ioapicinit id h).2) :
  Forall (λ e, 0 ≤ e.1) es → 0 ≤ i ≤ n →
  Z.land (low h' i) 255 = Z.land (T_IRQ0 + i) 255 ∧
  (Z.land (low h' i) INT_DISABLED = 0 ↔ ∃ c, routed i es = Some c) ∧
  high h' i = match routed i es with Some c => u32 (Z.shiftl c 24) | None => 0 end.
Proof.
  intros He Hi. assert (Hn : n < 256).
  { unfold n. change 255 with (Z.ones 8). rewrite Z.land_ones by lia. by apply Z.mod_pos_bound. }
  destruct (vector_bits i ltac:(lia)) as (B1 & B2 & B3).
  assert (I : low (ioapicinit id h).2 i = Z.lor INT_DISABLED (T_IRQ0 + i) ∧ high (ioapicinit id h).2 i = 0).
  { unfold ioapicinit, ioapicread. rewrite !get_data_selected, !set_reg_sel, !set_reg_keeps. cbn [snd]. fold n.
    set (h0 := set_reg REG_ID _). destruct (disable_from_ok (S (Z.to_nat n)) 0 h0 i) as [-> ->]; [lia..|]. by rewrite !decide_True by lia. }
  destruct (enable_all_ok es (ioapicinit id h).2 i He ltac:(lia)) as [E1 E2]. fold h' in E1, E2. rewrite E1, E2. destruct I as [-> ->].
  destruct (routed i es) as [c|]; split_and!; try done.
  - split; [by exists c|done].
  - split; [|by intros [c Hc]]. rewrite B3. done.
Qed.

(** A device with the register selected and the contents of the registers. *)
#[export] Instance table_dev : IoApicDev (Z * (Z → Z)).
Proof.
  by refine {| set_reg := λ r h, (r, h.2); set_data := λ v h, (h.1, <[h.1 := v]> h.2); get_data := λ h, h.2 h.1;
               selected := λ h, h.1; register := λ h, h.2 |}.
Defined.

(** Keyboard, serial port and disk, as consoleinit, uartinit and ideinit ask
    for them on two CPUs. *)
Lemma ioapic_routes_witness :
  let h := (0, λ r, if r =? REG_VER then Z.shiftl 23 16 else 0) : Z * (Z → Z) in
  let h' := enable_all [(IRQ_KBD, 0); (IRQ_COM1, 0); (IRQ_IDE, 1)] (ioapicinit 0 h).2 in
  (Z.land (low h' 14) INT_DISABLED = 0 ↔ ∃ c, routed 14 [(IRQ_KBD, 0); (IRQ_COM1, 0); (IRQ_IDE, 1)] = Some c) ∧ high h' 14 = 16777216.
Proof.
  intros h h'. destruct (ioapic_routes 0 h [(IRQ_KBD, 0); (IRQ_COM1, 0); (IRQ_IDE, 1)] 14) as (_ & E & F).
  - repeat constructor; vm_compute; discriminate.
  - vm_compute. split; discriminate.
  - split; [exact E|exact F].
Defined.
End IoApic.

(** ** The 8259 controllers (picirq.c) *)
Definition IO_PIC1 : Z := 32.
Definition IO_PIC2 : Z := 160.
(** The ports written, in order. *)
Definition picinit : list (Z * Z) := [(IO_PIC1 + 1, 255); (IO_PIC2 + 1, 255)].

(** ** The local APIC *)
Module LocalApic.
Definition ID : Z := 32 / 4.
Definition VER : Z := 48 / 4.
Definition TPR : Z := 128 / 4.
Definition EOI : Z := 176 / 4.
Definition SVR : Z := 240 / 4.
Definition ENABLE : Z := 256.
Definition ESR : Z := 640 / 4.
Definition ICRLO : Z := 768 / 4.
Definition INIT : Z := 1280.
Definition STARTUP : Z := 1536.
Definition DELIVS : Z := 4096.
Definition ASSERT : Z := 16384.
Definition LEVEL : Z := 32768.
Definition BCAST : Z := 524288.
Definition ICRHI : Z := 784 / 4.
Definition TIMER : Z := 800 / 4.
Definition X1 : Z := 11.
Definition PERIODIC : Z := 131072.
Definition PCINT : Z := 832 / 4.
Definition LINT0 : Z := 848 / 4.
Definition LINT1 : Z := 864 / 4.
Definition ERROR : Z := 880 / 4.
Definition MASKED : Z := 65536.
Definition TICR : Z := 896 / 4.
Definition TDCR : Z := 992 / 4.
Definition IRQ_ERROR : Z := 19.

(** A store to the low half of the interrupt command register sends an
    interrupt to the CPU of the high half; it is busy for some reads. *)
Class LocalApicDev (H : Type) := {
  load : Z → H → Z * H;
  store : Z → Z → H → H;
  reg : H → Z → Z;
  sent : H → list (Z * Z);
  busy : H → nat;
  load_keeps i h : reg (load i h).2 = reg h ∧ sent (load i h).2 = sent h;
  load_busy i h : busy (load i h).2 = pred (busy h);
  load_reg i h : i ≠ ICRLO → (load i h).1 = reg h i;
  load_icr h : busy h = 0%nat → Z.land (load ICRLO h).1 DELIVS = 0;
  store_reg i v h : i ≠ EOI → reg (store i v h) = <[i := v]> (reg h);
  store_eoi v h : reg (store EOI v h) = reg h;
  store_sent i v h : sent (store i v h) = if i =? ICRLO then sent h ++ [(reg h ICRHI, v)] else sent h }.

Section driver.
Context {H : Type} `{!LocalApicDev H}.

Definition lapicw (index value : Z) : M H unit :=
  modify (store index value) ;;
  modify (λ h, (load ID h).2).

(** [while(lapic[ICRLO] & DELIVS) ;] *)
Fixpoint wait_delivered (n : nat) : M H unit := λ env h,
  let '(r, h) := load ICRLO h in
  if Z.land r DELIVS =? 0 then Done tt h env else
  match n with
  | O => Asleep h
  | S n => wait_delivered n env h
  end.

(** [lapic] says whether there is a local APIC. *)
Definition lapicinit (lapic : bool) : M H unit :=
  if negb lapic then ret tt else
  lapicw SVR (Z.lor ENABLE (T_IRQ0 + IRQ_SPURIOUS)) ;;
  lapicw TDCR X1 ;;
  lapicw TIMER (Z.lor PERIODIC (T_IRQ0 + IRQ_TIMER)) ;;
  lapicw TICR 10000000 ;;
  lapicw LINT0 MASKED ;;
  lapicw LINT1 MASKED ;;
  r <- (λ env h, Done (load VER h).1 (load VER h).2 env) ;;
  when (4 <=? Z.land (Z.shiftr r 16) 255) (lapicw PCINT MASKED) ;;
  lapicw ERROR (T_IRQ0 + IRQ_ERROR) ;;
  lapicw ESR 0 ;;
  lapicw ESR 0 ;;
  lapicw EOI 0 ;;
  lapicw ICRHI 0 ;;
  lapicw ICRLO (Z.lor (Z.lor BCAST INIT) LEVEL) ;;
  n <- gets busy ;;
  wait_delivered n ;;
  lapicw TPR 0.

Definition lapicid (lapic : bool) : M H Z := λ env h,
  if negb lapic then Done 0 h env else Done (Z.shiftr (load ID h).1 24) (load ID h).2 env.

Definition lapiceoi (lapic : bool) : M H unit := when lapic (lapicw EOI 0).

Definition microdelay (us : Z) : M H unit := ret tt.

(** The two port writes to the clock chip and the warm reset vector at
    physical address 0x467: the port writes and the memory after it. *)
Definition warm_reset (addr : Z) (m : mem) : list (Z * Z) * mem :=
  let wrv := P2V (Z.lor (Z.shiftl 64 4) 103) in
  let v := u16 (Z.shiftr addr 4) in
  ([(112, 15); (113, 10)],
   <[wrv + 3 := v / 256]> (<[wrv + 2 := v `mod` 256]> (<[wrv + 1 := 0]> (<[wrv := 0]> m)))).

Definition send_startup (apicid addr : Z) : M H unit :=
  lapicw ICRHI (u32 (Z.shiftl apicid 24)) ;;
  lapicw ICRLO (Z.lor STARTUP (Z.shiftr addr 12)) ;;
  microdelay 200.

(** The result is that of [warm_reset]. *)
Definition lapicstartap (apicid addr : Z) (m : mem) : M H (list (Z * Z) * mem) :=
  r <- ret (warm_reset addr m) ;;
  lapicw ICRHI (u32 (Z.shiftl apicid 24)) ;;
  lapicw ICRLO (Z.lor (Z.lor INIT LEVEL) ASSERT) ;;
  microdelay 200 ;;
  lapicw ICRLO (Z.lor INIT LEVEL) ;;
  microdelay 100 ;;
  send_startup apicid addr ;;
  send_startup apicid addr ;;
  ret r.

Lemma lapicw_ok i v env h : ∃ h', lapicw i v env h = Done tt h' env ∧ sent h' = (if i =? ICRLO then sent h ++ [(reg h ICRHI, v)] else sent h) ∧
  ∀ x, reg h' x = if (x =? i) && negb (i =? EOI) then v else reg h x.
Proof.
  eexists. split; [done|]. destruct (load_keeps ID (store i v h)) as [-> ->]. rewrite store_sent. split; [done|]. intros x.
  destruct (Z.eqb_spec i EOI) as [->|Hne]; [rewrite store_eoi; by destruct (x =? EOI)|]. rewrite store_reg, fn_insert_dec by done.
  destruct (Z.eqb_spec x i); [by rewrite decide_True|by rewrite decide_False].
Qed.

Lemma wait_ends env n : ∀ h, (busy h ≤ n)%nat → ∃ h', wait_delivered n env h = Done tt h' env ∧ reg h' = reg h ∧ sent h' = sent h.
Proof.
  induction n as [|n IH]; intros h Hb; cbn [wait_delivered].
  - rewrite (surjective_pairing (load ICRLO h)), load_icr by lia. eexists. split; [done|]. apply load_keeps.
  - rewrite (surjective_pairing (load ICRLO h)). destruct (load_keeps ICRLO h) as [E1 E2]. destruct (_ =? 0); [by eexists|].
    destruct (IH (load ICRLO h).2) as (h' & E & R1 & R2); [rewrite load_busy; lia|]. exists h'. split; [done|]. by rewrite R1, R2.
Qed.

(** [lapicw_step] runs one store of a sequence. *)
Ltac lapicw_step :=
  match goal with
  | |- context [bind (lapicw ?i ?v) _ ?env ?h] =>
      let h' := fresh "h" in let E := fresh "E" in let S := fresh "S" in let R := fresh "R" in
      destruct (lapicw_ok i v env h) as (h' & E & S & R); rewrite (bind_done _ _ _ _ _ _ _ E); clear E
  end.
(** [eqbs] evaluates the comparisons of register numbers, [regs] what the
    registers hold after the stores. *)
Ltac eqbs :=
  repeat match goal with |- context [?a =? ?b] => let c := eval vm_compute in (a =? b) in change (a =? b) with c end;
  cbn [andb negb].
Ltac regs := repeat match goal with R : ∀ x, reg ?h x = _ |- context [reg ?h ?c] => rewrite (R c); eqbs end.
Ltac sents := repeat match goal with R : sent ?h = _ |- context [sent ?h] => rewrite R; eqbs end.

(** [lapicinit] ends, and sends one interrupt to all local APICs. *)
Lemma lapicinit_ends env h : ∃ h', lapicinit true env h = Done tt h' env ∧ sent h' = sent h ++ [(0, Z.lor (Z.lor BCAST INIT) LEVEL)] ∧
  reg h' LINT0 = MASKED ∧ reg h' LINT1 = MASKED ∧ reg h' TIMER = Z.lor PERIODIC (T_IRQ0 + IRQ_TIMER) ∧
  reg h' SVR = Z.lor ENABLE (T_IRQ0 + IRQ_SPURIOUS) ∧ reg h' ERROR = T_IRQ0 + IRQ_ERROR ∧ reg h' TPR = 0.
Proof.
  unfold lapicinit. cbn [negb]. do 6 lapicw_step.
  destruct (load_keeps VER h5) as [K1 K2]. rewrite (bind_done _ _ _ _ (load VER h5).1 (load VER h5).2 env) by done.
  set (pc := 4 <=? _). assert (P : ∃ h6, (when pc (lapicw PCINT MASKED)) env (load VER h5).2 = Done tt h6 env ∧ sent h6 = sent h5 ∧
    ∀ x, reg h6 x = if (x =? PCINT) && pc then MASKED else reg h5 x).
  { destruct pc; cbn [when]; [|by eexists; split; [done|]; split; [done|]; intros x; rewrite andb_false_r, K1].
    destruct (lapicw_ok PCINT MASKED env (load VER h5).2) as (h6 & E & S' & R'). exists h6. split; [done|]. split; [by rewrite S', K2|].
    intros x. by rewrite R', K1. }
  destruct P as (h6 & E6 & S6 & R6). rewrite (bind_done _ _ _ _ _ _ _ E6). do 6 lapicw_step. rewrite bind_gets.
  destruct (wait_ends env (busy h12) h12 ltac:(lia)) as (h13 & E13 & R13 & S13). rewrite (bind_done _ _ _ _ _ _ _ E13).
  destruct (lapicw_ok TPR 0 env h13) as (h14 & E14 & S14 & R14). exists h14. split; [done|].
  assert (R13' : ∀ x, reg h13 x = reg h12 x) by (intros x; by rewrite R13). clear R13. regs. split_and!; [|reflexivity..].
  sents. regs. done.
Qed.

(** [lapicstartap] sends the start-up sequence to the CPU, in order. *)
Lemma lapicstartap_sends apicid addr m env h (cpu := u32 (Z.shiftl apicid 24)) :
  ∃ h', lapicstartap apicid addr m env h = Done (warm_reset addr m) h' env ∧
  sent h' = sent h ++ [(cpu, Z.lor (Z.lor INIT LEVEL) ASSERT); (cpu, Z.lor INIT LEVEL);
                       (cpu, Z.lor STARTUP (Z.shiftr addr 12)); (cpu, Z.lor STARTUP (Z.shiftr addr 12))].
Proof.
  unfold lapicstartap, send_startup, microdelay. fold cpu. rewrite bind_ret. do 2 lapicw_step. rewrite bind_ret. lapicw_step. rewrite bind_ret, bind_assoc. lapicw_step.
  rewrite bind_assoc. lapicw_step. rewrite bind_ret, !bind_assoc. lapicw_step. rewrite bind_assoc. lapicw_step. rewrite bind_ret. eexists. split; [done|].
  sents. regs. by rewrite <-!app_assoc.
Qed.
End driver.

(** A local APIC that needs one read to deliver an interrupt: its registers,
    the interrupts sent, and whether one is on its way. *)
Definition apic : Type := (Z → Z) * list (Z * Z) * bool.
#[export] Instance apic_dev : LocalApicDev apic.
Proof.
  refine {| load := λ i (h : apic), (if i =? ICRLO then if h.2 then DELIVS else 0 else h.1.1 i, (h.1, false));
            store := λ i v (h : apic), (if i =? EOI then h.1.1 else <[i := v]> h.1.1,
                                        if i =? ICRLO then h.1.2 ++ [(h.1.1 ICRHI, v)] else h.1.2, (i =? ICRLO) || h.2);
            reg := λ h, h.1.1; sent := λ h, h.1.2; busy := λ h, if h.2 then 1%nat else 0%nat |}; try done.
  - intros i [h []]; done.
  - intros i h Hi. cbn. by rewrite (proj2 (Z.eqb_neq i ICRLO)).
  - intros [h []] Hb; done.
  - intros i v h Hi. cbn. by rewrite (proj2 (Z.eqb_neq i EOI)).
Defined.
End LocalApic.

(** ** The serial port *)
Module Uart.
Definition COM1 : Z := 1016.

(** An 8250: bit 0 of the line status says that a byte has been received, bit
    5 that the transmitter is free; the data register is the divisor while
    bit 7 of the line control register is set.  [io] is the sequence of the
    accesses that the processor has made. *)
Inductive access := In (p : Z) | Out (p v : Z).

Class SerialDev (H : Type) := {
  inb : Z → H → Z * H;
  outb : Z → Z → H → H;
  rx : H → list Z;             (* received, not yet read *)
  tx : H → list Z;             (* sent *)
  delay : H → nat;             (* status reads until the transmitter is free *)
  dlab : H → bool;
  io : H → list access;
  io_in h p : io (inb p h).2 = io h ++ [In p];
  io_out h p v : io (outb p v h) = io h ++ [Out p v];
  rx_bytes h : Forall is_byte (rx h);
  in_status h : (Z.land (inb (COM1 + 5) h).1 1 =? 0) = bool_decide (rx h = []) ∧
    (Z.land (inb (COM1 + 5) h).1 32 =? 0) = negb (delay h =? 0)%nat;
  in_status_next h : let h' := (inb (COM1 + 5) h).2 in rx h' = rx h ∧ tx h' = tx h ∧ delay h' = pred (delay h) ∧ dlab h' = dlab h;
  in_data h : dlab h = false → let h' := (inb COM1 h).2 in
    rx h' = tail (rx h) ∧ tx h' = tx h ∧ delay h' = delay h ∧ dlab h' = false ∧ ∀ c l, rx h = c :: l → (inb COM1 h).1 = c;
  in_iir h : let h' := (inb (COM1 + 2) h).2 in rx h' = rx h ∧ tx h' = tx h ∧ delay h' = delay h ∧ dlab h' = dlab h;
  out_data h c : dlab h = false → delay h = 0%nat →
    tx (outb COM1 c h) = tx h ++ [c] ∧ rx (outb COM1 c h) = rx h ∧ dlab (outb COM1 c h) = false;
  out_divisor h c : dlab h = true →
    tx (outb COM1 c h) = tx h ∧ rx (outb COM1 c h) = rx h ∧ delay (outb COM1 c h) = delay h ∧ dlab (outb COM1 c h) = true;
  out_lcr h v : let h' := outb (COM1 + 3) v h in
    dlab h' = Z.testbit v 7 ∧ tx h' = tx h ∧ rx h' = rx h ∧ delay h' = delay h;
  out_other h p v : p = COM1 + 1 ∨ p = COM1 + 2 ∨ p = COM1 + 4 → let h' := outb p v h in
    dlab h' = dlab h ∧ tx h' = tx h ∧ rx h' = rx h ∧ delay h' = delay h }.

Section driver.
Context {H : Type} `{!SerialDev H}.

Definition microdelay (us : Z) (h : H) : H := h.

(** [for(i = 0; i < 128 && !(inb(COM1+5) & 0x20); i++) microdelay(10);], [n]
    rounds left. *)
Fixpoint wait_tx (n : nat) (h : H) : H :=
  match n with
  | O => h
  | S n =>
      let '(r, h) := inb (COM1 + 5) h in
      if negb (Z.land r 32 =? 0) then h else wait_tx n (microdelay 10 h)
  end.

(** [uart] says whether there is a serial port. *)
Definition uartputc (uart : bool) (c : Z) (h : H) : H :=
  if negb uart then h else outb COM1 (u8 c) (wait_tx 128 h).

Definition uartgetc (uart : bool) (h : H) : Z * H :=
  if negb uart then (-1, h) else
  let '(r, h) := inb (COM1 + 5) h in
  if Z.land r 1 =? 0 then (-1, h) else inb COM1 h.

(** The new value of [uart], the port and the I/O APIC. *)
Definition uartinit {G : Type} `{!IoApic.IoApicDev G} (h : H) (g : G) : bool * H * G :=
  let h := outb (COM1 + 2) 0 h in
  let h := outb (COM1 + 3) 128 h in
  let h := outb (COM1 + 0) (115200 / 9600) h in
  let h := outb (COM1 + 1) 0 h in
  let h := outb (COM1 + 3) 3 h in
  let h := outb (COM1 + 4) 0 h in
  let h := outb (COM1 + 1) 1 h in
  let '(r, h) := inb (COM1 + 5) h in
  if r =? 255 then (false, h, g) else
  let h := (inb (COM1 + 2) h).2 in
  let h := (inb (COM1 + 0) h).2 in
  let g := IoApic.ioapicenable IRQ_COM1 0 g in
  (true, foldl (λ h c, uartputc true c h) h (bytes (String.append "xv6..." nl)), g).

(** The calls of [uartgetc] that the loop of [consoleintr] makes: the bytes
    before the first negative result, [n] at most. *)
Fixpoint uart_drain (n : nat) (uart : bool) (h : H) : list Z * H :=
  match n with
  | O => ([], h)
  | S n =>
      let '(c, h) := uartgetc uart h in
      if c <? 0 then ([], h) else let '(cs, h) := uart_drain n uart h in (c :: cs, h)
  end.

(** [uartintr] with the kernel's state beside the port; the echo of the
    console is in the kernel's state. *)
Definition uartintr (uart : bool) (h : H) : KM H :=
  let '(cs, h) := uart_drain (S (length (rx h))) uart h in
  consoleintr cs ;;
  ret h.

Lemma wait_tx_ok n : ∀ h, (delay h < n)%nat → let h' := wait_tx n h in
  rx h' = rx h ∧ tx h' = tx h ∧ dlab h' = dlab h ∧ delay h' = 0%nat.
Proof.
  induction n as [|n IH]; intros h Hd; [lia|]. cbn [wait_tx]. rewrite (surjective_pairing (inb _ h)).
  destruct (in_status h) as [_ E]. destruct (in_status_next h) as (N1 & N2 & N3 & N4). rewrite E, negb_involutive.
  destruct (Nat.eqb_spec (delay h) 0) as [E0|E0]; [by rewrite N3, E0|].
  destruct (IH (inb (COM1 + 5) h).2) as (I1 & I2 & I3 & I4); [rewrite N3; lia|]. unfold microdelay. rewrite I1, I2, I3, I4. done.
Qed.

(** The byte goes out, after fewer than 128 reads of the status. *)
Lemma uartputc_ok c h : dlab h = false → (delay h < 128)%nat → let h' := uartputc true c h in
  tx h' = tx h ++ [u8 c] ∧ rx h' = rx h ∧ dlab h' = false.
Proof.
  intros Hl Hd. unfold uartputc. cbn [negb]. destruct (wait_tx_ok 128 h Hd) as (W1 & W2 & W3 & W4).
  destruct (out_data (wait_tx 128 h) (u8 c)) as (O1 & O2 & O3); [congruence|done|]. cbv zeta. rewrite O1, O2, O3, W1, W2. done.
Qed.

Lemma uart_drain_ok n : ∀ h, dlab h = false → (length (rx h) < n)%nat →
  ∃ h', uart_drain n true h = (rx h, h') ∧ rx h' = [].
Proof.
  induction n as [|n IH]; intros h Hl Hn; [lia|]. cbn [uart_drain uartgetc negb]. rewrite (surjective_pairing (inb (COM1 + 5) h)).
  destruct (in_status h) as [E _]. destruct (in_status_next h) as (N1 & N2 & N3 & N4). rewrite E. set (h1 := (inb (COM1 + 5) h).2) in *.
  destruct (rx h) as [|c l] eqn:Er.
  - rewrite bool_decide_true by done. cbn. exists h1. by rewrite N1.
  - rewrite bool_decide_false by done. rewrite (surjective_pairing (inb COM1 h1)).
    destruct (in_data h1) as (D1 & D2 & D3 & D4 & D5); [congruence|]. rewrite (D5 c l) by congruence.
    pose proof (rx_bytes h) as B. rewrite Er in B. apply Forall_cons in B as [B _]. unfold is_byte in B. rewrite (proj2 (Z.ltb_ge c 0)) by lia.
    rewrite N1 in D1. cbn [tail] in D1.
    destruct (IH (inb COM1 h1).2 D4) as (h' & E' & I1); [rewrite D1; simpl in Hn; lia|]. rewrite E', D1. by exists h'.
Qed.
End driver.

(** The interrupt handler of the serial port loses nothing: it hands the
    bytes received to the console in order, exactly those, and leaves the
    receiver empty. *)
Theorem uartintr_takes_all {H} `{!SerialDev H} h env s : dlab h = false →
  ∃ h', rx h' = [] ∧
    uartintr true h env s =
      match consoleintr (rx h) env s with
      | Done _ s' env' => Done h' s' env'
      | Panic msg => Panic msg
      | Asleep s' => Asleep s'
      end.
Proof.
  intros Hl. destruct (uart_drain_ok (S (length (rx h))) h Hl ltac:(lia)) as (h' & E & R). exists h'. split; [done|].
  unfold uartintr. rewrite E. unfold bind. by destruct (consoleintr (rx h) env s).
Qed.

(** What one call does on the bus, whatever the port answers: reads of the
    status, one at least and 128 at most, and the byte. *)
Lemma wait_tx_io {H} `{!SerialDev H} n : ∀ h, ∃ k, (k ≤ n)%nat ∧ (n = 0 ∨ 1 ≤ k)%nat ∧ io (wait_tx n h) = io h ++ replicate k (In (COM1 + 5)).
Proof.
  induction n as [|n IH]; intros h; cbn [wait_tx]; [exists 0%nat; rewrite app_nil_r; split_and!; [lia|lia|done]|].
  pose proof (io_in h (COM1 + 5)) as E. destruct (inb (COM1 + 5) h) as [r h1]. cbn [snd] in E. destruct (negb _).
  - exists 1%nat. split_and!; [lia|lia|done].
  - destruct (IH (microdelay 10 h1)) as (k & Hk & _ & Ek). exists (S k). unfold microdelay in *. rewrite Ek, E, <-app_assoc. split_and!; [lia|lia|done].
Qed.

Definition one_byte (k : nat) (c : Z) : list access := replicate k (In (COM1 + 5)) ++ [Out COM1 (u8 c)].

Lemma sends_io {H} `{!SerialDev H} cs : ∀ h, ∃ ks, length ks = length cs ∧ Forall (λ k, 1 ≤ k ≤ 128)%nat ks ∧
  io (foldl (λ h c, uartputc true c h) h cs) = io h ++ concat (zip_with one_byte ks cs).
Proof.
  induction cs as [|c cs IH]; intros h; cbn [foldl]; [exists []; by rewrite app_nil_r|].
  destruct (IH (uartputc true c h)) as (ks & Hl & Hf & E). destruct (wait_tx_io 128 h) as (k & Hk & Hk' & Ek). exists (k :: ks).
  split; [simpl; lia|]. split; [constructor; [lia|done]|]. rewrite E. unfold uartputc at 1. cbn [negb zip_with concat]. rewrite io_out, Ek.
  unfold one_byte at 2. by rewrite <-!app_assoc.
Qed.

(** A sequence of bytes, one after the other. *)
Lemma sends_ok {H} `{!SerialDev H} cs : (∀ h c, dlab h = false → (delay (outb COM1 c h) < 128)%nat) →
  ∀ h, dlab h = false → (delay h < 128)%nat →
  let h' := foldl (λ h c, uartputc true c h) h cs in
  tx h' = tx h ++ (u8 <$> cs) ∧ rx h' = rx h ∧ dlab h' = false.
Proof.
  intros Hs. induction cs as [|c cs IH]; intros h Hl Hd; cbn [foldl]; [by rewrite app_nil_r|].
  destruct (uartputc_ok c h Hl Hd) as (E1 & E2 & E3).
  assert (D : (delay (uartputc true c h) < 128)%nat) by (apply Hs; destruct (wait_tx_ok 128 h Hd) as (_ & _ & W & _); congruence).
  destruct (IH _ E3 D) as (I1 & I2 & I3). cbv zeta. rewrite I1, I2, I3, E1, E2. by rewrite <-app_assoc.
Qed.

(** C37. Output on the serial port waits a bounded time and arrives in order.
    On the bus, whatever the port answers, even one that never gets free,
    each byte of a sequence of [uartputc] is one write of the data register
    after at least one and at most 128 reads of the line status, and there is
    no other access.  If the transmitter is free again within 128 reads after
    each byte, exactly these bytes are sent, in order, and nothing
    received is lost. *)
Theorem uart_sends {H} `{!SerialDev H} h cs :
  let h' := foldl (λ h c, uartputc true c h) h cs in
  (∃ ks, length ks = length cs ∧ Forall (λ k, 1 ≤ k ≤ 128)%nat ks ∧ io h' = io h ++ concat (zip_with one_byte ks cs)) ∧
  (dlab h = false → (delay h < 128)%nat → (∀ h c, dlab h = false → (delay (outb COM1 c h) < 128)%nat) →
   tx h' = tx h ++ (u8 <$> cs) ∧ rx h' = rx h ∧ dlab h' = false).
Proof. split; [apply sends_io|]. intros Hl Hd Hs. by apply sends_ok. Qed.

(** The port after [uartinit]: the divisor is locked again, the announcement
    has been sent and the interrupt is routed to CPU 0. *)
Lemma uartinit_ok {H} `{!SerialDev H} {G} `{!IoApic.IoApicDev G} (h : H) (g : G) : (∀ h', (delay h' < 128)%nat) →
  let '(uart, h', g') := uartinit h g in
  dlab h' = false ∧
  (uart = true → tx h' = tx h ++ bytes (String.append "xv6..." nl) ∧ g' = IoApic.ioapicenable IRQ_COM1 0 g) ∧
  (uart = false → tx h' = tx h ∧ g' = g).
Proof.
  intros Hd. unfold uartinit. set (h1 := outb (COM1 + 2) 0 h). destruct (out_other h (COM1 + 2) 0) as (_ & T1 & _); [lia|]. fold h1 in T1.
  set (h2 := outb (COM1 + 3) 128 h1). destruct (out_lcr h1 128) as (L2 & T2 & _). fold h2 in L2, T2.
  set (h3 := outb (COM1 + 0) _ h2). destruct (out_divisor h2 (115200 / 9600)) as (T3 & _ & _ & L3); [done|].
  set (h4 := outb (COM1 + 1) 0 h3). destruct (out_other h3 (COM1 + 1) 0) as (_ & T4 & _); [lia|]. fold h4 in T4.
  set (h5 := outb (COM1 + 3) 3 h4). destruct (out_lcr h4 3) as (L5 & T5 & _). fold h5 in L5, T5.
  set (h6 := outb (COM1 + 4) 0 h5). destruct (out_other h5 (COM1 + 4) 0) as (L6 & T6 & _); [lia|]. fold h6 in L6, T6.
  set (h7 := outb (COM1 + 1) 1 h6). destruct (out_other h6 (COM1 + 1) 1) as (L7 & T7 & _); [lia|]. fold h7 in L7, T7.
  destruct (in_status_next h7) as (_ & T8 & _ & L8). rewrite (surjective_pairing (inb (COM1 + 5) h7)). set (h8 := (inb (COM1 + 5) h7).2) in *.
  change (COM1 + 0) with COM1 in *. fold h3 in T3, L3. change (Z.testbit 3 7) with false in L5.
  assert (T : tx h8 = tx h) by congruence. assert (L : dlab h8 = false) by congruence.
  destruct (_ =? 255); [done|]. destruct (in_iir h8) as (_ & T9 & _ & L9). set (h9 := (inb (COM1 + 2) h8).2) in *.
  destruct (in_data h9) as (_ & TA & _ & LA & _); [congruence|]. set (hA := (inb COM1 h9).2) in *.
  destruct (sends_ok (bytes (String.append "xv6..." nl)) (λ h c _, Hd _) hA LA (Hd _)) as (TB & _ & LB). split; [done|]. split; [|done]. intros _. split; [|done].
  rewrite TB, TA, T9, T. reflexivity.
Qed.

(** A port whose transmitter is busy for one read of the status. *)
Record port := Port { p_rx : list Z; p_tx : list Z; p_busy : bool; p_dlab : bool; p_io : list access }.
#[global] Instance eta_port : Eta port := λ r, Port (p_rx r) (p_tx r) (p_busy r) (p_dlab r) (p_io r).

Definition port_in (p : Z) (h : port) : Z * port :=
  let h := h <| p_io ::= λ l, l ++ [In p] |> in
  if p =? COM1 + 5 then
    ((if bool_decide (u8 <$> p_rx h = []) then 0 else 1) + (if p_busy h then 0 else 32), h <| p_busy := false |>)
  else if (p =? COM1) && negb (p_dlab h) then (default 0 (head (u8 <$> p_rx h)), h <| p_rx ::= tail |>)
  else (0, h).
Definition port_out (p v : Z) (h : port) : port :=
  let h := h <| p_io ::= λ l, l ++ [Out p v] |> in
  if p =? COM1 then
    if p_dlab h || p_busy h then h else h <| p_tx ::= λ l, l ++ [v] |> <| p_busy := true |>
  else if p =? COM1 + 3 then h <| p_dlab := Z.testbit v 7 |>
  else h.

#[export] Instance port_dev : SerialDev port.
Proof.
  refine {| inb := port_in; outb := port_out; rx := λ h, u8 <$> p_rx h; tx := p_tx; delay := λ h, if p_busy h then 1%nat else 0%nat; dlab := p_dlab; io := p_io |}.
  - intros h p. unfold port_in. cbn. repeat case_match; done.
  - intros h p v. unfold port_out. cbn. repeat case_match; done.
  - intros h. apply Forall_fmap, Forall_forall. intros x _. by apply Z.mod_pos_bound.
  - intros h. unfold port_in. cbn. split; destruct (bool_decide _), (p_busy h); done.
  - intros h. by destruct (p_busy h).
  - intros h E. unfold port_in. change (COM1 =? COM1 + 5) with false. rewrite Z.eqb_refl. cbn. rewrite E. cbn.
    split_and!; try done; [by destruct (p_rx h)|]. by intros c l ->.
  - intros h. done.
  - intros h c E1 E2. unfold port_out. rewrite Z.eqb_refl. cbn. rewrite E1. by destruct (p_busy h).
  - intros h c E. unfold port_out. rewrite Z.eqb_refl. cbn. by rewrite E.
  - intros h v. done.
  - intros h p v [-> | [-> | ->]]; done.
Defined.

Lemma uartintr_takes_all_witness :
  let s := demo_boot (Disk demo_img []) in
  ∃ h', rx h' = [] ∧ uartintr true (Port [97; 98] [] true false []) [] s =
      match consoleintr [97; 98] [] s with Done _ s' env' => Done h' s' env' | Panic msg => Panic msg | Asleep s' => Asleep s' end.
Proof.
  intros s. destruct (uartintr_takes_all (Port [97; 98] [] true false []) [] s) as (h' & R & E); [reflexivity|]. exists h'. split; [exact R|exact E].
Defined.

Lemma uart_sends_witness : let h := Port [] [] true false [] in
  let h' := foldl (λ h c, uartputc true c h) h [104; 105] in
  tx h' = [104; 105] ∧ io h' = [In (COM1 + 5); In (COM1 + 5); Out COM1 104; In (COM1 + 5); In (COM1 + 5); Out COM1 105].
Proof.
  intros h. destruct (uart_sends h [104; 105]) as [_ U]. destruct U as (E & _).
  - reflexivity.
  - vm_compute. repeat constructor.
  - intros [rx tx [] d l] c Hd; simpl in Hd; subst; vm_compute; repeat constructor.
  - split; [exact E|reflexivity].
Defined.
End Uart.
