(* ===== verification/Gates.v ===== *)
(** * Segments and interrupt gates (mmu.h, vm.c: seginit, trap.c: tvinit, idtinit)

    The tables that decide how the processor enters the kernel.  A descriptor
    is its bit fields, packed from the low end of a 64-bit word as the
    compiler does it; [seg_of] and [gate_of] are what the processor reads
    from the word.

    The results: descriptors are read as they were meant ([SEG] gives the
    base, the limit and the privilege level, [SETGATE] the handler); the
    segments of [seginit] are the whole address space, with the user's at the
    user's privilege level; after [tvinit] and [idtinit] every interrupt and
    exception enters its own vector in the kernel's code segment, and a user
    program can call the vector of system calls and no other. *)
From S2P Require Import Prelude State Sync CString Print Kalloc Dll Bio Cache Log Fs Vm File Proc Console Trap.

(** ** Bit fields *)

(** Fields of a struct with their widths, from the lowest bit up. *)
Fixpoint pack (fs : list (Z * Z)) : Z :=
  match fs with
  | [] => 0
  | (w, v) :: fs => v `mod` 2 ^ w + 2 ^ w * pack fs
  end.
Definition bits (off w x : Z) : Z := (x / 2 ^ off) `mod` 2 ^ w.
(** The field at an offset, if a field of width [w] begins there. *)
Fixpoint field (fs : list (Z * Z)) (off w : Z) : option Z :=
  match fs with
  | [] => None
  | (w', v) :: fs =>
      if w' <=? 0 then None else
      if off =? 0 then if w' =? w then Some (v `mod` 2 ^ w) else None
      else if w' <=? off then field fs (off - w') w else None
  end.

(** A field is read back at its offset. *)
Lemma bits_field fs w v : ∀ off, field fs off w = Some v → bits off w (pack fs) = v.
Proof.
  induction fs as [|[w' x] fs IH]; intros off H; [done|]. cbn [field pack] in *. destruct (Z.leb_spec w' 0); [done|].
  assert (0 < 2 ^ w') by (apply Z.pow_pos_nonneg; lia). unfold bits in *. destruct (Z.eqb_spec off 0) as [Ho|Hne].
  - destruct (Z.eqb_spec w' w) as [Ew|]; [|done]. rewrite Ho, Ew in *. injection H as <-.
    by rewrite Z.div_1_r, (Z.mul_comm (2 ^ w)), Z.mod_add, Z.mod_mod by lia.
  - destruct (Z.leb_spec w' off); [|done]. rewrite <-(IH _ H). f_equal. replace (2 ^ off) with (2 ^ w' * 2 ^ (off - w')).
    + rewrite <-Z.div_div by (try lia; apply Z.pow_pos_nonneg; lia). rewrite (Z.mul_comm (2 ^ w')), Z.div_add by lia.
      rewrite (Z.div_small (x `mod` _)) by (by apply Z.mod_pos_bound). done.
    + rewrite <-Z.pow_add_r by lia. f_equal. lia.
Qed.

(** ** Segments *)
Record segdesc := SegDesc {
  lim_15_0 : Z; base_15_0 : Z; base_23_16 : Z; sd_type : Z; sd_s : Z; sd_dpl : Z; sd_p : Z;
  lim_19_16 : Z; sd_avl : Z; sd_rsv1 : Z; sd_db : Z; sd_g : Z; base_31_24 : Z }.
Definition seg_word (d : segdesc) : Z := pack
  [(16, lim_15_0 d); (16, base_15_0 d); (8, base_23_16 d); (4, sd_type d); (1, sd_s d); (2, sd_dpl d); (1, sd_p d);
   (4, lim_19_16 d); (1, sd_avl d); (1, sd_rsv1 d); (1, sd_db d); (1, sd_g d); (8, base_31_24 d)].

Definition SEG (type base lim dpl : Z) : segdesc :=
  SegDesc (Z.land (Z.shiftr lim 12) 65535) (Z.land (u32 base) 65535) (Z.land (Z.shiftr (u32 base) 16) 255) type 1 dpl 1
    (Z.shiftr (u32 lim) 28) 0 0 1 1 (Z.shiftr (u32 base) 24).

Definition STA_X : Z := 8.
Definition STA_W : Z := 2.
Definition STA_R : Z := 2.
Definition SEG_KCODE : Z := 1.
Definition SEG_KDATA : Z := 2.
Definition NSEGS : nat := 6.

(** What the processor reads: base, limit (in bytes, the last one that is
    valid), type, privilege level, present, application segment, 32 bits. *)
Record segment := Segment { g_base : Z; g_limit : Z; g_type : Z; g_dpl : Z; g_present : bool; g_app : bool; g_32 : bool }.
Definition seg_of (w : Z) : segment :=
  let lim := bits 0 16 w + 65536 * bits 48 4 w in
  Segment (bits 16 16 w + 65536 * bits 32 8 w + 16777216 * bits 56 8 w)
    (if bits 55 1 w =? 1 then 4096 * lim + 4095 else lim)
    (bits 40 4 w) (bits 45 2 w) (bits 47 1 w =? 1) (bits 44 1 w =? 1) (bits 54 1 w =? 1).

(** [fields] reads all fields of a packed struct. *)
Ltac fields := repeat match goal with |- context [bits ?o ?w (pack ?fs)] => rewrite (bits_field fs w _ o eq_refl) end.

Lemma land_bits x n : 0 ≤ n → Z.land x (2 ^ n - 1) = x `mod` 2 ^ n.
Proof. intros Hn. rewrite <-Z.land_ones by done. by rewrite Z.ones_equiv, Z.sub_1_r. Qed.

Ltac consts_pow := change (2 ^ 2) with 4 in *; change (2 ^ 4) with 16 in *; change (2 ^ 8) with 256 in *; change (2 ^ 12) with 4096 in *;
  change (2 ^ 16) with 65536 in *; change (2 ^ 24) with 16777216 in *; change (2 ^ 28) with 268435456 in *; change (2 ^ 1) with 2 in *.

(** A descriptor made by [SEG] is the segment it is meant to be. *)
Lemma SEG_segment type base lim dpl : 0 ≤ type < 16 → is_u32 base → is_u32 lim → 0 ≤ dpl < 4 →
  seg_of (seg_word (SEG type base lim dpl)) = Segment base (4096 * (lim / 4096) + 4095) type dpl true true true.
Proof.
  intros Ht Hb Hl Hd. unfold seg_of, seg_word, SEG. cbn -[pack bits Z.mul Z.add Z.modulo Z.div].
  rewrite !u32_small by done. unfold is_u32 in *.
  change 65535 with (2 ^ 16 - 1). change 255 with (2 ^ 8 - 1). rewrite !land_bits, !Z.shiftr_div_pow2 by done.
  fields. change (1 `mod` 2 ^ 1 =? 1) with true. cbv iota. consts_pow. f_equal; Z.to_euclidean_division_equations; lia.
Qed.

(** lidt and lgdt of x86.h: the operand [pd] of the instruction. *)
Definition lidt (p size : Z) : list Z := [u16 (size - 1); u16 p; u16 (Z.shiftr (u32 p) 16)].
Definition lgdt (p size : Z) : list Z := [u16 (size - 1); u16 p; u16 (Z.shiftr (u32 p) 16)].

(** The table of the processor's segments, at address [p], and the operand of
    the instruction that loads it. *)
Definition seginit (p : Z) (gdt : list segdesc) : list segdesc * list Z :=
  let gdt := <[Z.to_nat SEG_KCODE := SEG (Z.lor STA_X STA_R) 0 4294967295 0]> gdt in
  let gdt := <[Z.to_nat SEG_KDATA := SEG STA_W 0 4294967295 0]> gdt in
  let gdt := <[Z.to_nat SEG_UCODE := SEG (Z.lor STA_X STA_R) 0 4294967295 DPL_USER]> gdt in
  let gdt := <[Z.to_nat SEG_UDATA := SEG STA_W 0 4294967295 DPL_USER]> gdt in
  (gdt, lgdt p (8 * Z.of_nat (length gdt))).

(** The segment of a selector. *)
Definition select (gdt : list segdesc) (sel : Z) : option segment := (λ d, seg_of (seg_word d)) <$> gdt !! Z.to_nat (Z.shiftr sel 3).
(** All of the 32-bit address space. *)
Definition flat (type dpl : Z) : segment := Segment 0 4294967295 type dpl true true true.

Lemma seginit_segments p gdt : length gdt = NSEGS → let g := (seginit p gdt).1 in
  select g (Z.shiftl SEG_KCODE 3) = Some (flat 10 0) ∧ select g (Z.shiftl SEG_KDATA 3) = Some (flat 2 0) ∧
  select g (Z.lor (Z.shiftl SEG_UCODE 3) DPL_USER) = Some (flat 10 3) ∧ select g (Z.lor (Z.shiftl SEG_UDATA 3) DPL_USER) = Some (flat 2 3).
Proof. intros Hl. destruct gdt as [|? [|? [|? [|? [|? [|? [|]]]]]]]; try discriminate. cbn [fst seginit]. by vm_compute. Qed.

(** ** Gates *)
Record gatedesc := GateDesc {
  off_15_0 : Z; gd_cs : Z; gd_args : Z; gd_rsv1 : Z; gd_type : Z; gd_s : Z; gd_dpl : Z; gd_p : Z; off_31_16 : Z }.
Definition gate_word (d : gatedesc) : Z := pack
  [(16, off_15_0 d); (16, gd_cs d); (5, gd_args d); (3, gd_rsv1 d); (4, gd_type d); (1, gd_s d); (2, gd_dpl d); (1, gd_p d); (16, off_31_16 d)].

Definition STS_IG32 : Z := 14.
Definition STS_TG32 : Z := 15.
Definition SETGATE (istrap : bool) (sel off d : Z) : gatedesc :=
  GateDesc (Z.land (u32 off) 65535) sel 0 0 (if istrap then STS_TG32 else STS_IG32) 0 d 1 (Z.shiftr (u32 off) 16).

(** What the processor reads. *)
Record gate := Gate { gt_offset : Z; gt_selector : Z; gt_type : Z; gt_dpl : Z; gt_present : bool }.
Definition gate_of (w : Z) : gate :=
  Gate (bits 0 16 w + 65536 * bits 48 16 w) (bits 16 16 w) (bits 40 4 w + 16 * bits 44 1 w) (bits 45 2 w) (bits 47 1 w =? 1).

Lemma SETGATE_gate istrap sel off d : 0 ≤ sel < 65536 → is_u32 off → 0 ≤ d < 4 →
  gate_of (gate_word (SETGATE istrap sel off d)) = Gate off sel (if istrap then STS_TG32 else STS_IG32) d true.
Proof.
  intros Hs Ho Hd. unfold gate_of, gate_word, SETGATE. cbn -[pack bits Z.mul Z.add Z.modulo Z.div]. rewrite !u32_small by done. unfold is_u32 in *.
  change 65535 with (2 ^ 16 - 1). rewrite !land_bits, !Z.shiftr_div_pow2 by done.
  fields. change (1 `mod` 2 ^ 1 =? 1) with true. consts_pow.
  assert ((if istrap then STS_TG32 else STS_IG32) `mod` 16 + 16 * (0 `mod` 2) = if istrap then STS_TG32 else STS_IG32) as -> by (by destruct istrap).
  f_equal; Z.to_euclidean_division_equations; lia.
Qed.

(** The gates; the lock it initialises is free in the initial state. *)
Definition tvinit (vectors : nat → Z) (idt : list gatedesc) : list gatedesc :=
  let idt := foldl (λ idt i, <[i := SETGATE false (Z.shiftl SEG_KCODE 3) (vectors i) 0]> idt) idt (seq 0 256) in
  <[Z.to_nat T_SYSCALL := SETGATE true (Z.shiftl SEG_KCODE 3) (vectors (Z.to_nat T_SYSCALL)) DPL_USER]> idt.

Definition idtinit (idt : Z) : list Z := lidt idt (8 * 256).

(** ** Entering the kernel *)

(** The register that [lidt] and [lgdt] load: limit and base. *)
Definition dtr_of (pd : list Z) : Z * Z := match pd with [l; b0; b1] => (l, b0 + 65536 * b1) | _ => (0, 0) end.

(** The processor at interrupt [n]: the new instruction pointer, code segment
    and whether interrupts are turned off, or a fault.  For an [int]
    instruction [cpl] is the privilege level it runs at; an interrupt or an
    exception is not checked against the gate's level. *)
Definition interrupt (limit : Z) (idt : list gatedesc) (n : nat) (cpl : option Z) : option (Z * Z * bool) :=
  if limit <? 8 * Z.of_nat n + 7 then None else
  d ← idt !! n;
  let g := gate_of (gate_word d) in
  if negb (gt_present g) then None else
  if match cpl with Some c => gt_dpl g <? c | None => false end then None else
  if gt_type g =? STS_IG32 then Some (gt_offset g, gt_selector g, true)
  else if gt_type g =? STS_TG32 then Some (gt_offset g, gt_selector g, false)
  else None.

Lemma tvinit_loop vectors n : ∀ idt k, (n + k ≤ length idt)%nat → let idt' := foldl (λ idt i, <[i := SETGATE false (Z.shiftl SEG_KCODE 3) (vectors i) 0]> idt) idt (seq n k) in
  length idt' = length idt ∧ ∀ i, idt' !! i = if decide (n ≤ i < n + k)%nat then Some (SETGATE false (Z.shiftl SEG_KCODE 3) (vectors i) 0) else idt !! i.
Proof.
  intros idt k. revert n idt. induction k as [|k IH]; intros n idt Hk; cbn [seq foldl].
  - split; [done|]. intros i. by rewrite decide_False by lia.
  - destruct (IH (S n) (<[n := SETGATE false (Z.shiftl SEG_KCODE 3) (vectors n) 0]> idt)) as [L E]; [rewrite length_insert; lia|].
    cbv zeta in *. rewrite length_insert in L. split; [done|]. intros i. rewrite E. destruct (decide (i = n)) as [->|Hn].
    + rewrite decide_False, decide_True by lia. apply list_lookup_insert_eq. lia.
    + rewrite list_lookup_insert_ne by done. repeat case_decide; try lia; done.
Qed.

Lemma tvinit_gate vectors idt n : length idt = 256%nat → (n < 256)%nat →
  tvinit vectors idt !! n = Some (SETGATE (bool_decide (n = Z.to_nat T_SYSCALL)) (Z.shiftl SEG_KCODE 3) (vectors n)
                                    (if decide (n = Z.to_nat T_SYSCALL) then DPL_USER else 0)).
Proof.
  intros Hl Hn. unfold tvinit. destruct (tvinit_loop vectors 0 idt 256) as [L E]; [lia|]. destruct (decide (n = Z.to_nat T_SYSCALL)) as [->|Hne].
  - rewrite bool_decide_true by done. apply list_lookup_insert_eq. rewrite L, Hl. exact Hn.
  - rewrite bool_decide_false, list_lookup_insert_ne by done. rewrite E, decide_True by lia. done.
Qed.

(** The table register holds the address and the size of the table. *)
Lemma lidt_register p size : is_u32 p → 0 < size ≤ 65536 → dtr_of (lidt p size) = (size - 1, p) ∧ dtr_of (lgdt p size) = (size - 1, p).
Proof.
  intros Hp Hs. unfold dtr_of, lidt, lgdt, u16. rewrite u32_small, Z.shiftr_div_pow2 by done. unfold is_u32 in *. consts_pow.
  split; f_equal; Z.to_euclidean_division_equations; lia.
Qed.

(** C33. The ways into the kernel.  After [tvinit], [idtinit] and [seginit],
    an interrupt or exception [n] goes to the entry point [vectors[n]] with
    interrupts off (on for a system call), in the kernel's code segment, which
    is the whole address space at privilege level 0; and an [int] instruction
    of a user program is carried out for the vector of system calls and
    faults for every other one.  The table registers hold the addresses and
    the limits of the two tables. *)
Theorem kernel_entries vectors idt gdt p q n : length idt = 256%nat → length gdt = NSEGS → (∀ i, is_u32 (vectors i)) → (n < 256)%nat →
  let limit := (dtr_of (idtinit p)).1 in
  let entry := (vectors n, Z.shiftl SEG_KCODE 3, negb (bool_decide (n = Z.to_nat T_SYSCALL))) in
  interrupt limit (tvinit vectors idt) n None = Some entry ∧
  interrupt limit (tvinit vectors idt) n (Some DPL_USER) = (if decide (n = Z.to_nat T_SYSCALL) then Some entry else None) ∧
  select (seginit q gdt).1 (Z.shiftl SEG_KCODE 3) = Some (flat 10 0) ∧
  (is_u32 p → dtr_of (idtinit p) = (8 * 256 - 1, p)) ∧
  (is_u32 q → dtr_of (seginit q gdt).2 = (8 * Z.of_nat NSEGS - 1, q)).
Proof.
  intros Hi Hg Hv Hn limit entry. destruct (seginit_segments q gdt Hg) as (G & _).
  assert (R : (is_u32 p → dtr_of (idtinit p) = (8 * 256 - 1, p)) ∧ (is_u32 q → dtr_of (seginit q gdt).2 = (8 * Z.of_nat NSEGS - 1, q))).
  { split; intros Hp; [by apply lidt_register|]. unfold seginit. cbn [snd]. rewrite !length_insert, Hg. by apply lidt_register. }
  split; [|split; [|by split]];
    unfold interrupt; change limit with 2047; rewrite (proj2 (Z.ltb_ge 2047 _)), tvinit_gate by (done || lia); cbn [mbind option_bind];
    unfold entry; destruct (decide (n = Z.to_nat T_SYSCALL)) as [->|Hne];
    rewrite ?bool_decide_true, ?bool_decide_false, SETGATE_gate by (done || apply Hv); done.
Qed.

(** Entry points one byte apart, and a table with no gates. *)
Definition demo_vectors (i : nat) : Z := 2148532224 + Z.of_nat i `mod` 256.
Definition blank_idt : list gatedesc := replicate 256 (GateDesc 0 0 0 0 0 0 0 0 0).

Lemma kernel_entries_witness :
  interrupt 2047 (tvinit demo_vectors blank_idt) 32 None = Some (2148532256, 8, true) ∧
  interrupt 2047 (tvinit demo_vectors blank_idt) 32 (Some 3) = None ∧
  dtr_of (idtinit 2148597760) = (2047, 2148597760).
Proof.
  destruct (kernel_entries demo_vectors blank_idt (replicate NSEGS (SEG 0 0 0 0)) 2148597760 0 32) as (E1 & E2 & _ & E3 & _).
  - reflexivity.
  - reflexivity.
  - intros i. unfold is_u32, demo_vectors. pose proof (Z.mod_pos_bound (Z.of_nat i) 256 eq_refl). lia.
  - lia.
  - split; [exact E1|]. split; [exact E2|]. apply E3. unfold is_u32. lia.
Defined.
