(* ===== verification/Userland.v ===== *)
(** * Small user programs (cat.c, echo.c, ls.c, rm.c, mkdir.c, ln.c, kill.c; stat of ulib.c)

    A user program sees the kernel through its system calls.  [Unix] is that
    interface: the calls, what can be observed (what is left to read of a
    descriptor, what has been written to it, the files and their attributes),
    and what each call promises.  The programs are proved against the
    interface; [demo_unix] is a small system that implements it.

    The results: [cat] writes the contents of its arguments, in order, up to
    the first that cannot be opened; [ls] of a directory writes one line for
    each entry in use. *)
From S2P Require Import Prelude State CString Print Fs.

(** ** The system calls *)
Record ustat := UStat { st_type : Z; st_ino : Z; st_size : Z }.

Class Unix (W : Type) := {
  read : Z → nat → W → Z * list Z * W;
  write : Z → list Z → W → Z * W;
  open : list Z → Z → W → Z * W;
  close : Z → W → Z * W;
  fstat : Z → W → option ustat * W;
  link : list Z → list Z → W → Z * W;
  unlink : list Z → W → Z * W;
  mkdir : list Z → W → Z * W;
  kill : Z → W → Z * W;
  (* what can be observed *)
  rest : W → Z → option (list Z);        (* left to read of a descriptor *)
  source : W → Z → option (list Z);      (* the file it was opened from *)
  output : W → Z → list Z;               (* written to a descriptor *)
  file : W → list Z → option (list Z);
  info : W → list Z → option ustat;
  (* reading: some bytes, none only at the end; all there are from a file *)
  read_some w fd n l : rest w fd = Some l → (0 < n)%nat → ∃ k w', read fd n w = (Z.of_nat k, take k l, w') ∧
    (k ≤ n)%nat ∧ (k ≤ length l)%nat ∧ (l ≠ [] → 0 < k)%nat ∧ (is_Some (source w fd) → k = Nat.min n (length l)) ∧
    (∀ d, rest w' d = if decide (d = fd) then Some (drop k l) else rest w d) ∧
    (∀ d, source w' d = source w d) ∧ output w' = output w ∧ file w' = file w ∧ info w' = info w;
  (* writing to the standard descriptors *)
  write_ok w fd l : 1 ≤ fd ≤ 2 → ∃ w', write fd l w = (Z.of_nat (length l), w') ∧
    (∀ d, output w' d = if decide (d = fd) then output w fd ++ l else output w d) ∧ rest w' = rest w ∧ source w' = source w ∧ file w' = file w ∧ info w' = info w;
  (* a new descriptor, or an error *)
  open_ok w p l : file w p = Some l → ∃ fd w', open p 0 w = (fd, w') ∧ 0 ≤ fd ∧ rest w fd = None ∧
    (∀ d, rest w' d = if decide (d = fd) then Some l else rest w d) ∧ (∀ d, source w' d = if decide (d = fd) then Some p else source w d) ∧
    output w' = output w ∧ file w' = file w ∧ info w' = info w;
  open_none w p : file w p = None → ∃ r w', open p 0 w = (r, w') ∧ r < 0 ∧
    rest w' = rest w ∧ source w' = source w ∧ output w' = output w ∧ file w' = file w ∧ info w' = info w;
  close_ok w fd : ∃ r w', close fd w = (r, w') ∧ (∀ d, d ≠ fd → rest w' d = rest w d ∧ source w' d = source w d) ∧
    rest w' fd = None ∧ output w' = output w ∧ file w' = file w ∧ info w' = info w;
  fstat_ok w fd p : source w fd = Some p → ∃ w', fstat fd w = (info w p, w') ∧
    rest w' = rest w ∧ source w' = source w ∧ output w' = output w ∧ file w' = file w ∧ info w' = info w }.

(** ** Programs

    A program goes on with a value, has called [exit], or is still running
    when its fuel ends. *)
Inductive result (W A : Type) := Goes (a : A) (w : W) | Exited (w : W) | Running.
Arguments Goes {W A} a w.
Arguments Exited {W A} w.
Arguments Running {W A}.

Section programs.
Context {W : Type} `{!Unix W}.

Definition U (A : Type) : Type := W → result W A.
Definition pure {A} (a : A) : U A := λ w, Goes a w.
Definition seqU {A B} (m : U A) (k : A → U B) : U B := λ w,
  match m w with
  | Goes a w => k a w
  | Exited w => Exited w
  | Running => Running
  end.
Definition uexit {A} : U A := λ w, Exited w.
Definition sys {A} (f : W → A * W) : U A := λ w, Goes (f w).1 (f w).2.

Local Notation "'let*' x := m 'in' k" := (seqU m (λ x, k)) (at level 200, x binder, k at level 200).
Local Notation "m 'then*' k" := (seqU m (λ _, k)) (at level 100, right associativity).

(** [printf] writes its bytes one at a time. *)
Fixpoint putcs (fd : Z) (l : list Z) : U unit :=
  match l with
  | [] => pure tt
  | c :: l => sys (write fd [c]) then* putcs fd l
  end.
Definition printf (fd : Z) (fmt : string) (ap : list carg) : U unit := putcs fd (UPrintf.printf fmt ap).

(** The loop of cat.c, grep.c and wc.c over the files they are given. *)
Fixpoint each_file (msg : string) (body : list Z → Z → U unit) (args : list (list Z)) : U unit :=
  match args with
  | [] => uexit
  | a :: args =>
      let* fd := sys (open a 0) in
      if fd <? 0 then printf 1 (String.append msg nl) [CStr a] then* uexit
      else body a fd then* sys (close fd) then* each_file msg body args
  end.

(** *** cat.c *)
Fixpoint cat_from (fuel : nat) (fd : Z) : U unit :=
  match fuel with
  | O => λ _, Running
  | S fuel =>
      let* r := sys (read fd 512) in
      let '(n, buf) := r in
      if 0 <? n then
        let* k := sys (write 1 buf) in
        if negb (k =? n) then printf 1 (String.append "cat: write error" nl) [] then* uexit
        else cat_from fuel fd
      else if n <? 0 then printf 1 (String.append "cat: read error" nl) [] then* uexit
      else pure tt
  end.
Definition cat (fuel : nat) (fd : Z) : U unit := cat_from fuel fd.

Definition cat_args (fuel : nat) (args : list (list Z)) : U unit := each_file "cat: cannot open %s" (λ _, cat fuel) args.
(** [argv] without the name of the program. *)
Definition cat_main (fuel : nat) (argv : list (list Z)) : U unit :=
  match argv with
  | [] => cat fuel 0 then* uexit
  | _ => cat_args fuel argv
  end.

(** *** echo.c *)
Fixpoint echo_main (argv : list (list Z)) : U unit :=
  match argv with
  | [] => uexit
  | a :: argv =>
      printf 1 "%s%s" [CStr a; CStr (match argv with [] => [10] | _ => [32] end)] then* echo_main argv
  end.

(** *** rm.c, mkdir.c, ln.c, kill.c *)
Fixpoint rm_args (argv : list (list Z)) : U unit :=
  match argv with
  | [] => pure tt
  | a :: argv =>
      let* r := sys (unlink a) in
      if r <? 0 then printf 2 (String.append "rm: %s failed to delete" nl) [CStr a] else rm_args argv
  end.
Definition rm_main (argv : list (list Z)) : U unit :=
  match argv with
  | [] => printf 2 (String.append "Usage: rm files..." nl) [] then* uexit
  | _ => rm_args argv then* uexit
  end.

Fixpoint mkdir_args (argv : list (list Z)) : U unit :=
  match argv with
  | [] => pure tt
  | a :: argv =>
      let* r := sys (mkdir a) in
      if r <? 0 then printf 2 (String.append "mkdir: %s failed to create" nl) [CStr a] else mkdir_args argv
  end.
Definition mkdir_main (argv : list (list Z)) : U unit :=
  match argv with
  | [] => printf 2 (String.append "Usage: mkdir files..." nl) [] then* uexit
  | _ => mkdir_args argv then* uexit
  end.

Definition ln_main (argv : list (list Z)) : U unit :=
  match argv with
  | [old; new] =>
      let* r := sys (link old new) in
      (if r <? 0 then printf 2 (String.append "link %s %s: failed" nl) [CStr old; CStr new] else pure tt) then* uexit
  | _ => printf 2 (String.append "Usage: ln old new" nl) [] then* uexit
  end.

Fixpoint kill_args (argv : list (list Z)) : U unit :=
  match argv with
  | [] => pure tt
  | a :: argv => sys (kill (default 0 (ULib.atoi (rd a) (S (length a))))) then* kill_args argv
  end.
Definition kill_main (argv : list (list Z)) : U unit :=
  match argv with
  | [] => printf 2 (String.append "usage: kill pid..." nl) [] then* uexit
  | _ => kill_args argv then* uexit
  end.

(** *** ls.c *)

(** [for(p=path+strlen(path); p >= path && *p != '/'; p--) ; p++;]: the index
    of [p], from index [n] down. *)
Fixpoint after_slash (path : list Z) (n : nat) : nat :=
  if rd path n =? 47 then S n else match n with O => 0%nat | S n => after_slash path n end.

Definition fmtname (path : list Z) : list Z :=
  let p := drop (after_slash path (length path)) path in
  if (DIRSIZ <=? length p)%nat then p else p ++ replicate (DIRSIZ - length p) 32.

(** [stat] of ulib.c *)
Definition stat (n : list Z) : U (option ustat) :=
  let* fd := sys (open n 0) in
  if fd <? 0 then pure None else
  let* r := sys (fstat fd) in
  sys (close fd) then* pure r.

Definition ls_line (path : list Z) (st : ustat) : U unit :=
  printf 1 (String.append "%s %d %d %d" nl) [CStr (fmtname path); CInt (st_type st); CInt (st_ino st); CInt (st_size st)].

(** [while(read(fd, &de, sizeof(de)) == sizeof(de))]; [buf] is the path with
    its slash. *)
Fixpoint ls_entries (fuel : nat) (fd : Z) (buf : list Z) : U unit :=
  match fuel with
  | O => λ _, Running
  | S fuel =>
      let* r := sys (read fd 16) in
      let '(n, de) := r in
      if negb (n =? 16) then pure tt else
      if de_inum de =? 0 then ls_entries fuel fd buf else
      let path := buf ++ cstr (rd (de_name de)) DIRSIZ in
      let* st := stat path in
      match st with
      | None => printf 1 (String.append "ls: cannot stat %s" nl) [CStr path] then* ls_entries fuel fd buf
      | Some st => ls_line path st then* ls_entries fuel fd buf
      end
  end.

Definition ls (fuel : nat) (path : list Z) : U unit :=
  let* fd := sys (open path 0) in
  if fd <? 0 then printf 2 (String.append "ls: cannot open %s" nl) [CStr path] else
  let* r := sys (fstat fd) in
  match r with
  | None => printf 2 (String.append "ls: cannot stat %s" nl) [CStr path] then* sys (close fd) then* pure tt
  | Some st =>
      (if st_type st =? T_FILE then ls_line path st
       else if st_type st =? T_DIR then
         if (512 <? length path + 1 + DIRSIZ + 1)%nat then printf 1 (String.append "ls: path too long" nl) []
         else ls_entries fuel fd (path ++ [47])
       else pure tt) then*
      sys (close fd) then* pure tt
  end.

Fixpoint ls_args (fuel : nat) (argv : list (list Z)) : U unit :=
  match argv with
  | [] => uexit
  | a :: argv => ls fuel a then* ls_args fuel argv
  end.
Definition ls_main (fuel : nat) (argv : list (list Z)) : U unit :=
  match argv with
  | [] => ls fuel [46] then* uexit
  | _ => ls_args fuel argv
  end.

(** ** What a program leaves alone *)
Record keeps (w w' : W) : Prop := {
  kp_rest : rest w' = rest w; kp_source : source w' = source w; kp_file : file w' = file w; kp_info : info w' = info w }.
(** Nothing but what is written to [fd]. *)
Definition wrote (fd : Z) (l : list Z) (w w' : W) : Prop := ∀ d, output w' d = if decide (d = fd) then output w fd ++ l else output w d.

#[export] Instance keeps_preorder : PreOrder keeps.
Proof. split; [by intros w|]. intros w1 w2 w3 [] []. split; congruence. Qed.

Lemma wrote_nil fd w : wrote fd [] w w.
Proof. intros d. case_decide; [subst; by rewrite app_nil_r|done]. Qed.
Lemma wrote_app fd l l' w w1 w2 : wrote fd l w w1 → wrote fd l' w1 w2 → wrote fd (l ++ l') w w2.
Proof. intros H1 H2 d. rewrite (H2 d), !(H1 _). repeat case_decide; try done. by rewrite app_assoc. Qed.
Lemma wrote_same fd l w w1 w2 : wrote fd l w w1 → output w2 = output w1 → wrote fd l w w2.
Proof. intros H E d. by rewrite E. Qed.
Lemma same_wrote fd l w w1 w2 : output w1 = output w → wrote fd l w1 w2 → wrote fd l w w2.
Proof. intros E H d. by rewrite H, E. Qed.

Lemma putcs_ok fd l : ∀ w, 1 ≤ fd ≤ 2 → ∃ w', putcs fd l w = Goes tt w' ∧ wrote fd l w w' ∧ keeps w w'.
Proof.
  induction l as [|c l IH]; intros w Hf; cbn [putcs].
  - exists w. split; [done|]. split; [apply wrote_nil|done].
  - destruct (write_ok w fd [c] Hf) as (w1 & E1 & O1 & R1 & S1 & F1 & I1). destruct (IH w1 Hf) as (w2 & E2 & O2 & K2).
    exists w2. unfold seqU, sys. rewrite E1. split; [done|]. split; [by eapply (wrote_app fd [c])|].
    etrans; [|done]. by split.
Qed.

(** ** One file after the other *)

(** [m], started on a file with [l] left to read, ends with [a] and writes [out]. *)
Definition filters {A} (m : Z → U A) (l out : list Z) (a : A) : Prop := ∀ fd w, rest w fd = Some l → is_Some (source w fd) →
  ∃ w', m fd w = Goes a w' ∧ wrote 1 out w w' ∧ file w' = file w ∧ info w' = info w.

(** The text that is made of the arguments. *)
Fixpoint files_text (msg : string) (text : list Z → list Z → list Z) (f : list Z → option (list Z)) (args : list (list Z)) : list Z :=
  match args with
  | [] => []
  | a :: args =>
      match f a with
      | Some l => text a l ++ files_text msg text f args
      | None => UPrintf.printf (String.append msg nl) [CStr a]
      end
  end.

Lemma each_file_ok msg body text args : ∀ w, Forall (λ a, ∀ l, file w a = Some l → filters (body a) l (text a l) tt) args →
  ∃ w', each_file msg body args w = Exited w' ∧ wrote 1 (files_text msg text (file w) args) w w'.
Proof.
  induction args as [|a args IH]; intros w Hf; cbn [each_file files_text].
  - exists w. split; [done|apply wrote_nil].
  - apply Forall_cons in Hf as [Ha Hf]. destruct (file w a) as [l|] eqn:El.
    + destruct (open_ok w a l El) as (fd & w1 & E1 & Hfd & _ & R1 & S1 & O1 & F1 & I1).
      unfold seqU at 1, sys at 1. rewrite E1. cbn [fst snd]. rewrite (proj2 (Z.ltb_ge fd 0)) by lia.
      destruct (Ha l eq_refl fd w1) as (w2 & E2 & O2 & F2 & I2); [by rewrite R1, decide_True|rewrite S1, decide_True by done; by eexists|].
      unfold seqU at 1. rewrite E2. destruct (close_ok w2 fd) as (r & w3 & E3 & _ & _ & O3 & F3 & I3).
      unfold seqU at 1, sys at 1. rewrite E3. cbn [fst snd].
      assert (F : file w3 = file w) by congruence. destruct (IH w3) as (w4 & E4 & O4); [by rewrite F|]. exists w4. split; [done|].
      rewrite F in O4. eapply wrote_app; [|done]. eapply wrote_same; [|done]. by eapply same_wrote.
    + destruct (open_none w a El) as (r & w1 & E1 & Hr & R1 & S1 & O1 & F1 & I1).
      unfold seqU at 1, sys at 1. rewrite E1. cbn [fst snd]. rewrite (proj2 (Z.ltb_lt r 0)) by lia.
      destruct (putcs_ok 1 (UPrintf.printf (String.append msg nl) [CStr a]) w1 ltac:(lia)) as (w2 & E2 & O2 & _).
      unfold seqU, printf. rewrite E2. exists w2. split; [done|]. by eapply same_wrote.
Qed.

(** ** cat *)
Lemma cat_from_ok fuel : ∀ l, (length l < fuel)%nat → filters (cat_from fuel) l l tt.
Proof.
  induction fuel as [|fuel IH]; intros l Hl fd w Hr Hs; [lia|]. cbn [cat_from].
  destruct (read_some w fd 512 l Hr ltac:(lia)) as (k & w1 & E1 & Hk & Hkl & Hpos & _ & R1 & S1 & O1 & F1 & I1).
  unfold seqU at 1, sys at 1. rewrite E1. cbn [fst snd]. destruct (Z.ltb_spec 0 (Z.of_nat k)) as [Hk0|Hk0].
  - destruct (write_ok w1 1 (take k l) ltac:(lia)) as (w2 & E2 & O2 & R2 & S2 & F2 & I2).
    unfold seqU at 1, sys at 1. rewrite E2. cbn [fst snd]. rewrite length_take, Nat.min_l, Z.eqb_refl by done. cbn [negb].
    destruct (IH (drop k l)) with (fd := fd) (w := w2) as (w3 & E3 & O3 & F3 & I3).
    + rewrite length_drop. lia.
    + rewrite R2, R1. by rewrite decide_True.
    + by rewrite S2, S1.
    + exists w3. split; [done|]. split_and!; [|congruence..].
      rewrite <-(take_drop k l). eapply wrote_app; [|done]. by eapply same_wrote.
  - rewrite (proj2 (Z.ltb_ge _ _)) by lia. destruct l as [|c l]; [|by exfalso; specialize (Hpos ltac:(done)); lia].
    exists w1. split; [done|]. split_and!; [by eapply wrote_same; [apply wrote_nil|]|done..].
Qed.

(** What cat makes of its arguments. *)
Definition cat_text : (list Z → option (list Z)) → list (list Z) → list Z := files_text "cat: cannot open %s" (λ _ l, l).

(** ** ls *)
Definition blank_pad (p : list Z) : list Z := p ++ replicate (DIRSIZ - length p) 32.

Lemma after_slash_ok a b n : 47 ∉ b → (length a ≤ n)%nat → after_slash (a ++ 47 :: b) n = S (length a).
Proof.
  intros Hb. induction n as [|n IH]; intros Hn; cbn [after_slash].
  - destruct a; [done|simpl in Hn; lia].
  - destruct (decide (S n = length a)) as [E|Hne].
    + assert (rd (a ++ 47 :: b) (S n) = 47) as -> by (unfold rd; rewrite E, lookup_app_r, Nat.sub_diag by done; done). by rewrite E.
    + rewrite (proj2 (Z.eqb_neq _ 47)); [apply IH; lia|]. unfold rd. rewrite lookup_app_r by lia.
      destruct (S n - length a)%nat as [|m] eqn:Em; [lia|]. cbn [lookup list_lookup].
      destruct (b !! m) as [c|] eqn:Ec; cbn [default]; [|done]. unfold id. intros ->. apply Hb. by eapply list_elem_of_lookup_2.
Qed.

(** The last part of a path, padded with blanks. *)
Lemma fmtname_last a b : 47 ∉ b → fmtname (a ++ 47 :: b) = blank_pad b.
Proof.
  intros Hb. unfold fmtname, blank_pad. rewrite after_slash_ok by (done || rewrite length_app; lia).
  assert (drop (S (length a)) (a ++ 47 :: b) = b) as -> by (by rewrite drop_app_ge, Nat.sub_succ_l, Nat.sub_diag by lia).
  destruct (Nat.leb_spec DIRSIZ (length b)); [|done]. replace (DIRSIZ - length b)%nat with 0%nat by lia. by rewrite app_nil_r.
Qed.

(** What [stat] finds. *)
Definition look (w : W) (p : list Z) : option ustat := match file w p with Some _ => info w p | None => None end.

Lemma stat_ok p w : ∃ w', stat p w = Goes (look w p) w' ∧ output w' = output w ∧ file w' = file w ∧ info w' = info w ∧
  ∀ d, rest w d ≠ None → rest w' d = rest w d ∧ source w' d = source w d.
Proof.
  unfold stat, look, seqU at 1, sys at 1. destruct (file w p) as [l|] eqn:El.
  - destruct (open_ok w p l El) as (fd & w1 & E1 & Hfd & Hn & R1 & S1 & O1 & F1 & I1). rewrite E1. cbn [fst snd].
    rewrite (proj2 (Z.ltb_ge fd 0)) by lia. destruct (fstat_ok w1 fd p) as (w2 & E2 & R2 & S2 & O2 & F2 & I2); [by rewrite S1, decide_True|].
    unfold seqU at 1, sys at 1. rewrite E2. cbn [fst snd]. destruct (close_ok w2 fd) as (r & w3 & E3 & K3 & _ & O3 & F3 & I3).
    unfold seqU, sys. rewrite E3. cbn [fst snd]. exists w3. split; [by rewrite I1|]. split_and!; [congruence..|].
    intros d Hd. assert (d ≠ fd) by congruence. destruct (K3 d) as [-> ->]; [done|]. by rewrite R2, S2, R1, S1, !decide_False.
  - destruct (open_none w p El) as (r & w1 & E1 & Hr & R1 & S1 & O1 & F1 & I1). rewrite E1. cbn [fst snd].
    rewrite (proj2 (Z.ltb_lt r 0)) by lia. exists w1. split; [done|]. split_and!; [done..|]. by rewrite R1, S1.
Qed.

(** The line of one entry. *)
Definition entry_text (look : list Z → option ustat) (buf de : list Z) : list Z :=
  if de_inum de =? 0 then [] else
  let name := cstr (rd (de_name de)) DIRSIZ in
  match look (buf ++ name) with
  | None => UPrintf.printf (String.append "ls: cannot stat %s" nl) [CStr (buf ++ name)]
  | Some st => UPrintf.printf (String.append "%s %d %d %d" nl)
                 [CStr (blank_pad name); CInt (st_type st); CInt (st_ino st); CInt (st_size st)]
  end.
(** The entries of a directory. *)
Definition entries_of (l : list Z) : list (list Z) := (λ i, take 16 (drop (16 * i) l)) <$> seq 0 (length l / 16).

Lemma entries_short l : (length l < 16)%nat → entries_of l = [].
Proof. intros H. unfold entries_of. by rewrite Nat.div_small. Qed.
Lemma entries_cons l : (16 ≤ length l)%nat → entries_of l = take 16 l :: entries_of (drop 16 l).
Proof.
  intros H. unfold entries_of. replace (length l / 16)%nat with (S (length (drop 16 l) / 16)).
  - cbn [seq fmap list_fmap]. rewrite drop_0. f_equal. rewrite <-fmap_S_seq, <-list_fmap_compose. apply list_fmap_ext.
    intros i j Hj. unfold compose. rewrite drop_drop. do 2 f_equal. lia.
  - rewrite length_drop. replace (length l) with (length l - 16 + 1 * 16)%nat at 2 by lia. rewrite Nat.div_add by lia. lia.
Qed.

Lemma ls_entries_ok fuel fd path : ∀ w l, rest w fd = Some l → is_Some (source w fd) → (length (entries_of l) < fuel)%nat →
  Forall (λ de, 47 ∉ cstr (rd (de_name de)) DIRSIZ) (entries_of l) →
  ∃ w', ls_entries fuel fd (path ++ [47]) w = Goes tt w' ∧ wrote 1 (concat (entry_text (look w) (path ++ [47]) <$> entries_of l)) w w' ∧
    file w' = file w ∧ info w' = info w.
Proof.
  induction fuel as [|fuel IH]; intros w l Hr Hs Hl Hn; [lia|]. cbn [ls_entries].
  destruct (read_some w fd 16 l Hr ltac:(lia)) as (k & w1 & E1 & Hk & Hkl & _ & Hreg & R1 & S1 & O1 & F1 & I1).
  specialize (Hreg Hs). unfold seqU at 1, sys at 1. rewrite E1. cbn [fst snd].
  destruct (decide (length l < 16)%nat) as [Hsh|Hge].
  - rewrite (proj2 (Z.eqb_neq _ 16)) by lia. cbn [negb]. rewrite entries_short by done. exists w1. split; [done|].
    split; [eapply wrote_same; [apply wrote_nil|done]|done].
  - assert (k = 16%nat) as -> by lia. rewrite (proj2 (Z.eqb_eq (Z.of_nat 16) 16)) by done. cbn [negb]. rewrite entries_cons in * by lia.
    apply Forall_cons in Hn as [Hn0 Hn]. cbn [length] in Hl. cbn [fmap list_fmap concat]. set (de := take 16 l) in *.
    assert (Next : ∀ w2 x, file w2 = file w → info w2 = info w → rest w2 fd = rest w1 fd → source w2 fd = source w1 fd → wrote 1 x w w2 →
      ∃ w', ls_entries fuel fd (path ++ [47]) w2 = Goes tt w' ∧
        wrote 1 (x ++ concat (entry_text (look w) (path ++ [47]) <$> entries_of (drop 16 l))) w w' ∧ file w' = file w ∧ info w' = info w).
    { intros w2 x F2 I2 R2 S2 O2. destruct (IH w2 (drop 16 l)) as (w3 & E3 & O3 & F3 & I3).
      - by rewrite R2, R1, decide_True.
      - by rewrite S2, S1.
      - lia.
      - done.
      - exists w3. split; [done|]. split; [|split; congruence]. eapply wrote_app; [done|]. unfold look in O3. by rewrite F2, I2 in O3. }
    unfold entry_text at 1. destruct (de_inum de =? 0); [apply Next; try done; by eapply wrote_same; [apply wrote_nil|]|].
    cbv zeta. set (name := cstr _ _) in *. destruct (stat_ok ((path ++ [47]) ++ name) w1) as (w2 & E2 & O2 & F2 & I2 & K2).
    assert (El : look w1 ((path ++ [47]) ++ name) = look w ((path ++ [47]) ++ name)) by (unfold look; by rewrite F1, I1).
    unfold seqU at 1. rewrite E2, El. destruct (K2 fd) as [K2r K2s]; [by rewrite R1, decide_True|].
    destruct (look w ((path ++ [47]) ++ name)) as [st|].
    + unfold ls_line, printf. replace (fmtname ((path ++ [47]) ++ name)) with (blank_pad name) by (rewrite <-app_assoc; by rewrite <-(fmtname_last path)).
      destruct (putcs_ok 1 (UPrintf.printf (String.append "%s %d %d %d" nl) [CStr (blank_pad name); CInt (st_type st); CInt (st_ino st); CInt (st_size st)]) w2 ltac:(lia))
        as (w3 & E3 & O3 & [K1 K3 K4 K5]). unfold seqU. rewrite E3. apply Next; [congruence..|]. by eapply same_wrote; [|done]; congruence.
    + destruct (putcs_ok 1 (UPrintf.printf (String.append "ls: cannot stat %s" nl) [CStr ((path ++ [47]) ++ name)]) w2 ltac:(lia))
        as (w3 & E3 & O3 & [K1 K3 K4 K5]). unfold seqU, printf. rewrite E3. apply Next; [congruence..|]. by eapply same_wrote; [|done]; congruence.
Qed.

(** With arguments, cat ends, and all it has written is, on its standard
    output, the contents of the files it names one after the other, up to the
    first that cannot be opened, which it names in a message.  The fuel bounds
    the calls of [read] for one file. *)
Theorem cat_copies fuel argv w : argv ≠ [] → Forall (λ a, ∀ l, file w a = Some l → (length l < fuel)%nat) argv →
  ∃ w', cat_main fuel argv w = Exited w' ∧ wrote 1 (cat_text (file w) argv) w w'.
Proof.
  intros Hne Hf. destruct argv as [|a argv]; [done|]. apply (each_file_ok _ (λ _, cat fuel) (λ _ l, l)).
  eapply Forall_impl; [done|]. intros b Hb l El. apply cat_from_ok. by apply Hb.
Qed.

(** C35. ls of a directory goes through the directory once and writes, on its
    standard output and nowhere else, one line for each entry in use, in their
    order: the name padded with blanks, the type, the inode number and the
    size, or a message where the entry cannot be opened. *)
Theorem ls_lists fuel path l st w : file w path = Some l → info w path = Some st → st_type st = T_DIR → (length path + 16 ≤ 512)%nat →
  (length (entries_of l) < fuel)%nat → Forall (λ de, 47 ∉ cstr (rd (de_name de)) DIRSIZ) (entries_of l) →
  ∃ w', ls fuel path w = Goes tt w' ∧ wrote 1 (concat (entry_text (look w) (path ++ [47]) <$> entries_of l)) w w'.
Proof.
  intros Hf Hi Ht Hlen Hl Hn. unfold ls. destruct (open_ok w path l Hf) as (fd & w1 & E1 & Hfd & _ & R1 & S1 & O1 & F1 & I1).
  unfold seqU at 1, sys at 1. rewrite E1. cbn [fst snd]. rewrite (proj2 (Z.ltb_ge fd 0)) by lia.
  destruct (fstat_ok w1 fd path) as (w2 & E2 & R2 & S2 & O2 & F2 & I2); [by rewrite S1, decide_True|].
  unfold seqU at 1, sys at 1. rewrite E2. cbn [fst snd]. rewrite I1, Hi, Ht. change (T_DIR =? T_FILE) with false. change (T_DIR =? T_DIR) with true.
  cbv iota. rewrite (proj2 (Nat.ltb_ge 512 (length path + 1 + DIRSIZ + 1))) by (change DIRSIZ with 14%nat; lia).
  destruct (ls_entries_ok fuel fd path w2 l) as (w3 & E3 & O3 & F3 & I3).
  - by rewrite R2, R1, decide_True.
  - rewrite S2, S1, decide_True by done. by eexists.
  - done.
  - done.
  - unfold seqU at 1. rewrite E3. destruct (close_ok w3 fd) as (r & w4 & E4 & _ & _ & O4 & F4 & I4).
    unfold seqU, sys. rewrite E4. exists w4. split; [done|]. eapply wrote_same; [|done]. eapply same_wrote; [|].
    2: { unfold look in O3. by rewrite F2, I2, F1, I1 in O3. }
    congruence.
Qed.
End programs.

(** ** A small system

    Files that can only be read, with their attributes; the descriptors are a
    finite map and a new one is any that is not in use. *)
Module Demo.
Record world := World {
  fds : gmap N (list Z * list Z);        (* the file and what is left of it *)
  outs : Z → list Z;
  disk : list Z → option (list Z);
  attr : list Z → option ustat }.
Definition fd_of (w : world) (fd : Z) : option (list Z * list Z) := if fd <? 0 then None else fds w !! Z.to_N fd.
Definition set_fd (w : world) (fd : Z) (x : option (list Z * list Z)) : world :=
  if fd <? 0 then w else World (partial_alter (λ _, x) (Z.to_N fd) (fds w)) (outs w) (disk w) (attr w).

Lemma fd_of_set w fd x d : 0 ≤ fd → fd_of (set_fd w fd x) d = if decide (d = fd) then x else fd_of w d.
Proof.
  intros H. unfold fd_of, set_fd. rewrite (proj2 (Z.ltb_ge fd 0)) by lia. cbn [fds]. destruct (decide (d = fd)) as [->|Hd].
  - rewrite (proj2 (Z.ltb_ge fd 0)) by lia. apply lookup_partial_alter_eq.
  - destruct (Z.ltb_spec d 0); [done|]. apply lookup_partial_alter_ne. lia.
Qed.
Lemma set_fd_rest w fd x : outs (set_fd w fd x) = outs w ∧ disk (set_fd w fd x) = disk w ∧ attr (set_fd w fd x) = attr w.
Proof. unfold set_fd. by destruct (fd <? 0). Qed.

Definition d_read (fd : Z) (n : nat) (w : world) : Z * list Z * world :=
  match fd_of w fd with
  | None => (-1, [], w)
  | Some (p, l) => (Z.of_nat (Nat.min n (length l)), take n l, set_fd w fd (Some (p, drop n l)))
  end.
Definition d_write (fd : Z) (l : list Z) (w : world) : Z * world :=
  if (1 <=? fd) && (fd <=? 2) then (Z.of_nat (length l), World (fds w) (λ d, if decide (d = fd) then outs w fd ++ l else outs w d) (disk w) (attr w))
  else (-1, w).
Definition d_open (p : list Z) (mode : Z) (w : world) : Z * world :=
  match disk w p with
  | None => (-1, w)
  | Some l => let fd := Z.of_N (fresh (dom (fds w))) in (fd, set_fd w fd (Some (p, l)))
  end.
Definition d_fstat (fd : Z) (w : world) : option ustat * world := (fd_of w fd ≫= λ x, attr w x.1, w).
End Demo.
Import Demo.

Lemma demo_read w fd n p l : fd_of w fd = Some (p, l) → ∃ k w', d_read fd n w = (Z.of_nat k, take k l, w') ∧ k = Nat.min n (length l) ∧
  (∀ d, fd_of w' d = if decide (d = fd) then Some (p, drop k l) else fd_of w d) ∧ outs w' = outs w ∧ disk w' = disk w ∧ attr w' = attr w.
Proof.
  intros H. unfold d_read. rewrite H. eexists (Nat.min n (length l)), _. split; [|split; [done|split; [|apply set_fd_rest]]].
  - f_equal. f_equal. destruct (decide (n ≤ length l)%nat); [by rewrite Nat.min_l|]. by rewrite Nat.min_r, !take_ge by lia.
  - intros d. assert (0 ≤ fd) by (unfold fd_of in H; destruct (Z.ltb_spec fd 0); [done|lia]). rewrite fd_of_set by done.
    case_decide; [|done]. do 2 f_equal. destruct (decide (n ≤ length l)%nat); [by rewrite Nat.min_l|]. by rewrite Nat.min_r, !drop_ge by lia.
Qed.

#[export] Instance demo_unix : Unix world.
Proof.
  refine {| read := d_read; write := d_write; open := d_open; close := λ fd w, (0, set_fd w fd None); fstat := d_fstat;
            link := λ _ _ w, (-1, w); unlink := λ _ w, (-1, w); mkdir := λ _ w, (-1, w); kill := λ _ w, (-1, w);
            rest := λ w fd, snd <$> fd_of w fd; source := λ w fd, fst <$> fd_of w fd; output := outs; file := disk; info := attr |}.
  - intros w fd n l Hr Hn. destruct (fd_of w fd) as [[p l']|] eqn:E; simplify_eq/=.
    destruct (demo_read w fd n p l E) as (k & w' & -> & Hk & Hd & Ho & Hf & Hi). exists k, w'. split_and!; try done; [lia..| | |].
    + intros Hl. destruct l; [done|]. cbn [length] in Hk. lia.
    + intros d. rewrite Hd. by case_decide.
    + intros d. rewrite Hd. case_decide; [subst; by rewrite E|done].
  - intros w fd l H. unfold d_write. rewrite (proj2 (Z.leb_le 1 fd)), (proj2 (Z.leb_le fd 2)) by lia. eexists. split; [done|]. by split_and!.
  - intros w p l H. unfold d_open. rewrite H. set (n := fresh (dom (fds w))). eexists (Z.of_N n), _. split; [done|]. split; [lia|].
    destruct (set_fd_rest w (Z.of_N n) (Some (p, l))) as (-> & -> & ->). split_and!; [|intros d; rewrite fd_of_set by lia; by case_decide..|done|done|done].
    unfold fd_of. rewrite (proj2 (Z.ltb_ge _ 0)), N2Z.id by lia. assert (fds w !! n = None) as ->; [|done]. apply not_elem_of_dom, is_fresh.
  - intros w p H. unfold d_open. rewrite H. eexists _, _. split; [done|]. by split_and!.
  - intros w fd. eexists _, _. split; [done|]. destruct (set_fd_rest w fd None) as (-> & -> & ->). split_and!; [| |done..].
    + intros d Hd. destruct (Z.ltb_spec fd 0); [unfold set_fd; by rewrite (proj2 (Z.ltb_lt fd 0))|]. rewrite fd_of_set, decide_False by done. done.
    + destruct (Z.ltb_spec fd 0); [unfold set_fd, fd_of; by rewrite (proj2 (Z.ltb_lt fd 0))|]. by rewrite fd_of_set, decide_True.
  - intros w fd p H. eexists. unfold d_fstat. destruct (fd_of w fd) as [[q l]|] eqn:E; simplify_eq/=. split; [done|]. by split_and!.
Defined.

(** A directory "d" with the entries "d/a" and "d/b" and one that is not in use. *)
Definition demo_dir : list Z :=
  [2; 0; 97] ++ replicate 13 0 ++ [0; 0; 120] ++ replicate 13 0 ++ [3; 0; 98] ++ replicate 13 0.
Definition demo_world : world := World ∅ (λ _, [])
  (λ p, if decide (p = [100]) then Some demo_dir else if decide (p = [100; 47; 97]) then Some [104; 105; 10] else
        if decide (p = [100; 47; 98]) then Some [33] else None)
  (λ p, if decide (p = [100]) then Some (UStat T_DIR 1 48) else if decide (p = [100; 47; 97]) then Some (UStat T_FILE 2 3) else
        if decide (p = [100; 47; 98]) then Some (UStat T_FILE 3 1) else None).

(** cat d/a d/b none *)
Lemma cat_copies_witness : ∃ w', cat_main 10 [[100; 47; 97]; [100; 47; 98]; [110]] demo_world = Exited w' ∧
  wrote 1 ([104; 105; 10] ++ [33] ++ bytes "cat: cannot open n" ++ [10]) demo_world w'.
Proof.
  change ([104; 105; 10] ++ [33] ++ bytes "cat: cannot open n" ++ [10]) with (cat_text (file demo_world) [[100; 47; 97]; [100; 47; 98]; [110]]).
  apply (cat_copies 10 [[100; 47; 97]; [100; 47; 98]; [110]] demo_world); [done|].
  rewrite !Forall_cons, Forall_nil. split_and!; [..|done]; intros l H; vm_compute in H; simplify_eq; simpl; lia.
Defined.
(** ls d *)
Lemma ls_lists_witness : ∃ w', ls 10 [100] demo_world = Goes tt w' ∧
  wrote 1 (bytes "a              2 2 3" ++ [10] ++ bytes "b              2 3 1" ++ [10]) demo_world w'.
Proof.
  change (bytes "a              2 2 3" ++ [10] ++ bytes "b              2 3 1" ++ [10])
    with (concat (entry_text (look demo_world) ([100] ++ [47]) <$> entries_of demo_dir)).
  apply (ls_lists 10 [100] demo_dir (UStat T_DIR 1 48) demo_world); [done..|simpl; lia|vm_compute; lia|].
  apply (bool_decide_unpack _). vm_compute. exact I.
Defined.

