(* ===== verification/Filters.v ===== *)
(** * grep and wc as programs (grep.c, wc.c)

    [Grep] has the matcher, the treatment of a buffer and the counting of a
    piece of text; here they are the programs, on the system calls of
    [Userland]: the loop of reads and writes of one file, and [main] with its
    arguments.

    The results: on files whose lines fit its buffer [grep] writes exactly the
    matching lines of its arguments, in order, and [wc] writes one line of
    counts for each argument, both up to the first argument that cannot be
    opened. *)
From S2P Require Import Prelude State CString Print Fs Grep Userland.

Section filters.
Context {W : Type} `{!Unix W}.

Local Notation "'let*' x := m 'in' k" := (seqU m (λ x, k)) (at level 200, x binder, k at level 200).
Local Notation "m 'then*' k" := (seqU m (λ _, k)) (at level 100, right associativity).

(** *** grep.c *)

(** [while((q = strchr(p, '\n')) != 0)]: the final [p]. *)
Fixpoint write_matches (n : nat) (pattern p : list Z) : U (list Z) :=
  match n with
  | O => pure p
  | S n =>
      match strchr_nl p with
      | None => pure p
      | Some (line, p) =>
          (if match_ pattern line then sys (write 1 (line ++ [NL])) else pure 0) then* write_matches n pattern p
      end
  end.

(** [buf] holds the [m] bytes kept from earlier reads. *)
Fixpoint grep_loop (fuel : nat) (pattern : list Z) (fd : Z) (buf : list Z) : U unit :=
  match fuel with
  | O => λ _, Running
  | S fuel =>
      let* r := sys (read fd (GREPBUF - length buf - 1)) in
      let '(n, got) := r in
      if 0 <? n then
        let b := buf ++ got in
        let* p := write_matches (length b) pattern b in
        grep_loop fuel pattern fd (if (length p =? length b)%nat then [] else p)
      else pure tt
  end.
Definition grep_fd (fuel : nat) (pattern : list Z) (fd : Z) : U unit := grep_loop fuel pattern fd [].

Definition grep_args (fuel : nat) (pattern : list Z) (args : list (list Z)) : U unit :=
  each_file "grep: cannot open %s" (λ _, grep_fd fuel pattern) args.
Definition grep_main (fuel : nat) (argv : list (list Z)) : U unit :=
  match argv with
  | [] => printf 2 (String.append "usage: grep pattern [file ...]" nl) [] then* uexit
  | [pattern] => grep_fd fuel pattern 0 then* uexit
  | pattern :: args => grep_args fuel pattern args
  end.

(** *** wc.c *)
Fixpoint wc_loop (fuel : nat) (fd : Z) (k : counts) : U counts :=
  match fuel with
  | O => λ _, Running
  | S fuel =>
      let* r := sys (read fd 512) in
      let '(n, buf) := r in
      if 0 <? n then wc_loop fuel fd (foldl wc_byte k buf)
      else if n <? 0 then printf 1 (String.append "wc: read error" nl) [] then* uexit
      else pure k
  end.
Definition wc_fd (fuel : nat) (fd : Z) (name : list Z) : U unit :=
  let* k := wc_loop fuel fd (Counts 0 0 0 false) in
  printf 1 (String.append "%d %d %d %s" nl) [CInt (wl k); CInt (ww k); CInt (wch k); CStr name].

Definition wc_args (fuel : nat) (args : list (list Z)) : U unit := each_file "wc: cannot open %s" (λ a fd, wc_fd fuel fd a) args.
Definition wc_main (fuel : nat) (argv : list (list Z)) : U unit :=
  match argv with
  | [] => wc_fd fuel 0 [] then* uexit
  | _ => wc_args fuel argv
  end.

(** ** What a filter does with one file *)

Lemma write_matches_ok n pattern : ∀ p w, ∃ w', write_matches n pattern p w = Goes (grep_lines n pattern p).2 w' ∧
  wrote 1 (grep_lines n pattern p).1 w w' ∧ keeps w w'.
Proof.
  induction n as [|n IH]; intros p w; cbn [write_matches grep_lines]; [exists w; split; [done|]; split; [apply wrote_nil|done]|].
  destruct (strchr_nl p) as [[line p']|]; [|exists w; split; [done|]; split; [apply wrote_nil|done]].
  rewrite (surjective_pairing (grep_lines n pattern p')). cbn [fst snd]. destruct (match_ pattern line).
  - destruct (write_ok w 1 (line ++ [NL]) ltac:(lia)) as (w1 & E1 & O1 & R1 & S1 & F1 & I1). unfold seqU at 1, sys at 1. rewrite E1. cbn [fst snd].
    destruct (IH p' w1) as (w2 & E2 & O2 & K2). exists w2. split; [done|]. split; [by eapply wrote_app|]. etrans; [|done]. by split.
  - unfold seqU at 1, pure at 1. apply IH.
Qed.

Lemma grep_lines_shrinks n pattern : ∀ p, (length (grep_lines n pattern p).2 ≤ length p)%nat.
Proof.
  assert (Hs : ∀ p line p', strchr_nl p = Some (line, p') → (length p' ≤ length p)%nat).
  { induction p as [|c p IH]; intros line p' H; [done|]. cbn [strchr_nl] in H. destruct (c =? 0); [done|].
    destruct (c =? NL); [simplify_eq; simpl; lia|]. destruct (strchr_nl p) as [[a b]|] eqn:E; [|done]. simplify_eq. simpl. specialize (IH _ _ eq_refl). lia. }
  induction n as [|n IH]; intros p; cbn [grep_lines]; [done|]. destruct (strchr_nl p) as [[line p']|] eqn:E; [|done].
  rewrite (surjective_pairing (grep_lines n pattern p')). cbn [snd]. specialize (IH p'). specialize (Hs _ _ _ E). lia.
Qed.

Lemma grep_loop_ok fuel pattern : ∀ buf l out, grep_from fuel pattern [] buf l = Some out → (length buf ≤ 1022)%nat →
  filters (λ fd, grep_loop fuel pattern fd buf) l out tt.
Proof.
  induction fuel as [|fuel IH]; intros buf l out H Hb fd w Hr Hs; [done|]. cbn [grep_from grep_loop tail] in *.
  destruct (read_some w fd (GREPBUF - length buf - 1) l Hr ltac:(unfold GREPBUF; lia)) as (k & w1 & E1 & Hk & Hkl & Hpos & Hreg & R1 & S1 & O1 & F1 & I1).
  specialize (Hreg Hs). unfold seqU at 1, sys at 1. rewrite E1. cbn [fst snd].
  assert (Eg : read_file [] (GREPBUF - length buf - 1) l = take k l).
  { unfold read_file. rewrite Hreg. destruct (decide (GREPBUF - length buf - 1 ≤ length l)%nat); [by rewrite Nat.min_l|by rewrite Nat.min_r, !take_ge by lia]. }
  rewrite Eg in H. destruct (take k l) as [|c got] eqn:Et.
  - injection H as <-. assert (k = 0%nat) as -> by (destruct l; [simpl in Hkl; lia|]; destruct k; [done|discriminate Et]).
    exists w1. split; [done|]. split; [by eapply wrote_same; [apply wrote_nil|]|done].
  - assert (Hk0 : (0 < k)%nat) by (destruct k; [done|lia]). rewrite <-Et in *. clear c got Et.
    rewrite (proj2 (Z.ltb_lt 0 (Z.of_nat k))) by lia. set (b := buf ++ take k l) in *. rewrite (surjective_pairing (grep_lines _ _ _)) in H.
    destruct (write_matches_ok (length b) pattern b w1) as (w2 & E2 & O2 & [K1 K2 K3 K4]). unfold seqU at 1. rewrite E2.
    set (p := (grep_lines (length b) pattern b).2) in *. set (buf' := if (length p =? length b)%nat then [] else p) in *.
    rewrite length_take, Nat.min_l in H by done. destruct (grep_from fuel pattern [] buf' (drop k l)) as [out'|] eqn:Ef; [|done]. injection H as <-.
    destruct (IH buf' (drop k l) out' Ef) with (fd := fd) (w := w2) as (w3 & E3 & O3 & F3 & I3).
    + unfold buf'. destruct (Nat.eqb_spec (length p) (length b)); [simpl; lia|].
      assert (length p ≤ length b)%nat by apply grep_lines_shrinks. unfold b, GREPBUF in *. rewrite length_app, length_take in *. lia.
    + rewrite K1, R1. by rewrite decide_True.
    + by rewrite K2, S1.
    + exists w3. split; [done|]. split; [|split; congruence]. eapply wrote_app; [|done]. by eapply same_wrote.
Qed.

Lemma wc_loop_ok fuel : ∀ k l, (length l < fuel)%nat → filters (λ fd, wc_loop fuel fd k) l [] (foldl wc_byte k l).
Proof.
  induction fuel as [|fuel IH]; intros k l Hl fd w Hr Hs; [lia|]. cbn [wc_loop].
  destruct (read_some w fd 512 l Hr ltac:(lia)) as (n & w1 & E1 & Hk & Hkl & Hpos & _ & R1 & S1 & O1 & F1 & I1).
  unfold seqU at 1, sys at 1. rewrite E1. cbn [fst snd]. destruct (Z.ltb_spec 0 (Z.of_nat n)) as [Hk0|Hk0].
  - destruct (IH (foldl wc_byte k (take n l)) (drop n l)) with (fd := fd) (w := w1) as (w2 & E2 & O2 & F2 & I2).
    + rewrite length_drop. lia.
    + by rewrite R1, decide_True.
    + by rewrite S1.
    + exists w2. rewrite <-foldl_app, take_drop in E2. split; [done|]. split; [by eapply same_wrote|split; congruence].
  - rewrite (proj2 (Z.ltb_ge _ _)) by lia. destruct l as [|c l]; [|by exfalso; specialize (Hpos ltac:(done)); lia].
    exists w1. split; [done|]. split; [by eapply wrote_same; [apply wrote_nil|]|done].
Qed.

(** The line of one file. *)
Definition wc_line (name l : list Z) : list Z :=
  UPrintf.printf (String.append "%d %d %d %s" nl) [CInt (s32 (newlines l)); CInt (s32 (words false l)); CInt (s32 (Z.of_nat (length l))); CStr name].

Lemma wc_fd_ok fuel name l : (length l < fuel)%nat → filters (λ fd, wc_fd fuel fd name) l (wc_line name l) tt.
Proof.
  intros Hl fd w Hr Hs. destruct (wc_bytes l (Counts 0 0 0 false)) as (H1 & H2 & H3); [by unfold is_s32..|].
  destruct (wc_loop_ok fuel (Counts 0 0 0 false) l Hl fd w Hr Hs) as (w1 & E1 & O1 & F1 & I1).
  assert (K : ∀ k, wl k = s32 (newlines l) → ww k = s32 (words false l) → wch k = s32 (Z.of_nat (length l)) →
    UPrintf.printf (String.append "%d %d %d %s" nl) [CInt (wl k); CInt (ww k); CInt (wch k); CStr name] = wc_line name l).
  { intros k E2 E3 E4. unfold wc_line. by rewrite E2, E3, E4. }
  unfold wc_fd, seqU. rewrite E1. unfold printf. rewrite (K _ H1 H2 H3). clear K H1 H2 H3 E1.
  destruct (putcs_ok 1 (wc_line name l) w1 ltac:(lia)) as (w2 & E2 & O2 & [K1 K2 K3 K4]). exists w2. split; [exact E2|]. split; [|split; congruence].
  pose proof (wrote_app 1 [] _ _ _ _ O1 O2) as O. rewrite app_nil_l in O. exact O.
Qed.

(** C28. grep with a pattern and files ends, and all it has written is, on its
    standard output, the matching lines of the files in order, up to the first
    that cannot be opened, which it names: for files without zero bytes whose
    lines fit its buffer.  The fuel bounds the reads of one file. *)
Theorem grep_files fuel pattern argv w : argv ≠ [] →
  Forall (λ a, ∀ l, file w a = Some l → (length l < fuel)%nat ∧ 0 ∉ l ∧ Forall short (complete_lines l [])) argv →
  ∃ w', grep_main fuel (pattern :: argv) w = Exited w' ∧
    wrote 1 (files_text "grep: cannot open %s" (λ _, matching_lines pattern) (file w) argv) w w'.
Proof.
  intros Hne Hf. destruct argv as [|a argv]; [done|]. apply (each_file_ok _ (λ _, grep_fd fuel pattern) (λ _, matching_lines pattern)).
  eapply Forall_impl; [done|]. intros b Hb l El. destruct (Hb l El) as (H1 & H2 & H3). unfold grep_fd. apply grep_loop_ok; [|simpl; lia].
  rewrite grep_from_spec; [done|done|apply not_elem_of_nil|simpl; lia|done|done].
Qed.

(** wc with arguments writes one line of counts for each of them. *)
Lemma wc_files fuel argv w : argv ≠ [] → Forall (λ a, ∀ l, file w a = Some l → (length l < fuel)%nat) argv →
  ∃ w', wc_main fuel argv w = Exited w' ∧ wrote 1 (files_text "wc: cannot open %s" wc_line (file w) argv) w w'.
Proof.
  intros Hne Hf. destruct argv as [|a argv]; [done|]. apply (each_file_ok _ (λ a fd, wc_fd fuel fd a) wc_line).
  eapply Forall_impl; [done|]. intros b Hb l El. apply wc_fd_ok. by apply Hb.
Qed.
End filters.

(** grep i d/a n *)
Lemma grep_files_witness : ∃ w', grep_main 10 [[105]; [100; 47; 97]; [110]] demo_world = Exited w' ∧
  wrote 1 ([104; 105; 10] ++ bytes "grep: cannot open n" ++ [10]) demo_world w'.
Proof.
  change ([104; 105; 10] ++ bytes "grep: cannot open n" ++ [10])
    with (files_text "grep: cannot open %s" (λ _, matching_lines [105]) (file demo_world) [[100; 47; 97]; [110]]).
  apply (grep_files 10 [105] [[100; 47; 97]; [110]] demo_world); [done|].
  rewrite !Forall_cons, Forall_nil. split_and!; [..|done]; intros l H; vm_compute in H; simplify_eq.
  split; [simpl; lia|]. split; [set_solver by lia|]. repeat constructor; unfold short; simpl; lia.
Defined.
